(* ===== verification/_CoqProject ===== *)
-Q . S2P
Prelude.v
Utf8.v
Decimal.v
LinesCodec.v
Framing.v
FramingSpec.v
FramingStream.v
FramingProps.v
FramingTests.v
Proxy.v
ProxyProps.v
ProxyTests.v
Http.v
Body.v
Grpc.v
Response.v
Request.v
Syslog.v
SyslogProps.v
Bind.v
Classes.v
HandleRequest.v
Gvl.v
Worker.v
Pool.v
PoolProps.v
PoolSched.v
PoolStop.v
RunWorker.v
Sockets.v
Delivery.v
Peer.v
System.v
SystemRules.v
SystemInv.v
SystemProps.v
Process.v
Drain.v
SystemStream.v
SystemEof.v
HttpListener.v
Server.v
