(* ===== verification/Prelude.v ===== *)
(** * Verification of hyper_ruby

    hyper_ruby is a Ruby gem whose extension, in Rust under [ext/hyper_ruby/src],
    serves HTTP and gRPC with hyper and receives syslog messages over stream
    sockets and UDP, and hands both to Ruby worker threads.  This library models
    the extension's own code as Rocq functions and transition systems and proves
    what makes it correct.

    ** The program

    - [lib.rs]: the server object.  [configure] reads a hash, [start] binds the
      listeners and spawns the HTTP server task, [stop] drains and gives the socket
      files up.  The service function [handle_request] collects a request's body,
      queues the request and awaits the answer; [run_worker] is the loop of a Ruby
      thread, which takes requests and syslog messages and calls its block.
    - [syslog.rs]: the syslog listeners.  Each connection has a reader, which frames
      messages, and a delivery task, which offers them to the workers and retries
      refused ones; a bounded queue joins them, and a semaphore bounds the
      undelivered messages of all listeners.  Datagrams have a task each.
    - [syslog/framing.rs]: RFC 6587 octet counting with a newline fallback.
    - [syslog/proxy.rs]: PROXY protocol v2 headers.
    - [request.rs], [response.rs], [grpc.rs]: the objects Ruby handlers see and
      build, and the gRPC message frame.
    - [gvl_helpers.rs]: running a function with Ruby's global lock released, which
      is how the workers and [stop] wait.

    ** Files

    Shared:
    - [Prelude]: [result], [outcome] (a call returns or panics) and its [let*],
      bytes, machine integers with the overflow behaviour of the build [Profile],
      buffer operations, hints and tactics.
    - [Utf8], [Decimal], [Peer]: what the source uses of the standard library:
      [from_utf8], [parse] and [to_string] of integers, and the text of addresses.
    - [LinesCodec], [Http]: the interfaces of [tokio_util]'s newline codec and of the
      [http] crate, as classes of operations ([LinesCodec], [Http]) and of laws
      ([LinesCodecSpec], [HttpSpec]), each with a reference instance that meets them.

    Syslog:
    - [Framing] ([framing.rs]: [Framer], [decode], [decode_eof], [octet_decode]);
      [FramingSpec], the rules of the octet counting format; [FramingStream], what a
      sender writes and the loop that feeds reads to a framer; [FramingProps];
      [FramingTests], the unit tests of [framing.rs] run on the model.
    - [Proxy] ([proxy.rs]: [parse]), [ProxyProps] and [ProxyTests], the unit tests.
    - [Syslog] ([syslog.rs]: configuration, counters, message objects) and
      [SyslogProps].
    - [Delivery] ([Dispatcher::deliver] and the retry loop).
    - [System]: every task of [syslog.rs] as one transition system.  A state [Sys]
      has the shared counters, permits, connection count and next message id, and
      for each connection its reader, framer, buffer, queue and delivery task;
      [step] runs one task from one await to the next.  [SystemRules] restates the
      steps as rules, [SystemInv] has the invariants, [SystemProps] the theorems
      that follow from them, [SystemStream] and [SystemEof] what a sender can rely
      on, [Drain] the end of a drain.  [Process] starts and stops the system any
      number of times over the same counters and message identities.
    - [Bind]: [bind_std_tcp] and [bind_std_udp], the calls that set a socket up, and
      the way from a configured address to a listener.
    - [Sockets] ([bind_unix_listener], [remove_socket_file] and their counterparts in
      [lib.rs]): servers of several generations over a shared file system.

    HTTP and the server:
    - [Body], [Response], [Request], [Grpc]: [response.rs], [request.rs], [grpc.rs].
    - [HandleRequest] ([handle_request] and its error responses).
    - [Worker] ([next_work_item] and its helpers), [RunWorker] ([run_worker]), one
      worker with the answers of the channels as arguments.
    - [Gvl]: [nogvl], with the interpreter's call as a parameter.
    - [Pool]: the workers, the two channels and the lock as one transition system,
      over the interface [Channel] of the channel library; [PoolProps], [PoolSched]
      and [PoolStop] have its theorems.
    - [Classes]: the table of classes and methods that [init] registers.
    - [HttpListener]: the HTTP server task, connections with a maximum age, and the
      graceful shutdown, as a transition system.
    - [Server]: [ServerConfig], [configure], [start], [stop], [syslog::start].

    ** What is proved

    - Framing.  [octet_decode] implements the declarative contract [octet_step].  A
      stream of well-formed frames gives back its messages however it is cut into
      reads; oversize bodies are discarded to the byte; emitted messages are UTF-8
      within the limit; the decoding loop ends; the calls that panic are
      characterised.  Two inputs show where the outcome does depend on read
      boundaries.  A stream that breaks off anywhere gives its whole frames and, of
      the rest, exactly [trailing].
    - PROXY headers.  [parse] accepts exactly the well-formed headers, returns on
      every buffer, takes written headers back and never revises an answer.
    - The listeners, in every reachable state: permits and undelivered messages add
      up to the limit, each connection is first in first out with nothing lost, the
      limits on connections and on a connection's queue hold, message identities
      are unique, every message is accounted for, a completed drain leaves nothing
      behind, and no task panics.  [stream_end_to_end] composes this with framing and
      the header parser: what workers are offered is what the sender wrote;
      [stream_to_the_end] covers the sender that closes in the middle of a frame.
    - The process.  Message identities stay unique over restarts; a start that drops
      a running server loses messages that are still counted as pending.  A drain
      ends, whatever the workers answer and in whatever order the tasks run.
    - Socket files.  Taking a path over is atomic, and a path leads to the server
      that took it over last until that server ends its [stop], in every interleaving
      of the servers' system calls in which no takeover falls into the last moments of
      another server's [stop]; two runs show what happens when one does.
    - Requests and workers.  What becomes of a request on every branch, and where the
      attempts to queue it end; only whole bodies are queued; a worker, with or
      without syslog listeners, answers each item once, on its own channel, with what
      its block made of it.
    - The pool, over every interleaving.  An item put on a channel is taken by one
      worker, once, in order; requests are not starved by syslog
      messages; no worker waits with the lock, and no two are in the native code at
      once; after [stop] the workers end.  While [stop] waits for the HTTP
      connections it keeps the lock, and no worker answers anything.
    - The lock.  When [nogvl] returns, the function has run once, without the lock, and
      its result is what is returned; an interrupt on the way back loses it.
    - Sockets.  A listener exists only when every call succeeded and has the options
      the source sets.
    - The HTTP server task.  Without a maximum age a stop aborts no connection within
      its ten seconds; one failed accept ends all accepting; with a maximum age a stop
      can abort every connection at once.
    - Responses, requests and gRPC frames read back as they were built; the raw copy
      of a body into a Ruby string is characterised.
    - The server.  Which configurations cannot be started at all; what a start that
      fails at a listener leaves running.
    - The unit tests of [framing.rs] and [proxy.rs] hold of the model.

    ** Modelling choices

    Strings and buffers are lists of bytes; integers are [Z] with their width
    written out where it matters, on a 64-bit target.  Waiting is not modelled as
    such: what the network, the clock, the channels, the workers, the file system
    and the runtime answer is an argument of the functions that ask ([event] of
    [System], [http_event], [observed], [request_env], [start_env], [bind_env],
    [listen_env]), so a
    theorem covers every answer.  The code between two awaits of a task is one step;
    its atomic operations on different shared variables are taken together, except
    where another task can tell (the connection count while a connection is being
    refused).  The listeners start from any counters and any next message identity,
    as a restart finds them.

    [decode_all], the helper of the framer's tests, and [feed] take fuel for one call
    per frame: more than the codec's rank of the buffer is enough to reach the end of
    the loop ([decode_all_ends]; [reader_loop_ends] has the loop of a reader), and more
    than the number of frames for a well-formed stream; [poll_send], [queue_delivery] and the worker
    loops run over the list of answers they are given, and [poll_send_ends] bounds
    how many are needed.  [trim_start_matches] has the length of the string as fuel
    and removes at least one byte a turn.

    Assumptions, as named hypotheses: [LinesCodecSpec], [HttpSpec], [ChannelSpec],
    [CallSpec], [MagnusSpec] and [RubyStringsSpec] (documented behaviour of the
    libraries and of the interpreter), [MAX_PERMITS] of Tokio (class [Tokio]) at least
    1000 where the defaults need it, [limits_ok] (the configured limits leave the
    64-bit counters room), a buffer that fits the address space ([is_usize]), the
    release profile ([overflow_checks = false]) for the ends of the drain and of the
    workers, and, for socket files, that a file's identity is not given to a new file
    while a path leads to it or a socket bound to it is open ([free_file]) and that no
    takeover of a path overlaps the end of a [stop] ([no_overlap]).

    ** Not modelled

    The allocator of [lib.rs], logging and the texts that only appear in it, and the
    clock behind [now_nanos]; [Listener::accept] of [lib.rs], which only forwards to
    the socket and whose peer address is not used; hyper's own handling of a
    connection; the Ruby code of the gem.  In the pool, Ruby's interrupts are seen where a worker waits for work;
    an interrupt inside a handler's block is the block's own.  Fairness of the Tokio
    scheduler, of its semaphore and of the lock is not modelled: [drain_completes] and
    [pool_ends] say that no run goes on for ever and that some thread can always go
    on, not that a given one is eventually run.

    ** Plan

    Modelled and proved: everything listed above.  Next: the worker channels as shared
    state between [HandleRequest], [Delivery] and [Pool], so that a message's way from
    the sender to the worker's answer is one theorem, and the HTTP server task and the
    listeners in one system with [stop]. *)
From stdpp Require Export base tactics list numbers option strings sets gmap.
From Stdlib Require Export ZArith Lia.
From Stdlib Require Strings.Byte.
Export Init.Byte.ByteSyntaxNotations.
Delimit Scope byte_scope with byte.

(** ** Results and panics

    Rust's [Result] and the two ways a Rust call ends: it returns a value or it
    panics.  The source's slicing, [Buf::advance], [unwrap] and checked integer
    arithmetic are the operations that panic. *)

Inductive result (A E : Type) : Type :=
| Ok (a : A)
| Err (e : E).
Arguments Ok {A E} a.
Arguments Err {A E} e.

Inductive outcome (A : Type) : Type :=
| Ret (a : A)
| Panic.
Arguments Ret {A} a.
Arguments Panic {A}.

Definition obind {A B} (m : outcome A) (k : A -> outcome B) : outcome B :=
  match m with
  | Ret a => k a
  | Panic => Panic
  end.

Declare Scope outcome_scope.
Delimit Scope outcome_scope with outcome.
Notation "'let*' x ':=' c 'in' k" := (obind c (fun x => k))
  (at level 10, x pattern, c at level 100, k at level 200) : outcome_scope.
Open Scope outcome_scope.

#[export] Instance result_eq_dec {A E} `{EqDecision A, EqDecision E} :
  EqDecision (result A E).
Proof. solve_decision. Defined.

#[export] Instance outcome_eq_dec {A} `{EqDecision A} : EqDecision (outcome A).
Proof. solve_decision. Defined.

Lemma obind_Ret_inv {A B} (m : outcome A) (k : A -> outcome B) b :
  obind m k = Ret b -> exists a, m = Ret a /\ k a = Ret b.
Proof. destruct m; cbn; [eauto | discriminate]. Qed.

(** ** Bytes and machine integers *)

Abbreviation byte := Byte.byte.
Abbreviation bytes := (list Byte.byte).

Definition b2z (b : byte) : Z := Z.of_N (Byte.to_N b).

(** [as u8] of an unsigned integer: keep the low eight bits. *)
Definition z2b (z : Z) : byte :=
  default Byte.x00 (Byte.of_N (Z.to_N (z mod 256))).

(** A string literal as the bytes Rust sees. *)
Definition bs (s : string) : bytes := String.list_byte_of_string s.
#[global] Arguments bs : simpl never.

#[export] Instance byte_eq_dec : EqDecision byte := Byte.byte_eq_dec.

#[export] Instance byte_countable : Countable byte :=
  inj_countable Byte.to_N Byte.of_N Byte.of_to_N.

Lemma b2z_range b : (0 <= b2z b < 256)%Z.
Proof. unfold b2z. pose proof (Byte.to_N_bounded b). lia. Qed.

Lemma b2z_inj b1 b2 : b2z b1 = b2z b2 -> b1 = b2.
Proof.
  unfold b2z. intros H%N2Z.inj.
  pose proof (Byte.of_to_N b1) as H1. rewrite H, Byte.of_to_N in H1. congruence.
Qed.

Lemma b2z_z2b z : b2z (z2b z) = (z mod 256)%Z.
Proof.
  unfold b2z, z2b. pose proof (Z.mod_pos_bound z 256 ltac:(lia)) as Hz.
  destruct (Byte.of_N (Z.to_N (z mod 256))) as [b|] eqn:E; cbn.
  - apply Byte.to_of_N in E. rewrite E. lia.
  - apply Byte.of_N_None_iff in E. lia.
Qed.

Lemma z2b_b2z b : z2b (b2z b) = b.
Proof.
  apply b2z_inj. rewrite b2z_z2b. apply Z.mod_small, b2z_range.
Qed.

(** Lengths and indices are [usize]; the target is 64-bit. *)
Definition usize_max : Z := (2 ^ 64 - 1)%Z.
Definition is_usize (z : Z) : Prop := (0 <= z <= usize_max)%Z.

Abbreviation zlen l := (Z.of_nat (length l)).

(** Whether the build checks integer overflow: [true] for the dev profile,
    [false] for the release profile the gem is shipped with. *)
Class Profile := overflow_checks : bool.

(** The two profiles. *)
Definition release : Profile := false.
Definition dev : Profile := true.

(** [a + b] on unsigned integers of modulus [m]. *)
Definition add_wrapping `{Profile} (m a b : Z) : outcome Z :=
  if (a + b <? m)%Z then Ret (a + b)%Z
  else if overflow_checks then Panic else Ret ((a + b) mod m)%Z.

(** [a - b] on unsigned integers of modulus [m]. *)
Definition sub_wrapping `{Profile} (m a b : Z) : outcome Z :=
  if (b <=? a)%Z then Ret (a - b)%Z
  else if overflow_checks then Panic else Ret ((a - b) mod m)%Z.

Definition usize_sub `{Profile} : Z -> Z -> outcome Z := sub_wrapping (2 ^ 64).
Definition usize_add `{Profile} : Z -> Z -> outcome Z := add_wrapping (2 ^ 64).
Definition u32_add `{Profile} : Z -> Z -> outcome Z := add_wrapping (2 ^ 32).

(** [a + b] on [i32], for a sum of at least [i32::MIN]. *)
Definition i32_add `{Profile} (a b : Z) : outcome Z :=
  if (a + b <? 2 ^ 31)%Z then Ret (a + b)%Z
  else if overflow_checks then Panic else Ret (a + b - 2 ^ 32)%Z.

(** [Option::is_some]. *)
Definition is_some {A} (o : option A) : bool :=
  match o with
  | Some _ => true
  | None => false
  end.

(** ** Byte buffers *)

(** [Buf::advance], which panics past the end of the buffer. *)
Definition advance (cnt : Z) (src : bytes) : outcome bytes :=
  if ((0 <=? cnt) && (cnt <=? zlen src))%Z
  then Ret (drop (Z.to_nat cnt) src) else Panic.

(** [&src[..to]], which panics past the end of the buffer. *)
Definition slice_to (to : Z) (src : bytes) : outcome bytes :=
  if ((0 <=? to) && (to <=? zlen src))%Z
  then Ret (take (Z.to_nat to) src) else Panic.

(** [&src[from..to]]. *)
Definition slice (from to : Z) (src : bytes) : outcome bytes :=
  if ((0 <=? from) && (from <=? to) && (to <=? zlen src))%Z
  then Ret (take (Z.to_nat (to - from)) (drop (Z.to_nat from) src)) else Panic.

(** [src.get(from..to)], [None] where the slice would panic. *)
Definition get_range (from to : Z) (src : bytes) : option bytes :=
  match slice from to src with
  | Ret s => Some s
  | Panic => None
  end.

(** [src.is_empty()]. *)
Definition is_empty (src : bytes) : bool :=
  match src with
  | [] => true
  | _ => false
  end.

(** [src[i]]. *)
Definition index (i : Z) (src : bytes) : outcome byte :=
  if (0 <=? i)%Z then
    match src !! Z.to_nat i with
    | Some b => Ret b
    | None => Panic
    end
  else Panic.

(** [iter().position(|&b| b == x)]. *)
Fixpoint position (x : byte) (src : bytes) : option Z :=
  match src with
  | [] => None
  | b :: src' =>
      if decide (b = x) then Some 0%Z else Z.succ <$> position x src'
  end.

(** ** Shared lemmas on buffers *)

Create HintDb hyper.

(** Two ways to cut a list: the shorter prefix is a prefix of the longer. *)
Lemma app_eq_split {A} (l1 l2 k1 k2 : list A) :
  l1 ++ l2 = k1 ++ k2 -> (length l1 <= length k1)%nat ->
  exists k, k1 = l1 ++ k /\ l2 = k ++ k2.
Proof.
  intros [(k & -> & ->)|(k & -> & ->)]%app_eq_inv Hle; [|eauto].
  rewrite length_app in Hle. destruct k; [|cbn in Hle; lia].
  exists []. by rewrite !app_nil_r.
Qed.

Section buffers.
Local Open Scope Z_scope.
Implicit Types (src l r : bytes) (x b : byte).

Lemma advance_Ret cnt src :
  0 <= cnt <= zlen src -> advance cnt src = Ret (drop (Z.to_nat cnt) src).
Proof. intros ?. unfold advance. by case_match; [|lia]. Qed.

Lemma advance_app l r : advance (zlen l) (l ++ r) = Ret r.
Proof.
  rewrite advance_Ret by (rewrite length_app; lia).
  by rewrite Nat2Z.id, drop_app_length.
Qed.

Lemma advance_all src : advance (zlen src) src = Ret [].
Proof. rewrite <- (app_nil_r src) at 2. apply advance_app. Qed.

Lemma advance_Ret_inv cnt src src' :
  advance cnt src = Ret src' ->
  0 <= cnt <= zlen src /\ src' = drop (Z.to_nat cnt) src.
Proof. unfold advance. case_match; [|done]. intros [= <-]. split; [lia | done]. Qed.

Lemma slice_to_Ret to src :
  0 <= to <= zlen src -> slice_to to src = Ret (take (Z.to_nat to) src).
Proof. intros ?. unfold slice_to. by case_match; [|lia]. Qed.

Lemma slice_Ret from to src :
  0 <= from <= to -> to <= zlen src ->
  slice from to src = Ret (take (Z.to_nat (to - from)) (drop (Z.to_nat from) src)).
Proof. intros ??. unfold slice. by case_match; [|lia]. Qed.

Lemma slice_Ret_inv from to src s :
  slice from to src = Ret s -> 0 <= from <= to /\ to <= zlen src.
Proof. unfold slice. case_match; [lia|done]. Qed.

Lemma slice_Panic from to src :
  zlen src < to \/ to < from -> slice from to src = Panic.
Proof. intros ?. unfold slice. by case_match; [lia|]. Qed.

Lemma index_Ret i src b :
  0 <= i -> src !! Z.to_nat i = Some b -> index i src = Ret b.
Proof. intros ? Hi. unfold index. rewrite Hi. by case_match; [|lia]. Qed.

Lemma get_range_app from (l m r : bytes) :
  from = zlen l -> get_range from (from + zlen m) (l ++ m ++ r) = Some m.
Proof.
  intros ->. unfold get_range. rewrite slice_Ret; [|lia|rewrite !length_app; lia].
  rewrite Z.add_simpl_l, !Nat2Z.id, drop_app_length, take_app_length. done.
Qed.

Lemma get_range_short from to src :
  zlen src < to -> get_range from to src = None.
Proof. intros ?. unfold get_range. rewrite slice_Panic; auto. Qed.

Lemma position_Some x src i :
  position x src = Some i ->
  exists l r, src = (l ++ x :: r) /\ x ∉ l /\ i = zlen l.
Proof.
  revert i; induction src as [|b src IH]; intros i; cbn; [done|].
  case_decide as Hb.
  - intros [= <-]. exists [], src. subst. split_and!; [done|set_solver|done].
  - destruct (position x src) as [j|]; cbn; [|done]. intros [= <-].
    destruct (IH j eq_refl) as (l & r & -> & Hl & ->).
    exists (b :: l), r. split_and!; [done|set_solver|cbn; lia].
Qed.

Lemma position_app_notin x l r :
  x ∉ l -> position x (l ++ x :: r) = Some (zlen l).
Proof.
  induction l as [|b l IH]; cbn; intros Hx.
  - by rewrite decide_True.
  - rewrite decide_False by set_solver. rewrite IH by set_solver. cbn. f_equal. lia.
Qed.

Lemma position_None x src : position x src = None <-> x ∉ src.
Proof.
  induction src as [|b src IH]; cbn; [set_solver|]. case_decide.
  - subst. set_solver.
  - rewrite fmap_None, IH. set_solver.
Qed.

Lemma position_bound x src i : position x src = Some i -> 0 <= i < zlen src.
Proof.
  intros (l & r & -> & _ & ->)%position_Some. rewrite length_app. cbn. lia.
Qed.
End buffers.

#[export] Hint Resolve b2z_range position_bound : hyper.

(** ** Sums over finite maps *)

Section map_sum.
Context {K A : Type} `{Countable K}.
Implicit Types (f : A -> Z) (m : gmap K A).
Local Open Scope Z_scope.

Definition map_sum f m : Z := map_fold (fun _ a acc => f a + acc) 0 m.

Lemma map_sum_insert f m k a :
  m !! k = None -> map_sum f (<[k := a]> m) = f a + map_sum f m.
Proof. intros ?. unfold map_sum. rewrite map_fold_insert_L; [done|intros; lia|done]. Qed.

Lemma map_sum_delete f m k a :
  m !! k = Some a -> map_sum f (delete k m) = map_sum f m - f a.
Proof.
  intros Hk. rewrite <- (insert_delete_id m k a) at 2 by done.
  rewrite map_sum_insert by by rewrite lookup_delete_eq. lia.
Qed.

Lemma map_sum_update f m k a a' :
  m !! k = Some a -> map_sum f (<[k := a']> m) = map_sum f m - f a + f a'.
Proof.
  intros Hk. rewrite <- insert_delete_eq, map_sum_insert by by rewrite lookup_delete_eq.
  rewrite (map_sum_delete f m k a) by done. lia.
Qed.

Lemma map_sum_nonneg f m : (forall a, 0 <= f a) -> 0 <= map_sum f m.
Proof.
  intros Hf. unfold map_sum. apply (map_fold_weak_ind (fun z _ => 0 <= z)); [lia|].
  intros k a m' z _ Hz. specialize (Hf a). lia.
Qed.

Lemma map_sum_le_size f m : (forall a, f a <= 1) -> map_sum f m <= Z.of_nat (size m).
Proof.
  intros Hf. induction m as [|k a m Hk IH] using map_ind; [done|].
  rewrite map_sum_insert, map_size_insert_None by done. specialize (Hf a). lia.
Qed.

Lemma map_sum_pos f m : 0 < map_sum f m -> exists k a, m !! k = Some a /\ 0 < f a.
Proof.
  induction m as [|k a m Hk IH] using map_ind; [done|]. rewrite map_sum_insert by done. intros Hs.
  destruct (Z.lt_ge_cases 0 (f a)) as [Ha|Ha].
  - exists k, a. by rewrite lookup_insert_eq.
  - destruct IH as (k' & a' & Hk' & Ha'); [lia|]. exists k', a'. split; [|done].
    rewrite lookup_insert_ne; [done|]. congruence.
Qed.

(** The size of a map after an update. *)
Lemma size_update m k a a' : m !! k = Some a -> size (<[k := a']> m) = size m.
Proof. intros Hk. by erewrite map_size_insert_Some. Qed.

Lemma size_delete m k a :
  m !! k = Some a -> Z.of_nat (size (delete k m)) = Z.of_nat (size m) - 1.
Proof.
  intros Hk. rewrite (map_size_delete_Some k m) by eauto.
  assert (size m <> 0%nat) by (intros E%map_size_empty_inv; by rewrite E in Hk). lia.
Qed.
End map_sum.

(** Numbering from an offset modulo [m] is injective below [m]. *)
Lemma mod_offset_inj (a m i j : Z) :
  (0 <= i < m -> 0 <= j < m -> (a + i) mod m = (a + j) mod m -> i = j)%Z.
Proof.
  intros Hi Hj E. pose proof (Z.div_mod (a + i) m ltac:(lia)). pose proof (Z.div_mod (a + j) m ltac:(lia)).
  assert ((a + i) / m = (a + j) / m)%Z by nia. nia.
Qed.

(** Arithmetic on lengths of concatenated buffers. *)
Ltac lens := repeat (rewrite ?length_app, ?length_take, ?length_drop, ?length_cons in *);
             cbn [length] in *; try lia.

(** Split the boolean guards of a definition in the goal or a hypothesis. *)
Ltac guards :=
  repeat (case_match || case_decide); simplify_eq/=; try done; try lia.

(** Evaluate a decidable proposition. *)
Ltac decides := apply (bool_decide_unpack _); vm_compute; exact I.
