(* ===== verification/Utf8.v ===== *)
(** * UTF-8 validation

    [std::str::from_utf8] as the framer uses it: the well-formed byte sequences
    of RFC 3629 (no overlong forms, no surrogates, nothing past U+10FFFF).  The
    validator is proved equivalent to its specification, concatenations of
    encoded Unicode scalar values. *)
From S2P Require Import Prelude.

Local Open Scope Z_scope.

Definition in_range (lo hi : Z) (b : byte) : bool := (lo <=? b2z b) && (b2z b <=? hi).
Definition is_cont (b : byte) : bool := in_range 0x80 0xBF b.

(** The second byte allowed after the lead byte of a three-byte sequence. *)
Definition second3 (b0 b1 : byte) : bool :=
  if b2z b0 =? 0xE0 then in_range 0xA0 0xBF b1
  else if b2z b0 =? 0xED then in_range 0x80 0x9F b1
  else is_cont b1.

(** The second byte allowed after the lead byte of a four-byte sequence. *)
Definition second4 (b0 b1 : byte) : bool :=
  if b2z b0 =? 0xF0 then in_range 0x90 0xBF b1
  else if b2z b0 =? 0xF4 then in_range 0x80 0x8F b1
  else is_cont b1.

(** [std::str::from_utf8(src).is_ok()]. *)
Fixpoint from_utf8 (src : bytes) : bool :=
  match src with
  | [] => true
  | b0 :: src1 =>
      if in_range 0 0x7F b0 then from_utf8 src1
      else match src1 with
      | [] => false
      | b1 :: src2 =>
          if in_range 0xC2 0xDF b0 then is_cont b1 && from_utf8 src2
          else match src2 with
          | [] => false
          | b2 :: src3 =>
              if in_range 0xE0 0xEF b0 then
                second3 b0 b1 && is_cont b2 && from_utf8 src3
              else match src3 with
              | [] => false
              | b3 :: src4 =>
                  in_range 0xF0 0xF4 b0 && second4 b0 b1 &&
                  is_cont b2 && is_cont b3 && from_utf8 src4
              end
          end
      end
  end.

(** ** Specification: encoded scalar values *)

Definition is_scalar (c : Z) : Prop :=
  0 <= c <= 0xD7FF \/ 0xE000 <= c <= 0x10FFFF.

Definition encode_scalar (c : Z) : bytes :=
  if c <? 0x80 then [z2b c]
  else if c <? 0x800 then [z2b (0xC0 + c / 64); z2b (0x80 + c mod 64)]
  else if c <? 0x10000 then
    [z2b (0xE0 + c / 4096); z2b (0x80 + c / 64 mod 64); z2b (0x80 + c mod 64)]
  else
    [z2b (0xF0 + c / 262144); z2b (0x80 + c / 4096 mod 64);
     z2b (0x80 + c / 64 mod 64); z2b (0x80 + c mod 64)].

Definition utf8_text (src : bytes) : Prop :=
  exists cs : list Z, Forall is_scalar cs /\ src = concat (encode_scalar <$> cs).

Ltac utf8_arith :=
  unfold in_range, is_cont, second3, second4, is_scalar in *;
  Z.div_mod_to_equations; lia.

Lemma in_range_z2b lo hi z :
  0 <= z < 256 -> in_range lo hi (z2b z) = (lo <=? z) && (z <=? hi).
Proof. intros Hz. unfold in_range. by rewrite b2z_z2b, Z.mod_small. Qed.

Lemma from_utf8_encode c src :
  is_scalar c -> from_utf8 (encode_scalar c ++ src) = from_utf8 src.
Proof.
  intros Hc. unfold encode_scalar, is_scalar in *.
  repeat case_match; cbn [app from_utf8]; unfold second3, second4, is_cont;
    rewrite ?in_range_z2b, ?b2z_z2b, ?(Z.mod_small _ 256)
      by (Z.div_mod_to_equations; lia);
    destruct (from_utf8 src);
    Z.div_mod_to_equations; repeat case_match; lia.
Qed.

Lemma z2b_eq z b : z = b2z b -> z2b z = b.
Proof. intros ->. apply z2b_b2z. Qed.

(** The scalar value that a well-formed sequence of two to four bytes encodes. *)
Definition scalar2 (b0 b1 : byte) : Z := (b2z b0 - 0xC0) * 64 + (b2z b1 - 0x80).
Definition scalar3 (b0 b1 b2 : byte) : Z :=
  (b2z b0 - 0xE0) * 4096 + (b2z b1 - 0x80) * 64 + (b2z b2 - 0x80).
Definition scalar4 (b0 b1 b2 b3 : byte) : Z :=
  (b2z b0 - 0xF0) * 262144 + (b2z b1 - 0x80) * 4096 +
  (b2z b2 - 0x80) * 64 + (b2z b3 - 0x80).

Ltac encode_bytes :=
  unfold encode_scalar; repeat (case_match; [lia|]); try (case_match; [|lia]);
  repeat f_equal; apply z2b_eq; Z.div_mod_to_equations; lia.

Lemma encode_scalar1 b : in_range 0 0x7F b = true ->
  is_scalar (b2z b) /\ encode_scalar (b2z b) = [b].
Proof.
  unfold in_range, is_scalar. intros ?. split; [lia|].
  unfold encode_scalar. case_match; [|lia]. by rewrite z2b_b2z.
Qed.

Lemma encode_scalar2 b0 b1 :
  in_range 0xC2 0xDF b0 = true -> is_cont b1 = true ->
  is_scalar (scalar2 b0 b1) /\ encode_scalar (scalar2 b0 b1) = [b0; b1].
Proof.
  unfold is_cont, in_range, is_scalar, scalar2. intros ??. split; [lia|]. encode_bytes.
Qed.

Lemma encode_scalar3 b0 b1 b2 :
  in_range 0xE0 0xEF b0 = true -> second3 b0 b1 = true -> is_cont b2 = true ->
  is_scalar (scalar3 b0 b1 b2) /\ encode_scalar (scalar3 b0 b1 b2) = [b0; b1; b2].
Proof.
  unfold second3, is_cont, in_range, is_scalar, scalar3.
  intros ???; repeat case_match; (split; [lia|encode_bytes]).
Qed.

Lemma encode_scalar4 b0 b1 b2 b3 :
  in_range 0xF0 0xF4 b0 = true -> second4 b0 b1 = true ->
  is_cont b2 = true -> is_cont b3 = true ->
  is_scalar (scalar4 b0 b1 b2 b3) /\
  encode_scalar (scalar4 b0 b1 b2 b3) = [b0; b1; b2; b3].
Proof.
  unfold second4, is_cont, in_range, is_scalar, scalar4.
  intros ????; repeat case_match; (split; [lia|encode_bytes]).
Qed.

(** A well-formed, non-empty buffer starts with an encoded scalar. *)
Lemma from_utf8_head b src :
  from_utf8 (b :: src) = true ->
  exists c src', is_scalar c /\ b :: src = encode_scalar c ++ src' /\ from_utf8 src' = true.
Proof.
  cbn [from_utf8]. intros H. repeat case_match; subst; try done.
  - edestruct (encode_scalar1 b) as [? E]; [done|].
    exists (b2z b), src. by rewrite E.
  - apply andb_true_iff in H as [??].
    edestruct (encode_scalar2 b b0) as [? E]; [done..|].
    exists (scalar2 b b0). rewrite E. eauto.
  - rewrite !andb_true_iff in H. destruct H as [[??]?].
    edestruct (encode_scalar3 b b0 b1) as [? E]; [done..|].
    exists (scalar3 b b0 b1). rewrite E. eauto.
  - rewrite !andb_true_iff in H. destruct H as [[[[??]?]?]?].
    edestruct (encode_scalar4 b b0 b1 b2) as [? E]; [done..|].
    exists (scalar4 b b0 b1 b2). rewrite E. eauto.
Qed.

Lemma encode_scalar_nonempty c : (0 < length (encode_scalar c))%nat.
Proof. unfold encode_scalar. repeat case_match; cbn; lia. Qed.

(** The validator accepts exactly the UTF-8 texts. *)
Lemma from_utf8_iff src : from_utf8 src = true <-> utf8_text src.
Proof.
  split.
  - induction src as [src IH] using (induction_ltof1 _ (@length byte)).
    unfold ltof in IH. destruct src as [|b src]; intros H; [by exists []|].
    apply from_utf8_head in H as (c & src' & Hc & E & H). rewrite E in *.
    destruct (IH src') as (cs & Hcs & ->); [|done|].
    { rewrite length_app. pose proof (encode_scalar_nonempty c). lia. }
    exists (c :: cs). split; [by constructor | done].
  - intros (cs & Hcs & ->). induction Hcs as [|c cs Hc _ IH]; [done|].
    cbn [fmap list_fmap concat]. by rewrite from_utf8_encode.
Qed.

Lemma from_utf8_ascii src :
  Forall (fun b => in_range 0 0x7F b = true) src -> from_utf8 src = true.
Proof. induction 1 as [|b src Hb _ IH]; [done|]. cbn [from_utf8]. by rewrite Hb. Qed.
