(* ===== verification/Decimal.v ===== *)
(** * Decimal integers

    [str::parse] and [to_string] of the unsigned integer types, which the framer
    uses for octet counts and the responses for [content-length] and
    [grpc-status].  Parsing is Rust's: an optional [+], at least one ASCII digit,
    nothing else, and an error past the type's maximum. *)
From S2P Require Import Prelude Utf8.

Local Open Scope Z_scope.

Definition digit_value (b : byte) : option Z :=
  if in_range 0x30 0x39 b then Some (b2z b - 0x30) else None.

(** The digits after the first, with the overflow check on every step. *)
Fixpoint parse_digits (max acc : Z) (s : bytes) : option Z :=
  match s with
  | [] => Some acc
  | b :: s' =>
      d ← digit_value b;
      if acc * 10 + d <=? max then parse_digits max (acc * 10 + d) s' else None
  end.

(** [s.parse::<T>().ok()] for an unsigned [T] with maximum [max]. *)
Definition parse_uint (max : Z) (s : bytes) : option Z :=
  match s with
  | [] => None
  | b :: s' =>
      if decide (b = "+"%byte) then
        match s' with
        | [] => None
        | _ => parse_digits max 0 s'
        end
      else parse_digits max 0 s
  end.

Definition parse_usize : bytes -> option Z := parse_uint usize_max.
Definition parse_u16 : bytes -> option Z := parse_uint (2 ^ 16 - 1).

(** [z.to_string()]; the fuel is the number of bits of [z]. *)
Fixpoint show_digits (fuel : nat) (z : Z) (acc : bytes) : bytes :=
  match fuel with
  | O => acc
  | S fuel' =>
      let acc' := z2b (0x30 + z mod 10) :: acc in
      if z <? 10 then acc' else show_digits fuel' (z / 10) acc'
  end.

Definition to_string (z : Z) : bytes :=
  show_digits (S (Z.to_nat (Z.log2 z))) z [].

Definition is_digit (b : byte) : Prop := 0x30 <= b2z b <= 0x39.

(** ** Printing and parsing *)

Definition enough (fuel : nat) (z : Z) : Prop := z < 2 ^ Z.of_nat fuel.

Lemma enough_to_string z : 0 <= z -> enough (S (Z.to_nat (Z.log2 z))) z.
Proof.
  intros Hz. unfold enough. rewrite Nat2Z.inj_succ, Z2Nat.id by apply Z.log2_nonneg.
  destruct (decide (z = 0)) as [->|]; [done|]. apply Z.log2_spec. lia.
Qed.

Lemma enough_div fuel z : 10 <= z -> enough (S fuel) z -> enough fuel (z / 10).
Proof.
  unfold enough. rewrite Nat2Z.inj_succ, Z.pow_succ_r by lia. intros.
  Z.div_mod_to_equations. lia.
Qed.

Lemma enough_small z : enough 0 z -> z < 1.
Proof. unfold enough. cbn. lia. Qed.

Lemma b2z_digit z : 0 <= z < 10 -> b2z (z2b (0x30 + z)) = 0x30 + z.
Proof. intros. rewrite b2z_z2b. apply Z.mod_small. lia. Qed.

Lemma digit_value_z2b z : 0 <= z < 10 -> digit_value (z2b (0x30 + z)) = Some z.
Proof.
  intros. unfold digit_value, in_range. rewrite b2z_digit by done.
  case_match; [f_equal; lia | lia].
Qed.

(** [show_digits] consumes its number: induction on the fuel, one digit a step. *)
Lemma show_digits_ind (P : Z -> bytes -> bytes -> Prop) :
  (forall z acc, 0 <= z < 10 -> P z acc (z2b (0x30 + z) :: acc)) ->
  (forall z acc out, 10 <= z ->
     P (z / 10) (z2b (0x30 + z mod 10) :: acc) out -> P z acc out) ->
  forall fuel z acc, 0 <= z -> enough fuel z -> fuel <> O ->
  P z acc (show_digits fuel z acc).
Proof.
  intros Hlast Hstep fuel. induction fuel as [|fuel IH]; intros z acc Hz Hf Hne; [done|].
  cbn [show_digits]. destruct (Z.ltb_spec z 10) as [Hz'|Hz'].
  - rewrite Z.mod_small by lia. apply Hlast. lia.
  - apply Hstep; [done|]. apply IH; [apply Z.div_pos; lia | by apply enough_div |].
    intros ->. apply enough_div, enough_small in Hf; [|done].
    Z.div_mod_to_equations. lia.
Qed.

Lemma to_string_ind (P : Z -> bytes -> bytes -> Prop) z :
  (forall z acc, 0 <= z < 10 -> P z acc (z2b (0x30 + z) :: acc)) ->
  (forall z acc out, 10 <= z ->
     P (z / 10) (z2b (0x30 + z mod 10) :: acc) out -> P z acc out) ->
  0 <= z -> P z [] (to_string z).
Proof.
  intros ?? Hz. apply (show_digits_ind P); auto using enough_to_string.
Qed.

Lemma parse_digits_to_string max z :
  0 <= z <= max -> parse_digits max 0 (to_string z) = Some z.
Proof.
  intros [Hz Hmax]. revert Hmax.
  apply (to_string_ind (fun z acc out =>
    z <= max -> parse_digits max 0 out = parse_digits max z acc)); [| |done].
  - intros d acc Hd Hmax. cbn [parse_digits]. rewrite digit_value_z2b by done. cbn.
    case_match; [done|lia].
  - intros y acc out Hy IH Hmax.
    rewrite IH by (Z.div_mod_to_equations; lia). cbn [parse_digits].
    rewrite digit_value_z2b by (apply Z.mod_pos_bound; lia). cbn.
    rewrite (Z.mul_comm (y / 10)), <- Z.div_mod by lia. case_match; [done|lia].
Qed.

Lemma to_string_digits z : 0 <= z -> Forall is_digit (to_string z).
Proof.
  intros Hz. apply (to_string_ind (fun _ acc out =>
    Forall is_digit acc -> Forall is_digit out)); [| |done|by constructor].
  - intros d acc Hd Hacc. constructor; [|done]. unfold is_digit. rewrite b2z_digit; lia.
  - intros y acc out Hy IH Hacc. apply IH. constructor; [|done].
    pose proof (Z.mod_pos_bound y 10). unfold is_digit. rewrite b2z_digit; lia.
Qed.

Lemma to_string_head z :
  1 <= z -> exists b s, to_string z = b :: s /\ 0x31 <= b2z b <= 0x39.
Proof.
  intros Hz. generalize Hz. apply (to_string_ind (fun z acc out =>
    1 <= z -> exists b s, out = b :: s /\ 0x31 <= b2z b <= 0x39)); [| |lia].
  - intros d acc Hd Hd'. eexists _, _. split; [done|]. rewrite b2z_digit; lia.
  - intros y acc out Hy IH _. apply IH. Z.div_mod_to_equations. lia.
Qed.

Lemma to_string_length z :
  1 <= z -> zlen (to_string z) <= z /\ (2 <= z -> zlen (to_string z) < z).
Proof.
  intros Hz.
  cut (1 <= z -> zlen (to_string z) <= z + zlen (@nil byte) /\
                 (2 <= z -> zlen (to_string z) < z + zlen (@nil byte))); [cbn; lia|].
  apply (to_string_ind (fun z acc out =>
    1 <= z -> zlen out <= z + zlen acc /\ (2 <= z -> zlen out < z + zlen acc)));
    [| |lia].
  - intros d acc Hd Hd'. cbn [length]. lia.
  - intros y acc out Hy IH _. cbn [length] in IH.
    assert (1 <= y / 10 < y - 1) by (Z.div_mod_to_equations; lia).
    destruct IH as [? _]; lia.
Qed.

Lemma parse_uint_to_string max z :
  0 <= z <= max -> parse_uint max (to_string z) = Some z.
Proof.
  intros Hz. pose proof (parse_digits_to_string max z Hz) as Hp.
  pose proof (to_string_digits z ltac:(lia)) as Hd.
  unfold parse_uint. destruct (to_string z) as [|b s] eqn:E.
  - assert (z = 0) as -> by (cbn in Hp; congruence). done.
  - case_decide as Hb; [|done]. subst b. apply Forall_cons_1 in Hd as [Hd _].
    by destruct Hd.
Qed.

Lemma parse_digits_range max acc s z :
  0 <= acc <= max -> parse_digits max acc s = Some z -> 0 <= z <= max.
Proof.
  revert acc; induction s as [|b s IH]; intros acc Hacc; cbn; [by intros [= <-]|].
  unfold digit_value. destruct (in_range 0x30 0x39 b) eqn:Hb; cbn; [|done].
  unfold in_range in Hb. case_match; [|done]. apply IH. lia.
Qed.

Lemma parse_uint_range max s z :
  0 <= max -> parse_uint max s = Some z -> 0 <= z <= max.
Proof.
  intros Hmax. unfold parse_uint. destruct s as [|b s]; [done|].
  repeat case_match; try done; apply parse_digits_range; lia.
Qed.

Lemma digits_utf8 s : Forall is_digit s -> from_utf8 s = true.
Proof.
  intros H. apply from_utf8_ascii. eapply Forall_impl; [exact H|].
  unfold is_digit, in_range. intros b Hb. lia.
Qed.

Lemma digits_notin b s :
  Forall is_digit s -> b2z b < 0x30 \/ 0x39 < b2z b -> b ∉ s.
Proof.
  intros H Hb Hin. rewrite Forall_forall in H. specialize (H b Hin).
  unfold is_digit in H. lia.
Qed.
