(* ===== verification/LinesCodec.v ===== *)
(** * The newline codec

    [tokio_util::codec::LinesCodec] is a dependency: the framer only calls it.
    [LinesCodec] is its interface, an operation per method the framer uses, and
    [LinesCodecSpec] the documented behaviour the framer's theorems rely on.
    [ref_codec] is a concrete codec with that behaviour; it shows the laws can be
    met and lets the witnesses run. *)
From S2P Require Import Prelude Utf8.

Local Open Scope Z_scope.

Inductive LinesCodecError : Type :=
| MaxLineLengthExceeded
| Io.

#[export] Instance LinesCodecError_eq_dec : EqDecision LinesCodecError.
Proof. solve_decision. Defined.

Definition newline : byte := "010"%byte.
Definition carriage_return : byte := "013"%byte.

(** A method of the codec mutates the codec and the buffer it is given. *)
Class LinesCodec (C : Type) := {
  new_with_max_length : Z -> C;
  max_length : C -> Z;
  codec_decode : C -> bytes -> result (option bytes) LinesCodecError * C * bytes;
  codec_decode_eof : C -> bytes -> result (option bytes) LinesCodecError * C * bytes;
}.

(** A line loses one trailing carriage return with its newline. *)
Definition without_carriage_return (line : bytes) : bytes :=
  match last line with
  | Some b => if decide (b = carriage_return) then removelast line else line
  | None => line
  end.

(** The result of a complete line: a [String], so its bytes must be UTF-8. *)
Definition line_result (line : bytes) : result (option bytes) LinesCodecError :=
  if from_utf8 (without_carriage_return line)
  then Ok (Some (without_carriage_return line)) else Err Io.

(** [codec_ready c src]: the codec is between lines, or part-way through the line
    that [src] starts with; it is not discarding an oversize line.

    [codec_rank c src] bounds the calls that can still return a line or an error
    before one asks for more data. *)
Class LinesCodecSpec (C : Type) `{!LinesCodec C} := {
  codec_ready : C -> bytes -> Prop;
  codec_rank : C -> bytes -> nat;
  max_length_new n : 0 <= n -> max_length (new_with_max_length n) = n;
  max_length_nonneg c : 0 <= max_length c;
  codec_ready_new n : codec_ready (new_with_max_length n) [];
  codec_ready_app c src more : codec_ready c src -> codec_ready c (src ++ more);
  (** A partial line within the limit waits for more bytes. *)
  codec_decode_partial c src :
    codec_ready c src -> newline ∉ src -> zlen src <= max_length c ->
    exists c', codec_decode c src = (Ok None, c', src) /\ codec_ready c' src;
  (** A complete line within the limit is taken off the buffer. *)
  codec_decode_line c line rest :
    codec_ready c (line ++ newline :: rest) -> newline ∉ line ->
    zlen line <= max_length c ->
    exists c', codec_decode c (line ++ newline :: rest) = (line_result line, c', rest)
               /\ codec_ready c' [];
  (** Every call keeps the limit, takes a prefix off the buffer and yields lines
      that are UTF-8 and within the limit; asking for more data leaves no more
      than the limit buffered. *)
  codec_decode_frame c src r c' src' :
    codec_decode c src = (r, c', src') ->
    max_length c' = max_length c /\
    (exists used, src = used ++ src') /\
    (forall line, r = Ok (Some line) ->
       from_utf8 line = true /\ zlen line <= max_length c /\
       (length src' < length src)%nat) /\
    (r = Ok None -> zlen src' <= max_length c) /\
    (r <> Ok None -> (codec_rank c' src' < codec_rank c src)%nat);
  codec_decode_eof_frame c src r c' src' :
    codec_decode_eof c src = (r, c', src') ->
    max_length c' = max_length c /\
    (exists used, src = used ++ src') /\
    (forall line, r = Ok (Some line) ->
       from_utf8 line = true /\ zlen line <= max_length c /\
       (length src' < length src)%nat) /\
    (r <> Ok None -> (codec_rank c' src' < codec_rank c src)%nat);
  (** At end of stream a trailing partial line is released. *)
  codec_decode_eof_partial c src :
    codec_ready c src -> newline ∉ src -> zlen src <= max_length c ->
    src <> [] -> src <> [carriage_return] ->
    exists c', codec_decode_eof c src = (line_result src, c', []) /\ codec_ready c' [];
  (** Nothing, or a lone carriage return, is no line. *)
  codec_decode_eof_nothing c src :
    codec_ready c src -> zlen src <= max_length c -> src = [] \/ src = [carriage_return] ->
    exists c', codec_decode_eof c src = (Ok None, c', src);
  (** Work already bounded stays bounded when the other decoder takes bytes. *)
  codec_rank_suffix c used src :
    (codec_rank c src + length used <= codec_rank c (used ++ src))%nat;
}.

(** ** A reference codec *)

Record ref_codec : Type := RefCodec {
  ref_max : N;
  ref_discarding : bool;
}.

Definition ref_line (m : N) (src : bytes)
    : result (option bytes) LinesCodecError * ref_codec * bytes :=
  match position newline src with
  | Some i =>
      if i <=? Z.of_N m then
        (line_result (take (Z.to_nat i) src), RefCodec m false,
         drop (S (Z.to_nat i)) src)
      else (Err MaxLineLengthExceeded, RefCodec m true, src)
  | None =>
      if zlen src <=? Z.of_N m then (Ok None, RefCodec m false, src)
      else (Err MaxLineLengthExceeded, RefCodec m true, src)
  end.

(** While discarding, everything up to the next newline goes. *)
Definition ref_decode (c : ref_codec) (src : bytes)
    : result (option bytes) LinesCodecError * ref_codec * bytes :=
  if ref_discarding c then
    match position newline src with
    | Some i => ref_line (ref_max c) (drop (S (Z.to_nat i)) src)
    | None => (Ok None, c, [])
    end
  else ref_line (ref_max c) src.

Definition ref_decode_eof (c : ref_codec) (src : bytes)
    : result (option bytes) LinesCodecError * ref_codec * bytes :=
  match ref_decode c src with
  | (Ok None, c', src') =>
      if decide (src' = [] \/ src' = [carriage_return]) then (Ok None, c', src')
      else (line_result src', c', [])
  | r => r
  end.

#[export] Instance ref_codec_ops : LinesCodec ref_codec := {|
  new_with_max_length n := RefCodec (Z.to_N n) false;
  max_length c := Z.of_N (ref_max c);
  codec_decode := ref_decode;
  codec_decode_eof := ref_decode_eof;
|}.

Section ref_codec_laws.
Implicit Types (c : ref_codec) (m : N) (src line : bytes).

Definition ref_rank c src : nat :=
  (2 * length src + if ref_discarding c then 0 else 1)%nat.

(** What a call may do to the codec and the buffer: the fields of
    [codec_decode_frame], for a limit [m] and a starting rank. *)
Definition ref_frame m (rank : nat) src
    (r : result (option bytes) LinesCodecError) c' src' : Prop :=
  ref_max c' = m /\ (exists used, src = used ++ src') /\
  (forall line, r = Ok (Some line) ->
     from_utf8 line = true /\ zlen line <= Z.of_N m /\ (length src' < length src)%nat) /\
  (r = Ok None -> zlen src' <= Z.of_N m) /\
  (r <> Ok None -> (ref_rank c' src' < rank)%nat).

Lemma without_carriage_return_length line :
  (length (without_carriage_return line) <= length line)%nat.
Proof.
  unfold without_carriage_return. destruct (last line) as [b|] eqn:E; [|lia].
  case_decide; [|lia]. apply last_Some in E as [l ->].
  rewrite removelast_last, length_app. lia.
Qed.

Lemma line_result_Some line out :
  line_result line = Ok (Some out) -> from_utf8 out = true /\ zlen out <= zlen line.
Proof.
  unfold line_result. pose proof (without_carriage_return_length line).
  case_match; [|done]. intros [= <-]. split; [done|lia].
Qed.

Lemma line_result_not_None line : line_result line <> Ok None.
Proof. unfold line_result. by case_match. Qed.

Lemma ref_line_frame m src r c' src' :
  ref_line m src = (r, c', src') -> ref_frame m (2 * length src + 1) src r c' src'.
Proof.
  unfold ref_line, ref_frame, ref_rank. intros H.
  destruct (position newline src) as [i|] eqn:Hi.
  - apply position_Some in Hi as (l & t & -> & _ & ->).
    case_match; simplify_eq; cbn; rewrite ?Nat2Z.id, ?length_app; cbn [length].
    + rewrite take_app_length.
      replace (drop (S (length l)) (l ++ newline :: t)) with t
        by by rewrite <- Nat.add_1_r, drop_app_add.
      split_and!; [done| |intros ? [??]%line_result_Some; split_and!; [done|lia..]
        |by intros ?%line_result_not_None|lia].
      exists (l ++ [newline]). by rewrite <- app_assoc.
    + split_and!; [done|by exists []|done..|lia].
  - case_match; simplify_eq; cbn.
    + split_and!; [done|by exists []|done|lia|done].
    + split_and!; [done|by exists []|done..|lia].
Qed.

Lemma ref_decode_frame c src r c' src' :
  ref_decode c src = (r, c', src') -> ref_frame (ref_max c) (ref_rank c src) src r c' src'.
Proof.
  unfold ref_decode, ref_rank. destruct (ref_discarding c) eqn:Hd.
  - destruct (position newline src) as [i|] eqn:Hi.
    + apply position_Some in Hi as (l & t & -> & _ & ->).
      rewrite Nat2Z.id.
      replace (drop (S (length l)) (l ++ newline :: t)) with t
        by by rewrite <- Nat.add_1_r, drop_app_add.
      intros (? & [used ->] & Hl & ? & Hr)%ref_line_frame.
      split_and!; [done| | |done|].
      * exists (l ++ newline :: used). by rewrite <- app_assoc.
      * intros line [? [??]]%Hl. split_and!; [done|done|]. lens.
      * intros Hne%Hr. lens.
    + intros [= <- <- <-]. split_and!; [done| |done|cbn; lia|done].
      exists src. by rewrite app_nil_r.
  - intros H%ref_line_frame. done.
Qed.

Lemma ref_decode_eof_frame c src r c' src' :
  ref_decode_eof c src = (r, c', src') ->
  ref_frame (ref_max c) (ref_rank c src) src r c' src' \/
  (r = Ok None /\ ref_max c' = ref_max c /\ exists used, src = used ++ src').
Proof.
  unfold ref_decode_eof. destruct (ref_decode c src) as [[r0 c0] src0] eqn:E.
  apply ref_decode_frame in E as (Hm & [used ->] & Hl & Hn & Hr).
  destruct r0 as [[line|]|e]; cbn.
  - intros [= <- <- <-]. left. split_and!; eauto.
  - case_decide as Hsrc; intros [= <- <- <-]; [right; eauto|left].
    specialize (Hn eq_refl).
    assert (0 < length src0)%nat by (destruct src0; [naive_solver|cbn; lia]).
    split_and!; [done|exists (used ++ src0); by rewrite app_nil_r| | |].
    + intros line [??]%line_result_Some. split_and!; [done|lia|]. rewrite length_app. cbn. lia.
    + by intros ?%line_result_not_None.
    + intros _. unfold ref_rank. rewrite length_app. cbn. repeat case_match; lia.
  - intros [= <- <- <-]. left. split_and!; eauto.
Qed.
End ref_codec_laws.

#[export] Instance ref_codec_spec : LinesCodecSpec ref_codec.
Proof.
  refine {|
    codec_ready (c : ref_codec) src := ref_discarding c = false;
    codec_rank := ref_rank;
  |}; cbn.
  - intros n Hn. lia.
  - intros c. lia.
  - done.
  - done.
  - intros c src Hc Hn Hl. unfold ref_decode. rewrite Hc. unfold ref_line.
    rewrite (proj2 (position_None _ _) Hn). case_match; [|lia]. eauto.
  - intros c line rest Hc Hn Hl. unfold ref_decode. rewrite Hc. unfold ref_line.
    rewrite position_app_notin by done. case_match; [|lia].
    rewrite Nat2Z.id, take_app_length.
    replace (drop (S (length line)) (line ++ newline :: rest)) with rest
      by by rewrite <- Nat.add_1_r, drop_app_add.
    eauto.
  - intros c src r c' src' (-> & ? & ? & ? & ?)%ref_decode_frame. done.
  - intros c src r c' src' [(-> & ? & ? & ? & ?)|(-> & -> & ?)]%ref_decode_eof_frame.
    + done.
    + split_and!; done.
  - intros c src Hc Hn Hl Hne Hcr. unfold ref_decode_eof, ref_decode. rewrite Hc.
    unfold ref_line. rewrite (proj2 (position_None _ _) Hn), (proj2 (Z.leb_le _ _) Hl).
    rewrite decide_False by naive_solver. eauto.
  - intros c src Hc Hl Hs. unfold ref_decode_eof, ref_decode. rewrite Hc. unfold ref_line.
    assert (Hn : newline ∉ src) by (destruct Hs as [-> | ->]; set_solver).
    rewrite (proj2 (position_None _ _) Hn), (proj2 (Z.leb_le _ _) Hl).
    rewrite decide_True by done. eauto.
  - intros c used src. unfold ref_rank. rewrite length_app. lia.
Defined.
