(* ===== verification/Framing.v ===== *)
(** * RFC 6587 framing

    [syslog/framing.rs]: octet counting with a newline fallback.  A [Framer] is
    its newline codec and the octet decoder's state; [decode] and [decode_eof]
    are state-passing functions from a framer and its buffer to a result, the
    framer and what is left of the buffer. *)
From S2P Require Import Prelude Utf8 Decimal LinesCodec.

Local Open Scope Z_scope.

(** Why a frame was rejected. *)
Inductive RejectReason : Type :=
| Oversize
| InvalidUtf8
| InvalidLength.

#[export] Instance RejectReason_eq_dec : EqDecision RejectReason.
Proof. solve_decision. Defined.

Definition RejectReason_as_str (r : RejectReason) : string :=
  match r with
  | Oversize => "oversize"
  | InvalidUtf8 => "invalid_utf8"
  | InvalidLength => "invalid_length"
  end.

Record FrameError : Type := MkFrameError {
  reason : RejectReason;
  fatal : bool;
}.

#[export] Instance FrameError_eq_dec : EqDecision FrameError.
Proof. solve_decision. Defined.

Definition FrameError_fatal (r : RejectReason) : FrameError := MkFrameError r true.
Definition FrameError_recoverable (r : RejectReason) : FrameError := MkFrameError r false.

(** The octet decoder's state, when it has one in hand. *)
Inductive State : Type :=
| NotDiscarding
| Discarding (chars : Z)
| DiscardingToEol.

#[export] Instance State_eq_dec : EqDecision State.
Proof. solve_decision. Defined.

Definition decoded : Type := result (option bytes) FrameError.

Definition space : byte := " "%byte.

(** [(b'1'..=b'9').contains(&b)]. *)
Definition starts_octet_frame (b : byte) : bool := in_range 0x31 0x39 b.
#[global] Arguments starts_octet_frame : simpl never.

Definition line_error (error : LinesCodecError) : FrameError :=
  match error with
  | MaxLineLengthExceeded => FrameError_recoverable Oversize
  | Io => FrameError_fatal InvalidUtf8
  end.

Section framer.
Context `{Profile} {C : Type} `{!LinesCodec C}.

Record Framer : Type := MkFramer {
  other : C;
  octet_decoding : option State;
}.

Definition Framer_new (max_len : Z) : Framer :=
  MkFramer (new_with_max_length max_len) None.

Definition set_octet_decoding (s : option State) (f : Framer) : Framer :=
  MkFramer (other f) s.

(** The state [NotDiscarding] with a space early enough to end a length. *)
Definition octet_frame (f : Framer) (space_pos : Z) (src : bytes)
    : outcome (decoded * Framer * bytes) :=
  let* num := slice_to space_pos src in
  match (if from_utf8 num then parse_usize num else None) with
  | None =>
      let* src' := advance (space_pos + 1) src in
      Ret (Err (FrameError_fatal InvalidLength), set_octet_decoding None f, src')
  | Some len =>
      let from := space_pos + 1 in
      let* to := usize_add from len in
      if max_length (other f) <? len then
        let* src' := advance (space_pos + 1) src in
        Ret (Ok None, set_octet_decoding (Some (Discarding len)) f, src')
      else
        match get_range from to src with
        | Some msg =>
            if from_utf8 msg then
              let* src' := advance to src in
              Ret (Ok (Some msg), set_octet_decoding None f, src')
            else
              let* src' := advance to src in
              Ret (Err (FrameError_fatal InvalidUtf8), set_octet_decoding None f, src')
        | None => Ret (Ok None, f, src)
        end
  end.

(** The state [NotDiscarding] with no length in sight. *)
Definition beyond_length (f : Framer) (src : bytes)
    : outcome (decoded * Framer * bytes) :=
  match position newline src with
  | Some newline_pos =>
      let* src' := advance (newline_pos + 1) src in
      Ret (Err (FrameError_fatal Oversize), f, src')
  | None =>
      if zlen src <? max_length (other f) then Ret (Ok None, f, src)
      else
        let* src' := advance (zlen src) src in
        Ret (Ok None, set_octet_decoding (Some DiscardingToEol) f, src')
  end.

Definition octet_decode (f : Framer) (state : State) (src : bytes)
    : outcome (decoded * Framer * bytes) :=
  let space_pos := position space src in
  let newline_pos := position newline src in
  let oversize := Err (FrameError_fatal Oversize) in
  match state with
  | Discarding chars =>
      if chars <=? zlen src then
        let* src' := advance chars src in
        Ret (oversize, set_octet_decoding None f, src')
      else
        let* rest := usize_sub chars (zlen src) in
        let* src' := advance (zlen src) src in
        Ret (Ok None, set_octet_decoding (Some (Discarding rest)) f, src')
  | DiscardingToEol =>
      match newline_pos with
      | Some offset =>
          let* src' := advance (offset + 1) src in
          Ret (oversize, set_octet_decoding None f, src')
      | None =>
          let* src' := advance (zlen src) src in
          Ret (Ok None, f, src')
      end
  | NotDiscarding =>
      match space_pos with
      | Some space_pos =>
          if space_pos <? max_length (other f) then octet_frame f space_pos src
          else beyond_length f src
      | None => beyond_length f src
      end
  end.

(** Only a decoder with no state in hand starts a new octet counted frame. *)
Definition enter_octet (f : Framer) (src : bytes) : Framer :=
  match octet_decoding f, src with
  | None, first_byte :: _ =>
      if starts_octet_frame first_byte
      then set_octet_decoding (Some NotDiscarding) f else f
  | _, _ => f
  end.

(** [None] if this buffer is not octet counting encoded. *)
Definition checked_decode (f : Framer) (src : bytes)
    : outcome (option decoded * Framer * bytes) :=
  let f := enter_octet f src in
  match octet_decoding f with
  | Some state =>
      let* (r, f', src') := octet_decode f state src in
      Ret (Some r, f', src')
  | None => Ret (None, f, src)
  end.

(** The result of a codec call as the framer reports it. *)
Definition line_decoded (r : result (option bytes) LinesCodecError) : decoded :=
  match r with
  | Ok line => Ok line
  | Err e => Err (line_error e)
  end.

(** Decode the next complete frame, if the buffer holds one. *)
Definition decode (f : Framer) (src : bytes) : outcome (decoded * Framer * bytes) :=
  let* (checked, f', src') := checked_decode f src in
  match checked with
  | Some r => Ret (r, f', src')
  | None =>
      let '(r, c, src'') := codec_decode (other f') src' in
      Ret (line_decoded r, MkFramer c (octet_decoding f'), src'')
  end.

(** Decode at end of stream, which releases a trailing unterminated line. *)
Definition decode_eof (f : Framer) (src : bytes) : outcome (decoded * Framer * bytes) :=
  let* (checked, f', src') := checked_decode f src in
  match checked with
  | Some r => Ret (r, f', src')
  | None =>
      let '(r, c, src'') := codec_decode_eof (other f') src' in
      Ret (line_decoded r, MkFramer c (octet_decoding f'), src'')
  end.

(** Decode until the buffer asks for more data or an error is fatal: the helper of
    the tests of [framing.rs].  The readers of [syslog.rs] interleave the same calls
    with the delivery of what they frame ([System]). *)
Fixpoint decode_all (fuel : nat) (f : Framer) (src : bytes)
    : outcome (list (result bytes FrameError) * Framer * bytes) :=
  match fuel with
  | O => Ret ([], f, src)
  | S fuel' =>
      let* (r, f', src') := decode f src in
      match r with
      | Ok (Some frame) =>
          let* (out, f'', src'') := decode_all fuel' f' src' in
          Ret (Ok frame :: out, f'', src'')
      | Ok None => Ret ([], f', src')
      | Err e =>
          if fatal e then Ret ([Err e], f', src')
          else
            let* (out, f'', src'') := decode_all fuel' f' src' in
            Ret (Err e :: out, f'', src'')
      end
  end.
End framer.
Arguments Framer C : clear implicits.
