(* ===== verification/FramingSpec.v ===== *)
(** * Framing: the octet decoder's contract

    [octet_step] says what one call of the octet decoder does to a buffer, a rule
    per case of the wire format and without positions or arithmetic on indices.
    [octet_decode_refines] shows that [octet_decode] implements it, and
    [octet_decode_panics] where it does not return. *)
From S2P Require Import Prelude Utf8 Decimal LinesCodec Framing.

Local Open Scope Z_scope.

(** [octet_step max state src r state' src']: with the frame limit [max], the
    decoder in [state] answers [r] to the buffer [src], which it leaves as
    [src'], and goes to [state'] ([None]: between frames). *)
Inductive octet_step (max : Z) : State -> bytes -> decoded -> option State -> bytes -> Prop :=
| discard_rest body rest :
    octet_step max (Discarding (zlen body)) (body ++ rest)
      (Err (FrameError_fatal Oversize)) None rest
| discard_more chars src :
    zlen src < chars ->
    octet_step max (Discarding chars) src
      (Ok None) (Some (Discarding (chars - zlen src))) []
| eol_found junk rest :
    newline ∉ junk ->
    octet_step max DiscardingToEol (junk ++ newline :: rest)
      (Err (FrameError_fatal Oversize)) None rest
| eol_more src :
    newline ∉ src ->
    octet_step max DiscardingToEol src (Ok None) (Some DiscardingToEol) []
| bad_length num rest :
    space ∉ num -> zlen num < max ->
    from_utf8 num = false \/ parse_usize num = None ->
    octet_step max NotDiscarding (num ++ space :: rest)
      (Err (FrameError_fatal InvalidLength)) None rest
| long_length num len rest :
    space ∉ num -> zlen num < max -> from_utf8 num = true ->
    parse_usize num = Some len -> max < len ->
    octet_step max NotDiscarding (num ++ space :: rest)
      (Ok None) (Some (Discarding len)) rest
| whole_frame num msg rest :
    space ∉ num -> zlen num < max -> from_utf8 num = true ->
    parse_usize num = Some (zlen msg) -> zlen msg <= max -> from_utf8 msg = true ->
    octet_step max NotDiscarding (num ++ space :: msg ++ rest)
      (Ok (Some msg)) None rest
| bad_utf8 num msg rest :
    space ∉ num -> zlen num < max -> from_utf8 num = true ->
    parse_usize num = Some (zlen msg) -> zlen msg <= max -> from_utf8 msg = false ->
    octet_step max NotDiscarding (num ++ space :: msg ++ rest)
      (Err (FrameError_fatal InvalidUtf8)) None rest
| wait_body num len body :
    space ∉ num -> zlen num < max -> from_utf8 num = true ->
    parse_usize num = Some len -> len <= max -> zlen body < len ->
    octet_step max NotDiscarding (num ++ space :: body)
      (Ok None) (Some NotDiscarding) (num ++ space :: body)
| no_length junk rest :
    newline ∉ junk -> space ∉ take (Z.to_nat max) (junk ++ newline :: rest) ->
    octet_step max NotDiscarding (junk ++ newline :: rest)
      (Err (FrameError_fatal Oversize)) (Some NotDiscarding) rest
| wait_length src :
    newline ∉ src -> space ∉ src -> zlen src < max ->
    octet_step max NotDiscarding src (Ok None) (Some NotDiscarding) src
| lost_length src :
    newline ∉ src -> space ∉ take (Z.to_nat max) src -> max <= zlen src ->
    octet_step max NotDiscarding src (Ok None) (Some DiscardingToEol) [].

(** A call only takes bytes off the front of the buffer. *)
Lemma octet_step_suffix max st src r st' src' :
  octet_step max st src r st' src' -> exists used, src = used ++ src'.
Proof.
  destruct 1 as [body rest| |junk rest| |num rest|num len rest|num msg rest|num msg rest
                |num len body|junk rest|src|src];
    try (eexists; by rewrite app_nil_r); try by exists [].
  - by exists body.
  - exists (junk ++ [newline]). by rewrite <- app_assoc.
  - exists (num ++ [space]). by rewrite <- app_assoc.
  - exists (num ++ [space]). by rewrite <- app_assoc.
  - exists (num ++ space :: msg). by rewrite <- app_assoc.
  - exists (num ++ space :: msg). by rewrite <- app_assoc.
  - exists (junk ++ [newline]). by rewrite <- app_assoc.
Qed.

(** Every error of the octet decoder closes the connection. *)
Lemma octet_step_fatal max st src e st' src' :
  octet_step max st src (Err e) st' src' -> fatal e = true.
Proof. by inversion 1. Qed.

(** A countdown is an unsigned number. *)
Definition state_ok (s : State) : Prop :=
  match s with
  | Discarding chars => is_usize chars
  | _ => True
  end.

Lemma octet_step_state max st src r st' src' :
  octet_step max st src r (Some st') src' -> state_ok st ->
  (forall e, r <> Err e) ->
  state_ok st' /\ (st' = NotDiscarding -> st = NotDiscarding /\ src' = src).
Proof.
  inversion 1; subst; cbn; intros Hok Hne; try done; try by destruct (Hne _ eq_refl).
  - unfold is_usize in *. split; [lia|done].
  - split; [|done].
    eapply (parse_uint_range usize_max); [unfold usize_max; lia|done].
Qed.

Section octet_decode.
Context `{Profile} {C : Type} `{!LinesCodec C, !LinesCodecSpec C}.
Implicit Types (f : Framer C) (src : bytes).

(** The decoder's answer [x] is one the contract allows, with the codec and the
    framer otherwise as they were. *)
Definition octet_answer f (state : State) src (x : decoded * Framer C * bytes) : Prop :=
  let '(r, f', src') := x in
  other f' = other f /\
  octet_step (max_length (other f)) state src r (octet_decoding f') src'.

(** The one step that can panic: the end of a frame past the address space,
    in a build that checks overflow. *)
Definition length_overflows (max : Z) src : Prop :=
  exists num len rest,
    src = num ++ space :: rest /\ space ∉ num /\ zlen num < max /\
    from_utf8 num = true /\ parse_usize num = Some len /\
    usize_max < zlen num + 1 + len.

Lemma position_beyond (x : byte) src (n : Z) :
  0 <= n -> position x src = None \/ (exists i, position x src = Some i /\ n <= i) ->
  x ∉ take (Z.to_nat n) src.
Proof.
  intros Hn [Hx%position_None|(i & (l & r & -> & Hl & ->)%position_Some & Hi)] Hin.
  - apply Hx. by apply subseteq_take in Hin.
  - rewrite take_app_le in Hin by lia. apply Hl. by apply subseteq_take in Hin.
Qed.

Lemma advance_past (l r : bytes) x : advance (zlen l + 1) (l ++ x :: r) = Ret r.
Proof.
  replace (zlen l + 1) with (zlen (l ++ [x])) by (rewrite length_app; cbn; lia).
  change (x :: r) with ([x] ++ r). rewrite app_assoc. apply advance_app.
Qed.

Lemma usize_add_small a b : a + b <= usize_max -> usize_add a b = Ret (a + b).
Proof. intros ?. unfold usize_add, add_wrapping, usize_max in *. by case_match; [|lia]. Qed.

Lemma usize_add_big a b :
  usize_max < a + b -> 0 <= a <= usize_max -> 0 <= b <= usize_max ->
  usize_add a b = if overflow_checks then Panic else Ret (a + b - 2 ^ 64).
Proof.
  intros ???. unfold usize_add, add_wrapping, usize_max in *. case_match; [lia|].
  case_match; [done|]. f_equal. rewrite <- (Z.mod_add _ (-1)) by done.
  apply Z.mod_small. lia.
Qed.

Lemma parse_usize_range num len : parse_usize num = Some len -> is_usize len.
Proof. apply parse_uint_range. unfold usize_max. lia. Qed.

(** The body of the frame whose length is [num]. *)
Lemma octet_frame_answer f num rest x :
  let src := num ++ space :: rest in
  octet_decoding f = Some NotDiscarding -> is_usize (zlen src) ->
  space ∉ num -> zlen num < max_length (other f) ->
  octet_frame f (zlen num) src = Ret x ->
  octet_answer f NotDiscarding src x.
Proof.
  intros src Hf Hsrc Hnum Hmax. unfold octet_frame, src in *.
  rewrite slice_to_Ret by (rewrite length_app; lia).
  rewrite Nat2Z.id, take_app_length. cbn [obind].
  destruct (from_utf8 num) eqn:Hu; [destruct (parse_usize num) as [len|] eqn:Hp|];
    cycle 1; [rewrite advance_past; cbn; intros [= <-]; cbn..|].
  { split; [done|]. by apply bad_length; auto. }
  { split; [done|]. by apply bad_length; auto. }
  pose proof (parse_usize_range _ _ Hp) as Hlen. unfold is_usize in *.
  assert (Hl : zlen num + 1 + zlen rest = zlen (num ++ space :: rest))
    by (rewrite length_app; cbn; lia).
  intros (to & Hto & Hx)%obind_Ret_inv. revert Hx.
  destruct (Z.ltb_spec (max_length (other f)) len).
  { rewrite advance_past. cbn. intros [= <-]. split; [done|]. by apply long_length. }
  destruct (Z.le_gt_cases len (zlen rest)) as [Hle|Hgt].
  - rewrite usize_add_small in Hto by lia. injection Hto as <-.
    assert (Hr : rest = take (Z.to_nat len) rest ++ drop (Z.to_nat len) rest)
      by by rewrite take_drop.
    remember (take (Z.to_nat len) rest) as msg eqn:Em.
    remember (drop (Z.to_nat len) rest) as rest'. subst rest.
    assert (len = zlen msg) as ->
      by (rewrite Em, length_take, length_app; rewrite length_app in Hle; lia).
    replace (num ++ space :: msg ++ rest') with ((num ++ [space]) ++ msg ++ rest')
      by by rewrite <- app_assoc.
    assert (Hfrom : zlen num + 1 = zlen (num ++ [space]))
      by (rewrite length_app; cbn; lia).
    rewrite get_range_app, Hfrom, <- Nat2Z.inj_add, <- length_app by done.
    rewrite (app_assoc _ msg), advance_app, <- !app_assoc.
    destruct (from_utf8 msg) eqn:?; cbn; intros [= <-]; (split; [done|]);
      [by apply whole_frame | by apply bad_utf8].
  - assert (get_range (zlen num + 1) to (num ++ space :: rest) = None) as ->.
    { destruct (Z.le_gt_cases (zlen num + 1 + len) usize_max).
      - rewrite usize_add_small in Hto by done. injection Hto as <-.
        apply get_range_short. lia.
      - rewrite usize_add_big in Hto by lia. case_match; [done|]. injection Hto as <-.
        unfold get_range, usize_max in *. rewrite slice_Panic; [done|]. lia. }
    intros [= <-]. split; [done|]. rewrite Hf. by eapply wait_body.
Qed.

Lemma beyond_length_answer f src x :
  octet_decoding f = Some NotDiscarding ->
  position space src = None \/
    (exists i, position space src = Some i /\ max_length (other f) <= i) ->
  beyond_length f src = Ret x ->
  octet_answer f NotDiscarding src x.
Proof.
  intros Hf Hsp. unfold beyond_length. pose proof (position_beyond _ _ _ (max_length_nonneg _) Hsp) as Hbeyond.
  destruct (position newline src) as [i|] eqn:Hn.
  - apply position_Some in Hn as (junk & rest & -> & Hj & ->).
    rewrite advance_past. cbn. intros [= <-]. split; [done|]. rewrite Hf. by apply no_length.
  - apply position_None in Hn. destruct (Z.ltb_spec (zlen src) (max_length (other f))).
    + intros [= <-]. split; [done|]. rewrite Hf. apply wait_length; [done| |done].
      by rewrite take_ge in Hbeyond by lia.
    + rewrite advance_all. cbn. intros [= <-]. split; [done|]. by apply lost_length.
Qed.

Lemma beyond_length_returns f src : beyond_length f src <> Panic.
Proof.
  unfold beyond_length. destruct (position newline src) as [i|] eqn:Hn.
  - apply position_Some in Hn as (? & ? & -> & _ & ->). by rewrite advance_past.
  - case_match; [done|]. by rewrite advance_all.
Qed.

(** Whatever [octet_decode] returns, the contract allows. *)
Lemma octet_decode_answer f state src x :
  octet_decoding f = Some state -> is_usize (zlen src) -> state_ok state ->
  octet_decode f state src = Ret x -> octet_answer f state src x.
Proof.
  intros Hf Hsrc Hst. unfold octet_decode. destruct state as [|chars|].
  - destruct (position space src) as [i|] eqn:Hs.
    + destruct (Z.ltb_spec i (max_length (other f))).
      * apply position_Some in Hs as (num & rest & -> & Hnum & ->).
        by apply octet_frame_answer.
      * intros Hx. eapply beyond_length_answer; [done| |exact Hx]. right; eauto.
    + intros Hx. eapply beyond_length_answer; [done| |exact Hx]. by left.
  - cbn in Hst. unfold is_usize in *. destruct (Z.leb_spec chars (zlen src)).
    + rewrite advance_Ret by lia. cbn. intros [= <-]. split; [done|]. cbn.
      pose proof (discard_rest (max_length (other f)) (take (Z.to_nat chars) src)
                    (drop (Z.to_nat chars) src)) as Hd.
      rewrite take_drop, length_take, Nat.min_l, Z2Nat.id in Hd by lia. done.
    + unfold usize_sub, sub_wrapping. rewrite (proj2 (Z.leb_le _ _)) by lia. cbn.
      rewrite advance_all. cbn. intros [= <-]. split; [done|]. by apply discard_more.
  - destruct (position newline src) as [i|] eqn:Hn.
    + apply position_Some in Hn as (junk & rest & -> & Hj & ->).
      rewrite advance_past. cbn. intros [= <-]. split; [done|]. by apply eol_found.
    + apply position_None in Hn. rewrite advance_all. cbn. intros [= <-].
      split; [done|]. cbn. rewrite Hf. by apply eol_more.
Qed.

Lemma octet_frame_panics f num rest :
  is_usize (zlen (num ++ space :: rest)) ->
  octet_frame f (zlen num) (num ++ space :: rest) = Panic <->
  overflow_checks = true /\ from_utf8 num = true /\
  exists len, parse_usize num = Some len /\ usize_max < zlen num + 1 + len.
Proof.
  intros Hsrc. unfold octet_frame.
  rewrite slice_to_Ret by (rewrite length_app; lia).
  rewrite Nat2Z.id, take_app_length. cbn [obind].
  destruct (from_utf8 num) eqn:Hu; [destruct (parse_usize num) as [len|] eqn:Hp|];
    cycle 1; [rewrite advance_past; cbn; naive_solver..|].
  pose proof (parse_usize_range _ _ Hp) as Hlen. unfold is_usize in *.
  assert (Hl : zlen num + 1 + zlen rest = zlen (num ++ space :: rest))
    by (rewrite length_app; cbn; lia).
  destruct (Z.le_gt_cases (zlen num + 1 + len) usize_max) as [Hle|Hgt].
  - rewrite usize_add_small by done. cbn. rewrite advance_past. split; [|naive_solver lia].
    case_match; [done|]. unfold get_range. destruct (slice _ _ _) eqn:Hs; [|done].
    apply slice_Ret_inv in Hs. rewrite advance_Ret by lia. by case_match.
  - rewrite usize_add_big by lia. destruct overflow_checks; cbn; [naive_solver|].
    rewrite advance_past. split; [|naive_solver]. case_match; [done|].
    unfold get_range, usize_max in *. by rewrite slice_Panic by lia.
Qed.

(** [octet_decode] panics only on a length whose frame would end past the
    address space, and only where overflow is checked. *)
Lemma octet_decode_panics f state src :
  is_usize (zlen src) -> state_ok state ->
  octet_decode f state src = Panic <->
  overflow_checks = true /\ state = NotDiscarding /\
  length_overflows (max_length (other f)) src.
Proof.
  intros Hsrc Hst. unfold octet_decode. destruct state as [|chars|].
  - destruct (position space src) as [i|] eqn:Hs.
    + apply position_Some in Hs as (num & rest & -> & Hnum & ->).
      destruct (Z.ltb_spec (zlen num) (max_length (other f))) as [Hlt|Hge].
      * rewrite octet_frame_panics by done. unfold length_overflows.
        split; [naive_solver|]. intros (? & _ & num' & len & rest' & E & Hnum' & ?).
        apply (f_equal (position space)) in E as E'.
        rewrite !position_app_notin in E' by done. injection E' as E'.
        apply app_inj_1 in E as [<- _]; [naive_solver|lia].
      * split; [by intros ?%beyond_length_returns|].
        intros (_ & _ & num' & len & rest' & E & Hnum' & ? & _).
        apply (f_equal (position space)) in E.
        rewrite !position_app_notin in E by done. injection E as E. lia.
    + apply position_None in Hs. split; [by intros ?%beyond_length_returns|].
      intros (_ & _ & num' & len & rest' & -> & _). set_solver.
  - split; [|naive_solver]. cbn in Hst. unfold is_usize in *.
    destruct (Z.leb_spec chars (zlen src)); [by rewrite advance_Ret by lia|].
    unfold usize_sub, sub_wrapping. rewrite (proj2 (Z.leb_le _ _)) by lia. cbn.
    by rewrite advance_all.
  - split; [|naive_solver]. destruct (position newline src) as [i|] eqn:Hn.
    + apply position_Some in Hn as (? & ? & -> & _ & ->). by rewrite advance_past.
    + by rewrite advance_all.
Qed.
End octet_decode.
