(* ===== verification/FramingStream.v ===== *)
(** * Framing: streams of frames

    A sender's view of the wire format: [encode_frame] writes a message octet
    counted or newline terminated.  However the bytes of such a stream are cut
    into reads, the framer gives back the messages, in order. *)
From S2P Require Import Prelude Utf8 Decimal LinesCodec Framing FramingSpec.

Local Open Scope Z_scope.

Inductive frame : Type :=
| OctetFrame (msg : bytes)
| LineFrame (line : bytes).

Definition encode_frame (fr : frame) : bytes :=
  match fr with
  | OctetFrame msg => to_string (zlen msg) ++ space :: msg
  | LineFrame line => line ++ [newline]
  end.

(** What the receiver of a frame sees. *)
Definition payload (fr : frame) : bytes :=
  match fr with
  | OctetFrame msg => msg
  | LineFrame line => without_carriage_return line
  end.

Definition encode_frames (frs : list frame) : bytes := concat (encode_frame <$> frs).

(** A message within the limit that its framing can carry: an octet counted
    message is not empty, and a line does not start like an octet count. *)
Definition frame_ok (max : Z) (fr : frame) : Prop :=
  match fr with
  | OctetFrame msg => 1 <= zlen msg <= max /\ 2 <= max /\ from_utf8 msg = true
  | LineFrame line =>
      newline ∉ line /\ zlen line <= max /\
      from_utf8 (without_carriage_return line) = true /\
      (forall b l, line = b :: l -> starts_octet_frame b = false)
  end.

Lemma encode_frame_nonempty fr : (0 < length (encode_frame fr))%nat.
Proof. destruct fr; cbn; rewrite length_app; cbn; lia. Qed.

Section feed.
Context `{Profile} {C : Type} `{!LinesCodec C, !LinesCodecSpec C}.
Implicit Types (f : Framer C) (src : bytes).

(** The read loop of [serve_stream] without the delivery of what it frames (which
    [System] has): each chunk is appended to what the framer left and decoded until
    it asks for more; a fatal error ends the connection. *)
Fixpoint feed (fuel : nat) (f : Framer C) (src : bytes) (chunks : list bytes)
    : outcome (list (result bytes FrameError) * Framer C * bytes) :=
  match chunks with
  | [] => Ret ([], f, src)
  | chunk :: chunks' =>
      let* (out, f', src') := decode_all fuel f (src ++ chunk) in
      match last out with
      | Some (Err e) =>
          if fatal e then Ret (out, f', src')
          else
            let* (out', f'', src'') := feed fuel f' src' chunks' in
            Ret (out ++ out', f'', src'')
      | _ =>
          let* (out', f'', src'') := feed fuel f' src' chunks' in
          Ret (out ++ out', f'', src'')
      end
  end.

(** Between frames. *)
Definition idle f : Prop := octet_decoding f = None /\ codec_ready (other f) [].

(** Between frames, or part-way through the frame that [src] starts with. *)
Definition mid_frame f src : Prop :=
  idle f \/
  (exists b l, src = b :: l /\
    if starts_octet_frame b
    then octet_decoding f = Some NotDiscarding /\ codec_ready (other f) []
    else octet_decoding f = None /\ codec_ready (other f) src).

Lemma mid_frame_app f src more : mid_frame f src -> mid_frame f (src ++ more).
Proof.
  intros [Hi|(b & l & -> & Hb)]; [by left|right]. exists b, (l ++ more).
  split; [done|]. destruct (starts_octet_frame b); [done|].
  destruct Hb as [? ?]. split; [done|]. change (b :: l ++ more) with ((b :: l) ++ more).
  by apply codec_ready_app.
Qed.

(** The buffer of a framer within a frame decides which decoder takes it. *)
Lemma mid_frame_octet f b l :
  mid_frame f (b :: l) -> starts_octet_frame b = true ->
  codec_ready (other f) [] /\
  decode f (b :: l) =
    octet_decode (set_octet_decoding (Some NotDiscarding) f) NotDiscarding (b :: l).
Proof.
  intros Hm Hb.
  assert (codec_ready (other f) [] /\
          enter_octet f (b :: l) = set_octet_decoding (Some NotDiscarding) f) as [? He].
  { destruct f as [c st]. destruct Hm as [[Ho Hc]|(b' & l' & [= <- <-] & Hm)]; cbn in *.
    - subst. unfold enter_octet; cbn. by rewrite Hb.
    - rewrite Hb in Hm. destruct Hm as [-> ?]. done. }
  split; [done|]. unfold decode, checked_decode. rewrite He.
  cbn [octet_decoding set_octet_decoding].
  by destruct (octet_decode (set_octet_decoding (Some NotDiscarding) f) NotDiscarding
                 (b :: l)) as [[[r f'] src']|].
Qed.

Lemma mid_frame_line f src :
  mid_frame f src -> (forall b l, src = b :: l -> starts_octet_frame b = false) ->
  octet_decoding f = None /\ codec_ready (other f) src /\
  decode f src =
    let '(r, c, src') := codec_decode (other f) src in
    Ret (line_decoded r, MkFramer c None, src').
Proof.
  intros Hm Hb.
  assert (octet_decoding f = None /\ codec_ready (other f) src) as [Ho Hc].
  { destruct Hm as [[Ho Hc]|(b & l & -> & Hm)].
    - split; [done|]. by apply (codec_ready_app _ [] src).
    - by rewrite (Hb b l eq_refl) in Hm. }
  split_and!; [done..|]. unfold decode, checked_decode.
  assert (enter_octet f src = f) as ->.
  { unfold enter_octet. rewrite Ho. destruct src as [|b l]; [done|].
    by rewrite (Hb b l eq_refl). }
  rewrite Ho. cbn. rewrite Ho. by destruct (codec_decode (other f) src) as [[r c] src'].
Qed.

Lemma octet_frame_num (msg : bytes) :
  1 <= zlen msg -> space ∉ to_string (zlen msg) /\ newline ∉ to_string (zlen msg).
Proof.
  intros. pose proof (to_string_digits (zlen msg) ltac:(lia)) as Hd.
  split; (eapply digits_notin; [exact Hd|cbv; auto]).
Qed.

Lemma octet_num_short (msg : bytes) max :
  1 <= zlen msg <= max -> 2 <= max -> zlen (to_string (zlen msg)) < max.
Proof. intros ??. pose proof (to_string_length (zlen msg)). lia. Qed.

Lemma octet_decode_num f num rest :
  space ∉ num -> zlen num < max_length (other f) ->
  octet_decode f NotDiscarding (num ++ space :: rest) =
    octet_frame f (zlen num) (num ++ space :: rest).
Proof.
  intros Hnum Hlt. unfold octet_decode. rewrite position_app_notin by done.
  by rewrite (proj2 (Z.ltb_lt _ _) Hlt).
Qed.

(** A length and all of its message. *)
Lemma octet_frame_whole f msg rest :
  let num := to_string (zlen msg) in
  let src := num ++ space :: msg ++ rest in
  frame_ok (max_length (other f)) (OctetFrame msg) -> is_usize (zlen src) ->
  octet_frame f (zlen num) src = Ret (Ok (Some msg), set_octet_decoding None f, rest).
Proof.
  intros num src (Hlen & Hmax & Hutf) Hsrc. unfold octet_frame, src.
  assert (Hl : zlen src = zlen num + 1 + zlen msg + zlen rest)
    by (unfold src; rewrite !length_app; cbn; rewrite !length_app; lia).
  unfold is_usize in *.
  rewrite slice_to_Ret by (rewrite length_app; lia).
  rewrite Nat2Z.id, take_app_length. cbn [obind].
  rewrite (digits_utf8 num) by (apply to_string_digits; lia).
  unfold parse_usize, num at 1. rewrite parse_uint_to_string by lia.
  rewrite usize_add_small by lia. cbn [obind].
  rewrite (proj2 (Z.ltb_ge _ _)) by lia.
  replace (num ++ space :: msg ++ rest) with ((num ++ [space]) ++ msg ++ rest)
    by by rewrite <- app_assoc.
  replace (zlen num + 1) with (zlen (num ++ [space])) by (rewrite length_app; cbn; lia).
  rewrite get_range_app, Hutf by done.
  by rewrite <- Nat2Z.inj_add, <- length_app, app_assoc, advance_app.
Qed.

(** A length and only part of its message. *)
Lemma octet_frame_partial f msg body more :
  let num := to_string (zlen msg) in
  frame_ok (max_length (other f)) (OctetFrame msg) -> msg = body ++ more -> more <> [] ->
  is_usize (zlen (num ++ space :: msg)) ->
  octet_frame f (zlen num) (num ++ space :: body) = Ret (Ok None, f, num ++ space :: body).
Proof.
  intros num (Hlen & Hmax & Hutf) Hmsg Hmore Hsrc. unfold octet_frame, is_usize in *.
  assert (zlen body < zlen msg)
    by (subst msg; rewrite length_app; destruct more; [done|cbn; lia]).
  assert (zlen (num ++ space :: msg) = zlen num + 1 + zlen msg)
    by (rewrite length_app; cbn; lia).
  rewrite slice_to_Ret by (rewrite length_app; lia).
  rewrite Nat2Z.id, take_app_length. cbn [obind].
  rewrite (digits_utf8 num) by (apply to_string_digits; lia).
  unfold parse_usize, num at 1. rewrite parse_uint_to_string by lia.
  rewrite usize_add_small by lia. cbn [obind].
  rewrite (proj2 (Z.ltb_ge _ _)) by lia.
  by rewrite get_range_short by (rewrite length_app; cbn; lia).
Qed.

(** The frame at the front of the buffer is complete: it is taken off. *)
Lemma decode_whole f fr rest :
  mid_frame f (encode_frame fr ++ rest) -> frame_ok (max_length (other f)) fr ->
  is_usize (zlen (encode_frame fr ++ rest)) ->
  exists f', decode f (encode_frame fr ++ rest) = Ret (Ok (Some (payload fr)), f', rest) /\
             idle f' /\ max_length (other f') = max_length (other f).
Proof.
  intros Hm Hok Hsrc. destruct fr as [msg|line].
  - destruct Hok as (Hlen & Hmax & Hutf).
    destruct (to_string_head (zlen msg)) as (b & l & Hnum & Hb); [lia|].
    cbn [encode_frame] in *. rewrite <- app_assoc in *. cbn [app] in *.
    assert (starts_octet_frame b = true)
      by (unfold starts_octet_frame, in_range; lia).
    destruct (mid_frame_octet f b (l ++ space :: msg ++ rest)) as [Hc Hd]; [|done|].
    { by rewrite Hnum in Hm. }
    exists (set_octet_decoding None f). split; [|done].
    rewrite Hnum at 1. cbn [app]. rewrite Hd.
    change (b :: l ++ space :: msg ++ rest) with ((b :: l) ++ space :: msg ++ rest).
    rewrite <- Hnum. destruct (octet_frame_num msg) as [Hsp _]; [lia|].
    rewrite octet_decode_num; [|done|by apply octet_num_short].
    by rewrite octet_frame_whole.
  - destruct Hok as (Hnl & Hlen & Hutf & Hhd). cbn [encode_frame payload] in *.
    rewrite <- app_assoc in *. cbn [app] in *.
    destruct (mid_frame_line f (line ++ newline :: rest)) as (Ho & Hc & ->); [done| |].
    { intros b l E. destruct line as [|b' line]; injection E as <- <-; [done|eauto]. }
    destruct (codec_decode_line (other f) line rest) as (c' & E & Hc'); [done..|].
    rewrite E. apply codec_decode_frame in E as (? & _).
    unfold line_result. rewrite Hutf. eexists. split; [done|]. done.
Qed.

Lemma octet_decode_partial f msg src more :
  octet_decoding f = Some NotDiscarding ->
  frame_ok (max_length (other f)) (OctetFrame msg) ->
  encode_frame (OctetFrame msg) = src ++ more -> more <> [] ->
  is_usize (zlen (src ++ more)) ->
  octet_decode f NotDiscarding src = Ret (Ok None, f, src).
Proof.
  intros Hf Hok E Hmore Hsrc. cbn [encode_frame] in E. rewrite <- E in Hsrc.
  pose proof Hok as (Hlen & Hmax & Hutf).
  destruct (octet_frame_num msg) as [Hsp Hnl]; [lia|].
  pose proof (octet_num_short msg _ Hlen Hmax).
  apply app_eq_inv in E as [(k & Ek & ->)|(k & -> & Ek)].
  - rewrite Ek in *. rewrite length_app in *.
    unfold octet_decode. rewrite (proj2 (position_None _ _)) by set_solver.
    unfold beyond_length. rewrite (proj2 (position_None _ _)) by set_solver.
    by rewrite (proj2 (Z.ltb_lt _ _)) by lia.
  - destruct k as [|x body]; cbn in Ek.
    + rewrite app_nil_r. unfold octet_decode.
      rewrite (proj2 (position_None _ _) Hsp). unfold beyond_length.
      rewrite (proj2 (position_None _ _) Hnl).
      by rewrite (proj2 (Z.ltb_lt _ _)) by lia.
    + injection Ek as <- Hmsg. rewrite octet_decode_num by done.
      by eapply octet_frame_partial.
Qed.

(** The frame at the front is incomplete: the framer waits and loses nothing. *)
Lemma decode_partial f fr src more :
  mid_frame f src -> frame_ok (max_length (other f)) fr ->
  encode_frame fr = src ++ more -> more <> [] -> is_usize (zlen (src ++ more)) ->
  exists f', decode f src = Ret (Ok None, f', src) /\ mid_frame f' src /\
             max_length (other f') = max_length (other f).
Proof.
  intros Hm Hok E Hmore Hsrc.
  assert (Hline : newline ∉ src -> zlen src <= max_length (other f) ->
    (forall b l, src = b :: l -> starts_octet_frame b = false) ->
    exists f', decode f src = Ret (Ok None, f', src) /\ mid_frame f' src /\
               max_length (other f') = max_length (other f)).
  { intros Hn Hl Hhd. destruct (mid_frame_line f src) as (Ho & Hc & ->); [done..|].
    destruct (codec_decode_partial (other f) src) as (c' & Ec & Hc'); [done..|].
    rewrite Ec. apply codec_decode_frame in Ec as (? & _).
    eexists. split; [done|]. split; [|done].
    destruct src as [|b l]; [by left|right]. exists b, l. split; [done|].
    by rewrite (Hhd b l eq_refl). }
  pose proof (max_length_nonneg (other f)).
  destruct src as [|b l] eqn:Es; [apply Hline; [set_solver|cbn; lia|done]|rewrite <- Es in *].
  destruct fr as [msg|line].
  - destruct Hok as (Hlen & Hmax & Hutf) eqn:Eok.
    destruct (to_string_head (zlen msg)) as (b' & l' & Hnum & Hb); [lia|].
    assert (b' = b) as ->
      by (cbn [encode_frame] in E; rewrite Hnum, Es in E; cbn in E; congruence).
    assert (Hst : starts_octet_frame b = true)
      by (unfold starts_octet_frame, in_range; lia).
    destruct (mid_frame_octet f b l) as [Hc Hd]; [congruence|done|].
    exists (set_octet_decoding (Some NotDiscarding) f).
    rewrite Es at 1. rewrite Hd, <- Es.
    erewrite octet_decode_partial by done.
    split_and!; [done| |done]. right. exists b, l. by rewrite Hst.
  - destruct Hok as (Hnl & Hlen & Hutf & Hhd). cbn [encode_frame] in E.
    destruct (exists_last Hmore) as (more' & x & Em).
    rewrite Em, app_assoc in E. apply app_inj_tail in E as [-> _].
    rewrite length_app in Hlen.
    apply Hline; [set_solver|lia|]. intros ?? Es'. eapply Hhd. by rewrite Es'.
Qed.

(** The front of [frs] is not all in [src] yet. *)
Definition front_missing (src : bytes) (frs : list frame) : Prop :=
  match frs with
  | [] => src = []
  | fr :: _ => (length src < length (encode_frame fr))%nat
  end.

(** One call on a buffer that starts like [frs]: the first frame, if all of it is
    there, and otherwise a request for more. *)
Lemma decode_front f src frs more :
  mid_frame f src -> Forall (frame_ok (max_length (other f))) frs ->
  encode_frames frs = src ++ more -> is_usize (zlen (src ++ more)) ->
  (exists fr frs' rest f', frs = fr :: frs' /\ src = encode_frame fr ++ rest /\
     decode f src = Ret (Ok (Some (payload fr)), f', rest) /\ idle f' /\
     max_length (other f') = max_length (other f)) \/
  (exists f', decode f src = Ret (Ok None, f', src) /\ mid_frame f' src /\
     max_length (other f') = max_length (other f) /\ front_missing src frs).
Proof.
  intros Hm Hok E Hsrc. destruct frs as [|fr frs].
  - right. cbn in E. symmetry in E. apply app_eq_nil in E as [-> ->].
    destruct (mid_frame_line f []) as (Ho & Hc & ->); [done..|].
    pose proof (max_length_nonneg (other f)).
    destruct (codec_decode_partial (other f) []) as (c' & Ec & Hc'); [done|set_solver|done|].
    rewrite Ec. apply codec_decode_frame in Ec as (? & _).
    eexists. split_and!; [done| |done|done]. by left.
  - apply Forall_cons in Hok as [Hfr Hok]. cbn in E.
    destruct (decide (length (encode_frame fr) <= length src)%nat) as [Hle|Hgt].
    + left. apply app_eq_split in E as (k & -> & E); [|done].
      rewrite <- app_assoc in Hsrc.
      destruct (decode_whole f fr k) as (f' & Hd & Hi & Hmax); [done|done| |].
      { unfold is_usize in *. lens. }
      by exists fr, frs, k, f'.
    + right. symmetry in E. apply app_eq_split in E as (k & Ek & ->); [|lia].
      assert (k <> []) by (intros ->; rewrite Ek, app_nil_r in Hgt; lia).
      destruct (decode_partial f fr src k) as (f' & Hd & Hm' & Hmax); [done..| |].
      { unfold is_usize in *. lens. }
      exists f'. split_and!; [done..|cbn; lia].
Qed.

(** Decoding a buffer emits the frames it holds whole, keeps the rest. *)
Lemma decode_all_frames frs : forall fuel f src more,
  mid_frame f src -> Forall (frame_ok (max_length (other f))) frs ->
  encode_frames frs = src ++ more -> is_usize (zlen (src ++ more)) ->
  (length frs < fuel)%nat ->
  exists done todo f' src',
    frs = done ++ todo /\
    decode_all fuel f src = Ret ((Ok ∘ payload) <$> done, f', src') /\
    mid_frame f' src' /\ max_length (other f') = max_length (other f) /\
    encode_frames todo = src' ++ more /\ front_missing src' todo.
Proof.
  induction frs as [|fr frs IH]; intros [|fuel] f src more Hm Hok E Hsrc Hfuel;
    [cbn in *; lia| |cbn in *; lia|]; cbn [decode_all].
  - destruct (decode_front f src [] more) as [(? & ? & ? & ? & ? & _)|(f' & -> & ? & ? & ?)]; try done.
    exists [], [], f', src. by split_and!.
  - destruct (decode_front f src (fr :: frs) more)
      as [(fr' & frs' & k & f' & [= <- <-] & -> & Hd & Hi & Hmax)|(f' & -> & ? & ? & ?)]; try done.
    + rewrite Hd. cbn [obind]. apply Forall_cons in Hok as [Hfr Hok].
      assert (E' : encode_frames frs = k ++ more)
        by (cbn in E; rewrite <- app_assoc in E; by apply app_inv_head in E).
      destruct (IH fuel f' k more) as (dn & td & f2 & s2 & -> & Hda & ?);
        [by left|by rewrite Hmax|done|unfold is_usize in *; lens|cbn in Hfuel; lia|].
      rewrite Hda. cbn. rewrite Hmax in *. exists (fr :: dn), td, f2, s2. naive_solver.
    + exists [], (fr :: frs), f', src. by split_and!.
Qed.

(** However a stream of frames is cut into reads, its payloads come out. *)
Lemma feed_frames chunks : forall fuel f src frs,
  mid_frame f src -> front_missing src frs ->
  Forall (frame_ok (max_length (other f))) frs ->
  encode_frames frs = src ++ concat chunks -> is_usize (zlen (encode_frames frs)) ->
  (length frs < fuel)%nat ->
  exists f', feed fuel f src chunks = Ret ((Ok ∘ payload) <$> frs, f', []) /\ mid_frame f' [].
Proof.
  induction chunks as [|chunk chunks IH]; intros fuel f src frs Hm Hmiss Hok E Hsrc Hfuel.
  - cbn [feed concat] in *. rewrite app_nil_r in E. destruct frs as [|fr frs]; cbn in *.
    + subst src. eauto.
    + rewrite <- E, length_app in Hmiss. lia.
  - cbn [feed concat] in *. rewrite app_assoc in E.
    destruct (decode_all_frames frs fuel f (src ++ chunk) (concat chunks))
      as (dn & td & f' & src' & -> & Hd & Hm' & Hmax & E' & Hmiss');
      [by apply mid_frame_app|done|done|by rewrite <- E|done|].
    rewrite Hd. cbn [obind]. rewrite <- Hmax in Hok.
    apply Forall_app in Hok as [_ Hok].
    destruct (IH fuel f' src' td) as (f2 & Hf2 & Hm2); [done..| |lens|].
    { unfold is_usize, encode_frames in *. rewrite fmap_app, concat_app in Hsrc. lens. }
    rewrite Hf2. cbn [obind]. rewrite fmap_app. exists f2. split; [|done].
    rewrite fmap_last. by destruct (last dn).
Qed.

(** ** The end of the stream *)

(** What is released at the end of a stream that breaks off after [src], part-way
    through the first of [frs]: an unterminated line, if it is one and valid text; an
    octet counted message that is not all there is held back. *)
Definition trailing (src : bytes) (frs : list frame) : list bytes :=
  match frs with
  | LineFrame _ :: _ =>
      if decide (src = [] \/ src = [carriage_return]) then []
      else if from_utf8 (without_carriage_return src) then [without_carriage_return src] else []
  | _ => []
  end.

(** The octet decoder does not know about the end. *)
Lemma decode_eof_octet f b l :
  mid_frame f (b :: l) -> starts_octet_frame b = true -> decode_eof f (b :: l) = decode f (b :: l).
Proof.
  intros Hm Hb. unfold decode, decode_eof, checked_decode.
  assert (octet_decoding (enter_octet f (b :: l)) = Some NotDiscarding) as ->.
  { destruct Hm as [[Ho _]|(b' & l' & [= <- <-] & Hm)]; unfold enter_octet.
    - by rewrite Ho, Hb.
    - rewrite Hb in Hm. destruct Hm as [E _]. by rewrite E. }
  by destruct (octet_decode _ _ _) as [[[]]|].
Qed.

Lemma decode_eof_line f src :
  mid_frame f src -> (forall b l, src = b :: l -> starts_octet_frame b = false) ->
  decode_eof f src =
    let '(r, c, src') := codec_decode_eof (other f) src in
    Ret (line_decoded r, MkFramer c None, src').
Proof.
  intros Hm Hb. destruct (mid_frame_line f src Hm Hb) as (Ho & _ & _).
  unfold decode_eof, checked_decode.
  assert (enter_octet f src = f) as ->.
  { unfold enter_octet. rewrite Ho. destruct src as [|b l]; [done|]. by rewrite (Hb b l eq_refl). }
  rewrite Ho. cbn [obind]. by rewrite Ho.
Qed.

(** Nothing is buffered. *)
Lemma decode_eof_empty f :
  mid_frame f [] -> exists f', decode_eof f [] = Ret (Ok None, f', []).
Proof.
  intros Hm. destruct (mid_frame_line f [] Hm) as (_ & Hc & _); [done|].
  rewrite decode_eof_line by done. pose proof (max_length_nonneg (other f)).
  destruct (codec_decode_eof_nothing (other f) []) as (c' & ->); [done..|by left|]. by eexists.
Qed.

(** The call at the end of a stream that breaks off within a frame. *)
Lemma decode_eof_front f src frs more :
  mid_frame f src -> Forall (frame_ok (max_length (other f))) frs ->
  encode_frames frs = src ++ more -> is_usize (zlen (src ++ more)) -> front_missing src frs ->
  exists r f' src', decode_eof f src = Ret (r, f', src') /\
    ((r = Ok None /\ trailing src frs = []) \/
     (exists m, r = Ok (Some m) /\ trailing src frs = [m] /\ src' = [] /\ idle f') \/
     (exists e, r = Err e /\ fatal e = true /\ trailing src frs = [])).
Proof.
  intros Hm Hok E Hsrc Hmiss. destruct frs as [|fr frs].
  { cbn in Hmiss. subst src. destruct (decode_eof_empty f Hm) as [f' ->].
    do 3 eexists. split; [done|]. by left. }
  destruct src as [|b l] eqn:Es.
  { destruct (decode_eof_empty f Hm) as [f' ->]. do 3 eexists. split; [done|]. left.
    split; [done|]. by destruct fr. }
  rewrite <- Es in *. apply Forall_cons in Hok as [Hfr Hok].
  destruct (decode_front f src (fr :: frs) more)
    as [(? & ? & rest & ? & [= <- <-] & Er & _)|(f' & Hd & _)]; [done|by constructor|done..| |].
  { cbn in Hmiss. rewrite Er, length_app in Hmiss. lia. }
  cbn in E, Hmiss. symmetry in E. apply app_eq_split in E as (k & Ek & _); [|lia].
  destruct fr as [msg|line].
  - assert (Hb : starts_octet_frame b = true).
    { destruct Hfr as (Hlen & _). destruct (to_string_head (zlen msg)) as (b' & l' & Hnum & Hb); [lia|].
      cbn [encode_frame] in Ek. rewrite Hnum, Es in Ek. cbn in Ek. injection Ek as -> _.
      unfold starts_octet_frame, in_range. lia. }
    rewrite Es in *. rewrite decode_eof_octet, Hd by done. do 3 eexists. split; [done|]. by left.
  - destruct Hfr as (Hnl & Hlen & _ & Hhd). cbn in Ek.
    assert (Hk : k <> []) by (intros ->; rewrite app_nil_r in Ek; cbn in Hmiss; rewrite Ek in Hmiss; lia).
    destruct (exists_last Hk) as (k' & x & ->). rewrite app_assoc in Ek.
    apply app_inj_tail in Ek as [-> _].
    assert (Hn : newline ∉ src) by set_solver.
    assert (Hh : forall b' l', src = b' :: l' -> starts_octet_frame b' = false)
      by (intros b' l' E'; apply (Hhd b' (l' ++ k')); by rewrite E').
    rewrite length_app in Hlen. destruct (mid_frame_line f src Hm Hh) as (_ & Hc & _).
    rewrite decode_eof_line by done. cbn [trailing].
    destruct (decide (src = [] \/ src = [carriage_return])) as [Ht|Ht].
    + destruct (codec_decode_eof_nothing (other f) src) as (c' & ->); [done|lia|done|].
      do 3 eexists. split; [done|]. by left.
    + destruct (codec_decode_eof_partial (other f) src) as (c' & -> & Hc');
        [done|done|lia|naive_solver|naive_solver|].
      unfold line_result. destruct (from_utf8 (without_carriage_return src)); do 3 eexists;
        (split; [done|]); right; [left|right]; eexists; by split_and!.
Qed.
End feed.
