(* ===== verification/FramingProps.v ===== *)
(** * Framing: properties

    The invariant of a framer and its buffer, what the decoder emits and rejects,
    where it panics, how much it buffers, that its loop ends, and that it does not
    depend on how a stream is cut into reads; then the two inputs on which it
    does. *)
From S2P Require Import Prelude Utf8 Decimal LinesCodec Framing FramingSpec FramingStream.

Local Open Scope Z_scope.

Section framing_props.
Context `{Profile} {C : Type} `{!LinesCodec C, !LinesCodecSpec C}.
Implicit Types (f : Framer C) (src : bytes).

(** The call a reader makes: [decode_eof] once the stream has ended. *)
Definition decode_at (eof : bool) (f : Framer C) (src : bytes)
    : outcome (decoded * Framer C * bytes) :=
  if eof then decode_eof f src else decode f src.

Definition codec_at (eof : bool) (c : C) (src : bytes) :=
  if eof then codec_decode_eof c src else codec_decode c src.

(** A framer part-way through a length has the length's first digit at the
    front of its buffer; a countdown is an unsigned number. *)
Definition framer_wf f src : Prop :=
  match octet_decoding f with
  | Some NotDiscarding => exists b l, src = b :: l /\ starts_octet_frame b = true
  | Some (Discarding chars) => is_usize chars
  | _ => True
  end.

Lemma enter_octet_wf f src :
  framer_wf f src ->
  other (enter_octet f src) = other f /\
  match octet_decoding (enter_octet f src) with
  | Some state => state_ok state /\
      (state = NotDiscarding -> exists b l, src = b :: l /\ starts_octet_frame b = true)
  | None => octet_decoding f = None /\ enter_octet f src = f
  end.
Proof.
  destruct f as [c [[| |]|]]; unfold framer_wf; cbn; try by naive_solver.
  intros _. unfold enter_octet; cbn. destruct src as [|b l]; cbn; [done|].
  destruct (starts_octet_frame b) eqn:Hb; cbn; naive_solver.
Qed.

(** Either the octet decoder answers, within its contract, or the codec does. *)
Lemma decode_at_inv eof f src r f' src' :
  framer_wf f src -> is_usize (zlen src) ->
  decode_at eof f src = Ret (r, f', src') ->
  (exists state,
     octet_decoding (enter_octet f src) = Some state /\ other f' = other f /\
     octet_step (max_length (other f)) state src r (octet_decoding f') src') \/
  (octet_decoding (enter_octet f src) = None /\ octet_decoding f' = None /\
   exists r0, codec_at eof (other f) src = (r0, other f', src') /\ r = line_decoded r0).
Proof.
  intros Hwf Hsrc. pose proof (enter_octet_wf f src Hwf) as [Ho Hst].
  unfold decode_at, decode, decode_eof, checked_decode.
  destruct (octet_decoding (enter_octet f src)) as [state|] eqn:E.
  - intros Hd. left. exists state. split; [done|]. rewrite <- Ho.
    assert (octet_decode (enter_octet f src) state src = Ret (r, f', src')) as Hx.
    { destruct eof; destruct (octet_decode _ _ _) as [[[r0 f0] s0]|]; cbn in Hd; congruence. }
    apply octet_decode_answer in Hx; [done|done|done|]. by destruct Hst.
  - destruct Hst as [Hn ->]. intros Hd. right. split_and!; [done| |];
      destruct eof; cbn in *;
      [destruct (codec_decode_eof _ _) as [[r0 c] s0] | destruct (codec_decode _ _) as [[r0 c] s0]
      |destruct (codec_decode_eof _ _) as [[r0 c] s0] | destruct (codec_decode _ _) as [[r0 c] s0]];
      simplify_eq/=; eauto.
Qed.

Lemma codec_at_frame eof c src r c' src' :
  codec_at eof c src = (r, c', src') ->
  max_length c' = max_length c /\ (exists used, src = used ++ src') /\
  (forall line, r = Ok (Some line) ->
     from_utf8 line = true /\ zlen line <= max_length c /\ (length src' < length src)%nat) /\
  (r <> Ok None -> (codec_rank c' src' < codec_rank c src)%nat).
Proof.
  destruct eof; cbn; [apply codec_decode_eof_frame|].
  intros (? & ? & ? & _ & ?)%codec_decode_frame. done.
Qed.

Lemma line_decoded_Some r msg : line_decoded r = Ok (Some msg) -> r = Ok (Some msg).
Proof. destruct r as [[]|]; cbn; congruence. Qed.

(** C9. The octet decoder implements its contract: in a build without overflow
    checks it returns on every buffer, with an answer, a next state and a
    remaining buffer that [octet_step] allows, and does not touch the codec. *)
Theorem octet_decode_refines f state src :
  overflow_checks = false -> octet_decoding f = Some state ->
  state_ok state -> is_usize (zlen src) ->
  exists r f' src',
    octet_decode f state src = Ret (r, f', src') /\ other f' = other f /\
    octet_step (max_length (other f)) state src r (octet_decoding f') src'.
Proof.
  intros Hp Hf Hst Hsrc. destruct (octet_decode f state src) as [[[r f'] src']|] eqn:E.
  - exists r, f', src'. split; [done|]. by apply octet_decode_answer in E.
  - apply octet_decode_panics in E as [? _]; congruence.
Qed.

(** Where a call panics. *)
Lemma decode_panics_iff eof f src :
  framer_wf f src -> is_usize (zlen src) ->
  decode_at eof f src = Panic <->
  overflow_checks = true /\
  octet_decoding (enter_octet f src) = Some NotDiscarding /\
  length_overflows (max_length (other f)) src.
Proof.
  intros Hwf Hsrc. pose proof (enter_octet_wf f src Hwf) as [Ho Hst].
  unfold decode_at, decode, decode_eof, checked_decode.
  destruct (octet_decoding (enter_octet f src)) as [state|] eqn:E.
  - rewrite <- Ho.
    pose proof (octet_decode_panics (enter_octet f src) state src Hsrc (proj1 Hst)) as Hp.
    destruct (octet_decode (enter_octet f src) state src) as [[[r0 f0] s0]|];
      destruct eof; cbn; naive_solver.
  - destruct Hst as [Hn ->]. split; [|naive_solver].
    destruct eof; cbn; [destruct (codec_decode_eof _ _) as [[??]?]
                       |destruct (codec_decode _ _) as [[??]?]]; done.
Qed.

(** C39. A call of the framer panics exactly when the build checks overflow and
    the buffer starts with a length whose frame would end past the address
    space; every slice and [advance] it makes is in range. *)
Theorem decode_at_panics eof f src :
  framer_wf f src -> is_usize (zlen src) ->
  decode_at eof f src = Panic <->
  overflow_checks = true /\
  octet_decoding (enter_octet f src) = Some NotDiscarding /\
  length_overflows (max_length (other f)) src.
Proof. apply decode_panics_iff. Qed.

(** What a call emits. *)
Lemma decode_message eof f src msg f' src' :
  framer_wf f src -> is_usize (zlen src) ->
  decode_at eof f src = Ret (Ok (Some msg), f', src') ->
  utf8_text msg /\ zlen msg <= max_length (other f) /\ zlen src' < zlen src.
Proof.
  intros Hwf Hsrc Hd. rewrite <- from_utf8_iff.
  destruct (decode_at_inv _ _ _ _ _ _ Hwf Hsrc Hd) as
    [(st & _ & _ & Hs)|(_ & _ & r0 & Hc & Hr)].
  - inversion Hs; subst. split_and!; [done|done|]. rewrite !length_app; cbn; rewrite length_app. lia.
  - symmetry in Hr. apply line_decoded_Some in Hr as ->.
    apply codec_at_frame in Hc as (_ & _ & Hl & _).
    destruct (Hl msg eq_refl) as (? & ? & ?). split_and!; [done|done|lia].
Qed.

(** Every message the framer emits is valid UTF-8 and within the frame
    limit, and takes bytes off the buffer: the unchecked conversion to a Ruby
    string that [SyslogMessage::message] makes of a stream message is sound. *)
Theorem decode_at_message eof f src msg f' src' :
  framer_wf f src -> is_usize (zlen src) ->
  decode_at eof f src = Ret (Ok (Some msg), f', src') ->
  utf8_text msg /\ zlen msg <= max_length (other f) /\ zlen src' < zlen src.
Proof. apply decode_message. Qed.

Lemma framer_wf_app f src more : framer_wf f src -> framer_wf f (src ++ more).
Proof.
  unfold framer_wf. destruct (octet_decoding f) as [[| |]|]; try done.
  intros (b & l & -> & Hb). by exists b, (l ++ more).
Qed.

(** What a call that is not fatal leaves. *)
Lemma decode_keeps_wf eof f src r f' src' more :
  framer_wf f src -> is_usize (zlen src) ->
  decode_at eof f src = Ret (r, f', src') ->
  (forall e, r = Err e -> fatal e = false) ->
  framer_wf f' (src' ++ more) /\ max_length (other f') = max_length (other f) /\
  exists used, src = used ++ src'.
Proof.
  intros Hwf Hsrc Hd Hr. pose proof (enter_octet_wf f src Hwf) as [_ Hst].
  destruct (decode_at_inv _ _ _ _ _ _ Hwf Hsrc Hd) as
    [(st & Est & -> & Hs)|(_ & Hn & r0 & Hc & ->)].
  - split_and!; [|done|by eapply octet_step_suffix].
    rewrite Est in Hst. destruct Hst as [Hok Hhd]. apply framer_wf_app. unfold framer_wf.
    destruct (octet_decoding f') as [st'|] eqn:Est'; [|done].
    apply octet_step_state in Hs as Hs'; [|done|].
    { destruct Hs' as [? Hn]. destruct st'; [|done..].
      destruct (Hn eq_refl) as [-> ->]. by apply Hhd. }
    intros e ->. apply octet_step_fatal in Hs. specialize (Hr e eq_refl). congruence.
  - apply codec_at_frame in Hc as (? & ? & _). split_and!; [|done..].
    unfold framer_wf. by rewrite Hn.
Qed.

(** C38. The framer's invariant: a call that does not ask for the connection to be
    closed leaves a well-formed framer, with the same frame limit, whatever is
    then appended to the buffer. *)
Theorem decode_at_invariant eof f src r f' src' more :
  framer_wf f src -> is_usize (zlen src) ->
  decode_at eof f src = Ret (r, f', src') ->
  (forall e, r = Err e -> fatal e = false) ->
  framer_wf f' (src' ++ more) /\ max_length (other f') = max_length (other f) /\
  exists used, src = used ++ src'.
Proof. apply decode_keeps_wf. Qed.

(** Which errors are fatal: one from the octet decoder always is, and the one
    error that is not is a newline terminated line over the limit, which only
    the codec reports. *)
Theorem decode_at_recoverable eof f src e f' src' :
  framer_wf f src -> is_usize (zlen src) ->
  decode_at eof f src = Ret (Err e, f', src') ->
  (octet_decoding (enter_octet f src) <> None -> fatal e = true) /\
  (fatal e = false <->
     codec_at eof (other f) src = (Err MaxLineLengthExceeded, other f', src') /\
     e = FrameError_recoverable Oversize /\
     octet_decoding (enter_octet f src) = None).
Proof.
  intros Hwf Hsrc Hd. destruct (decode_at_inv _ _ _ _ _ _ Hwf Hsrc Hd) as
    [(st & Est & _ & Hs)|(Hn & _ & r0 & Hc & Hr)].
  - apply octet_step_fatal in Hs. rewrite Est, Hs. naive_solver.
  - split; [congruence|]. destruct r0 as [?|[|]]; cbn in Hr; simplify_eq/=; naive_solver.
Qed.

(** Asking for more data leaves at most twice the frame limit buffered, unless
    the framer has just read the length of an oversize frame, whose countdown
    then takes the buffer on the next call. *)
Theorem decode_buffer_bound f src f' src' :
  framer_wf f src -> is_usize (zlen src) ->
  decode f src = Ret (Ok None, f', src') ->
  zlen src' <= 2 * max_length (other f) \/
  exists len, octet_decoding f' = Some (Discarding len) /\
              max_length (other f) < len /\ zlen src' < zlen src.
Proof.
  intros Hwf Hsrc Hd. pose proof (max_length_nonneg (other f)).
  destruct (decode_at_inv false _ _ _ _ _ Hwf Hsrc Hd) as
    [(st & _ & _ & Hs)|(_ & _ & r0 & Hc & Hr)].
  - inversion Hs; subst; cbn; try (left; lia).
    + right. eexists. split_and!; [done|done|]. rewrite length_app; cbn. lia.
    + left. rewrite length_app; cbn. lia.
  - left. cbn in Hc. destruct r0 as [o|]; [|done]. cbn in Hr. injection Hr as <-.
    apply codec_decode_frame in Hc as (_ & _ & _ & Hb & _).
    specialize (Hb eq_refl). lia.
Qed.

(** A call that yields a message or a recoverable error makes progress. *)
Lemma decode_at_rank eof f src r f' src' :
  framer_wf f src -> is_usize (zlen src) -> decode_at eof f src = Ret (r, f', src') ->
  r <> Ok None -> (forall e, r = Err e -> fatal e = false) ->
  (codec_rank (other f') src' < codec_rank (other f) src)%nat.
Proof.
  intros Hwf Hsrc Hd Hne Hr.
  destruct (decode_at_inv eof _ _ _ _ _ Hwf Hsrc Hd) as
    [(st & _ & -> & Hs)|(_ & _ & r0 & Hc & ->)].
  - destruct r as [[msg|]|e]; [|done|].
    + destruct (decode_message eof _ _ _ _ _ Hwf Hsrc Hd) as (_ & _ & Hlt).
      apply octet_step_suffix in Hs as [used ->].
      pose proof (codec_rank_suffix (other f) used src'). lens.
    + apply octet_step_fatal in Hs. specialize (Hr e eq_refl). congruence.
  - apply codec_at_frame in Hc as (_ & _ & _ & Hlt). apply Hlt.
    intros ->. by apply Hne.
Qed.

(** A result after which a reader decodes again without reading: a message, or an
    error that is not fatal. *)
Definition goes_on (r : decoded) : bool :=
  match r with
  | Ok (Some _) => true
  | Ok None => false
  | Err e => negb (fatal e)
  end.

(** Calls of a reader's inner loop, each of which makes it call again. *)
Inductive decode_calls (eof : bool) : nat -> Framer C -> bytes -> Framer C -> bytes -> Prop :=
| calls_none f src : decode_calls eof 0 f src f src
| calls_one n f src r f1 src1 f' src' :
    decode_at eof f src = Ret (r, f1, src1) -> goes_on r = true ->
    decode_calls eof n f1 src1 f' src' -> decode_calls eof (S n) f src f' src'.

Lemma goes_on_spec r : goes_on r = true -> r <> Ok None /\ forall e, r = Err e -> fatal e = false.
Proof. destruct r as [[]|e]; cbn; [done..|]. destruct (fatal e) eqn:E; [done|]. naive_solver. Qed.

Lemma decode_at_goes_on eof f src r f1 src1 :
  framer_wf f src -> is_usize (zlen src) -> decode_at eof f src = Ret (r, f1, src1) ->
  goes_on r = true ->
  framer_wf f1 src1 /\ is_usize (zlen src1) /\ (codec_rank (other f1) src1 < codec_rank (other f) src)%nat.
Proof.
  intros Hwf Hsrc Hd [Hne Hr]%goes_on_spec.
  pose proof (decode_at_rank _ _ _ _ _ _ Hwf Hsrc Hd Hne Hr).
  destruct (decode_keeps_wf _ _ _ _ _ _ [] Hwf Hsrc Hd Hr) as (Hwf1 & _ & used & ->).
  rewrite app_nil_r in Hwf1. unfold is_usize in *. rewrite length_app in Hsrc. split_and!; [done|lia..].
Qed.

Lemma decode_calls_bounded eof n f src f' src' :
  decode_calls eof n f src f' src' -> framer_wf f src -> is_usize (zlen src) ->
  (n + codec_rank (other f') src' <= codec_rank (other f) src)%nat.
Proof.
  induction 1 as [|n f src r f1 src1 f' src' Hd Hg _ IH]; intros Hwf Hsrc; [lia|].
  destruct (decode_at_goes_on _ _ _ _ _ _ Hwf Hsrc Hd Hg) as (Hw1 & Hs1 & Hlt).
  specialize (IH Hw1 Hs1). lia.
Qed.

(** C31. A reader's inner loop ends, before and at the end of the stream: from a
    well-formed framer it makes no more calls that let it go on than the newline
    codec's rank of the buffer, and it comes to a call that ends it, by asking for
    more data or by a fatal error, or by the one panic there is, which needs
    overflow checks. *)
Theorem reader_loop_ends eof f src :
  framer_wf f src -> is_usize (zlen src) ->
  (forall n f' src', decode_calls eof n f src f' src' -> (n <= codec_rank (other f) src)%nat) /\
  exists n f' src', decode_calls eof n f src f' src' /\
    match decode_at eof f' src' with
    | Ret (r, _, _) => goes_on r = false
    | Panic => overflow_checks = true
    end.
Proof.
  intros Hwf Hsrc. split.
  { intros n f' src' Hc. pose proof (decode_calls_bounded _ _ _ _ _ _ Hc Hwf Hsrc). lia. }
  remember (codec_rank (other f) src) as rank eqn:Er. revert f src Er Hwf Hsrc.
  induction (lt_wf rank) as [rank _ IH]; intros f src -> Hwf Hsrc.
  destruct (decode_at eof f src) as [[[r f1] src1]|] eqn:Hd.
  - destruct (goes_on r) eqn:Hg; [|exists 0%nat, f, src; split; [constructor|by rewrite Hd]].
    destruct (decode_at_goes_on _ _ _ _ _ _ Hwf Hsrc Hd Hg) as (Hw1 & Hs1 & Hlt).
    destruct (IH _ Hlt f1 src1 eq_refl Hw1 Hs1) as (n & f' & src' & Hc & Hend).
    exists (S n), f', src'. split; [by eapply calls_one|done].
  - exists 0%nat, f, src. split; [constructor|]. rewrite Hd.
    by apply (decode_panics_iff eof) in Hd as [? _].
Qed.

(** The loop has ended: on a fatal error, or on a call that wants more data. *)
Definition loop_ended (out : list (result bytes FrameError)) f' src' : Prop :=
  (exists e, last out = Some (Err e) /\ fatal e = true) \/
  (exists f0 src0, decode f0 src0 = Ret (Ok None, f', src')).

Lemma loop_ended_cons x out f' src' : loop_ended out f' src' -> loop_ended (x :: out) f' src'.
Proof.
  intros [(e & He & ?)|?]; [left|by right]. exists e. split; [|done].
  by destruct out.
Qed.

(** [decode_all] ends: without overflow checks and from a well-formed framer it stops
    at a fatal error or at a call that asked for more data, within a number of
    iterations bounded by the codec's rank of the buffer. *)
Theorem decode_all_ends f src fuel :
  overflow_checks = false -> framer_wf f src -> is_usize (zlen src) ->
  (codec_rank (other f) src < fuel)%nat ->
  exists out f' src',
    decode_all fuel f src = Ret (out, f', src') /\ loop_ended out f' src' /\
    zlen src' <= zlen src.
Proof.
  intros Hp. revert f src. induction fuel as [|fuel IH]; intros f src Hwf Hsrc Hfuel; [lia|].
  cbn [decode_all]. destruct (decode f src) as [[[r f1] src1]|] eqn:Hd; cbn [obind]; cycle 1.
  { apply (decode_panics_iff false) in Hd as [? _]; congruence. }
  assert (Hgo : r <> Ok None -> (forall e, r = Err e -> fatal e = false) ->
    zlen src1 <= zlen src /\ exists out f' src',
      decode_all fuel f1 src1 = Ret (out, f', src') /\ loop_ended out f' src' /\
      zlen src' <= zlen src1).
  { intros Hne Hr. pose proof (decode_at_rank false _ _ _ _ _ Hwf Hsrc Hd Hne Hr).
    destruct (decode_keeps_wf false _ _ _ _ _ [] Hwf Hsrc Hd Hr) as (Hwf1 & _ & used & ->).
    rewrite app_nil_r in Hwf1. unfold is_usize in *. rewrite length_app in *.
    split; [lia|]. apply IH; [done|lia|lia]. }
  destruct r as [[msg|]|e].
  - destruct Hgo as (? & out & f2 & s2 & -> & ? & ?); [done..|]. cbn.
    eexists _, _, _. split; [done|]. split; [by apply loop_ended_cons|lia].
  - eexists _, _, _. split; [done|]. split; [right; eauto|].
    destruct (decode_keeps_wf false _ _ _ _ _ [] Hwf Hsrc Hd) as (_ & _ & used & ->);
      [done|]. lens.
  - destruct (fatal e) eqn:He.
    + eexists _, _, _. split; [done|]. split; [left; eauto|].
      destruct (decode_at_inv false _ _ _ _ _ Hwf Hsrc Hd) as
        [(? & _ & _ & [? ->]%octet_step_suffix)|(_ & _ & ? & Hc & _)]; [lens|].
      apply codec_at_frame in Hc as (_ & [? ->] & _). lens.
    + destruct Hgo as (? & out & f2 & s2 & -> & ? & ?); [done|by intros ? [= <-]|]. cbn.
      eexists _, _, _. split; [done|]. split; [by apply loop_ended_cons|lia].
Qed.

Lemma Framer_new_idle max : idle (Framer_new max : Framer C).
Proof. split; [done|]. apply codec_ready_new. Qed.

(** C8. Framing does not depend on read boundaries: a stream of well-formed
    frames, octet counted and newline terminated in any mix, cut into reads
    anywhere, gives exactly its messages in order and leaves nothing behind. *)
Theorem feed_round_trip max frs chunks fuel :
  0 <= max -> Forall (frame_ok max) frs ->
  concat chunks = encode_frames frs -> is_usize (zlen (encode_frames frs)) ->
  (length frs < fuel)%nat ->
  exists f', feed fuel (Framer_new max : Framer C) [] chunks =
               Ret ((Ok ∘ payload) <$> frs, f', []) /\ mid_frame f' [].
Proof.
  intros Hmax Hok E Hsrc Hfuel. apply feed_frames; [|by destruct frs; cbn; auto using encode_frame_nonempty| |by rewrite E|done|done].
  - left. apply Framer_new_idle.
  - cbn. by rewrite max_length_new.
Qed.

Lemma decode_all_discarding f src chars fuel :
  octet_decoding f = Some (Discarding chars) -> is_usize chars -> (0 < fuel)%nat ->
  decode_all fuel f src =
    if chars <=? zlen src
    then Ret ([Err (FrameError_fatal Oversize)], set_octet_decoding None f,
              drop (Z.to_nat chars) src)
    else Ret ([], set_octet_decoding (Some (Discarding (chars - zlen src))) f, []).
Proof.
  intros Hf Hc Hfuel. destruct fuel as [|fuel]; [lia|]. cbn [decode_all].
  unfold decode, checked_decode, enter_octet. rewrite Hf, Hf. unfold octet_decode.
  unfold is_usize in Hc. destruct (Z.leb_spec chars (zlen src)).
  - by rewrite advance_Ret by lia.
  - unfold usize_sub, sub_wrapping. rewrite (proj2 (Z.leb_le _ _)) by lia. cbn.
    by rewrite advance_all.
Qed.

(** C30. The body of an oversize octet counted frame is discarded to the byte: with
    [chars] bytes of it outstanding, the reads that carry them emit nothing, whatever
    the bytes are and however they are cut, and are counted down exactly; with the
    read that brings the last of them the frame is reported, as a fatal oversize, the
    framer is between frames again, and what is left in the buffer is what that read
    brought after those [chars] bytes. *)
Theorem oversize_body_discarded chunks fuel : forall f chars,
  octet_decoding f = Some (Discarding chars) -> is_usize chars -> (0 < fuel)%nat ->
  exists f' src',
    feed fuel f [] chunks =
      Ret ((if decide (chunks <> [] /\ chars <= zlen (concat chunks))
            then [Err (FrameError_fatal Oversize)] else []), f', src') /\
    other f' = other f /\
    (zlen (concat chunks) < chars ->
       octet_decoding f' = Some (Discarding (chars - zlen (concat chunks))) /\ src' = []) /\
    (chunks <> [] -> chars <= zlen (concat chunks) ->
       octet_decoding f' = None /\
       exists before chunk after, chunks = before ++ chunk :: after /\
         (before = [] \/ zlen (concat before) < chars) /\
         chars <= zlen (concat before ++ chunk) /\
         src' = drop (Z.to_nat chars) (concat before ++ chunk)).
Proof.
  induction chunks as [|chunk chunks IH]; intros f chars Hf Hc Hfuel; cbn [feed].
  - exists f, []. rewrite decide_False by naive_solver. split_and!; [done..| |done].
    cbn. intros _. rewrite Z.sub_0_r. done.
  - cbn [app concat]. rewrite (decode_all_discarding f chunk chars) by done.
    unfold is_usize in Hc. rewrite length_app.
    destruct (Z.leb_spec chars (zlen chunk)) as [Hle|Hgt]; cbn.
    + eexists _, _. rewrite decide_True by (split; [done|lia]). split_and!; [done..|lia|].
      intros _ _. split; [done|]. exists [], chunk, chunks. by split_and!; [|left| |].
    + destruct (IH (set_octet_decoding (Some (Discarding (chars - zlen chunk))) f)
                  (chars - zlen chunk)) as (f' & src' & -> & Ho & Hlt & Hge);
        [done|unfold is_usize; lia|done|].
      cbn. exists f', src'. split_and!; [|done|..].
      * do 2 f_equal. do 2 f_equal. apply decide_ext.
        destruct chunks as [|c cs]; cbn in *; [|split; intros [_ ?]; (split; [done|lia])].
        split; [by intros [? _]|intros [_ ?]; lia].
      * intros ?. destruct Hlt as [-> ->]; [lia|]. split; [|done]. do 2 f_equal. lia.
      * intros _ Hle. destruct Hge as (Hn & before & ck & after & -> & Hb & Hk & ->);
          [by intros ->; cbn in Hle; lia|lia|].
        split; [done|]. exists (chunk :: before), ck, after. cbn [concat].
        rewrite length_app in Hk. rewrite <- app_assoc, !length_app. split_and!; [done| |lia|].
        { right. destruct Hb as [->|?]; cbn; lia. }
        rewrite (drop_app_ge chunk) by lia. f_equal. lia.
Qed.

Lemma octet_decode_any_codec c1 c2 s st src r f' src' :
  max_length c1 = max_length c2 ->
  octet_decode (MkFramer c1 s) st src = Ret (r, f', src') ->
  octet_decode (MkFramer c2 s) st src = Ret (r, MkFramer c2 (octet_decoding f'), src') /\
  other f' = c1.
Proof.
  intros Hm. unfold octet_decode, octet_frame, beyond_length, set_octet_decoding, obind.
  cbn [other octet_decoding]. rewrite Hm.
  repeat case_match; intros; simplify_eq/=; done.
Qed.

(** A buffer that starts with a non-zero digit is the octet decoder's even while
    the codec is part-way through discarding an oversize line: the codec's
    state does not matter and is not advanced. *)
Theorem digit_first_bypasses_codec c1 c2 b l r f' src' :
  starts_octet_frame b = true -> max_length c1 = max_length c2 ->
  decode (MkFramer c1 None) (b :: l) = Ret (r, f', src') ->
  decode (MkFramer c2 None) (b :: l) = Ret (r, MkFramer c2 (octet_decoding f'), src') /\
  other f' = c1.
Proof.
  intros Hb Hm. unfold decode, checked_decode, enter_octet, set_octet_decoding.
  cbn [octet_decoding other]. rewrite Hb. cbn [octet_decoding].
  intros Hd. destruct (octet_decode (MkFramer c1 _) _ _) as [[[r0 f0] s0]|] eqn:E; [|done].
  cbn in Hd. simplify_eq. by apply (octet_decode_any_codec c1 c2) in E as [-> ->].
Qed.
End framing_props.

(** ** Where framing depends on read boundaries *)

Section read_boundaries.
Local Existing Instance release.

(** A read boundary that lands on a digit inside an oversize newline terminated
    line starts an octet counted frame in the middle of it: the same bytes,
    none of them a newline, give a message after one cut and none after
    another. *)
Theorem oversize_line_splits :
  let fresh : Framer ref_codec := Framer_new 16 in
  let long := bs "<13>aaaaaaaaaaaaaaaaaaaaaaaa" in
  let out x := match x with Ret (out, _, _) => Some out | Panic => None end in
  newline ∉ long ++ bs "5 hello" /\
  out (feed 10 fresh [] [long ++ bs "5 hello"]) =
    Some [Err (FrameError_recoverable Oversize)] /\
  out (feed 10 fresh [] [long; bs "5 hello"]) =
    Some [Err (FrameError_recoverable Oversize); Ok (bs "hello")].
Proof. split_and!; [decides|vm_compute; reflexivity..]. Qed.

(** The reason given for a short line that starts with a digit depends on what
    has been read after it: it is an oversize frame on its own, and an invalid
    length once a space of the next line is buffered. *)
Theorem digit_line_reason_splits :
  let fresh : Framer ref_codec := Framer_new 64 in
  let line := bs "1abc" ++ [newline] in
  let next := bs "<13>x y" ++ [newline] in
  let out x := match x with Ret (out, _, _) => Some out | Panic => None end in
  out (feed 10 fresh [] [line; next]) = Some [Err (FrameError_fatal Oversize)] /\
  out (feed 10 fresh [] [line ++ next]) = Some [Err (FrameError_fatal InvalidLength)].
Proof. split; vm_compute; reflexivity. Qed.
End read_boundaries.

(** ** Witnesses *)

#[local] Existing Instance release.

(** A new framer, and one part-way through a length. *)
Definition fresh : Framer ref_codec := Framer_new 16.
Definition counting : Framer ref_codec :=
  MkFramer (RefCodec 16 false) (Some NotDiscarding).

Lemma octet_decode_refines_witness :
  exists r f' src',
    octet_decode counting NotDiscarding (bs "5 hello!") = Ret (r, f', src') /\
    other f' = other counting /\
    octet_step (max_length (other counting)) NotDiscarding (bs "5 hello!") r (octet_decoding f') src'.
Proof.
  apply (octet_decode_refines counting NotDiscarding (bs "5 hello!"));
    [reflexivity | reflexivity | exact I | vm_compute; split; discriminate].
Defined.

(** With overflow checks on, the largest length panics. *)
Lemma decode_at_panics_witness :
  @decode_at dev ref_codec _ false (Framer_new 64) (bs "18446744073709551615 x") = Panic.
Proof.
  apply (@decode_at_panics dev ref_codec _ false (Framer_new 64) (bs "18446744073709551615 x"));
    [exact I | vm_compute; split; discriminate |].
  split; [reflexivity|]. split; [reflexivity|].
  exists (bs "18446744073709551615"), usize_max, (bs "x").
  split; [reflexivity|]. split; [decides|].
  split; [reflexivity|]. split; [reflexivity|]. split; reflexivity.
Defined.

Lemma decode_at_message_witness :
  utf8_text (bs "hello") /\ (zlen (bs "hello") <= max_length (other fresh))%Z /\
  (zlen (bs "!") < zlen (bs "5 hello!"))%Z.
Proof.
  apply (decode_at_message false fresh (bs "5 hello!") (bs "hello") fresh (bs "!"));
    [exact I | vm_compute; split; discriminate | reflexivity].
Defined.

Lemma decode_at_invariant_witness :
  framer_wf counting (bs "5 hel" ++ bs "lo") /\
  max_length (other counting) = max_length (other fresh) /\
  exists used, bs "5 hel" = used ++ bs "5 hel".
Proof.
  apply (decode_at_invariant false fresh (bs "5 hel") (Ok None) counting (bs "5 hel") (bs "lo"));
    [exact I | vm_compute; split; discriminate | reflexivity | discriminate].
Defined.

Lemma decode_at_recoverable_witness :
  let long := bs "<13>aaaaaaaaaaaaaaaa" in
  let e := FrameError_recoverable Oversize in
  (octet_decoding (enter_octet fresh long) <> None -> fatal e = true) /\
  (fatal e = false <->
     codec_at false (other fresh) long = (Err MaxLineLengthExceeded, RefCodec 16 true, long) /\
     e = FrameError_recoverable Oversize /\
     octet_decoding (enter_octet fresh long) = None).
Proof.
  intros long e.
  apply (decode_at_recoverable false fresh long e (MkFramer (RefCodec 16 true) None) long);
    [exact I | vm_compute; split; discriminate | reflexivity].
Defined.

Lemma decode_buffer_bound_witness :
  (zlen (bs "5 hel") <= 2 * max_length (other fresh))%Z \/
  exists len, octet_decoding counting = Some (Discarding len) /\
              (max_length (other fresh) < len)%Z /\
              (zlen (bs "5 hel") < zlen (bs "5 hel"))%Z.
Proof.
  apply (decode_buffer_bound fresh (bs "5 hel") counting (bs "5 hel"));
    [exact I | vm_compute; split; discriminate | reflexivity].
Defined.

Lemma reader_loop_ends_witness :
  (forall n f' src', decode_calls true n fresh (bs "5 hellox") f' src' ->
     (n <= codec_rank (other fresh) (bs "5 hellox"))%nat) /\
  exists n f' src', decode_calls true n fresh (bs "5 hellox") f' src' /\
    match decode_at true f' src' with
    | Ret (r, _, _) => goes_on r = false
    | Panic => @overflow_checks release = true
    end.
Proof.
  apply (reader_loop_ends true fresh (bs "5 hellox")); [exact I|vm_compute; split; discriminate].
Defined.

Lemma decode_all_ends_witness :
  exists out f' src',
    decode_all 18 fresh (bs "5 hello!") = Ret (out, f', src') /\
    loop_ended out f' src' /\ (zlen src' <= zlen (bs "5 hello!"))%Z.
Proof.
  apply (decode_all_ends fresh (bs "5 hello!") 18);
    [reflexivity | exact I | vm_compute; split; discriminate | vm_compute; lia].
Defined.

(** One octet counted message and one line, cut inside both. *)
Lemma feed_round_trip_witness :
  let frs := [OctetFrame (bs "hello"); LineFrame (bs "<13>x")] in
  exists f', feed 3 fresh [] [bs "5 he"; bs "llo<1"; bs "3>x" ++ [newline]] =
               Ret ((Ok ∘ payload) <$> frs, f', []) /\ mid_frame f' [].
Proof.
  intros frs.
  apply (feed_round_trip 16 frs [bs "5 he"; bs "llo<1"; bs "3>x" ++ [newline]] 3);
    [lia| |reflexivity|vm_compute; split; discriminate|cbn; lia].
  constructor; [|constructor; [|constructor]].
  - split; [vm_compute; split; discriminate|]. split; [lia|reflexivity].
  - split; [decides|]. split; [vm_compute; discriminate|].
    split; [reflexivity|]. intros b l E. injection E as <- <-. reflexivity.
Defined.

(** Twelve bytes outstanding, which the second of three reads completes. *)
Lemma oversize_body_discarded_witness :
  let countdown : Framer ref_codec := MkFramer (RefCodec 16 false) (Some (Discarding 12)) in
  let chunks := [bs "9 abcdefghZ"; bs "aaaaa"; bs "b"] in
  exists f' src',
    feed 1 countdown [] chunks = Ret ([Err (FrameError_fatal Oversize)], f', src') /\
    octet_decoding f' = None /\
    exists before chunk after, chunks = before ++ chunk :: after /\
      (before = [] \/ (zlen (concat before) < 12)%Z) /\
      (12 <= zlen (concat before ++ chunk))%Z /\ src' = drop 12 (concat before ++ chunk).
Proof.
  intros countdown chunks.
  destruct (oversize_body_discarded chunks 1 countdown 12) as (f' & src' & E & _ & _ & H);
    [reflexivity | vm_compute; split; discriminate | lia |].
  exists f', src'. split; [exact E|]. apply H; [discriminate|vm_compute; discriminate].
Defined.

Lemma digit_first_bypasses_codec_witness :
  decode (MkFramer (RefCodec 16 false) None) ("5"%byte :: bs " hello") =
    Ret (Ok (Some (bs "hello")), MkFramer (RefCodec 16 false) None, []) /\
  other (MkFramer (RefCodec 16 true) None) = RefCodec 16 true.
Proof.
  apply (digit_first_bypasses_codec (RefCodec 16 true) (RefCodec 16 false)
           "5"%byte (bs " hello") (Ok (Some (bs "hello")))
           (MkFramer (RefCodec 16 true) None) []); reflexivity.
Defined.
