(* ===== verification/FramingTests.v ===== *)
(** * The framer's own tests

    The test module of [syslog/framing.rs], a definition per test: a test drives a
    framer and its buffer and is [true] when every assertion holds and nothing
    panics.  All of them hold of the model, with the reference newline codec and in
    both build profiles: the model and the code agree wherever the authors pinned
    the behaviour down. *)
From S2P Require Import Prelude Utf8 Decimal LinesCodec Framing.

Local Open Scope Z_scope.

Section framing_tests.
Context `{Profile} {C : Type} `{!LinesCodec C}.

(** A line of a test: [None] if its assertion fails or its call panics. *)
Definition test_line : Type := Framer C * bytes -> option (Framer C * bytes).

Definition put (more : bytes) : test_line := fun '(f, buffer) => Some (f, buffer ++ more).

Definition calls (call : Framer C -> bytes -> outcome (decoded * Framer C * bytes))
    (check : decoded -> bool) : test_line := fun '(f, buffer) =>
  match call f buffer with
  | Ret (r, f', buffer') => if check r then Some (f', buffer') else None
  | Panic => None
  end.

Definition assert_decode (expected : decoded) : test_line :=
  calls decode (fun r => bool_decide (r = expected)).
Definition assert_decode_eof (expected : decoded) : test_line :=
  calls decode_eof (fun r => bool_decide (r = expected)).
Definition decode_ignored : test_line := calls decode (fun _ => true).
Definition assert_buffer (expected : bytes) : test_line := fun '(f, buffer) =>
  if decide (buffer = expected) then Some (f, buffer) else None.

Definition passes (max_length : Z) (buffer : bytes) (test : list test_line) : bool :=
  is_some (foldl (fun o line => o ≫= line) (Some (Framer_new max_length, buffer)) test).

Definition frame_of (s : bytes) : decoded := Ok (Some s).
Definition more_wanted : decoded := Ok None.
Definition fatal_error (r : RejectReason) : decoded := Err (FrameError_fatal r).

Definition non_octet_decode_works_with_multiple_frames : bool :=
  passes 128 []
    [put (bs "<57>Mar 25 21:47:46 host quaerat[2444]: There were ");
     assert_decode more_wanted;
     put (bs "8 penguins in the shop." ++ [newline]);
     assert_decode (frame_of
       (bs "<57>Mar 25 21:47:46 host quaerat[2444]: There were 8 penguins in the shop."))].

Definition newline_decode_strips_carriage_return : bool :=
  passes 128 (bs "<13>first" ++ [carriage_return; newline] ++ bs "<13>second" ++ [newline])
    [assert_decode (frame_of (bs "<13>first"));
     assert_decode (frame_of (bs "<13>second"));
     assert_decode more_wanted].

Definition octet_decode_works_with_multiple_frames : bool :=
  passes 30 []
    [put (bs "28 abcdefghijklm");
     assert_decode more_wanted;
     put (bs "3 nopqrstuvwxyz");
     assert_decode (frame_of (bs "abcdefghijklm3 nopqrstuvwxyz"))].

Definition octet_decode_moves_past_invalid_length : bool :=
  passes 16 (bs "232>1 zork")
    [assert_decode (fatal_error InvalidLength); assert_buffer (bs "zork")].

Definition octet_decode_moves_past_invalid_utf8 : bool :=
  passes 16 (bs "4 " ++ (z2b <$> [0xf0; 0x28; 0x8c; 0xbc]))
    [assert_decode (fatal_error InvalidUtf8); assert_buffer []].

Definition octet_decode_moves_past_exceeded_frame_length : bool :=
  passes 16
    (bs "32thisshouldbelongerthanthmaxframeasizewhichmeansitwillnotbedecoded" ++ [newline])
    [assert_decode (fatal_error Oversize); assert_buffer []].

Definition octet_decode_rejects_exceeded_frame_length : bool :=
  passes 16 (bs "26 abcdefghijklmnopqrstuvwxyzand here we are")
    [assert_decode more_wanted;
     assert_decode (fatal_error Oversize);
     assert_buffer (bs "and here we are")].

Definition octet_decode_rejects_exceeded_frame_length_multiple_frames : bool :=
  passes 16 (bs "26 abc")
    [decode_ignored;
     put (bs "defghijklmnopqrstuvwxyzand here we are");
     assert_decode (fatal_error Oversize);
     assert_buffer (bs "and here we are")].

Definition octet_decode_discards_oversize_body_arriving_in_pieces : bool :=
  passes 16 (bs "26 abc")
    ([assert_decode more_wanted] ++
     concat (replicate 10 [put (bs "ab"); assert_decode more_wanted]) ++
     [put (bs "xyzrest");
      assert_decode (fatal_error Oversize);
      assert_buffer (bs "rest")]).

Definition octet_decode_moves_past_exceeded_frame_length_multiple_frames : bool :=
  passes 16 (bs "32thisshouldbelongerthanthmaxframeasizewhichmeansitwillnotbedecoded")
    [decode_ignored;
     put (bs "wemustcontinuetodiscard" ++ [newline] ++ bs "32 something valid");
     assert_decode (fatal_error Oversize);
     assert_buffer (bs "32 something valid")].

Definition oversize_body_starting_with_a_digit_is_not_decoded_as_a_frame : bool :=
  passes 16 (bs "26 ")
    [assert_decode more_wanted;
     put (bs "9 abcdefghZ");
     assert_decode more_wanted;
     assert_buffer [];
     put (bs "aaaaaaaaaaaaaaa5 next");
     assert_decode (fatal_error Oversize);
     assert_buffer (bs "5 next")].

(** What the tests' [decode_all] collects; every call takes a byte or ends the loop,
    which bounds the turns it needs. *)
Definition collects (f : Framer C) (buffer : bytes)
    : option (list (result bytes FrameError) * Framer C * bytes) :=
  match decode_all (2 * length buffer + 2) f buffer with
  | Ret x => Some x
  | Panic => None
  end.

Definition newline_oversize_is_recoverable : bool :=
  match collects (Framer_new 16)
          (bs "<13>aaaaaaaaaaaaaaaaaaaaaaaaaaaa" ++ [newline] ++ bs "<13>ok" ++ [newline]) with
  | Some (results, _, _) =>
      bool_decide (results = [Err (FrameError_recoverable Oversize); Ok (bs "<13>ok")])
  | None => false
  end.

Definition newline_invalid_utf8_is_fatal : bool :=
  passes 64 (bs "<13>" ++ [z2b 0xf0; z2b 0x28; newline])
    [assert_decode (fatal_error InvalidUtf8)].

Definition decode_eof_releases_trailing_line : bool :=
  passes 64 (bs "<13>trailing")
    [assert_decode more_wanted;
     assert_decode_eof (frame_of (bs "<13>trailing"));
     assert_decode_eof more_wanted].

Definition decode_eof_holds_back_incomplete_octet_frame : bool :=
  passes 64 (bs "10 partial")
    [assert_decode more_wanted; assert_decode_eof more_wanted].

(** What is collected of the pieces one after the other is [expected]. *)
Fixpoint collects_pieces (f : Framer C) (buffer : bytes) (pieces : list bytes)
    : option (list (result bytes FrameError)) :=
  match pieces with
  | [] => Some []
  | piece :: pieces' =>
      '(out, f', buffer') ← collects f (buffer ++ piece);
      out' ← collects_pieces f' buffer' pieces';
      Some (out ++ out')
  end.

Definition split_inputs : list bytes :=
  [bs "11 hello there7 goodbye<13>newline" ++ [newline] ++ bs "<13>another" ++
     [carriage_return; newline];
   bs "5 first<13>second" ++ [newline] ++ bs "6 third" ++ [newline];
   bs "<13>only a line" ++ [newline];
   bs "13 embedded" ++ [newline] ++ bs "line<13>after" ++ [newline]].

Definition frames_decode_identically_at_every_split_point : bool :=
  forallb (fun input =>
    match collects (Framer_new 64) input with
    | Some (expected, _, _) =>
        forallb (fun split =>
          bool_decide (collects_pieces (Framer_new 64) [] [take split input; drop split input] =
                       Some expected))
          (seq 1 (length input - 1))
    | None => false
    end) split_inputs.

Definition frames_decode_identically_byte_at_a_time : bool :=
  let input := bs "11 hello there<13>newline" ++ [newline] ++ bs "7 goodbye" in
  match collects (Framer_new 64) input with
  | Some (expected, _, _) =>
      bool_decide (collects_pieces (Framer_new 64) [] ((fun b => [b]) <$> input) = Some expected)
  | None => false
  end.

Definition framing_tests : list bool :=
  [non_octet_decode_works_with_multiple_frames;
   newline_decode_strips_carriage_return;
   octet_decode_works_with_multiple_frames;
   octet_decode_moves_past_invalid_length;
   octet_decode_moves_past_invalid_utf8;
   octet_decode_moves_past_exceeded_frame_length;
   octet_decode_rejects_exceeded_frame_length;
   octet_decode_rejects_exceeded_frame_length_multiple_frames;
   octet_decode_discards_oversize_body_arriving_in_pieces;
   octet_decode_moves_past_exceeded_frame_length_multiple_frames;
   oversize_body_starting_with_a_digit_is_not_decoded_as_a_frame;
   newline_oversize_is_recoverable;
   newline_invalid_utf8_is_fatal;
   decode_eof_releases_trailing_line;
   decode_eof_holds_back_incomplete_octet_frame;
   frames_decode_identically_at_every_split_point;
   frames_decode_identically_byte_at_a_time].
End framing_tests.

(** The framer passes its own tests, in a release and in a debug build. *)
Theorem framing_tests_pass (profile : Profile) :
  forallb id (framing_tests (H := profile) (C := ref_codec)) = true.
Proof. destruct profile; vm_compute; reflexivity. Qed.
