(* ===== verification/Proxy.v ===== *)
(** * PROXY protocol v2 headers

    [syslog/proxy.rs]: [parse] looks at the front of a connection's buffer and
    answers that more bytes are needed, that a complete header is there, or that
    it is not an acceptable header. *)
From S2P Require Import Prelude.

Local Open Scope Z_scope.

Definition SIGNATURE : bytes :=
  z2b <$> [0x0d; 0x0a; 0x0d; 0x0a; 0x00; 0x0d; 0x0a; 0x51; 0x55; 0x49; 0x54; 0x0a].
Definition V1_SIGNATURE : bytes := bs "PROXY ".
Definition PREFIX_LEN : Z := 16.

Inductive ProxyError : Type :=
| Signature
| Version
| Command
| Family
| TooLong.

#[export] Instance ProxyError_eq_dec : EqDecision ProxyError.
Proof. solve_decision. Defined.

Definition ProxyError_as_str (e : ProxyError) : string :=
  match e with
  | Signature => "signature"
  | Version => "version"
  | Command => "command"
  | Family => "family"
  | TooLong => "too_long"
  end.

(** [std::net::IpAddr]: the four or sixteen octets of the address. *)
Inductive IpAddr : Type :=
| V4 (octets : bytes)
| V6 (octets : bytes).

#[export] Instance IpAddr_eq_dec : EqDecision IpAddr.
Proof. solve_decision. Defined.

Inductive ProxyHeader : Type :=
| Incomplete
| Complete (source : option IpAddr) (length : Z).

#[export] Instance ProxyHeader_eq_dec : EqDecision ProxyHeader.
Proof. solve_decision. Defined.

(** [u16::from_be_bytes]. *)
Definition u16_from_be_bytes (hi lo : byte) : Z := b2z hi * 256 + b2z lo.

(** The source address a PROXY command names. *)
Definition parse_source (buf : bytes) (family : byte) (address_length : Z)
    : outcome (result (option IpAddr) ProxyError) :=
  let fam := b2z family in
  if (fam =? 0x11) || (fam =? 0x12) then
    if address_length <? 12 then Ret (Err Family)
    else
      let* octets := slice 16 20 buf in
      Ret (Ok (Some (V4 octets)))
  else if (fam =? 0x21) || (fam =? 0x22) then
    if address_length <? 36 then Ret (Err Family)
    else
      let* octets := slice 16 32 buf in
      Ret (Ok (Some (V6 octets)))
  else if (fam =? 0x00) || (fam =? 0x31) || (fam =? 0x32) then Ret (Ok None)
  else Ret (Err Family).

(** The header after its signature: version, command, family and lengths. *)
Definition parse_prefix (buf : bytes) (max_length : Z)
    : outcome (result ProxyHeader ProxyError) :=
  let* version_command := index 12 buf in
  if negb (Z.shiftr (b2z version_command) 4 =? 0x2) then Ret (Err Version)
  else
    let command := Z.land (b2z version_command) 0x0f in
    if 0x1 <? command then Ret (Err Command)
    else
      let* family := index 13 buf in
      let* hi := index 14 buf in
      let* lo := index 15 buf in
      let address_length := u16_from_be_bytes hi lo in
      let length := PREFIX_LEN + address_length in
      if max_length <? length then Ret (Err TooLong)
      else if zlen buf <? length then Ret (Ok Incomplete)
      else
        let* source :=
          if command =? 0x0 then Ret (Ok None)
          else parse_source buf family address_length in
        match source with
        | Ok source => Ret (Ok (Complete source length))
        | Err e => Ret (Err e)
        end.

(** Parse a PROXY v2 header from the front of [buf], rejecting anything longer
    than [max_length] bytes. *)
Definition parse (buf : bytes) (max_length : Z) : outcome (result ProxyHeader ProxyError) :=
  if (zlen buf =? 0) then Ret (Ok Incomplete)
  else
    let seen := Z.min (zlen buf) (zlen V1_SIGNATURE) in
    let* front := slice_to seen buf in
    let* sig := slice_to seen V1_SIGNATURE in
    if decide (front = sig) then Ret (Err Version)
    else
      let seen := Z.min (zlen buf) (zlen SIGNATURE) in
      let* front := slice_to seen buf in
      let* sig := slice_to seen SIGNATURE in
      if decide (front <> sig) then Ret (Err Signature)
      else if zlen buf <? PREFIX_LEN then Ret (Ok Incomplete)
      else parse_prefix buf max_length.

(** ** Writing a header, as the tests do *)

Definition u16_to_be_bytes (z : Z) : bytes := [z2b (z / 256); z2b z].

Definition v2_header (family command : Z) (address : bytes) : bytes :=
  SIGNATURE ++ [z2b (Z.lor 0x20 command); z2b family] ++
  u16_to_be_bytes (zlen address mod 2 ^ 16) ++ address.

Definition ipv4_address (source : bytes) : bytes :=
  source ++ [z2b 10; z2b 0; z2b 0; z2b 1] ++ u16_to_be_bytes 514 ++ u16_to_be_bytes 6514.
