(* ===== verification/ProxyProps.v ===== *)
(** * PROXY protocol v2 headers: properties

    [parse] never panics, accepts exactly the well-formed headers, takes them back
    at every split point, never changes its mind once it has answered, and asks
    for a bounded number of bytes. *)
From S2P Require Import Prelude Proxy.

Local Open Scope Z_scope.

Implicit Types (buf sig address rest : bytes) (max : Z).

(** ** The signature comparison *)

(** The two agree as far as both go. *)
Definition agrees (buf sig : bytes) : Prop := buf `prefix_of` sig \/ sig `prefix_of` buf.

#[export] Instance agrees_dec buf sig : Decision (agrees buf sig).
Proof. unfold agrees. apply _. Defined.

Lemma take_min_agrees buf sig :
  take (Nat.min (length buf) (length sig)) buf = take (Nat.min (length buf) (length sig)) sig
  <-> agrees buf sig.
Proof.
  unfold agrees. split.
  - intros E. destruct (Nat.le_ge_cases (length buf) (length sig)) as [Hle|Hle].
    + left. rewrite Nat.min_l in E by done. rewrite take_ge in E by done.
      rewrite E. apply prefix_take.
    + right. rewrite Nat.min_r in E by done. rewrite (take_ge sig) in E by done.
      rewrite <- E. apply prefix_take.
  - intros [[k ->]|[k ->]]; rewrite length_app.
    + rewrite Nat.min_l by lia. rewrite take_ge, take_app_length by lia. done.
    + rewrite Nat.min_r by lia. rewrite take_app_length, take_ge by lia. done.
Qed.

Lemma agrees_app buf more sig : agrees (buf ++ more) sig -> agrees buf sig.
Proof.
  intros [Hp|Hp].
  - left. etrans; [|exact Hp]. by apply prefix_app_r.
  - unfold agrees. destruct Hp as [k E]. symmetry in E.
    apply app_eq_inv in E as [(l & -> & ->)|(l & -> & ->)].
    + left. by apply prefix_app_r.
    + right. by apply prefix_app_r.
Qed.

Lemma agrees_head b l c s : agrees (b :: l) (c :: s) -> b = c.
Proof. by intros [H|H]; apply prefix_cons_inv_1 in H. Qed.

(** [parse] without its slicing. *)
Definition parse_by_signature buf max : outcome (result ProxyHeader ProxyError) :=
  if decide (buf = []) then Ret (Ok Incomplete)
  else if decide (agrees buf V1_SIGNATURE) then Ret (Err Version)
  else if decide (agrees buf SIGNATURE) then
    if zlen buf <? PREFIX_LEN then Ret (Ok Incomplete) else parse_prefix buf max
  else Ret (Err Signature).

Lemma slice_min buf sig :
  slice_to (Z.min (zlen buf) (zlen sig)) buf =
    Ret (take (Nat.min (length buf) (length sig)) buf) /\
  slice_to (Z.min (zlen buf) (zlen sig)) sig =
    Ret (take (Nat.min (length buf) (length sig)) sig).
Proof.
  rewrite <- Nat2Z.inj_min. split; (rewrite slice_to_Ret by lia); by rewrite Nat2Z.id.
Qed.

Lemma parse_unfold buf max : parse buf max = parse_by_signature buf max.
Proof.
  unfold parse, parse_by_signature.
  destruct (slice_min buf V1_SIGNATURE) as [-> ->].
  destruct (slice_min buf SIGNATURE) as [-> ->]. cbn [obind].
  destruct buf as [|b l]; [done|]. rewrite (decide_False (P:=b :: l = [])) by done.
  rewrite (proj2 (Z.eqb_neq _ _)) by (rewrite length_cons; lia).
  rewrite (decide_ext _ _ (Ret (Err Version))
             _ (take_min_agrees (b :: l) V1_SIGNATURE)).
  case_decide; [done|].
  destruct (decide (agrees (b :: l) SIGNATURE)) as [Ha|Ha];
    rewrite <- take_min_agrees in Ha; [rewrite decide_False by auto | rewrite decide_True by auto];
    done.
Qed.

(** ** The fields of a header *)

(** The address a header names: [None] where its family cannot name one. *)
Definition header_source (command : Z) (family : byte) (address_length : Z) (tail : bytes)
    : option (option IpAddr) :=
  let fam := b2z family in
  if command =? 0 then Some None
  else if (fam =? 0x11) || (fam =? 0x12) then
    if address_length <? 12 then None else Some (Some (V4 (take 4 tail)))
  else if (fam =? 0x21) || (fam =? 0x22) then
    if address_length <? 36 then None else Some (Some (V6 (take 16 tail)))
  else if (fam =? 0x00) || (fam =? 0x31) || (fam =? 0x32) then Some None
  else None.

(** A buffer with all sixteen bytes of the prefix. *)
Definition with_prefix (vc family hi lo : byte) (tail : bytes) : bytes :=
  SIGNATURE ++ vc :: family :: hi :: lo :: tail.

(** What [parse] answers to such a buffer. *)
Definition header_answer (vc family hi lo : byte) (tail : bytes) (max : Z)
    : result ProxyHeader ProxyError :=
  let command := Z.land (b2z vc) 0x0f in
  let address_length := u16_from_be_bytes hi lo in
  if negb (Z.shiftr (b2z vc) 4 =? 2) then Err Version
  else if 1 <? command then Err Command
  else if max <? PREFIX_LEN + address_length then Err TooLong
  else if zlen tail <? address_length then Ok Incomplete
  else match header_source command family address_length tail with
       | Some source => Ok (Complete source (PREFIX_LEN + address_length))
       | None => Err Family
       end.

Lemma u16_from_be_bytes_range hi lo : 0 <= u16_from_be_bytes hi lo < 2 ^ 16.
Proof.
  unfold u16_from_be_bytes. pose proof (b2z_range hi). pose proof (b2z_range lo). lia.
Qed.

Lemma with_prefix_length vc family hi lo tail :
  zlen (with_prefix vc family hi lo tail) = PREFIX_LEN + zlen tail.
Proof. unfold with_prefix, PREFIX_LEN. rewrite length_app. cbn [length]. cbn. lia. Qed.

Lemma slice_tail vc family hi lo tail n :
  0 <= n <= zlen tail ->
  slice 16 (16 + n) (with_prefix vc family hi lo tail) = Ret (take (Z.to_nat n) tail).
Proof.
  intros Hn. rewrite slice_Ret by (rewrite ?with_prefix_length; unfold PREFIX_LEN; lia).
  rewrite Z.add_simpl_l. done.
Qed.

Lemma parse_source_answer vc family hi lo tail :
  u16_from_be_bytes hi lo <= zlen tail ->
  parse_source (with_prefix vc family hi lo tail) family (u16_from_be_bytes hi lo) =
  Ret (match header_source 1 family (u16_from_be_bytes hi lo) tail with
       | Some source => Ok source
       | None => Err Family
       end).
Proof.
  intros Hl. unfold parse_source, header_source. cbn [Z.eqb].
  case_match; [|case_match; [|by case_match]].
  - destruct (Z.ltb_spec (u16_from_be_bytes hi lo) 12); [done|].
    change 20 with (16 + 4). by rewrite slice_tail by lia.
  - destruct (Z.ltb_spec (u16_from_be_bytes hi lo) 36); [done|].
    change 32 with (16 + 16). by rewrite slice_tail by lia.
Qed.

Lemma parse_prefix_answer vc family hi lo tail max :
  parse_prefix (with_prefix vc family hi lo tail) max =
  Ret (header_answer vc family hi lo tail max).
Proof.
  unfold parse_prefix, header_answer.
  rewrite (index_Ret 12 _ vc), (index_Ret 13 _ family), (index_Ret 14 _ hi),
    (index_Ret 15 _ lo) by done. cbn [obind].
  case_match; [done|]. destruct (Z.ltb_spec 1 (Z.land (b2z vc) 0x0f)) as [|Hc]; [done|].
  case_match; [done|]. rewrite with_prefix_length.
  destruct (Z.ltb_spec (zlen tail) (u16_from_be_bytes hi lo)).
  { by rewrite (proj2 (Z.ltb_lt _ _)) by lia. }
  rewrite (proj2 (Z.ltb_ge _ _)) by lia.
  assert (0 <= Z.land (b2z vc) 0x0f) by (apply Z.land_nonneg; lia).
  destruct (Z.eqb_spec (Z.land (b2z vc) 0x0f) 0) as [->|Hne]; [done|].
  replace (Z.land (b2z vc) 0x0f) with 1 by lia.
  change (1 =? 0) with false. cbv iota. rewrite parse_source_answer by done.
  cbn [obind]. by destruct (header_source _ _ _ _).
Qed.

Lemma parse_with_prefix vc family hi lo tail max :
  parse (with_prefix vc family hi lo tail) max = Ret (header_answer vc family hi lo tail max).
Proof.
  rewrite parse_unfold. unfold parse_by_signature.
  rewrite decide_False by done.
  rewrite decide_False by (intros Ha; by apply agrees_head in Ha).
  rewrite decide_True by (right; by apply prefix_app_r).
  rewrite with_prefix_length, (proj2 (Z.ltb_ge _ _)) by lia. apply parse_prefix_answer.
Qed.

(** Every buffer that is long enough and has the signature has this shape. *)
Lemma agrees_with_prefix buf :
  agrees buf SIGNATURE -> PREFIX_LEN <= zlen buf ->
  exists vc family hi lo tail, buf = with_prefix vc family hi lo tail.
Proof.
  unfold PREFIX_LEN. intros [Hp|[k ->]] Hl.
  - apply prefix_length in Hp. cbn in Hp. lia.
  - rewrite length_app in Hl. cbn in Hl.
    destruct k as [|vc [|family [|hi [|lo tail]]]]; cbn in Hl; try lia.
    by exists vc, family, hi, lo, tail.
Qed.

(** The five ways [parse] ends. *)
Lemma parse_cases buf max :
  (buf = [] /\ parse buf max = Ret (Ok Incomplete)) \/
  (buf <> [] /\ agrees buf V1_SIGNATURE /\ parse buf max = Ret (Err Version)) \/
  (~ agrees buf V1_SIGNATURE /\ ~ agrees buf SIGNATURE /\ parse buf max = Ret (Err Signature)) \/
  (agrees buf SIGNATURE /\ zlen buf < PREFIX_LEN /\ parse buf max = Ret (Ok Incomplete)) \/
  (exists vc family hi lo tail, buf = with_prefix vc family hi lo tail /\
     parse buf max = Ret (header_answer vc family hi lo tail max)).
Proof.
  rewrite parse_unfold. unfold parse_by_signature.
  case_decide; [by left|]. case_decide; [right; by left|].
  case_decide as Ha; [|do 2 right; by left].
  destruct (Z.ltb_spec (zlen buf) PREFIX_LEN); [do 3 right; by left|do 4 right].
  destruct (agrees_with_prefix buf) as (vc & fam & hi & lo & tail & ->); [done|done|].
  exists vc, fam, hi, lo, tail. by rewrite parse_prefix_answer.
Qed.

(** ** Properties *)

(** [parse] returns on every buffer: each of its slices and indices is in range. *)
Theorem parse_returns buf max : parse buf max <> Panic.
Proof.
  by destruct (parse_cases buf max) as
    [[_ ->]|[(_ & _ & ->)|[(_ & _ & ->)|[(_ & _ & ->)|(? & ? & ? & ? & ? & _ & ->)]]]].
Qed.

Lemma header_source_take command family n address rest :
  zlen address = n ->
  header_source command family n (address ++ rest) = header_source command family n address.
Proof.
  intros Hn. unfold header_source. repeat case_match; try done; do 3 f_equal;
    by rewrite take_app_le by lia.
Qed.

Lemma version_command b :
  Z.shiftr (b2z b) 4 = 2 -> Z.land (b2z b) 0x0f <= 1 ->
  b2z b = 0x20 + Z.land (b2z b) 0x0f.
Proof.
  rewrite Z.shiftr_div_pow2 by lia. change 0x0f with (Z.ones 4).
  rewrite Z.land_ones by lia. intros. Z.div_mod_to_equations. lia.
Qed.

Lemma version_command_bits command :
  0 <= command <= 1 ->
  Z.shiftr (0x20 + command) 4 = 2 /\ Z.land (0x20 + command) 0x0f = command.
Proof.
  intros. assert (command = 0 \/ command = 1) as [-> | ->] by lia; done.
Qed.

(** Every header that is accepted, in full. *)
Lemma header_answer_complete vc family hi lo tail max source length :
  header_answer vc family hi lo tail max = Ok (Complete source length) <->
  exists command address rest,
    tail = address ++ rest /\ zlen address = u16_from_be_bytes hi lo /\
    0 <= command <= 1 /\ b2z vc = 0x20 + command /\
    header_source command family (zlen address) address = Some source /\
    length = PREFIX_LEN + zlen address /\ length <= max.
Proof.
  pose proof (u16_from_be_bytes_range hi lo) as Hr. unfold header_answer. split.
  - destruct (Z.eqb_spec (Z.shiftr (b2z vc) 4) 2); cbn [negb]; [|done].
    case_match; [done|]. case_match; [done|]. case_match; [done|].
    destruct (header_source _ _ _ _) as [s|] eqn:Hs; [|done]. intros [= <- <-].
    exists (Z.land (b2z vc) 0x0f), (take (Z.to_nat (u16_from_be_bytes hi lo)) tail),
      (drop (Z.to_nat (u16_from_be_bytes hi lo)) tail).
    assert (zlen (take (Z.to_nat (u16_from_be_bytes hi lo)) tail) = u16_from_be_bytes hi lo)
      as -> by (rewrite length_take; lia).
    assert (0 <= Z.land (b2z vc) 0x0f) by (apply Z.land_nonneg; lia).
    split_and!; try done; try lia.
    + by rewrite take_drop.
    + apply version_command; lia.
    + rewrite <- (take_drop (Z.to_nat (u16_from_be_bytes hi lo)) tail) in Hs.
      rewrite header_source_take in Hs; [done|]. rewrite length_take. lia.
  - intros (command & address & rest & -> & Hl & Hc & Hvc & Hs & -> & Hmax).
    rewrite Hvc, <- Hl in *. destruct (version_command_bits command Hc) as [-> ->]. cbn [negb].
    change (negb (2 =? 2)) with false. cbv iota.
    rewrite !(proj2 (Z.ltb_ge _ _)) by (rewrite ?length_app; lia).
    by rewrite header_source_take, Hs.
Qed.

(** C24. [parse] accepts exactly the well-formed headers: sixteen bytes of prefix with
    the signature, version 2 and a LOCAL or PROXY command, then an address block
    of the declared length that its family can name a source in, the whole of it
    within the limit; what follows is not looked at. *)
Theorem parse_complete_iff buf max source length :
  parse buf max = Ret (Ok (Complete source length)) <->
  exists vc family hi lo command address rest,
    buf = with_prefix vc family hi lo (address ++ rest) /\
    zlen address = u16_from_be_bytes hi lo /\
    0 <= command <= 1 /\ b2z vc = 0x20 + command /\
    header_source command family (zlen address) address = Some source /\
    length = PREFIX_LEN + zlen address /\ length <= max.
Proof.
  split.
  - intros Hp. destruct (parse_cases buf max) as
      [[_ E]|[(_ & _ & E)|[(_ & _ & E)|[(_ & _ & E)|(vc & fam & hi & lo & tl & -> & E)]]]];
      rewrite E in Hp; try congruence.
    injection Hp as Hp.
    apply header_answer_complete in Hp as (command & address & rest & -> & Ha).
    by exists vc, fam, hi, lo, command, address, rest.
  - intros (vc & fam & hi & lo & command & address & rest & -> & Ha).
    rewrite parse_with_prefix. f_equal. apply header_answer_complete. naive_solver.
Qed.

(** The header that [v2_header] writes. *)
Lemma v2_header_prefix family command address :
  0 <= command <= 1 -> zlen address < 2 ^ 16 ->
  exists vc hi lo,
    v2_header family command address = with_prefix vc (z2b family) hi lo address /\
    b2z vc = 0x20 + command /\ u16_from_be_bytes hi lo = zlen address.
Proof.
  intros Hc Ha. eexists _, _, _. split; [unfold v2_header, with_prefix, u16_to_be_bytes; done|].
  rewrite b2z_z2b. unfold u16_from_be_bytes. rewrite !b2z_z2b, (Z.mod_small (zlen address)) by lia.
  split.
  - assert (command = 0 \/ command = 1) as [-> | ->] by lia; done.
  - Z.div_mod_to_equations. lia.
Qed.

Lemma take_with_prefix n vc family hi lo tail :
  PREFIX_LEN <= Z.of_nat n ->
  take n (with_prefix vc family hi lo tail) =
  with_prefix vc family hi lo (take (n - 16) tail).
Proof.
  unfold PREFIX_LEN. intros Hn. do 16 (destruct n as [|n]; [lia|]). cbn.
  by rewrite Nat.sub_0_r.
Qed.

Lemma parse_written_header family command address source payload max :
  0 <= command <= 1 -> zlen address < 2 ^ 16 -> PREFIX_LEN + zlen address <= max ->
  header_source command (z2b family) (zlen address) address = Some source ->
  let header := v2_header family command address in
  parse (header ++ payload) max = Ret (Ok (Complete source (zlen header))) /\
  (forall n, (n < length header)%nat -> parse (take n header) max = Ret (Ok Incomplete)).
Proof.
  intros Hc Ha Hmax Hs header.
  destruct (v2_header_prefix family command address) as (vc & hi & lo & E & Hvc & Hl); [done..|].
  unfold header. rewrite E. split.
  - change (with_prefix vc (z2b family) hi lo address ++ payload)
      with (with_prefix vc (z2b family) hi lo (address ++ payload)).
    rewrite parse_with_prefix, with_prefix_length. f_equal.
    apply header_answer_complete. exists command, address, payload. done.
  - intros n Hn. pose proof (with_prefix_length vc (z2b family) hi lo address) as Hlen.
    destruct (Z.le_gt_cases PREFIX_LEN (Z.of_nat n)) as [Hge|Hlt].
    + rewrite take_with_prefix, parse_with_prefix by done. unfold header_answer.
      rewrite Hvc, Hl. destruct (version_command_bits command Hc) as [-> ->].
      change (negb (2 =? 2)) with false. cbv iota.
      rewrite !(proj2 (Z.ltb_ge _ _)) by lia.
      rewrite (proj2 (Z.ltb_lt _ _)); [done|].
      rewrite length_take. unfold PREFIX_LEN in *. lia.
    + rewrite parse_unfold. unfold parse_by_signature.
      case_decide as Hnil; [done|]. unfold PREFIX_LEN in *.
      rewrite decide_False; cycle 1.
      { destruct n as [|n]; [done|]. intros Ha'. by apply agrees_head in Ha'. }
      rewrite decide_True; cycle 1.
      { apply (agrees_app _ (drop n (with_prefix vc (z2b family) hi lo address))).
        rewrite take_drop. right. by apply prefix_app_r. }
      rewrite (proj2 (Z.ltb_lt _ _)); [done|]. rewrite length_take. lia.
Qed.

(** C25. A header survives the wire: followed by anything, [parse] gives back its
    source and its length, and cut short anywhere it is incomplete. *)
Theorem parse_round_trip family command address source payload max :
  0 <= command <= 1 -> zlen address < 2 ^ 16 -> PREFIX_LEN + zlen address <= max ->
  header_source command (z2b family) (zlen address) address = Some source ->
  let header := v2_header family command address in
  parse (header ++ payload) max = Ret (Ok (Complete source (zlen header))) /\
  (forall n, (n < length header)%nat -> parse (take n header) max = Ret (Ok Incomplete)).
Proof. apply parse_written_header. Qed.

Lemma header_answer_app vc family hi lo tail more max :
  header_answer vc family hi lo tail max <> Ok Incomplete ->
  header_answer vc family hi lo (tail ++ more) max = header_answer vc family hi lo tail max.
Proof.
  unfold header_answer. pose proof (u16_from_be_bytes_range hi lo).
  repeat (case_match; [done|]). rewrite length_app.
  destruct (Z.ltb_spec (zlen tail) (u16_from_be_bytes hi lo)) as [|Hl]; [done|].
  rewrite (proj2 (Z.ltb_ge _ _)) by lia. intros _.
  assert (Ht : zlen (take (Z.to_nat (u16_from_be_bytes hi lo)) tail) = u16_from_be_bytes hi lo)
    by (rewrite length_take; lia).
  rewrite <- (take_drop (Z.to_nat (u16_from_be_bytes hi lo)) tail), <- app_assoc.
  by rewrite !header_source_take.
Qed.

(** Answers are final: once a header is complete, and once a buffer is rejected,
    no further bytes change that (a rejection may only change its reason, from a
    v1 header to a missing one). *)
Theorem parse_final buf more max r :
  parse buf max = Ret r -> r <> Ok Incomplete ->
  parse (buf ++ more) max = Ret r \/
  (r = Err Version /\ parse (buf ++ more) max = Ret (Err Signature)).
Proof.
  intros Hp Hr. destruct (parse_cases buf max) as
    [[_ E]|[(Hn & Hv & E)|[(Hv & Hs & E)|[(_ & _ & E)|(vc & fam & hi & lo & tl & -> & E)]]]];
    rewrite E in Hp; simplify_eq.
  - destruct buf as [|b l]; [done|]. rewrite parse_unfold. unfold parse_by_signature.
    apply agrees_head in Hv as ->. rewrite decide_False by done.
    case_decide; [by left|]. rewrite decide_False; [by right|].
    intros Ha. by apply agrees_head in Ha.
  - left. rewrite parse_unfold. unfold parse_by_signature.
    destruct buf as [|b l]; [by destruct Hs; left; apply prefix_nil|].
    rewrite decide_False by done.
    rewrite decide_False by by intros ?%agrees_app.
    by rewrite decide_False by by intros ?%agrees_app.
  - left. change (with_prefix vc fam hi lo tl ++ more) with (with_prefix vc fam hi lo (tl ++ more)).
    rewrite parse_with_prefix. f_equal. by apply header_answer_app.
Qed.

(** A header that is still incomplete is shorter than the limit, or than the fixed
    prefix: a connection buffers a bounded number of bytes before [parse]
    decides, so reading its header ends. *)
Theorem parse_incomplete_bound buf max :
  parse buf max = Ret (Ok Incomplete) -> zlen buf < Z.max PREFIX_LEN max.
Proof.
  intros Hp. destruct (parse_cases buf max) as
    [[-> E]|[(Hn & Hv & E)|[(Hv & Hs & E)|[(_ & ? & E)|(vc & fam & hi & lo & tl & -> & E)]]]];
    rewrite E in Hp; simplify_eq; [unfold PREFIX_LEN; cbn [length]; lia|lia|].
  unfold header_answer in *. rewrite with_prefix_length. repeat case_match; try done. lia.
Qed.

(** ** Witnesses *)

Definition v4_source : bytes := z2b <$> [192; 0; 2; 7].

Lemma parse_round_trip_witness :
  let header := v2_header 0x11 1 (ipv4_address v4_source) in
  parse (header ++ bs "<13>a") 1024 = Ret (Ok (Complete (Some (V4 v4_source)) (zlen header))) /\
  (forall n, (n < length header)%nat -> parse (take n header) 1024 = Ret (Ok Incomplete)).
Proof.
  apply (parse_round_trip 0x11 1 (ipv4_address v4_source) (Some (V4 v4_source)) (bs "<13>a") 1024);
    [lia | reflexivity | vm_compute; discriminate | reflexivity].
Defined.

Lemma parse_final_witness :
  parse (bs "PRO" ++ bs "MISE") 1024 = Ret (Err Version) \/
  (@Err ProxyHeader _ Version = Err Version /\
   parse (bs "PRO" ++ bs "MISE") 1024 = Ret (Err Signature)).
Proof.
  apply (parse_final (bs "PRO") (bs "MISE") 1024 (Err Version)); [reflexivity | discriminate].
Defined.

Lemma parse_incomplete_bound_witness :
  zlen (take 20 (v2_header 0x11 1 (ipv4_address v4_source))) < Z.max PREFIX_LEN 1024.
Proof.
  apply (parse_incomplete_bound (take 20 (v2_header 0x11 1 (ipv4_address v4_source))) 1024).
  vm_compute. reflexivity.
Defined.
