(* ===== verification/ProxyTests.v ===== *)
(** * The header parser's own tests

    The test module of [syslog/proxy.rs], a definition per test, [true] when every
    assertion holds. *)
From S2P Require Import Prelude Utf8 Proxy.

Local Open Scope Z_scope.

(** [assert_eq!(expected, parse(buf, max))]. *)
Definition parses (buf : bytes) (max : Z) (expected : result ProxyHeader ProxyError) : bool :=
  bool_decide (parse buf max = Ret expected).

Definition octets (zs : list Z) : bytes := z2b <$> zs.

(** [buf[i] = z]. *)
Definition set_byte (i : nat) (z : Z) (buf : bytes) : bytes := <[i := z2b z]> buf.

Definition parses_ipv4_source : bool :=
  let header := v2_header 0x11 0x1 (ipv4_address (octets [192; 0; 2; 7])) in
  parses header 1024 (Ok (Complete (Some (V4 (octets [192; 0; 2; 7]))) (zlen header))).

Definition parses_ipv6_source : bool :=
  let address := set_byte 15 1 (replicate 36 (z2b 0)) in
  let header := v2_header 0x21 0x1 address in
  parses header 1024
    (Ok (Complete (Some (V6 (replicate 15 (z2b 0) ++ [z2b 1]))) (zlen header))).

Definition ignores_trailing_payload_and_tlvs : bool :=
  let address := ipv4_address (octets [198; 51; 100; 3]) ++ octets [0x03; 0x00; 0x04; 1; 2; 3; 4] in
  let header := v2_header 0x11 0x1 address in
  let buf := header ++ bs "<13>a message" ++ octets [10] in
  parses buf 1024 (Ok (Complete (Some (V4 (octets [198; 51; 100; 3]))) (zlen header))).

Definition unix_and_unspecified_families_have_no_source : bool :=
  forallb (fun family =>
    let header := v2_header family 0x1 (replicate 216 (z2b 0)) in
    parses header 1024 (Ok (Complete None (zlen header)))) [0x00; 0x31; 0x32].

Definition local_command_has_no_source : bool :=
  let header := v2_header 0x00 0x0 [] in
  parses header 1024 (Ok (Complete None (zlen header))).

Definition rejects_v1_header : bool :=
  parses (bs "PROXY TCP4 192.0.2.1 10.0.0.1 514 6514" ++ octets [13; 10]) 1024 (Err Version) &&
  parses (bs "PRO") 1024 (Err Version).

Definition rejects_missing_header : bool :=
  parses (bs "<13>a message" ++ octets [10]) 1024 (Err Signature).

Definition rejects_bad_version_command_and_family : bool :=
  let header := v2_header 0x11 0x1 (ipv4_address (octets [192; 0; 2; 7])) in
  parses (set_byte 12 0x31 header) 1024 (Err Version) &&
  parses (set_byte 12 0x27 header) 1024 (Err Command) &&
  parses (v2_header 0x41 0x1 (ipv4_address (octets [192; 0; 2; 7]))) 1024 (Err Family) &&
  parses (v2_header 0x11 0x1 (replicate 4 (z2b 0))) 1024 (Err Family).

Definition rejects_oversize_header : bool :=
  parses (v2_header 0x11 0x1 (replicate 600 (z2b 0))) 256 (Err TooLong).

Definition parses_identically_at_every_split_point : bool :=
  let header := v2_header 0x11 0x1 (ipv4_address (octets [203; 0; 113; 9])) in
  let buf := header ++ bs "7 hello!" in
  let expected := Complete (Some (V4 (octets [203; 0; 113; 9]))) (zlen header) in
  forallb (fun split =>
    parses (take split buf) 1024
      (Ok (if (split <? length header)%nat then Incomplete else expected)))
    (seq 0 (length buf)).

Definition detects_garbled_signature_as_soon_as_it_differs : bool :=
  let buf := set_byte 5 0xff (v2_header 0x11 0x1 (ipv4_address (octets [203; 0; 113; 9]))) in
  forallb (fun split => parses (take split buf) 1024 (Err Signature)) (seq 6 (length buf - 6)).

Definition proxy_tests : list bool :=
  [parses_ipv4_source;
   parses_ipv6_source;
   ignores_trailing_payload_and_tlvs;
   unix_and_unspecified_families_have_no_source;
   local_command_has_no_source;
   rejects_v1_header;
   rejects_missing_header;
   rejects_bad_version_command_and_family;
   rejects_oversize_header;
   parses_identically_at_every_split_point;
   detects_garbled_signature_as_soon_as_it_differs].

(** The parser passes its own tests. *)
Theorem proxy_tests_pass : forallb id proxy_tests = true.
Proof. vm_compute. reflexivity. Qed.
