(* ===== verification/Http.v ===== *)
(** * The HTTP library, as an interface

    The request and response types of the [http] and [hyper] crates are
    dependencies.  [Http] lists the operations the source calls, [HttpSpec] states
    what their documentation promises, and [ref_http] shows that this can be met.
    Strings are their UTF-8 bytes. *)
From S2P Require Import Prelude Utf8.

Local Open Scope Z_scope.

(** ** Strings of the standard library *)

(** [s.starts_with(prefix)]. *)
Fixpoint starts_with (prefix s : bytes) : bool :=
  match prefix, s with
  | [], _ => true
  | p :: prefix', b :: s' => bool_decide (p = b) && starts_with prefix' s'
  | _ :: _, [] => false
  end.

(** [s.contains(needle)]. *)
Fixpoint contains (needle s : bytes) : bool :=
  starts_with needle s ||
  match s with
  | [] => false
  | _ :: s' => contains needle s'
  end.

(** [s.split(sep)]: the pieces between separators, at least one. *)
Fixpoint split (sep : byte) (s : bytes) : list bytes :=
  match s with
  | [] => [[]]
  | b :: s' =>
      if decide (b = sep) then [] :: split sep s'
      else match split sep s' with
           | piece :: pieces => (b :: piece) :: pieces
           | [] => [[b]]
           end
  end.

(** [path.split('/').filter(|s| !s.is_empty()).collect()]. *)
Definition path_parts (path : bytes) : list bytes :=
  filter (.≠ []) (split "/"%byte path).

Lemma starts_with_spec prefix s :
  starts_with prefix s = true <-> prefix `prefix_of` s.
Proof.
  revert s; induction prefix as [|p prefix IH]; intros s; cbn.
  - split; [intros _; apply prefix_nil|done].
  - destruct s as [|b s].
    + split; [done|]. by intros ?%prefix_nil_inv.
    + rewrite andb_true_iff, bool_decide_eq_true, IH. split.
      * intros [-> ?]. by apply prefix_cons.
      * intros Hp. split; [by eapply prefix_cons_inv_1|by eapply prefix_cons_inv_2].
Qed.

Lemma contains_spec needle s :
  contains needle s = true <-> exists l r, s = l ++ needle ++ r.
Proof.
  induction s as [|b s IH]; cbn [contains]; rewrite orb_true_iff, starts_with_spec.
  - split; [intros [[r ->]|]; [by exists [], r|done]|].
    intros (l & r & E). left. symmetry in E. apply app_eq_nil in E as [_ E].
    by exists r.
  - rewrite IH. split.
    + intros [[r ->]|(l & r & ->)]; [by exists [], r|by exists (b :: l), r].
    + intros ([|b' l] & r & E); [left; by exists r|right].
      injection E as _ ->. by exists l, r.
Qed.

(** A path has a part exactly when it is not made of slashes alone. *)
Lemma path_parts_nil path : path_parts path = [] <-> Forall (.= "/"%byte) path.
Proof.
  unfold path_parts. induction path as [|b path IH]; cbn; [by split; [constructor|]|].
  case_decide as Hb.
  - rewrite filter_cons_False by (intros []; done). rewrite IH.
    rewrite Forall_cons. naive_solver.
  - destruct (split _ path) as [|piece pieces].
    + rewrite filter_cons_True by done. rewrite Forall_cons. naive_solver.
    + rewrite filter_cons_True by done. rewrite Forall_cons. naive_solver.
Qed.

(** ** Headers, requests and responses *)

(** [http]: header maps keyed by lower-case names, header values, and the status
    codes a builder accepts. *)
Class Http := {
  HeaderMap : Type;
  HeaderName : Type;
  HeaderValue : Type;
  header_name : bytes -> option HeaderName;      (** [HeaderName::try_from] *)
  header_value : bytes -> option HeaderValue;    (** [HeaderValue::try_from], [parse] *)
  to_str : HeaderValue -> option bytes;          (** [HeaderValue::to_str] *)
  hm_new : HeaderMap;
  hm_insert : HeaderName -> HeaderValue -> HeaderMap -> HeaderMap;
  hm_append : HeaderName -> HeaderValue -> HeaderMap -> HeaderMap;
  hm_get : HeaderName -> HeaderMap -> option HeaderValue;
  hm_iter : HeaderMap -> list (bytes * HeaderValue);
  status_valid : Z -> bool;                      (** [StatusCode::from_u16(s).is_ok()] *)
}.

(** A header looked up by a string; a string that is no header name finds nothing. *)
Definition hm_get_str `{Http} (name : bytes) (m : HeaderMap) : option HeaderValue :=
  n ← header_name name; hm_get n m.
#[global] Arguments hm_get_str : simpl never.

Class HttpSpec `{Http} := {
  hm_get_new n : hm_get n hm_new = None;
  hm_get_insert_eq n v m : hm_get n (hm_insert n v m) = Some v;
  hm_get_insert_ne n n' v m : n <> n' -> hm_get n (hm_insert n' v m) = hm_get n m;
  (** Appending keeps the value a lookup already finds. *)
  hm_get_append_eq n v m :
    hm_get n (hm_append n v m) = Some (default v (hm_get n m));
  hm_get_append_ne n n' v m : n <> n' -> hm_get n (hm_append n' v m) = hm_get n m;
  (** Plain lower-case names are valid and distinct names stay distinct. *)
  header_name_plain s :
    s <> [] -> Forall (fun b => in_range 0x61 0x7a b = true \/ b = "-"%byte) s ->
    is_Some (header_name s);
  header_name_inj s1 s2 n :
    Forall (fun b => in_range 0x61 0x7a b = true \/ b = "-"%byte) s1 ->
    Forall (fun b => in_range 0x61 0x7a b = true \/ b = "-"%byte) s2 ->
    header_name s1 = Some n -> header_name s2 = Some n -> s1 = s2;
  (** Visible ASCII text is a valid value and reads back as it was. *)
  header_value_visible s :
    Forall (fun b => in_range 0x20 0x7e b = true) s ->
    exists v, header_value s = Some v /\ to_str v = Some s;
  status_valid_spec s : status_valid s = (100 <=? s) && (s <? 1000);
}.

(** A request with its body collected: the parts of it the source reads. *)
Record HyperRequest `{Http} : Type := MkHyperRequest {
  req_method : bytes;
  req_path : bytes;              (** [uri().path()] *)
  req_query : option bytes;      (** [uri().query()] *)
  req_host : option bytes;       (** [uri().host()] *)
  req_headers : HeaderMap;
  req_body : bytes;
}.
Arguments MkHyperRequest {_} _ _ _ _ _ _.

(** ** A reference instance *)

Definition is_visible (b : byte) : bool := in_range 0x20 0x7e b.

Definition is_token (b : byte) : bool :=
  in_range 0x61 0x7a b || in_range 0x41 0x5a b || in_range 0x30 0x39 b ||
  bool_decide (b ∈ bs "!#$%&'*+-.^_`|~").

Definition to_lower (b : byte) : byte :=
  if in_range 0x41 0x5a b then z2b (b2z b + 32) else b.

Definition ref_header_name (s : bytes) : option bytes :=
  if bool_decide (s <> []) && forallb is_token s then Some (to_lower <$> s) else None.

Definition ref_header_value (s : bytes) : option bytes :=
  if forallb (fun b => is_visible b || in_range 0x80 0xff b || (b2z b =? 9)) s
  then Some s else None.

Fixpoint remove_name (n : bytes) (m : list (bytes * bytes)) : list (bytes * bytes) :=
  match m with
  | [] => []
  | (k, v) :: m' => if decide (k = n) then remove_name n m' else (k, v) :: remove_name n m'
  end.

Fixpoint find_name (n : bytes) (m : list (bytes * bytes)) : option bytes :=
  match m with
  | [] => None
  | (k, v) :: m' => if decide (k = n) then Some v else find_name n m'
  end.

#[export] Instance ref_http : Http := {|
  HeaderMap := list (bytes * bytes);
  HeaderName := bytes;
  HeaderValue := bytes;
  header_name := ref_header_name;
  header_value := ref_header_value;
  to_str v := if forallb is_visible v then Some v else None;
  hm_new := [];
  hm_insert n v m := (n, v) :: remove_name n m;
  hm_append n v m := m ++ [(n, v)];
  hm_get := find_name;
  hm_iter m := m;
  status_valid s := (100 <=? s) && (s <? 1000);
|}.

Lemma to_lower_plain s :
  Forall (fun b => in_range 0x61 0x7a b = true \/ b = "-"%byte) s -> to_lower <$> s = s.
Proof.
  induction 1 as [|b s Hb _ IH]; cbn; [done|]. f_equal; [|done].
  unfold to_lower, in_range in *. case_match; [|done].
  destruct Hb as [?| ->]; [lia|]. cbn in *. lia.
Qed.

Lemma forallb_Forall {A} (p : A -> bool) l :
  forallb p l = true <-> Forall (fun x => p x = true) l.
Proof. rewrite forallb_forall, Forall_forall. by setoid_rewrite list_elem_of_In. Qed.

#[export] Instance ref_http_spec : HttpSpec.
Proof.
  constructor; cbn.
  - done.
  - intros n v m. by rewrite decide_True.
  - intros n n' v m Hn. rewrite decide_False by congruence.
    induction m as [|[k w] m IH]; cbn; [done|].
    repeat (case_decide; cbn); congruence.
  - intros n v m. induction m as [|[k w] m IH]; cbn; [by rewrite decide_True|].
    by case_decide.
  - intros n n' v m Hn. induction m as [|[k w] m IH]; cbn.
    + by rewrite decide_False by congruence.
    + by case_decide.
  - intros s Hs Hp. unfold ref_header_name. rewrite bool_decide_eq_true_2 by done. cbn.
    rewrite (proj2 (forallb_Forall _ _)); [done|]. eapply Forall_impl; [exact Hp|].
    intros b [Hb| ->]; unfold is_token; [by rewrite Hb|done].
  - intros s1 s2 n H1 H2. unfold ref_header_name. do 2 (case_match; [|done]).
    rewrite !to_lower_plain by done. congruence.
  - intros s Hs. exists s. unfold ref_header_value. split.
    + rewrite (proj2 (forallb_Forall _ _)); [done|]. eapply Forall_impl; [exact Hs|].
      intros b Hb. unfold is_visible. by rewrite Hb.
    + rewrite (proj2 (forallb_Forall _ _)); done.
  - done.
Qed.
