(* ===== verification/Body.v ===== *)
(** * Response bodies with trailers

    [BodyWithTrailers] of [response.rs]: a body is polled for frames until it
    answers that there are none left. *)
From S2P Require Import Prelude Utf8 Http.

Section body.
Context `{Http}.

Record BodyWithTrailers : Type := MkBody {
  data : bytes;
  data_sent : bool;
  trailers_sent : bool;
  trailers : option HeaderMap;
}.

Definition BodyWithTrailers_new (data : bytes) (trailers : option HeaderMap)
    : BodyWithTrailers :=
  MkBody data false false trailers.

Definition get_data (b : BodyWithTrailers) : bytes := data b.

(** [hyper::body::Frame]. *)
Inductive Frame : Type :=
| DataFrame (d : bytes)
| TrailersFrame (t : HeaderMap).

(** [Body::poll_frame], which is always ready: the frame, or [None] at the end. *)
Definition poll_frame (b : BodyWithTrailers) : option Frame * BodyWithTrailers :=
  if negb (data_sent b) && negb (is_empty (data b)) then
    (Some (DataFrame (data b)), MkBody (data b) true (trailers_sent b) (trailers b))
  else if negb (trailers_sent b) then
    let b' := MkBody (data b) (data_sent b) true (trailers b) in
    match trailers b with
    | Some t => (Some (TrailersFrame t), b')
    | None => (None, b')
    end
  else (None, b).

(** The answers to [n] polls. *)
Fixpoint poll_n (n : nat) (b : BodyWithTrailers) : list (option Frame) :=
  match n with
  | O => []
  | S n' => let '(fr, b') := poll_frame b in fr :: poll_n n' b'
  end.

(** ** Properties *)

(** The frames a body has to send. *)
Definition body_frames (d : bytes) (t : option HeaderMap) : list Frame :=
  (if is_empty d then [] else [DataFrame d]) ++
  match t with Some t => [TrailersFrame t] | None => [] end.

Lemma poll_n_end n d s t :
  s = true \/ d = [] -> poll_n n (MkBody d s true t) = replicate n None.
Proof.
  intros Hs. induction n as [|n IH]; [done|]. cbn [poll_n]. unfold poll_frame.
  cbn [data data_sent trailers_sent trailers].
  replace (negb s && negb (is_empty d)) with false by (destruct Hs as [-> | ->]; [done|by destruct s]).
  cbn. by rewrite IH.
Qed.

Lemma poll_n_trailers n d s t :
  s = true \/ d = [] ->
  poll_n n (MkBody d s false t) =
  take n (Some <$> body_frames [] t) ++ replicate (n - length (body_frames [] t)) None.
Proof.
  intros Hs. destruct n as [|n]; [done|]. cbn [poll_n]. unfold poll_frame.
  cbn [data data_sent trailers_sent trailers].
  replace (negb s && negb (is_empty d)) with false by (destruct Hs as [-> | ->]; [done|by destruct s]).
  destruct t as [t|]; cbn; rewrite poll_n_end by done; by rewrite ?Nat.sub_0_r, ?take_nil.
Qed.

(** A body sends its data once, unless it is empty, then its trailers once, if it
    has them, and after that answers every poll with the end of the body. *)
Theorem poll_frame_sequence n d t :
  poll_n n (BodyWithTrailers_new d t) =
  take n (Some <$> body_frames d t) ++ replicate (n - length (body_frames d t)) None.
Proof.
  destruct d as [|b d]; [by apply poll_n_trailers; right|].
  destruct n as [|n]; [done|]. cbn. by rewrite poll_n_trailers by by left.
Qed.

(** ** Responses and their builder *)

Record HyperResponse : Type := MkHyperResponse {
  resp_status : Z;
  resp_headers : HeaderMap;
  resp_body : BodyWithTrailers;
}.

(** [hyper::Response::builder()] after its calls so far: [None] once one of them
    was given something invalid. *)
Definition builder : Type := option (Z * HeaderMap).

Definition builder_status (s : Z) : builder :=
  if status_valid s then Some (s, hm_new) else None.

Definition builder_header (name value : bytes) (b : builder) : builder :=
  '(s, m) ← b;
  n ← header_name name;
  v ← header_value value;
  Some (s, hm_append n v m).

Definition builder_body (body : BodyWithTrailers) (b : builder) : option HyperResponse :=
  '(s, m) ← b;
  Some (MkHyperResponse s m body).

(** [Option::unwrap] and [Result::unwrap]. *)
Definition unwrap {A} (o : option A) : outcome A :=
  match o with
  | Some a => Ret a
  | None => Panic
  end.

(** [map.insert(name, value.parse().unwrap())] with a static name. *)
Definition insert_str (name value : bytes) (m : HeaderMap) : outcome HeaderMap :=
  let* v := unwrap (header_value value) in
  let* n := unwrap (header_name name) in
  Ret (hm_insert n v m).
End body.
Arguments unwrap {A} o.

(** ** Names and values that are known to be valid *)

Definition plain_name (s : bytes) : Prop :=
  s <> [] /\ Forall (fun b => in_range 0x61 0x7a b = true \/ b = "-"%byte) s.

Definition visible (s : bytes) : Prop := Forall (fun b => in_range 0x20 0x7e b = true) s.

#[export] Instance plain_name_dec s : Decision (plain_name s).
Proof. unfold plain_name. apply _. Defined.

#[export] Instance visible_dec s : Decision (visible s).
Proof. unfold visible. apply _. Defined.

Section valid_names.
Context `{HttpSpec}.

Lemma insert_str_Ret name value m :
  plain_name name -> visible value ->
  exists m', insert_str name value m = Ret m' /\
    (hm_get_str name m' ≫= to_str) = Some value /\
    (forall other, plain_name other -> other <> name ->
       hm_get_str other m' = hm_get_str other m).
Proof.
  intros [Hne Hn] Hv. destruct (header_name_plain name Hne Hn) as [n En].
  destruct (header_value_visible value Hv) as (v & Ev & Hto).
  exists (hm_insert n v m). unfold insert_str, hm_get_str. rewrite Ev, En. cbn.
  rewrite hm_get_insert_eq. split_and!; [done|done|].
  intros other [Hone Ho] Hd. destruct (header_name other) as [o|] eqn:Eo; [|done]. cbn.
  apply hm_get_insert_ne. intros ->. apply Hd. by eapply header_name_inj.
Qed.

(** A builder given a valid status and one valid header. *)
Lemma builder_one_header s name value body :
  status_valid s = true -> plain_name name -> visible value ->
  exists m, builder_body body (builder_header name value (builder_status s)) =
              Some (MkHyperResponse s m body) /\
    (hm_get_str name m ≫= to_str) = Some value /\
    (forall other, plain_name other -> other <> name -> hm_get_str other m = None).
Proof.
  intros Hs [Hne Hn] Hv. destruct (header_name_plain name Hne Hn) as [n En].
  destruct (header_value_visible value Hv) as (v & Ev & Hto).
  exists (hm_append n v hm_new).
  unfold builder_body, builder_header, builder_status, hm_get_str. rewrite Hs, En, Ev. cbn.
  rewrite hm_get_append_eq, hm_get_new. split_and!; [done|done|].
  intros other [Hone Ho] Hd. destruct (header_name other) as [o|] eqn:Eo; [|done]. cbn.
  rewrite hm_get_append_ne; [apply hm_get_new|]. intros ->. apply Hd. by eapply header_name_inj.
Qed.
End valid_names.
