(* ===== verification/Grpc.v ===== *)
(** * gRPC over HTTP

    [grpc.rs]: recognising a gRPC request, the length-prefixed message frame, and
    error responses, whose status travels in the trailers. *)
From S2P Require Import Prelude Utf8 Decimal Http Body.

Local Open Scope Z_scope.

Definition GRPC_HEADER_SIZE : Z := 5.

Section grpc.
Context `{Http}.

Definition is_grpc_request (request : HyperRequest) : bool :=
  if decide (req_method request <> bs "POST") then false
  else
    match hm_get_str (bs "content-type") (req_headers request) with
    | Some content_type =>
        match to_str content_type with
        | Some content_type_str =>
            if negb (starts_with (bs "application/grpc") content_type_str) then false
            else
              match hm_get_str (bs "te") (req_headers request) with
              | Some te =>
                  match to_str te with
                  | Some te_str =>
                      if negb (contains (bs "trailers") te_str) then false
                      else
                        match path_parts (req_path request) with
                        | [] => false
                        | _ => true
                        end
                  | None => false
                  end
              | None => false
              end
        | None => false
        end
    | None => false
    end.

(** [u32::from_be_bytes]. *)
Definition u32_from_be_bytes (b1 b2 b3 b4 : byte) : Z :=
  ((b2z b1 * 256 + b2z b2) * 256 + b2z b3) * 256 + b2z b4.

(** [put_u32], big endian. *)
Definition u32_to_be_bytes (z : Z) : bytes :=
  [z2b (z / 2 ^ 24); z2b (z / 2 ^ 16); z2b (z / 2 ^ 8); z2b z].

(** Compressed-Flag (1 byte) | Message-Length (4 bytes) | Message. *)
Definition decode_grpc_frame (frame : bytes) : outcome (option (bool * bytes)) :=
  if zlen frame <? GRPC_HEADER_SIZE then Ret None
  else
    let* b0 := index 0 frame in
    let compressed := negb (b2z b0 =? 0) in
    let* b1 := index 1 frame in
    let* b2 := index 2 frame in
    let* b3 := index 3 frame in
    let* b4 := index 4 frame in
    let message_len := u32_from_be_bytes b1 b2 b3 b4 in
    if zlen frame <? GRPC_HEADER_SIZE + message_len then Ret None
    else
      let* message := slice GRPC_HEADER_SIZE (GRPC_HEADER_SIZE + message_len) frame in
      Ret (Some (compressed, message)).

(** The message's length is cut to 32 bits by [as u32]. *)
Definition encode_grpc_frame (message : bytes) : bytes :=
  z2b 0 :: u32_to_be_bytes (zlen message mod 2 ^ 32) ++ message.

Definition create_grpc_error_response (http_status grpc_status : Z) (message : bytes)
    : outcome HyperResponse :=
  let status :=
    if (http_status =? 200) || ((400 <=? http_status) && (http_status <? 500))
    then 200 else http_status in
  let builder :=
    builder_header (bs "content-type") (bs "application/grpc+proto")
      (builder_status status) in
  let* trailers := insert_str (bs "grpc-status") (to_string grpc_status) hm_new in
  let* trailers :=
    insert_str (bs "grpc-accept-encoding") (bs "identity,gzip,deflate,zstd") trailers in
  let* trailers :=
    if negb (is_empty message) then insert_str (bs "grpc-message") message trailers
    else Ret trailers in
  unwrap (builder_body (BodyWithTrailers_new [] (Some trailers)) builder).

(** ** Properties *)

(** A request is taken for gRPC exactly when it is a POST whose content type
    starts with [application/grpc], whose TE header contains [trailers] and whose
    path is not empty. *)
Theorem is_grpc_request_iff request :
  is_grpc_request request = true <->
  req_method request = bs "POST" /\
  (exists ct, (hm_get_str (bs "content-type") (req_headers request) ≫= to_str) = Some ct /\
              bs "application/grpc" `prefix_of` ct) /\
  (exists te l r, (hm_get_str (bs "te") (req_headers request) ≫= to_str) = Some te /\
                  te = l ++ bs "trailers" ++ r) /\
  ~ Forall (.= "/"%byte) (req_path request).
Proof.
  unfold is_grpc_request. rewrite <- path_parts_nil.
  case_decide as Hm; [naive_solver|].
  destruct (hm_get_str (bs "content-type") _) as [ct|]; cbn [mbind option_bind];
    [|split; [done|by intros (_ & (? & ? & _) & _)]].
  destruct (to_str ct) as [ct_str|]; [|split; [done|by intros (_ & (? & ? & _) & _)]].
  pose proof (starts_with_spec (bs "application/grpc") ct_str) as Hct.
  destruct (starts_with _ ct_str); cbn [negb];
    [|split; [done|intros (_ & (? & [= <-] & ?%Hct) & _); done]].
  destruct (hm_get_str (bs "te") _) as [te|]; cbn [mbind option_bind];
    [|split; [done|by intros (_ & _ & (? & ? & ? & ? & _) & _)]].
  destruct (to_str te) as [te_str|];
    [|split; [done|by intros (_ & _ & (? & ? & ? & ? & _) & _)]].
  pose proof (contains_spec (bs "trailers") te_str) as Hte.
  destruct (contains _ te_str); cbn [negb]; cycle 1.
  { split; [done|]. intros (_ & _ & (? & l & r & [= <-] & E) & _).
    destruct Hte as [_ Hte]. discriminate Hte. eauto. }
  destruct (proj1 Hte eq_refl) as (l & r & E).
  destruct (path_parts _); [split; [done|by intros (_ & _ & _ & [])]|].
  split; [intros _|done]. split_and!; [done| | |done].
  - exists ct_str. split; [done|by apply Hct].
  - by exists te_str, l, r.
Qed.

Lemma u32_be_round_trip z : 0 <= z < 2 ^ 32 ->
  exists b1 b2 b3 b4, u32_to_be_bytes z = [b1; b2; b3; b4] /\ u32_from_be_bytes b1 b2 b3 b4 = z.
Proof.
  intros Hz. eexists _, _, _, _. split; [done|]. unfold u32_from_be_bytes.
  rewrite !b2z_z2b. Z.div_mod_to_equations. lia.
Qed.

(** A buffer with the five bytes of the frame header. *)
Lemma decode_grpc_frame_fields b0 b1 b2 b3 b4 rest :
  decode_grpc_frame (b0 :: b1 :: b2 :: b3 :: b4 :: rest) =
  let len := u32_from_be_bytes b1 b2 b3 b4 in
  Ret (if zlen rest <? len then None
       else Some (negb (b2z b0 =? 0), take (Z.to_nat len) rest)).
Proof.
  cbv zeta. unfold decode_grpc_frame, GRPC_HEADER_SIZE.
  assert (Hl : zlen (b0 :: b1 :: b2 :: b3 :: b4 :: rest) = 5 + zlen rest)
    by (cbn [length]; lia).
  rewrite Hl, (proj2 (Z.ltb_ge _ _)) by lia.
  change (index 0 _) with (Ret b0). change (index 1 _) with (Ret b1).
  change (index 2 _) with (Ret b2). change (index 3 _) with (Ret b3).
  change (index 4 _) with (Ret b4). cbn [obind].
  pose proof (b2z_range b1). pose proof (b2z_range b2).
  pose proof (b2z_range b3). pose proof (b2z_range b4).
  assert (0 <= u32_from_be_bytes b1 b2 b3 b4) by (unfold u32_from_be_bytes; lia).
  destruct (Z.ltb_spec (zlen rest) (u32_from_be_bytes b1 b2 b3 b4)).
  - by rewrite (proj2 (Z.ltb_lt _ _)) by lia.
  - rewrite (proj2 (Z.ltb_ge _ _)) by lia. rewrite slice_Ret by lia. cbn [obind].
    by rewrite Z.add_simpl_l.
Qed.

(** What a decoded frame is: the frame returns on every buffer, and gives a
    message exactly when the buffer starts with a flag byte, the message's length
    in four big-endian bytes and the whole message. *)
Theorem decode_grpc_frame_iff frame compressed message :
  decode_grpc_frame frame <> Panic /\
  (decode_grpc_frame frame = Ret (Some (compressed, message)) <->
   exists b0 b1 b2 b3 b4 rest,
     frame = b0 :: b1 :: b2 :: b3 :: b4 :: message ++ rest /\
     zlen message = u32_from_be_bytes b1 b2 b3 b4 /\
     compressed = negb (b2z b0 =? 0)).
Proof.
  destruct frame as [|b0 [|b1 [|b2 [|b3 [|b4 rest]]]]];
    try (split; [done|split; [done|intros (?&?&?&?&?&?&?&?); simplify_eq]]).
  rewrite decode_grpc_frame_fields. split; [done|]. split.
  - intros [= E]. destruct (Z.ltb_spec (zlen rest) (u32_from_be_bytes b1 b2 b3 b4)); [done|].
    injection E as <- <-. eexists _, _, _, _, _, (drop _ rest). split; [by rewrite take_drop|].
    split; [|done]. rewrite length_take.
    pose proof (b2z_range b1). pose proof (b2z_range b2).
    pose proof (b2z_range b3). pose proof (b2z_range b4). unfold u32_from_be_bytes in *. lia.
  - intros (?&?&?&?&?&tl & E & Hl & ->). simplify_eq. cbv zeta. rewrite <- Hl.
    rewrite length_app, (proj2 (Z.ltb_ge _ _)) by lia.
    by rewrite Nat2Z.id, take_app_length.
Qed.

Lemma decode_encode_grpc_frame message rest :
  decode_grpc_frame (encode_grpc_frame message ++ rest) =
  Ret (Some (false, take (Z.to_nat (zlen message mod 2 ^ 32)) message)).
Proof.
  unfold encode_grpc_frame.
  pose proof (Z.mod_pos_bound (zlen message) (2 ^ 32) ltac:(lia)) as Hm.
  pose proof (Z.mod_le (zlen message) (2 ^ 32) ltac:(lia) ltac:(lia)).
  destruct (u32_be_round_trip _ Hm) as (b1 & b2 & b3 & b4 & -> & Hl). cbn [app].
  rewrite decode_grpc_frame_fields, Hl. cbv zeta.
  rewrite length_app, (proj2 (Z.ltb_ge _ _)) by lia.
  by rewrite take_app_le by lia.
Qed.

(** C34. A message survives its frame exactly when its length fits the four length
    bytes; a longer one comes back cut to its length modulo 2^32. *)
Theorem grpc_frame_round_trip message rest :
  decode_grpc_frame (encode_grpc_frame message ++ rest) =
    Ret (Some (false, take (Z.to_nat (zlen message mod 2 ^ 32)) message)) /\
  (decode_grpc_frame (encode_grpc_frame message ++ rest) = Ret (Some (false, message)) <->
   zlen message < 2 ^ 32).
Proof.
  rewrite decode_encode_grpc_frame. split; [done|]. split.
  - intros [= E]. apply (f_equal length) in E. rewrite length_take in E.
    pose proof (Z.mod_pos_bound (zlen message) (2 ^ 32) ltac:(lia)). lia.
  - intros Hl. rewrite Z.mod_small by lia. by rewrite Nat2Z.id, firstn_all.
Qed.
End grpc.

Section grpc_errors.
Context `{HttpSpec}.

Lemma to_string_visible z : 0 <= z -> visible (to_string z).
Proof.
  intros Hz. eapply Forall_impl; [by apply to_string_digits|].
  unfold is_digit, in_range. intros b Hb. lia.
Qed.

(** The status line of an error: application errors are told by [grpc-status]. *)
Definition grpc_http_status (http_status : Z) : Z :=
  if (http_status =? 200) || ((400 <=? http_status) && (http_status <? 500))
  then 200 else http_status.

(** The trailers every gRPC answer carries. *)
Definition grpc_trailers_ok (grpc_status : Z) (message : bytes) (t : HeaderMap) : Prop :=
  (hm_get_str (bs "grpc-status") t ≫= to_str) = Some (to_string grpc_status) /\
  (hm_get_str (bs "grpc-accept-encoding") t ≫= to_str) = Some (bs "identity,gzip,deflate,zstd") /\
  (hm_get_str (bs "grpc-message") t ≫= to_str) =
    if is_empty message then None else Some message.

(** Both kinds of answer build their trailers this way. *)
Lemma grpc_trailers_build grpc_status message :
  0 <= grpc_status -> visible message ->
  exists t,
    (let* trailers := insert_str (bs "grpc-status") (to_string grpc_status) hm_new in
     let* trailers :=
       insert_str (bs "grpc-accept-encoding") (bs "identity,gzip,deflate,zstd") trailers in
     if negb (is_empty message) then insert_str (bs "grpc-message") message trailers
     else Ret trailers) = Ret t /\
    grpc_trailers_ok grpc_status message t.
Proof.
  intros Hs Hm.
  destruct (insert_str_Ret (bs "grpc-status") (to_string grpc_status) hm_new)
    as (t1 & -> & G1 & N1); [decides|by apply to_string_visible|]. cbn [obind].
  destruct (insert_str_Ret (bs "grpc-accept-encoding") (bs "identity,gzip,deflate,zstd") t1)
    as (t2 & -> & G2 & N2); [decides|decides|]. cbn [obind].
  unfold grpc_trailers_ok. destruct (is_empty message); cbn [negb].
  - exists t2. split; [done|]. rewrite N2, G1, G2, N2, N1 by (decides || done).
    split_and!; [done|done|]. unfold hm_get_str.
    destruct (header_name (bs "grpc-message")); cbn; [by rewrite hm_get_new|done].
  - destruct (insert_str_Ret (bs "grpc-message") message t2) as (t3 & -> & G3 & N3);
      [decides|done|].
    exists t3. split; [done|]. rewrite G3, !N3, N2, G1, G2 by (decides || done). done.
Qed.

Lemma create_grpc_error_response_ok http_status grpc_status message :
  100 <= http_status < 1000 -> 0 <= grpc_status -> visible message ->
  exists resp t,
    create_grpc_error_response http_status grpc_status message = Ret resp /\
    resp_status resp = grpc_http_status http_status /\
    (hm_get_str (bs "content-type") (resp_headers resp) ≫= to_str) =
      Some (bs "application/grpc+proto") /\
    resp_body resp = BodyWithTrailers_new [] (Some t) /\
    grpc_trailers_ok grpc_status message t.
Proof.
  intros Hh Hg Hm. unfold create_grpc_error_response.
  destruct (grpc_trailers_build grpc_status message Hg Hm) as (t & Ht & Hok).
  destruct (builder_one_header (grpc_http_status http_status) (bs "content-type")
              (bs "application/grpc+proto") (BodyWithTrailers_new [] (Some t)))
    as (m & Hb & Hct & _); [|decides|decides|].
  { rewrite status_valid_spec. unfold grpc_http_status.
    destruct (_ || _); lia. }
  exists (MkHyperResponse (grpc_http_status http_status) m (BodyWithTrailers_new [] (Some t))), t.
  split; [|done]. revert Ht.
  destruct (insert_str _ (to_string _) _) as [t1|]; [|done]. cbn [obind].
  destruct (insert_str (bs "grpc-accept-encoding") _ _) as [t2|]; [|done]. cbn [obind].
  intros ->. cbn [obind]. fold (grpc_http_status http_status). by rewrite Hb.
Qed.

(** An error response carries its gRPC status and message in the trailers of an
    empty body; an HTTP 200 or 4xx status is reported as 200 and any other status
    stands. *)
Theorem grpc_error_response http_status grpc_status message :
  100 <= http_status < 1000 -> 0 <= grpc_status -> visible message ->
  exists resp t,
    create_grpc_error_response http_status grpc_status message = Ret resp /\
    resp_status resp = grpc_http_status http_status /\
    (hm_get_str (bs "content-type") (resp_headers resp) ≫= to_str) =
      Some (bs "application/grpc+proto") /\
    resp_body resp = BodyWithTrailers_new [] (Some t) /\
    grpc_trailers_ok grpc_status message t.
Proof. apply create_grpc_error_response_ok. Qed.
End grpc_errors.

(** ** Witness *)

Lemma grpc_error_response_witness :
  exists resp t,
    create_grpc_error_response 429 8 (bs "busy") = Ret resp /\
    resp_status resp = grpc_http_status 429 /\
    (hm_get_str (bs "content-type") (resp_headers resp) ≫= to_str) =
      Some (bs "application/grpc+proto") /\
    resp_body resp = BodyWithTrailers_new [] (Some t) /\
    grpc_trailers_ok 8 (bs "busy") t.
Proof. apply (grpc_error_response 429 8 (bs "busy")); [lia | lia | decides]. Defined.
