(* ===== verification/Response.v ===== *)
(** * Responses built by Ruby handlers

    [response.rs]: [Response] and [GrpcResponse] wrap a [HyperResponse].  A Ruby
    hash is its entries in order; converting a key or value to a Rust [String] is
    the bridge's and is a parameter. *)
From S2P Require Import Prelude Utf8 Decimal Http Body Grpc.

Local Open Scope Z_scope.

(** [magnus]: Ruby values and the conversions the source asks for. *)
Class Magnus := {
  Value : Type;
  string_try_convert : Value -> option bytes;
  bool_try_convert : Value -> option bool;
  uint_try_convert : Z -> Value -> option Z;   (** an unsigned integer up to a maximum *)
  to_bool : Value -> bool;                     (** Ruby truthiness *)
  u32_into_value : Z -> Value;
}.

(** An error raised into Ruby. *)
Inductive MagnusError : Type :=
| RuntimeError (msg : bytes)
| TypeError.

Section response.
Context `{Http, Magnus}.

Record Response : Type := MkResponse { response : HyperResponse }.
Record GrpcResponse : Type := MkGrpcResponse { grpc_response : HyperResponse }.

(** The closure of [headers.foreach], over the rest of the hash; a failed
    conversion ends the iteration with an error, which is unwrapped. *)
Fixpoint insert_headers (entries : list (Value * Value)) (m : HeaderMap) : outcome HeaderMap :=
  match entries with
  | [] => Ret m
  | (key, value) :: entries' =>
      let* key := unwrap (string_try_convert key) in
      let* value := unwrap (string_try_convert value) in
      let* header_name := unwrap (header_name key) in
      let* value := unwrap (header_value value) in
      insert_headers entries' (hm_insert header_name value m)
  end.

Definition Response_new (status : Z) (headers : list (Value * Value)) (body : bytes)
    : outcome (result Response MagnusError) :=
  let builder := builder_status status in
  let* (s, m) := unwrap builder in
  let* m := insert_headers headers m in
  let rust_body := if 0 <? zlen body then body else [] in
  let len := if 0 <? zlen body then to_string (zlen rust_body) else bs "0" in
  let* m := insert_str (bs "content-length") len m in
  match builder_body (BodyWithTrailers_new rust_body None) (Some (s, m)) with
  | Some response => Ret (Ok (MkResponse response))
  | None => Ret (Err (RuntimeError (bs "Failed to create response")))
  end.

Definition Response_status (r : Response) : Z := resp_status (response r).

(** [headers.aset(name, value.to_str().unwrap())] for each header. *)
Fixpoint headers_to_hash (hs : list (bytes * HeaderValue)) : outcome (list (bytes * bytes)) :=
  match hs with
  | [] => Ret []
  | (name, value) :: hs' =>
      let* v := unwrap (to_str value) in
      let* rest := headers_to_hash hs' in
      Ret ((name, v) :: rest)
  end.

Definition Response_headers (r : Response) : outcome (list (bytes * bytes)) :=
  headers_to_hash (hm_iter (resp_headers (response r))).

Definition Response_body (r : Response) : bytes := get_data (resp_body (response r)).
Definition Response_into_hyper_response (r : Response) : HyperResponse := response r.

Definition GrpcResponse_new (status : Z) (body : bytes)
    : outcome (result GrpcResponse MagnusError) :=
  let builder :=
    builder_header (bs "content-type") (bs "application/grpc+proto") (builder_status 200) in
  let framed_message := encode_grpc_frame body in
  let* trailers := insert_str (bs "grpc-status") (to_string status) hm_new in
  let* trailers :=
    insert_str (bs "grpc-accept-encoding") (bs "identity,gzip,deflate,zstd") trailers in
  let* r := unwrap (builder_body (BodyWithTrailers_new framed_message (Some trailers)) builder) in
  Ret (Ok (MkGrpcResponse r)).

(** The message is a Ruby string; [as_str().unwrap()] wants it to be UTF-8. *)
Definition GrpcResponse_error (status : Value) (message : bytes)
    : outcome (result GrpcResponse MagnusError) :=
  match uint_try_convert (2 ^ 32 - 1) status with
  | None => Ret (Err TypeError)
  | Some status_num =>
      let* message_str := unwrap (if from_utf8 message then Some message else None) in
      let builder :=
        builder_header (bs "content-type") (bs "application/grpc+proto") (builder_status 200) in
      let* trailers := insert_str (bs "grpc-status") (to_string status_num) hm_new in
      let* trailers :=
        insert_str (bs "grpc-accept-encoding") (bs "identity,gzip,deflate,zstd") trailers in
      let* trailers :=
        if negb (is_empty message_str)
        then insert_str (bs "grpc-message") message_str trailers else Ret trailers in
      let* r := unwrap (builder_body (BodyWithTrailers_new [] (Some trailers)) builder) in
      Ret (Ok (MkGrpcResponse r))
  end.

Definition GrpcResponse_status (r : GrpcResponse) : Z :=
  match hm_get_str (bs "grpc-status") (resp_headers (grpc_response r)) with
  | Some status =>
      match to_str status with
      | Some status_str =>
          match parse_u16 status_str with
          | Some status_num => status_num
          | None => 0
          end
      | None => 0
      end
  | None => 0
  end.

Definition GrpcResponse_headers (r : GrpcResponse) : outcome (list (bytes * bytes)) :=
  headers_to_hash (hm_iter (resp_headers (grpc_response r))).

Definition GrpcResponse_body (r : GrpcResponse) : outcome bytes :=
  let* decoded := decode_grpc_frame (get_data (resp_body (grpc_response r))) in
  match decoded with
  | Some (_, message) => Ret message
  | None => Ret []
  end.

Definition GrpcResponse_into_hyper_response (r : GrpcResponse) : HyperResponse :=
  grpc_response r.
End response.

(** ** Properties *)

Section response_props.
Context `{HttpSpec, Magnus}.
Implicit Types (body message : bytes).

(** A hash entry that makes a header. *)
Definition entry_ok (e : Value * Value) : Prop :=
  is_Some (string_try_convert e.1 ≫= header_name) /\
  is_Some (string_try_convert e.2 ≫= header_value).

Lemma insert_headers_Ret entries m :
  (exists m', insert_headers entries m = Ret m') <-> Forall entry_ok entries.
Proof.
  revert m; induction entries as [|[k v] entries IH]; intros m; cbn [insert_headers].
  { split; [by constructor|by eauto]. }
  rewrite Forall_cons. unfold entry_ok at 1. cbn.
  destruct (string_try_convert k) as [ks|]; cbn; [|by split; [intros []|intros [[[]] _]]].
  destruct (string_try_convert v) as [vs|]; cbn; [|by split; [intros []|intros [[_ []] _]]].
  destruct (header_name ks) as [n|]; cbn; [|by split; [intros []|intros [[[]] _]]].
  destruct (header_value vs) as [w|]; cbn; [|by split; [intros []|intros [[_ []] _]]].
  rewrite IH. naive_solver.
Qed.

Lemma content_length_body body :
  (if 0 <? zlen body then body else []) = body /\
  (if 0 <? zlen body then to_string (zlen body) else bs "0") = to_string (zlen body).
Proof. by destruct body. Qed.

(** [Response::new] never reports an error to Ruby: it returns a response exactly
    when the status is a three digit one and every entry of the hash makes a
    header, and panics otherwise. *)
Theorem Response_new_returns status headers body :
  (exists r, Response_new status headers body = Ret (Ok r)) <->
  100 <= status < 1000 /\ Forall entry_ok headers.
Proof.
  unfold Response_new, builder_status. rewrite status_valid_spec.
  rewrite <- (insert_headers_Ret headers hm_new).
  destruct (content_length_body body) as [Eb El].
  destruct ((100 <=? status) && (status <? 1000)) eqn:Hs; cbn [unwrap obind];
    [|split; [by intros []|lia]].
  destruct (insert_headers headers hm_new) as [m|]; cbn [obind];
    [|split; [by intros []|by intros [_ []]]].
  rewrite Eb, El.
  destruct (insert_str_Ret (bs "content-length") (to_string (zlen body)) m) as (m' & -> & _);
    [decides|apply to_string_visible; lia|].
  cbn. split; [intros _; split; [lia|eauto]|eauto].
Qed.

(** A response reads back as it was built: its status and body are those given,
    its content length is that of the body whatever the hash said, and its body
    has no trailers. *)
Theorem Response_new_readback status headers body r :
  Response_new status headers body = Ret r ->
  exists resp, r = Ok resp /\ Response_status resp = status /\ Response_body resp = body /\
    (hm_get_str (bs "content-length") (resp_headers (Response_into_hyper_response resp))
       ≫= to_str) = Some (to_string (zlen body)) /\
    resp_body (Response_into_hyper_response resp) = BodyWithTrailers_new body None.
Proof.
  unfold Response_new, builder_status. destruct (content_length_body body) as [Eb El].
  destruct (status_valid status); cbn [unwrap obind]; [|done].
  destruct (insert_headers headers hm_new) as [m|]; cbn [obind]; [|done].
  rewrite Eb, El.
  destruct (insert_str_Ret (bs "content-length") (to_string (zlen body)) m) as (m' & -> & G & _);
    [decides|apply to_string_visible; lia|].
  cbn. intros [= <-]. eexists. split; [done|]. done.
Qed.

Lemma GrpcResponse_new_built status body :
  0 <= status ->
  exists resp t,
    GrpcResponse_new status body = Ret (Ok (MkGrpcResponse resp)) /\
    resp_status resp = 200 /\
    hm_get_str (bs "grpc-status") (resp_headers resp) = None /\
    resp_body resp = BodyWithTrailers_new (encode_grpc_frame body) (Some t) /\
    grpc_trailers_ok status [] t.
Proof.
  intros Hs. unfold GrpcResponse_new.
  destruct (grpc_trailers_build status [] Hs ltac:(constructor)) as (t & Ht & Hok).
  destruct (builder_one_header 200 (bs "content-type") (bs "application/grpc+proto")
              (BodyWithTrailers_new (encode_grpc_frame body) (Some t)))
    as (m & Hb & _ & Hn); [by rewrite status_valid_spec|decides|decides|].
  exists (MkHyperResponse 200 m (BodyWithTrailers_new (encode_grpc_frame body) (Some t))), t.
  split_and!; [|done| |done|done].
  - revert Ht. destruct (insert_str _ (to_string _) _) as [t1|]; [|done]. cbn [obind].
    destruct (insert_str (bs "grpc-accept-encoding") _ _) as [t2|]; [|done].
    cbn [obind is_empty negb]. intros [= ->]. by rewrite Hb.
  - apply Hn; decides.
Qed.

(** A gRPC answer: HTTP 200, its message in one frame that reads back, its status
    in the trailers.  [GrpcResponse#status] looks for that status among the
    headers, so it is 0 whatever status the answer was built with. *)
Theorem GrpcResponse_new_readback status body :
  0 <= status -> zlen body < 2 ^ 32 ->
  exists resp t,
    GrpcResponse_new status body = Ret (Ok resp) /\
    resp_status (GrpcResponse_into_hyper_response resp) = 200 /\
    GrpcResponse_body resp = Ret body /\
    trailers (resp_body (GrpcResponse_into_hyper_response resp)) = Some t /\
    grpc_trailers_ok status [] t /\
    GrpcResponse_status resp = 0.
Proof.
  intros Hs Hb. destruct (GrpcResponse_new_built status body Hs) as (resp & t & E & H200 & Hn & Hbody & Ht).
  exists (MkGrpcResponse resp), t. unfold GrpcResponse_body, GrpcResponse_status. cbn.
  rewrite Hbody, Hn. cbn. split_and!; [done|done| |done|done|done].
  rewrite <- (app_nil_r (encode_grpc_frame body)), decode_encode_grpc_frame. cbn.
  by rewrite Z.mod_small, Nat2Z.id, firstn_all by lia.
Qed.

(** A gRPC error answer: a status that is no 32-bit unsigned integer is a Ruby
    error; otherwise the answer is an HTTP 200 with no body, its status and
    message in the trailers, and reads back as an empty body with status 0. *)
Theorem GrpcResponse_error_readback status message :
  visible message ->
  (uint_try_convert (2 ^ 32 - 1) status = None ->
     GrpcResponse_error status message = Ret (Err TypeError)) /\
  (forall n, uint_try_convert (2 ^ 32 - 1) status = Some n -> 0 <= n ->
     exists resp t,
       GrpcResponse_error status message = Ret (Ok resp) /\
       resp_status (GrpcResponse_into_hyper_response resp) = 200 /\
       GrpcResponse_body resp = Ret [] /\
       trailers (resp_body (GrpcResponse_into_hyper_response resp)) = Some t /\
       grpc_trailers_ok n message t /\
       GrpcResponse_status resp = 0).
Proof.
  intros Hm. unfold GrpcResponse_error. split; [by intros ->|]. intros n -> Hn.
  rewrite (from_utf8_ascii message); cycle 1.
  { eapply Forall_impl; [exact Hm|]. unfold in_range. intros b Hb. lia. }
  cbn [unwrap obind].
  destruct (grpc_trailers_build n message Hn Hm) as (t & Ht & Hok).
  destruct (builder_one_header 200 (bs "content-type") (bs "application/grpc+proto")
              (BodyWithTrailers_new [] (Some t)))
    as (m & Hb & _ & Hnone); [by rewrite status_valid_spec|decides|decides|].
  eexists (MkGrpcResponse (MkHyperResponse 200 m (BodyWithTrailers_new [] (Some t)))), t.
  split_and!; [|done|done|done|done|].
  - revert Ht. destruct (insert_str _ (to_string _) _) as [t1|]; [|done]. cbn [obind].
    destruct (insert_str (bs "grpc-accept-encoding") _ _) as [t2|]; [|done]. cbn [obind].
    intros ->. cbn [obind]. by rewrite Hb.
  - unfold GrpcResponse_status. cbn. by rewrite Hnone by decides.
Qed.
End response_props.

(** ** A reference bridge, and witnesses *)

Inductive ref_value : Type :=
| RNil
| RBool (b : bool)
| RInt (z : Z)
| RString (s : bytes).

Definition ref_uint (max : Z) (v : ref_value) : option Z :=
  match v with
  | RInt z => if (0 <=? z) && (z <=? max) then Some z else None
  | _ => None
  end.

#[export] Instance ref_magnus : Magnus := {|
  Value := ref_value;
  string_try_convert v := match v with RString s => Some s | _ => None end;
  bool_try_convert v := match v with RNil => Some false | RBool b => Some b | _ => Some true end;
  uint_try_convert := ref_uint;
  to_bool v := match v with RNil | RBool false => false | _ => true end;
  u32_into_value := RInt;
|}.

Definition plain_response : HyperResponse :=
  MkHyperResponse 200 [(bs "content-length", bs "5"); (bs "content-type", bs "text/plain")]
    (BodyWithTrailers_new (bs "hello") None).

(** A content length in the hash is overwritten. *)
Lemma Response_new_readback_witness :
  exists resp, Ok (MkResponse plain_response) = Ok (E := MagnusError) resp /\
    Response_status resp = 200 /\ Response_body resp = bs "hello" /\
    (hm_get_str (bs "content-length") (resp_headers (Response_into_hyper_response resp))
       ≫= to_str) = Some (to_string (zlen (bs "hello"))) /\
    resp_body (Response_into_hyper_response resp) = BodyWithTrailers_new (bs "hello") None.
Proof.
  apply (@Response_new_readback ref_http ref_http_spec ref_magnus 200
           [(RString (bs "Content-Type"), RString (bs "text/plain"));
            (RString (bs "Content-Length"), RString (bs "9"))] (bs "hello")).
  reflexivity.
Defined.

Lemma GrpcResponse_new_readback_witness :
  exists resp t,
    GrpcResponse_new 5 (bs "hi") = Ret (Ok resp) /\
    resp_status (GrpcResponse_into_hyper_response resp) = 200 /\
    GrpcResponse_body resp = Ret (bs "hi") /\
    trailers (resp_body (GrpcResponse_into_hyper_response resp)) = Some t /\
    grpc_trailers_ok 5 [] t /\
    GrpcResponse_status resp = 0.
Proof. apply (GrpcResponse_new_readback 5 (bs "hi")); [lia | reflexivity]. Defined.

Lemma GrpcResponse_error_readback_witness :
  (uint_try_convert (2 ^ 32 - 1) (RInt 5) = None ->
     GrpcResponse_error (RInt 5) (bs "no") = Ret (Err TypeError)) /\
  (forall n, uint_try_convert (2 ^ 32 - 1) (RInt 5) = Some n -> 0 <= n ->
     exists resp t,
       GrpcResponse_error (RInt 5) (bs "no") = Ret (Ok resp) /\
       resp_status (GrpcResponse_into_hyper_response resp) = 200 /\
       GrpcResponse_body resp = Ret [] /\
       trailers (resp_body (GrpcResponse_into_hyper_response resp)) = Some t /\
       grpc_trailers_ok n (bs "no") t /\
       GrpcResponse_status resp = 0).
Proof. apply (@GrpcResponse_error_readback ref_http ref_http_spec ref_magnus (RInt 5) (bs "no")). decides. Defined.
