(* ===== verification/Request.v ===== *)
(** * Requests as Ruby handlers see them

    [request.rs]: [Request] and [GrpcRequest], their readers, and the copy of a
    body into a Ruby string, which goes through raw pointers. *)
From S2P Require Import Prelude Utf8 Decimal Http Body Grpc.

Local Open Scope Z_scope.

(** ** Filling a Ruby string *)

(** A Ruby string: its content, the capacity of its buffer, and whether it is
    frozen. *)
Record rstring : Type := MkRString {
  rs_capacity : Z;
  rs_content : bytes;
  rs_frozen : bool;
}.

(** The C functions that size a string's buffer.  On a string that is not frozen
    [rb_str_modify] only unshares the buffer and is the identity here; on a frozen
    one both it and [rb_str_modify_expand] raise. *)
Class RubyStrings := {
  rb_str_modify_expand : rstring -> Z -> rstring;
  rb_str_buf_new : Z -> rstring;               (** [RString::buf_new] *)
}.

(** A new string has the capacity asked for and is not frozen; expanding makes room for as many more
    bytes after the content, which is not the same as after the capacity. *)
Class RubyStringsSpec `{RubyStrings} := {
  rb_str_buf_new_capacity n : 0 <= n -> n <= rs_capacity (rb_str_buf_new n);
  rb_str_buf_new_frozen n : rs_frozen (rb_str_buf_new n) = false;
  rb_str_modify_expand_capacity s n :
    0 <= n -> zlen (rs_content s) + n <= rs_capacity (rb_str_modify_expand s n);
}.

(** How a fill ends: the string as it is left, [FrozenError], or a copy that would
    write past the end of the string's buffer. *)
Inductive filled : Type :=
| Filled (len : Z) (s : rstring)
| RaisesFrozenError
| WritesPastEnd.

(** The trait [FillBuffer]. *)
Class FillBuffer (T : Type) := {
  get_body_bytes : T -> outcome bytes;
  get_body_size : T -> outcome Z;
}.

Section fill.
Context `{RubyStrings} {T : Type} `{!FillBuffer T}.

(** [body_bytes.len().try_into().unwrap()] wants the length to be an [i64]. *)
Definition fill_buffer (self : T) (buffer : rstring) : outcome filled :=
  let* body_bytes := get_body_bytes self in
  let* body_len := unwrap (if zlen body_bytes <? 2 ^ 63 then Some (zlen body_bytes) else None) in
  let existing_capacity := rs_capacity buffer in
  if rs_frozen buffer then Ret RaisesFrozenError else
  let buffer :=
    if existing_capacity <? body_len
    then rb_str_modify_expand buffer (body_len - existing_capacity) else buffer in
  if (0 <? body_len) && (rs_capacity buffer <? body_len) then Ret WritesPastEnd
  else Ret (Filled body_len (MkRString (rs_capacity buffer) body_bytes false)).

(** [body()]: a string made large enough, then filled. *)
Definition read_body (self : T) : outcome filled :=
  let* size := get_body_size self in
  fill_buffer self (rb_str_buf_new size).
End fill.

(** ** Requests *)

(** [form_urlencoded::parse]. *)
Class FormUrlencoded := form_parse : bytes -> list (bytes * bytes).

(** [RHash::aset]: replace the value of a key, or add the key at the end. *)
Fixpoint aset (key value : bytes) (h : list (bytes * bytes)) : list (bytes * bytes) :=
  match h with
  | [] => [(key, value)]
  | (k, v) :: h' => if decide (k = key) then (k, value) :: h' else (k, v) :: aset key value h'
  end.

Fixpoint hash_get (key : bytes) (h : list (bytes * bytes)) : option bytes :=
  match h with
  | [] => None
  | (k, v) :: h' => if decide (k = key) then Some v else hash_get key h'
  end.

Section request.
Context `{Http, FormUrlencoded}.

Record Request : Type := MkRequest { request : HyperRequest }.

Record GrpcRequest : Type := MkGrpcRequest {
  grpc_request : HyperRequest;
  service : bytes;
  grpc_method : bytes;
}.

#[export] Instance Request_FillBuffer : FillBuffer Request := {|
  get_body_bytes self := Ret (req_body (request self));
  get_body_size self := Ret (zlen (req_body (request self)));
|}.

#[export] Instance GrpcRequest_FillBuffer : FillBuffer GrpcRequest := {|
  get_body_bytes self :=
    let* decoded := decode_grpc_frame (req_body (grpc_request self)) in
    match decoded with
    | Some (_, message) => Ret message
    | None => Ret []
    end;
  get_body_size self :=
    let* decoded := decode_grpc_frame (req_body (grpc_request self)) in
    match decoded with
    | Some (_, message) => Ret (zlen message)
    | None => Ret 0
    end;
|}.

Definition Request_new (r : HyperRequest) : Request := MkRequest r.
Definition Request_method (self : Request) : bytes := req_method (request self).
Definition Request_path (self : Request) : bytes := req_path (request self).

(** A header value as a Ruby string, [nil] when it is not visible ASCII. *)
Definition header_string (v : option HeaderValue) : option bytes :=
  match v with
  | Some value =>
      match to_str value with
      | Some value => Some value
      | None => None
      end
  | None => None
  end.

Definition Request_host (self : Request) : option bytes :=
  match req_host (request self) with
  | Some host => Some host
  | None => header_string (hm_get_str (bs "host") (req_headers (request self)))
  end.

Definition query_params (self : Request) : list (bytes * bytes) :=
  match req_query (request self) with
  | Some query => foldl (fun params '(key, value) => aset key value params) [] (form_parse query)
  | None => []
  end.

(** The loop of [query_param]: the first parameter with the key. *)
Fixpoint find_param (key : bytes) (params : list (bytes * bytes)) : option bytes :=
  match params with
  | [] => None
  | (param_key, value) :: params' =>
      if decide (param_key = key) then Some value else find_param key params'
  end.

(** The key is a Ruby string; [as_str().unwrap()] wants it to be UTF-8. *)
Definition query_param (self : Request) (key : bytes) : outcome (option bytes) :=
  let* key_str := unwrap (if from_utf8 key then Some key else None) in
  match req_query (request self) with
  | Some query => Ret (find_param key_str (form_parse query))
  | None => Ret None
  end.

Definition headers_hash (hs : list (bytes * HeaderValue)) : list (bytes * bytes) :=
  foldl (fun h '(name, value) =>
           match to_str value with
           | Some value_str => aset name value_str h
           | None => h
           end) [] hs.

Definition Request_header (self : Request) (key : bytes) : outcome (option bytes) :=
  let* key_str := unwrap (if from_utf8 key then Some key else None) in
  Ret (header_string (hm_get_str key_str (req_headers (request self)))).

Definition Request_headers (self : Request) : list (bytes * bytes) :=
  headers_hash (hm_iter (req_headers (request self))).

Definition Request_inspect (self : Request) : outcome bytes :=
  let query := default [] (req_query (request self)) in
  let query_display := if negb (is_empty query) then bs "?" ++ query else [] in
  let* body_size := get_body_size self in
  Ret (bs "#<HyperRuby::Request method=" ++ Request_method self ++ bs " path=" ++
       Request_path self ++ query_display ++ bs " body_size=" ++ to_string body_size ++ bs ">").

(** [None] for an empty path; one part names both the service and the method. *)
Definition GrpcRequest_new (r : HyperRequest) : option GrpcRequest :=
  match path_parts (req_path r) with
  | [] => None
  | [part] => Some (MkGrpcRequest r (bs "echo." ++ part) part)
  | part0 :: part1 :: _ => Some (MkGrpcRequest r part0 part1)
  end.

Definition GrpcRequest_service (self : GrpcRequest) : bytes := service self.
Definition GrpcRequest_method (self : GrpcRequest) : bytes := grpc_method self.

Definition GrpcRequest_header (self : GrpcRequest) (key : bytes) : outcome (option bytes) :=
  let* key_str := unwrap (if from_utf8 key then Some key else None) in
  Ret (header_string (hm_get_str key_str (req_headers (grpc_request self)))).

Definition GrpcRequest_headers (self : GrpcRequest) : list (bytes * bytes) :=
  headers_hash (hm_iter (req_headers (grpc_request self))).

Definition is_compressed (self : GrpcRequest) : outcome bool :=
  let* decoded := decode_grpc_frame (req_body (grpc_request self)) in
  match decoded with
  | Some (compressed, _) => Ret compressed
  | None => Ret false
  end.

Definition GrpcRequest_inspect (self : GrpcRequest) : outcome bytes :=
  let* body_size := get_body_size self in
  Ret (bs "#<HyperRuby::GrpcRequest service=" ++ service self ++ bs " method=" ++
       grpc_method self ++ bs " body_size=" ++ to_string body_size ++ bs ">").
End request.

(** ** Properties *)

(** What the trait promises its default method: the size is that of the bytes. *)
Class FillBufferSpec (T : Type) `{!FillBuffer T} :=
  fill_buffer_size (self : T) :
    exists b, get_body_bytes self = Ret b /\ get_body_size self = Ret (zlen b).

#[export] Instance Request_FillBufferSpec `{Http} : FillBufferSpec Request.
Proof. intros self. by exists (req_body (request self)). Qed.

#[export] Instance GrpcRequest_FillBufferSpec `{Http} : FillBufferSpec GrpcRequest.
Proof.
  intros self. cbn. destruct (decode_grpc_frame (req_body (grpc_request self))) as [o|] eqn:E.
  - destruct o as [[c m]|]; cbn; eauto.
  - exfalso. revert E. generalize (req_body (grpc_request self)).
    intros [|b0 [|b1 [|b2 [|b3 [|b4 rest]]]]]; try done. by rewrite decode_grpc_frame_fields.
Qed.

Lemma fill_buffer_cases `{RubyStrings} {T : Type} `{!FillBuffer T} (self : T) buffer b :
  get_body_bytes self = Ret b -> zlen b < 2 ^ 63 ->
  let cap := rs_capacity (if rs_capacity buffer <? zlen b
               then rb_str_modify_expand buffer (zlen b - rs_capacity buffer) else buffer) in
  fill_buffer self buffer =
    Ret (if rs_frozen buffer then RaisesFrozenError
         else if (0 <? zlen b) && (cap <? zlen b) then WritesPastEnd
         else Filled (zlen b) (MkRString cap b false)).
Proof.
  intros Hb Hl. unfold fill_buffer. rewrite Hb. cbn [obind].
  rewrite (proj2 (Z.ltb_lt (zlen b) _)) by done. cbn [unwrap obind].
  destruct (rs_frozen buffer); [done|]. by case_match.
Qed.

Section body_props.
Context `{RubyStrings, !RubyStringsSpec} {T : Type} `{!FillBuffer T, !FillBufferSpec T}.

(** C23. When the raw copy of a body into a string of the caller's is in bounds.  It is
    if the string has the capacity for the body, or has no capacity beyond its own
    bytes; the string then holds the body and nothing else.  It is not if the string
    is too small and shorter than its capacity and expanding makes no more room than
    it promises: the expansion is asked for what the capacity lacks, and counts from
    the length.  A frozen string is not written to: the call raises. *)
Theorem fill_buffer_in_bounds (self : T) (buffer : rstring) b :
  get_body_bytes self = Ret b -> zlen b < 2 ^ 63 ->
  (rs_frozen buffer = true -> fill_buffer self buffer = Ret RaisesFrozenError) /\
  (rs_frozen buffer = false ->
   zlen b <= rs_capacity buffer \/ rs_capacity buffer = zlen (rs_content buffer) ->
     exists s, fill_buffer self buffer = Ret (Filled (zlen b) s) /\ rs_content s = b) /\
  (let n := zlen b - rs_capacity buffer in
   rs_frozen buffer = false -> 0 < n -> rs_capacity (rb_str_modify_expand buffer n) = zlen (rs_content buffer) + n ->
   fill_buffer self buffer = Ret WritesPastEnd <-> zlen (rs_content buffer) < rs_capacity buffer).
Proof.
  intros Hb Hl. rewrite (fill_buffer_cases self buffer b Hb Hl).
  pose proof (rb_str_modify_expand_capacity buffer (zlen b - rs_capacity buffer)).
  split; [by intros ->|].
  destruct (Z.ltb_spec (rs_capacity buffer) (zlen b)); split.
  - intros -> ?. rewrite (proj2 (Z.ltb_ge (rs_capacity _) (zlen b))) by lia. rewrite andb_false_r. eauto.
  - intros n -> Hn E. unfold n in *. rewrite E.
    destruct (Z.ltb_spec 0 (zlen b)),
      (Z.ltb_spec (zlen (rs_content buffer) + (zlen b - rs_capacity buffer)) (zlen b)); cbn;
      (split; [intros ?; simplify_eq; lia|intros; try done; lia]).
  - intros -> _. rewrite (proj2 (Z.ltb_ge (rs_capacity _) (zlen b))) by lia.
    rewrite andb_false_r. eauto.
  - intros n _ Hn. lia.
Qed.

(** [body] returns a string that holds exactly the body, for both kinds of
    request: the copy into the string it allocates stays in bounds. *)
Theorem read_body_holds_body (self : T) b :
  get_body_bytes self = Ret b -> zlen b < 2 ^ 63 ->
  exists s, read_body self = Ret (Filled (zlen b) s) /\ rs_content s = b.
Proof.
  intros Hb Hl. destruct (fill_buffer_size self) as (b' & Hb' & Hs).
  rewrite Hb in Hb'. injection Hb' as <-.
  unfold read_body, fill_buffer. rewrite Hs, Hb. cbn [obind].
  rewrite (proj2 (Z.ltb_lt _ _)) by done. cbn [unwrap obind]. rewrite rb_str_buf_new_frozen.
  assert (zlen b <= rs_capacity (rb_str_buf_new (zlen b)))
    by (apply rb_str_buf_new_capacity; lia).
  assert (rs_capacity (rb_str_buf_new (zlen b)) <? zlen b = false) as -> by lia.
  cbv iota. assert (rs_capacity (rb_str_buf_new (zlen b)) <? zlen b = false) as -> by lia.
  rewrite andb_false_r. eauto.
Qed.
End body_props.

Lemma find_param_app key l1 l2 :
  find_param key (l1 ++ l2) =
  match find_param key l1 with Some v => Some v | None => find_param key l2 end.
Proof.
  induction l1 as [|[k v] l1 IH]; cbn; [done|]. by case_decide.
Qed.

Lemma hash_get_aset key key' v h :
  hash_get key (aset key' v h) = if decide (key' = key) then Some v else hash_get key h.
Proof.
  induction h as [|[k w] h IH]; cbn; [done|].
  repeat (case_decide; cbn); simplify_eq; try done.
Qed.

Lemma find_param_notin key l : key ∉ l.*1 -> find_param key l = None.
Proof.
  induction l as [|[k v] l IH]; cbn; [done|]. intros Hk.
  rewrite decide_False by set_solver. apply IH. set_solver.
Qed.

Lemma find_param_NoDup key l : NoDup l.*1 -> find_param key (reverse l) = find_param key l.
Proof.
  induction l as [|[k v] l IH]; [done|]. intros [Hk Hl]%NoDup_cons.
  rewrite reverse_cons, find_param_app, IH by done. cbn. case_decide; [|by destruct (find_param key l)].
  subst. by rewrite find_param_notin.
Qed.

(** [query_param] reads the first parameter of a name and [query_params] keeps
    the last, so the two agree on every query whose names are distinct. *)
Theorem query_param_first_last `{Http, FormUrlencoded} (self : Request) query key :
  req_query (request self) = Some query -> from_utf8 key = true ->
  query_param self key = Ret (find_param key (form_parse query)) /\
  hash_get key (query_params self) = find_param key (reverse (form_parse query)) /\
  (NoDup (form_parse query).*1 ->
     query_param self key = Ret (hash_get key (query_params self))).
Proof.
  intros Hq Hk. unfold query_param, query_params. rewrite Hq, Hk. cbn [unwrap obind].
  assert (Hlast : forall h, hash_get key
            (foldl (fun params '(key, value) => aset key value params) h (form_parse query)) =
          match find_param key (reverse (form_parse query)) with
          | Some v => Some v | None => hash_get key h end).
  { induction (form_parse query) as [|[k v] l IH]; intros h; [done|]. cbn [foldl].
    rewrite IH, reverse_cons, find_param_app, hash_get_aset. cbn.
    destruct (find_param key (reverse l)); [done|]. by case_decide. }
  rewrite Hlast. cbn. split; [done|].
  assert (forall o : option bytes, match o with Some v => Some v | None => None end = o) as ->
    by by intros [].
  split; [done|]. intros Hd. by rewrite find_param_NoDup.
Qed.

(** A request recognised as gRPC always has a service and a method, both
    non-empty: the worker's branch for an invalid gRPC path is never taken. *)
Theorem grpc_request_has_method `{Http} (r : HyperRequest) :
  is_grpc_request r = true ->
  exists g, GrpcRequest_new r = Some g /\ grpc_request g = r /\
    GrpcRequest_service g <> [] /\ GrpcRequest_method g <> [].
Proof.
  unfold is_grpc_request, GrpcRequest_new. intros Hg.
  assert (Hne : forall part, part ∈ path_parts (req_path r) -> part <> [])
    by (intros part Hp; unfold path_parts in Hp; by apply list_elem_of_filter in Hp as [? _]).
  destruct (path_parts (req_path r)) as [|p0 [|p1 ps]].
  - repeat case_match; done.
  - eexists. split_and!; [done|done|done|]. apply Hne. set_solver.
  - eexists. split_and!; [done|done|apply Hne; set_solver..].
Qed.

(** ** Witnesses *)

(** A string allocator that gives what it promises and no more, and one request. *)
Definition exact_strings : RubyStrings := {|
  rb_str_modify_expand s n := MkRString (zlen (rs_content s) + n) (rs_content s) (rs_frozen s);
  rb_str_buf_new n := MkRString n [] false;
|}.

Lemma exact_strings_spec : @RubyStringsSpec exact_strings.
Proof. constructor; cbn; [lia|done|lia]. Qed.

(** [key=value] pairs separated by [&], without escapes. *)
Definition plain_form : FormUrlencoded := fun query =>
  (fun piece => match split "="%byte piece with
                | k :: v :: _ => (k, v)
                | k :: _ => (k, [])
                | [] => ([], [])
                end) <$> split "&"%byte query.

Definition grpc_post : HyperRequest :=
  MkHyperRequest (bs "POST") (bs "/echo.Echo/Echo") (Some (bs "a=1&b=2&a=3")) None
    [(bs "content-type", bs "application/grpc"); (bs "te", bs "trailers")]
    (encode_grpc_frame (bs "hi")).

(** A string of two bytes with room for three takes a body of seven. *)
Lemma fill_buffer_in_bounds_witness :
  @fill_buffer exact_strings _ _ (MkRequest grpc_post) (MkRString 3 (bs "ab") false) = Ret WritesPastEnd /\
  exists s, @fill_buffer exact_strings _ _ (MkRequest grpc_post) (MkRString 2 (bs "ab") false) =
              Ret (Filled 7 s) /\ rs_content s = encode_grpc_frame (bs "hi").
Proof.
  split.
  - destruct (@fill_buffer_in_bounds exact_strings exact_strings_spec Request _
                (MkRequest grpc_post) (MkRString 3 (bs "ab") false) (encode_grpc_frame (bs "hi")))
      as (_ & _ & Hb); [reflexivity|reflexivity|]. apply Hb; reflexivity.
  - apply (@fill_buffer_in_bounds exact_strings exact_strings_spec Request _
             (MkRequest grpc_post) (MkRString 2 (bs "ab") false) (encode_grpc_frame (bs "hi")));
      [reflexivity|reflexivity|reflexivity|right; reflexivity].
Defined.

Lemma read_body_holds_body_witness :
  exists s, @read_body exact_strings _ _ (MkGrpcRequest grpc_post (bs "s") (bs "m")) =
              Ret (Filled (zlen (bs "hi")) s) /\ rs_content s = bs "hi".
Proof.
  apply (@read_body_holds_body exact_strings exact_strings_spec GrpcRequest _ _
           (MkGrpcRequest grpc_post (bs "s") (bs "m")) (bs "hi")); reflexivity.
Defined.

Lemma query_param_first_last_witness :
  let self := MkRequest grpc_post in
  let query := bs "a=1&b=2&a=3" in
  @query_param _ plain_form self (bs "a") =
    Ret (find_param (bs "a") (@form_parse plain_form query)) /\
  hash_get (bs "a") (@query_params _ plain_form self) =
    find_param (bs "a") (reverse (@form_parse plain_form query)) /\
  (NoDup (@form_parse plain_form query).*1 ->
     @query_param _ plain_form self (bs "a") =
       Ret (hash_get (bs "a") (@query_params _ plain_form self))).
Proof.
  apply (@query_param_first_last _ plain_form (MkRequest grpc_post) (bs "a=1&b=2&a=3") (bs "a"));
    reflexivity.
Defined.

Lemma grpc_request_has_method_witness :
  exists g, GrpcRequest_new grpc_post = Some g /\ grpc_request g = grpc_post /\
    GrpcRequest_service g <> [] /\ GrpcRequest_method g <> [].
Proof. apply (grpc_request_has_method grpc_post). reflexivity. Defined.
