(* ===== verification/Syslog.v ===== *)
(** * Syslog: configuration, counters and messages

    The data of [syslog.rs] and the operations on it that do not wait: reading the
    configuration hash, the counters, and the message object the worker block
    sees. *)
From S2P Require Import Prelude Utf8 Decimal Http Framing Response.

Local Open Scope Z_scope.

(** ** Constants, in bytes and milliseconds *)

Definition MAX_PROXY_HEADER_BYTES : Z := 1024.
Definition MIN_REFUSAL_DELAY : Z := 5.
Definition MAX_REFUSAL_DELAY : Z := 500.

Inductive Transport : Type :=
| Stream
| Datagram.

#[export] Instance Transport_eq_dec : EqDecision Transport.
Proof. solve_decision. Defined.

Definition Transport_name (t : Transport) : bytes :=
  match t with
  | Stream => bs "stream"
  | Datagram => bs "datagram"
  end.

(** What a Ruby handler made of one message. *)
Inductive HandlerResult : Type :=
| Accepted
| Refused
| Failed.

#[export] Instance HandlerResult_eq_dec : EqDecision HandlerResult.
Proof. solve_decision. Defined.

(** ** Configuration *)

(** [tokio::sync::Semaphore::MAX_PERMITS]. *)
Class Tokio := { MAX_PERMITS : Z }.

Record SyslogConfig : Type := MkSyslogConfig {
  stream_path : option bytes;
  stream_bind : option bytes;
  udp_bind : option bytes;
  proxy_protocol : bool;
  proxy_header_timeout : Z;
  max_frame_bytes : Z;
  max_pending : Z;
  max_pending_per_connection : Z;
  max_connections : Z;
  idle_timeout : Z;
  udp_max_datagram_bytes : Z;
  udp_so_rcvbuf : option Z;
  work_ratio : Z;
}.

#[export] Instance SyslogConfig_eq_dec : EqDecision SyslogConfig.
Proof. solve_decision. Defined.

Definition SyslogConfig_new : SyslogConfig := {|
  stream_path := None;
  stream_bind := None;
  udp_bind := None;
  proxy_protocol := false;
  proxy_header_timeout := 5000;
  max_frame_bytes := 102400;
  max_pending := 1000;
  max_pending_per_connection := 64;
  max_connections := 10000;
  idle_timeout := 0;
  udp_max_datagram_bytes := 65536;
  udp_so_rcvbuf := None;
  work_ratio := 4;
|}.

Definition enabled (c : SyslogConfig) : bool :=
  is_some (stream_path c) || is_some (stream_bind c) || is_some (udp_bind c).

(** [usize::MAX] and [u64::MAX] on the 64-bit target, and [u32::MAX]. *)
Definition u64_max : Z := 2 ^ 64 - 1.
Definition u32_max : Z := 2 ^ 32 - 1.

(** [Ord::clamp] for [lo <= hi]. *)
Definition clamp (lo hi z : Z) : Z := Z.min hi (Z.max lo z).

Section config.
Context `{Magnus, Tokio}.

(** The entries of a Ruby hash under symbol keys. *)
Definition config_hash : Type := list (bytes * Value).

Fixpoint config_get (key : bytes) (config : config_hash) : option Value :=
  match config with
  | [] => None
  | (k, v) :: config' => if decide (k = key) then Some v else config_get key config'
  end.

(** One key of a configuration: where the hash has it, its value is converted and
    stored, or the error ends the whole call, keeping what is already stored. *)
Definition read_key {S A} (config : config_hash) (key : bytes) (convert : Value -> option A)
    (store : A -> S -> S) (rest : S -> result unit MagnusError * S) (self : S)
    : result unit MagnusError * S :=
  match config_get key config with
  | Some value =>
      match convert value with
      | Some a => rest (store a self)
      | None => (Err TypeError, self)
      end
  | None => rest self
  end.

Definition usize_try_convert : Value -> option Z := uint_try_convert u64_max.
Definition u64_try_convert : Value -> option Z := uint_try_convert u64_max.
Definition u32_try_convert : Value -> option Z := uint_try_convert u32_max.

Definition with_stream_path (v : bytes) (c : SyslogConfig) : SyslogConfig :=
  let 'MkSyslogConfig _ b u pp pt fb mp mc mx it ud ur wr := c in
  MkSyslogConfig (Some v) b u pp pt fb mp mc mx it ud ur wr.
Definition with_stream_bind (v : bytes) (c : SyslogConfig) : SyslogConfig :=
  let 'MkSyslogConfig p _ u pp pt fb mp mc mx it ud ur wr := c in
  MkSyslogConfig p (Some v) u pp pt fb mp mc mx it ud ur wr.
Definition with_udp_bind (v : bytes) (c : SyslogConfig) : SyslogConfig :=
  let 'MkSyslogConfig p b _ pp pt fb mp mc mx it ud ur wr := c in
  MkSyslogConfig p b (Some v) pp pt fb mp mc mx it ud ur wr.
Definition with_proxy_protocol (v : bool) (c : SyslogConfig) : SyslogConfig :=
  let 'MkSyslogConfig p b u _ pt fb mp mc mx it ud ur wr := c in
  MkSyslogConfig p b u v pt fb mp mc mx it ud ur wr.
Definition with_proxy_header_timeout (v : Z) (c : SyslogConfig) : SyslogConfig :=
  let 'MkSyslogConfig p b u pp _ fb mp mc mx it ud ur wr := c in
  MkSyslogConfig p b u pp v fb mp mc mx it ud ur wr.
Definition with_max_frame_bytes (v : Z) (c : SyslogConfig) : SyslogConfig :=
  let 'MkSyslogConfig p b u pp pt _ mp mc mx it ud ur wr := c in
  MkSyslogConfig p b u pp pt v mp mc mx it ud ur wr.
Definition with_max_pending (v : Z) (c : SyslogConfig) : SyslogConfig :=
  let 'MkSyslogConfig p b u pp pt fb _ mc mx it ud ur wr := c in
  MkSyslogConfig p b u pp pt fb (clamp 1 MAX_PERMITS v) mc mx it ud ur wr.
Definition with_max_pending_per_connection (v : Z) (c : SyslogConfig) : SyslogConfig :=
  let 'MkSyslogConfig p b u pp pt fb mp _ mx it ud ur wr := c in
  MkSyslogConfig p b u pp pt fb mp (Z.max v 1) mx it ud ur wr.
Definition with_max_connections (v : Z) (c : SyslogConfig) : SyslogConfig :=
  let 'MkSyslogConfig p b u pp pt fb mp mc _ it ud ur wr := c in
  MkSyslogConfig p b u pp pt fb mp mc v it ud ur wr.
Definition with_idle_timeout (v : Z) (c : SyslogConfig) : SyslogConfig :=
  let 'MkSyslogConfig p b u pp pt fb mp mc mx _ ud ur wr := c in
  MkSyslogConfig p b u pp pt fb mp mc mx v ud ur wr.
Definition with_udp_max_datagram_bytes (v : Z) (c : SyslogConfig) : SyslogConfig :=
  let 'MkSyslogConfig p b u pp pt fb mp mc mx it _ ur wr := c in
  MkSyslogConfig p b u pp pt fb mp mc mx it (Z.max v 1) ur wr.
Definition with_udp_so_rcvbuf (v : Z) (c : SyslogConfig) : SyslogConfig :=
  let 'MkSyslogConfig p b u pp pt fb mp mc mx it ud _ wr := c in
  MkSyslogConfig p b u pp pt fb mp mc mx it ud (Some v) wr.
Definition with_work_ratio (v : Z) (c : SyslogConfig) : SyslogConfig :=
  let 'MkSyslogConfig p b u pp pt fb mp mc mx it ud ur _ := c in
  MkSyslogConfig p b u pp pt fb mp mc mx it ud ur v.

(** Read the syslog keys out of the server configuration hash. *)
Definition SyslogConfig_apply (config : config_hash) (self : SyslogConfig)
    : result unit MagnusError * SyslogConfig :=
  (read_key config (bs "syslog_stream_path") string_try_convert with_stream_path $
   read_key config (bs "syslog_stream_bind") string_try_convert with_stream_bind $
   read_key config (bs "syslog_udp_bind") string_try_convert with_udp_bind $
   read_key config (bs "syslog_proxy_protocol") bool_try_convert with_proxy_protocol $
   read_key config (bs "syslog_proxy_header_timeout") u64_try_convert with_proxy_header_timeout $
   read_key config (bs "syslog_max_frame_bytes") usize_try_convert with_max_frame_bytes $
   read_key config (bs "syslog_max_pending") usize_try_convert with_max_pending $
   read_key config (bs "syslog_max_pending_per_connection") usize_try_convert
     with_max_pending_per_connection $
   read_key config (bs "syslog_max_connections") u64_try_convert with_max_connections $
   read_key config (bs "syslog_idle_timeout_ms") u64_try_convert with_idle_timeout $
   read_key config (bs "syslog_udp_max_datagram_bytes") usize_try_convert
     with_udp_max_datagram_bytes $
   read_key config (bs "syslog_udp_so_rcvbuf") usize_try_convert with_udp_so_rcvbuf $
   read_key config (bs "syslog_work_ratio") u32_try_convert with_work_ratio $
   fun self => (Ok tt, self)) self.
End config.

(** ** Counters *)

(** The fields of [SyslogCounters]; each is an [AtomicU64]. *)
Inductive Counter : Type :=
| messages_delivered
| deliveries_refused
| handler_errors
| rejected_oversize
| rejected_invalid_utf8
| rejected_invalid_length
| udp_truncated
| udp_dropped
| connections_opened
| connections_closed
| connections_refused
| proxy_header_errors
| proxy_read_errors
| abandoned_at_shutdown
| pending.

#[export] Instance Counter_eq_dec : EqDecision Counter.
Proof. solve_decision. Defined.

Definition SyslogCounters : Type := Counter -> Z.

Definition SyslogCounters_default : SyslogCounters := fun _ => 0.

Definition store (c : Counter) (z : Z) (counters : SyslogCounters) : SyslogCounters :=
  fun c' => if decide (c' = c) then z else counters c'.

(** [fetch_add] on a 64-bit atomic, which wraps in every build. *)
Definition u64_fetch_add (z n : Z) : Z := (z + n) mod 2 ^ 64.
Definition u64_fetch_sub (z n : Z) : Z := (z - n) mod 2 ^ 64.
#[global] Arguments u64_fetch_add : simpl never.
#[global] Arguments u64_fetch_sub : simpl never.

Definition fetch_add (c : Counter) (n : Z) (counters : SyslogCounters) : SyslogCounters :=
  store c (u64_fetch_add (counters c) n) counters.

Definition rejection_counter (reason : RejectReason) : Counter :=
  match reason with
  | Oversize => rejected_oversize
  | InvalidUtf8 => rejected_invalid_utf8
  | InvalidLength => rejected_invalid_length
  end.

Definition record_rejection (reason : RejectReason) (counters : SyslogCounters)
    : SyslogCounters :=
  fetch_add (rejection_counter reason) 1 counters.

(** Saturating, because a drain timeout clears the gauge while its messages may
    still be finishing. *)
Definition release_pending (counters : SyslogCounters) : SyslogCounters :=
  store pending (Z.max 0 (counters pending - 1)) counters.

Definition abandon_pending (counters : SyslogCounters) : SyslogCounters :=
  release_pending (fetch_add abandoned_at_shutdown 1 counters).

(** A hash of statistics: integers, and the nested hash of rejections. *)
Inductive Stat : Type :=
| StatInt (z : Z)
| StatHash (h : list (bytes * Z)).

Definition to_hash (counters : SyslogCounters) : list (bytes * Stat) :=
  let rejected :=
    [(bs (RejectReason_as_str Oversize), counters rejected_oversize);
     (bs (RejectReason_as_str InvalidUtf8), counters rejected_invalid_utf8);
     (bs (RejectReason_as_str InvalidLength), counters rejected_invalid_length)] in
  [(bs "messages_delivered", StatInt (counters messages_delivered));
   (bs "deliveries_refused", StatInt (counters deliveries_refused));
   (bs "handler_errors", StatInt (counters handler_errors));
   (bs "udp_truncated", StatInt (counters udp_truncated));
   (bs "udp_dropped", StatInt (counters udp_dropped));
   (bs "connections_opened", StatInt (counters connections_opened));
   (bs "connections_closed", StatInt (counters connections_closed));
   (bs "connections_refused", StatInt (counters connections_refused));
   (bs "proxy_header_errors", StatInt (counters proxy_header_errors));
   (bs "proxy_read_errors", StatInt (counters proxy_read_errors));
   (bs "abandoned_at_shutdown", StatInt (counters abandoned_at_shutdown));
   (bs "pending", StatInt (counters pending));
   (bs "frames_rejected", StatHash rejected)].

(** ** Messages *)

Record SyslogMessage : Type := MkSyslogMessage {
  msg_bytes : bytes;
  msg_utf8 : bool;
  msg_peer : option bytes;
  msg_transport : Transport;
  msg_received_at_ns : Z;
  msg_message_id : Z;
  msg_attempt : Z;
}.

(** A complete message on its way to a worker, with the channel of its verdict. *)
Record SyslogDelivery : Type := MkSyslogDelivery {
  delivery_message : SyslogMessage;
  result_tx : nat;
}.

Definition into_parts (d : SyslogDelivery) : SyslogMessage * nat :=
  (delivery_message d, result_tx d).

(** A Ruby string and whether it is tagged UTF-8 or binary. *)
Inductive RubyString : Type :=
| Utf8String (s : bytes)
| BinaryString (s : bytes).

(** [None] is undefined behaviour: bytes taken unchecked that are not UTF-8. *)
Definition message_string (m : SyslogMessage) : option RubyString :=
  if msg_utf8 m then
    if from_utf8 (msg_bytes m) then Some (Utf8String (msg_bytes m)) else None
  else Some (BinaryString (msg_bytes m)).

Definition transport_name (m : SyslogMessage) : bytes := Transport_name (msg_transport m).
Definition peer_ip (m : SyslogMessage) : option bytes := msg_peer m.
Definition received_at_ns (m : SyslogMessage) : Z := msg_received_at_ns m.
Definition message_id (m : SyslogMessage) : Z := msg_message_id m.
Definition attempt (m : SyslogMessage) : Z := msg_attempt m.

Definition SyslogMessage_inspect (m : SyslogMessage) : bytes :=
  bs "#<HyperRuby::SyslogMessage transport=:" ++ Transport_name (msg_transport m) ++
  bs " bytes=" ++ to_string (zlen (msg_bytes m)) ++
  bs " message_id=" ++ to_string (msg_message_id m) ++
  bs " attempt=" ++ to_string (msg_attempt m) ++ bs ">".

(** A framed message waiting for a worker.  Its permit is what it holds of the
    semaphore: a value of this type in a state is one permit taken. *)
Record PendingMessage : Type := MkPendingMessage {
  p_message : bytes;
  p_utf8 : bool;
  p_peer : option bytes;
  p_transport : Transport;
  p_received_at_ns : Z;
  p_message_id : Z;
}.

#[export] Instance PendingMessage_eq_dec : EqDecision PendingMessage.
Proof. solve_decision. Defined.

(** ** Lemmas on counters *)

Lemma store_eq c z counters : store c z counters c = z.
Proof. unfold store. by rewrite decide_True. Qed.

Lemma store_ne c c' z counters : c' <> c -> store c z counters c' = counters c'.
Proof. intros ?. unfold store. by rewrite decide_False. Qed.

Lemma fetch_add_eq c n counters : fetch_add c n counters c = u64_fetch_add (counters c) n.
Proof. apply store_eq. Qed.

Lemma fetch_add_ne c c' n counters : c' <> c -> fetch_add c n counters c' = counters c'.
Proof. apply store_ne. Qed.

#[export] Hint Rewrite store_eq fetch_add_eq : hyper.
#[export] Hint Rewrite store_ne fetch_add_ne using done : hyper.
