(* ===== verification/SyslogProps.v ===== *)
(** * Syslog configuration: what reading a hash guarantees

    [config_wf] is what the listeners need of a configuration; [SyslogConfig::apply]
    keeps it, whatever the hash holds. *)
From S2P Require Import Prelude Utf8 Decimal Http Framing Response Syslog.

Local Open Scope Z_scope.

(** What the bridge promises of a conversion to an unsigned integer. *)
Class MagnusSpec `{Magnus} :=
  uint_try_convert_range max v n : uint_try_convert max v = Some n -> 0 <= n <= max.

#[export] Instance ref_magnus_spec : MagnusSpec.
Proof. intros max [| | |]; cbn; try done. intros n. case_match; [|done]. intros [= <-]. lia. Qed.

(** A configuration the listeners can be started with: [Semaphore::new] takes at
    most [MAX_PERMITS] permits, [mpsc::channel] at least one slot, and a datagram
    buffer of no bytes would reject every datagram. *)
Definition config_wf `{Tokio} (c : SyslogConfig) : Prop :=
  1 <= max_pending c <= MAX_PERMITS /\
  1 <= max_pending_per_connection c <= u64_max /\
  1 <= udp_max_datagram_bytes c <= u64_max /\
  0 <= max_frame_bytes c <= u64_max /\
  0 <= max_connections c <= u64_max /\
  0 <= work_ratio c <= u32_max.

Section config_props.
Context `{MagnusSpec, Tokio}.

Lemma read_key_inv {S A} (P : S -> Prop) config key (convert : Value -> option A) put rest self :
  P self ->
  (forall v a self, convert v = Some a -> P self -> P (put a self)) ->
  (forall self, P self -> P (rest self).2) ->
  P (read_key config key convert put rest self).2.
Proof. intros Hs Hp Hr. unfold read_key. repeat case_match; cbn; eauto. Qed.

(** Every present key must convert for the call to succeed. *)
Definition converts {A} (config : config_hash) (key : bytes) (convert : Value -> option A) : Prop :=
  forall v, config_get key config = Some v -> is_Some (convert v).

Lemma read_key_ok {S A} config key (convert : Value -> option A) put rest (Q : Prop) :
  (forall self : S, (rest self).1 = Ok tt <-> Q) ->
  forall self : S, (read_key config key convert put rest self).1 = Ok tt <->
    converts config key convert /\ Q.
Proof.
  intros Hr self. unfold read_key, converts.
  destruct (config_get key config) as [v|]; [|rewrite Hr; naive_solver].
  destruct (convert v) as [a|] eqn:E; [rewrite Hr; naive_solver|].
  split; [done|]. intros [Hc _]. destruct (Hc v eq_refl). congruence.
Qed.

Lemma with_wf_max_pending v c :
  1 <= MAX_PERMITS -> config_wf c -> config_wf (with_max_pending v c).
Proof.
  destruct c; unfold config_wf, with_max_pending, clamp;
    cbn -[u64_max u32_max Z.min Z.max MAX_PERMITS]. lia.
Qed.

Lemma apply_keeps_wf config c :
  1 <= MAX_PERMITS -> config_wf c -> config_wf (SyslogConfig_apply config c).2.
Proof.
  intros Hm Hc. unfold SyslogConfig_apply.
  repeat (apply (read_key_inv config_wf); [assumption | | clear c Hc; intros c Hc]); [..|exact Hc];
    intros v a [] E Hw;
    try (apply uint_try_convert_range in E);
    try (by apply with_wf_max_pending);
    unfold config_wf in *; cbn -[u64_max u32_max Z.max MAX_PERMITS] in *; try lia.
Qed.

(** Whatever a configuration hash holds, and whether or not reading it fails part
    way, a configuration the listeners can be started with stays one; reading
    succeeds exactly when every syslog key in the hash converts to its type. *)
Theorem apply_wf config c :
  1 <= MAX_PERMITS -> config_wf c ->
  config_wf (SyslogConfig_apply config c).2 /\
  ((SyslogConfig_apply config c).1 = Ok tt <->
   converts config (bs "syslog_stream_path") string_try_convert /\
   converts config (bs "syslog_stream_bind") string_try_convert /\
   converts config (bs "syslog_udp_bind") string_try_convert /\
   converts config (bs "syslog_proxy_protocol") bool_try_convert /\
   converts config (bs "syslog_proxy_header_timeout") u64_try_convert /\
   converts config (bs "syslog_max_frame_bytes") usize_try_convert /\
   converts config (bs "syslog_max_pending") usize_try_convert /\
   converts config (bs "syslog_max_pending_per_connection") usize_try_convert /\
   converts config (bs "syslog_max_connections") u64_try_convert /\
   converts config (bs "syslog_idle_timeout_ms") u64_try_convert /\
   converts config (bs "syslog_udp_max_datagram_bytes") usize_try_convert /\
   converts config (bs "syslog_udp_so_rcvbuf") usize_try_convert /\
   converts config (bs "syslog_work_ratio") u32_try_convert /\ True).
Proof.
  intros Hm Hc. split; [by apply apply_keeps_wf|].
  revert c Hc. unfold SyslogConfig_apply. intros c _.
  repeat (apply read_key_ok; clear c; intros c). done.
Qed.
End config_props.

(** ** Witness *)

(** A hash whose per-connection limit is out of range and whose ratio is no integer. *)
Definition bad_hash : list (bytes * ref_value) :=
  [(bs "syslog_max_pending_per_connection", RInt 0);
   (bs "syslog_work_ratio", RString (bs "four"))].

Definition tokio_permits : Tokio := {| MAX_PERMITS := 2 ^ 61 - 1 |}.

Lemma apply_wf_witness :
  @config_wf tokio_permits
    (@SyslogConfig_apply ref_magnus tokio_permits bad_hash SyslogConfig_new).2.
Proof.
  refine (proj1 (@apply_wf ref_magnus _ tokio_permits bad_hash SyslogConfig_new _ _)); [done|].
  unfold config_wf. cbn. by vm_compute.
Defined.
