(* ===== verification/Bind.v ===== *)
(** * Listening sockets

    [bind_std_tcp] and [bind_std_udp] of [syslog.rs], which set a socket up call by
    call before binding it, and the rest of the way from an address to a listener in
    [start_listeners].  What the system answers to each call is a parameter. *)
From S2P Require Import Prelude Utf8 Decimal Proxy Framing Http Response Syslog.

Local Open Scope Z_scope.

Record SocketAddr : Type := MkSocketAddr {
  sa_ip : IpAddr;
  sa_port : Z;
}.

Inductive Domain : Type :=
| IPV4
| IPV6.

#[export] Instance Domain_eq_dec : EqDecision Domain.
Proof. solve_decision. Defined.

(** [Domain::for_address]. *)
Definition for_address (address : SocketAddr) : Domain :=
  match sa_ip address with
  | V4 _ => IPV4
  | V6 _ => IPV6
  end.

Inductive SocketType : Type :=
| STREAM
| DGRAM.

(** A socket of the system. *)
Record NetSocket : Type := MkNetSocket {
  so_domain : Domain;
  so_type : SocketType;
  so_reuse_address : bool;
  so_reuse_port : bool;
  so_rcvbuf : option Z;            (** when it was set *)
  so_nonblocking : bool;
  so_address : option SocketAddr;  (** when it is bound *)
  so_backlog : option Z;           (** when it listens *)
}.

(** The calls, with their arguments. *)
Inductive SocketCall : Type :=
| CallSocket (d : Domain) (t : SocketType)
| CallReuseAddress (b : bool)
| CallReusePort (b : bool)
| CallRecvBufferSize (size : Z)
| CallNonblocking (b : bool)
| CallBind (a : SocketAddr)
| CallListen (backlog : Z).

(** What a call that succeeds does; a new socket blocks and has no options set. *)
Definition apply_call (c : SocketCall) (s : NetSocket) : NetSocket :=
  let 'MkNetSocket d t ra rp rb nb ad bl := s in
  match c with
  | CallSocket d t => MkNetSocket d t false false None false None None
  | CallReuseAddress b => MkNetSocket d t b rp rb nb ad bl
  | CallReusePort b => MkNetSocket d t ra b rb nb ad bl
  | CallRecvBufferSize n => MkNetSocket d t ra rp (Some n) nb ad bl
  | CallNonblocking b => MkNetSocket d t ra rp rb b ad bl
  | CallBind a => MkNetSocket d t ra rp rb nb (Some a) bl
  | CallListen n => MkNetSocket d t ra rp rb nb ad (Some n)
  end.

Section bind.
(** Why a call on a socket fails, if it does. *)
Context (sys : SocketCall -> NetSocket -> option bytes).

Definition socket_call (c : SocketCall) (s : NetSocket) : result NetSocket bytes :=
  match sys c s with
  | Some e => Err e
  | None => Ok (apply_call c s)
  end.

(** The [?] of each call. *)
Fixpoint socket_calls (cs : list SocketCall) (s : NetSocket) : result NetSocket bytes :=
  match cs with
  | [] => Ok s
  | c :: cs' =>
      match socket_call c s with
      | Ok s => socket_calls cs' s
      | Err e => Err e
      end
  end.

Definition no_socket : NetSocket := MkNetSocket IPV4 STREAM false false None false None None.

Definition bind_std_tcp (address : SocketAddr) : result NetSocket bytes :=
  socket_calls
    [CallSocket (for_address address) STREAM; CallReuseAddress true; CallNonblocking true;
     CallBind address; CallListen 1024] no_socket.

Definition bind_std_udp (address : SocketAddr) (config : SyslogConfig) : result NetSocket bytes :=
  socket_calls
    ([CallSocket (for_address address) DGRAM; CallReuseAddress true; CallReusePort true] ++
     match udp_so_rcvbuf config with
     | Some size => [CallRecvBufferSize size]
     | None => []
     end ++
     [CallNonblocking true; CallBind address]) no_socket.

(** ** Properties *)

(** The calls before one, on a socket that none has failed on. *)
Definition apply_calls (cs : list SocketCall) (s : NetSocket) : NetSocket :=
  foldl (fun s c => apply_call c s) s cs.

Lemma socket_calls_ok cs s s' :
  socket_calls cs s = Ok s' <->
  s' = apply_calls cs s /\
  forall before c after, cs = before ++ c :: after -> sys c (apply_calls before s) = None.
Proof.
  revert s; induction cs as [|c cs IH]; intros s; cbn [socket_calls apply_calls foldl].
  - split; [intros [= <-]; split; [done|by intros [] ? ?]|by intros [-> _]].
  - unfold socket_call. destruct (sys c s) as [e|] eqn:E.
    + split; [done|]. intros [_ Hx]. specialize (Hx [] c cs eq_refl). cbn in Hx. congruence.
    + rewrite IH. split; intros [-> Hx]; (split; [done|]).
      * intros [|c' before] c0 after [= <- ->]; [done|]. by eapply Hx.
      * intros before c0 after ->. apply (Hx (c :: before) c0 after). done.
Qed.

(** The first call that fails decides, and nothing is called after it. *)
Lemma socket_calls_err cs s e :
  socket_calls cs s = Err e <->
  exists before c after, cs = before ++ c :: after /\ sys c (apply_calls before s) = Some e /\
    forall b' c' a', before = b' ++ c' :: a' -> sys c' (apply_calls b' s) = None.
Proof.
  revert s; induction cs as [|c cs IH]; intros s; cbn [socket_calls].
  - split; [done|]. by intros ([] & ? & ? & ? & _).
  - unfold socket_call. destruct (sys c s) as [e'|] eqn:E.
    + split.
      * intros [= <-]. exists [], c, cs. split_and!; [done..|]. by intros [] ? ?.
      * intros ([|c0 before] & c1 & after & [= <- ->] & Hs & Hb); [cbn in Hs; congruence|].
        specialize (Hb [] c before eq_refl). cbn in Hb. congruence.
    + rewrite IH. split.
      * intros (before & c1 & after & -> & Hs & Hb). exists (c :: before), c1, after.
        split_and!; [done..|]. intros [|c0 b'] c' a' [= <- ->]; [done|]. by eapply Hb.
      * intros ([|c0 before] & c1 & after & [= <- ->] & Hs & Hb); [cbn in Hs; congruence|].
        exists before, c1, after. split_and!; [done..|]. intros b' c' a' ->.
        by apply (Hb (c :: b') c' a').
Qed.

(** C36. The listening sockets come up as they are meant to: a socket that is returned
    has the family of its address, is bound to it, does not block, and could reuse
    the address before it was bound; the TCP one listens, and the UDP one shares its
    port with other processes and has the receive buffer that was asked for.  An
    error is that of the first call that failed. *)
Theorem bound_sockets (address : SocketAddr) (config : SyslogConfig) :
  (forall s, bind_std_tcp address = Ok s ->
     s = MkNetSocket (for_address address) STREAM true false None true (Some address) (Some 1024) /\
     exists unbound, sys (CallBind address) unbound = None /\ so_reuse_address unbound = true /\
       so_nonblocking unbound = true /\ so_address unbound = None) /\
  (forall s, bind_std_udp address config = Ok s ->
     s = MkNetSocket (for_address address) DGRAM true true (udp_so_rcvbuf config) true
           (Some address) None /\
     exists unbound, sys (CallBind address) unbound = None /\ so_reuse_address unbound = true /\
       so_reuse_port unbound = true /\ so_rcvbuf unbound = udp_so_rcvbuf config /\
       so_address unbound = None) /\
  (forall e, bind_std_tcp address = Err e \/ bind_std_udp address config = Err e ->
     exists c s, sys c s = Some e).
Proof.
  split_and!.
  - intros s [-> Hx]%socket_calls_ok. split; [done|].
    specialize (Hx [CallSocket (for_address address) STREAM; CallReuseAddress true;
                    CallNonblocking true] (CallBind address) [CallListen 1024] eq_refl).
    eexists. split; [exact Hx|]. by split_and!.
  - intros s. unfold bind_std_udp. destruct (udp_so_rcvbuf config) as [size|];
      intros [-> Hx]%socket_calls_ok; (split; [done|]).
    + specialize (Hx [CallSocket (for_address address) DGRAM; CallReuseAddress true;
        CallReusePort true; CallRecvBufferSize size; CallNonblocking true] (CallBind address) [] eq_refl).
      eexists. split; [exact Hx|]. by split_and!.
    + specialize (Hx [CallSocket (for_address address) DGRAM; CallReuseAddress true;
        CallReusePort true; CallNonblocking true] (CallBind address) [] eq_refl).
      eexists. split; [exact Hx|]. by split_and!.
  - intros e [(b & c & a & _ & Hs & _)%socket_calls_err|(b & c & a & _ & Hs & _)%socket_calls_err]; eauto.
Qed.

(** ** From an address to a listener *)

(** What the system and the runtime answer on the way: the address as it parses, and
    whether the runtime takes the socket over. *)
Record listen_env : Type := MkListenEnv {
  le_parse : result SocketAddr bytes;
  le_from_std : option bytes;
}.

(** [from_std] of a socket that was set up, or the first error. *)
Definition listen_on (bind : SocketAddr -> result NetSocket bytes) (env : listen_env)
    : result NetSocket bytes :=
  match le_parse env with
  | Err e => Err e
  | Ok address =>
      match bind address with
      | Err e => Err e
      | Ok socket =>
          match le_from_std env with
          | Some e => Err e
          | None => Ok socket
          end
      end
  end.

Lemma listen_on_ok bind env s :
  listen_on bind env = Ok s -> exists address, le_parse env = Ok address /\ bind address = Ok s.
Proof.
  unfold listen_on. destruct (le_parse env) as [address|]; [|done].
  destruct (bind address) as [socket|] eqn:E; [|done]. destruct (le_from_std env); [done|].
  intros [= <-]. eauto.
Qed.
End bind.
