(* ===== verification/Classes.v ===== *)
(** * The classes Ruby sees

    [init] of [lib.rs] registers the classes of the gem and their methods.  [methods]
    is that table, with the arity each function is registered with and the type it
    returns. *)
From S2P Require Import Prelude Syslog.

Local Open Scope Z_scope.

Inductive RubyClass : Type :=
| CServer
| CResponse
| CGrpcResponse
| CSyslogMessage
| CRequest
| CGrpcRequest.

#[export] Instance RubyClass_eq_dec : EqDecision RubyClass.
Proof. solve_decision. Defined.

(** What a Rust return type becomes in Ruby: [u16], [u32], [u64], [usize] and [i64]
    an integer, [Value] here a string or [nil], [()] [nil]. *)
Inductive RubyType : Type :=
| TInteger
| TString
| TStringOrNil
| THash
| TBool
| TSymbol
| TNil
| TObject (c : RubyClass).

#[export] Instance RubyType_eq_dec : EqDecision RubyType.
Proof. solve_decision. Defined.

(** [define_singleton_method] or [define_method], with the arity given to [function!]
    or [method!]. *)
Record Method : Type := MkMethod {
  m_class : RubyClass;
  m_singleton : bool;
  m_name : bytes;
  m_arity : nat;
  m_returns : RubyType;
}.

#[export] Instance Method_eq_dec : EqDecision Method.
Proof. solve_decision. Defined.

Definition function (c : RubyClass) (name : bytes) (arity : nat) (t : RubyType) : Method :=
  MkMethod c true name arity t.
Definition method (c : RubyClass) (name : bytes) (arity : nat) (t : RubyType) : Method :=
  MkMethod c false name arity t.

(** In the order [init] defines them. *)
Definition methods : list Method :=
  [function CServer (bs "new") 0 (TObject CServer);
   method CServer (bs "configure") 1 TNil;
   method CServer (bs "start") 0 TNil;
   method CServer (bs "stop") 0 TNil;
   method CServer (bs "run_worker") 0 TNil;
   method CServer (bs "total_connections") 0 TInteger;
   method CServer (bs "syslog_listening?") 0 TBool;
   method CServer (bs "syslog_stats") 0 THash;
   function CResponse (bs "new") 3 (TObject CResponse);
   method CResponse (bs "status") 0 TInteger;
   method CResponse (bs "headers") 0 THash;
   method CResponse (bs "body") 0 TString;
   function CGrpcResponse (bs "new") 2 (TObject CGrpcResponse);
   function CGrpcResponse (bs "error") 2 (TObject CGrpcResponse);
   method CGrpcResponse (bs "status") 0 TInteger;
   method CGrpcResponse (bs "headers") 0 THash;
   method CGrpcResponse (bs "body") 0 TString;
   method CSyslogMessage (bs "message") 0 TString;
   method CSyslogMessage (bs "peer_ip") 0 TStringOrNil;
   method CSyslogMessage (bs "transport") 0 TSymbol;
   method CSyslogMessage (bs "received_at_ns") 0 TInteger;
   method CSyslogMessage (bs "message_id") 0 TInteger;
   method CSyslogMessage (bs "attempt") 0 TInteger;
   method CSyslogMessage (bs "inspect") 0 TString;
   method CRequest (bs "http_method") 0 TString;
   method CRequest (bs "path") 0 TString;
   method CRequest (bs "query_params") 0 THash;
   method CRequest (bs "query_param") 1 TStringOrNil;
   method CRequest (bs "host") 0 TStringOrNil;
   method CRequest (bs "header") 1 TStringOrNil;
   method CRequest (bs "headers") 0 THash;
   method CRequest (bs "body") 0 TString;
   method CRequest (bs "fill_body") 1 TInteger;
   method CRequest (bs "body_size") 0 TInteger;
   method CRequest (bs "inspect") 0 TString;
   method CGrpcRequest (bs "service") 0 TString;
   method CGrpcRequest (bs "method") 0 TString;
   method CGrpcRequest (bs "header") 1 TStringOrNil;
   method CGrpcRequest (bs "headers") 0 THash;
   method CGrpcRequest (bs "body") 0 TString;
   method CGrpcRequest (bs "fill_body") 1 TInteger;
   method CGrpcRequest (bs "body_size") 0 TInteger;
   method CGrpcRequest (bs "compressed?") 0 TBool;
   method CGrpcRequest (bs "inspect") 0 TString].

(** [Transport::symbol] and [SyslogMessage::transport]. *)
Definition Transport_symbol (t : Transport) : bytes := Transport_name t.
Definition SyslogMessage_transport (m : SyslogMessage) : bytes := Transport_symbol (msg_transport m).

(** No definition replaces another. *)
Lemma methods_nodup : NoDup ((fun m => (m_class m, m_singleton m, m_name m)) <$> methods).
Proof. apply (bool_decide_unpack _). vm_compute. exact I. Qed.
