(* ===== verification/HandleRequest.v ===== *)
(** * The HTTP service: from a request to its answer

    [handle_request] of [lib.rs].  What the environment decides is one record,
    [request_env]: how collecting the body ends, what each attempt to queue the
    request is answered, the clock at each turn of the polling loop, and what becomes
    of the reply.  A handler that is given fewer turns than its loop takes, or whose
    request is neither answered nor dropped, is still waiting: its result is [None]. *)
From S2P Require Import Prelude Utf8 Decimal Http Body Grpc.

Local Open Scope Z_scope.

Section handle_request.
Context `{Profile, Http}.

(** ** Plain error responses *)

Definition plain_text_response (status : Z) (message : bytes) : outcome HyperResponse :=
  unwrap (builder_body (BodyWithTrailers_new message None)
            (builder_header (bs "content-type") (bs "text/plain") (builder_status status))).

Definition create_timeout_response : outcome HyperResponse :=
  plain_text_response 408 (bs "Request timed out while receiving body").
Definition create_error_response (error_message : bytes) : outcome HyperResponse :=
  plain_text_response 500 error_message.
Definition create_too_many_requests_response (error_message : bytes) : outcome HyperResponse :=
  plain_text_response 429 error_message.
Definition create_bad_request_response (error_message : bytes) : outcome HyperResponse :=
  plain_text_response 400 error_message.

(** ** The handler *)

(** [timeout(recv_timeout, body.collect())]. *)
Inductive Collected : Type :=
| CollectedBytes (body : bytes)
| CollectError
| CollectTimeout.

(** [work_tx.try_send]. *)
Inductive TrySend : Type :=
| SendOk
| SendFull
| SendDisconnected.

(** [response_rx.await]: the worker sends, drops the sender, or does neither, as when
    its thread is unwound with the request in hand. *)
Inductive Reply : Type :=
| Replied (response : HyperResponse)
| ReplyDropped
| ReplyPending.

Record request_env : Type := MkEnv {
  declared_len : option Z;               (** [body.size_hint().exact()] *)
  collect : Collected;
  first_send : TrySend;
  (** At each turn of the loop: [start.elapsed()] in milliseconds, and what the
      attempt after the sleep is answered. *)
  polls : list (Z * TrySend);
  reply : Reply;
}.

(** How the attempts to queue a request end. *)
Inductive Queueing : Type :=
| Queued
| TimedOut
| Gone.

(** The polling loop; [None] when the observations end before it does. *)
Fixpoint poll_send (polls : list (Z * TrySend)) (max_wait attempts : Z)
    : outcome (option Queueing) :=
  match polls with
  | [] => Ret None
  | (elapsed, sent) :: polls' =>
      if max_wait <=? elapsed then Ret (Some TimedOut)
      else
        let* attempts := i32_add attempts 1 in
        match sent with
        | SendOk => Ret (Some Queued)
        | SendFull => poll_send polls' max_wait attempts
        | SendDisconnected => Ret (Some Gone)
        end
  end.

Definition queue_request (env : request_env) (send_timeout : Z) : outcome (option Queueing) :=
  match first_send env with
  | SendOk => Ret (Some Queued)
  | SendFull => poll_send (polls env) send_timeout 0
  | SendDisconnected => Ret (Some Gone)
  end.

(** The request put on the work channel, if one was, and the answer: [Err] is the
    error of collecting the body, which ends the connection. *)
Record Handled : Type := MkHandled {
  queued : option HyperRequest;
  answer : result HyperResponse unit;
}.

Definition answer_with (queued : option HyperRequest) (response : outcome HyperResponse)
    : outcome (option Handled) :=
  let* response := response in
  Ret (Some (MkHandled queued (Ok response))).

(** [HyperRequest::from_parts(parts, body_bytes)]. *)
Definition from_parts (parts : HyperRequest) (body : bytes) : HyperRequest :=
  MkHyperRequest (req_method parts) (req_path parts) (req_query parts) (req_host parts)
    (req_headers parts) body.

(** From the end of the attempts to queue the request to its answer. *)
Definition answer_queueing (hyper_request : HyperRequest) (env : request_env)
    (queueing : option Queueing) : outcome (option Handled) :=
  let is_grpc := is_grpc_request hyper_request in
  match queueing with
  | None => Ret None
  | Some TimedOut =>
      answer_with None
        (if is_grpc then create_grpc_error_response 429 8 (bs "Server too busy, try again later")
         else create_too_many_requests_response (bs "Server too busy, try again later"))
  | Some Gone =>
      answer_with None
        (if is_grpc then create_grpc_error_response 500 13 (bs "Server shutting down")
         else create_error_response (bs "Server shutting down"))
  | Some Queued =>
      match reply env with
      | Replied response => answer_with (Some hyper_request) (Ret response)
      | ReplyDropped =>
          answer_with (Some hyper_request)
            (if is_grpc then create_grpc_error_response 500 13 (bs "Failed to get response")
             else create_error_response (bs "Failed to get response"))
      | ReplyPending => Ret None
      end
  end.

Definition handle_request (parts : HyperRequest) (env : request_env) (send_timeout : Z)
    : outcome (option Handled) :=
  match collect env with
  | CollectError => Ret (Some (MkHandled None (Err tt)))
  | CollectTimeout => answer_with None create_timeout_response
  | CollectedBytes body =>
      if match declared_len env with
         | Some declared => negb (declared =? zlen body)
         | None => false
         end
      then answer_with None
             (create_bad_request_response (bs "Body length does not match Content-Length"))
      else
        let hyper_request := from_parts parts body in
        let* queueing := queue_request env send_timeout in
        answer_queueing hyper_request env queueing
  end.

(** ** Properties *)

Lemma i32_add_1 z : z + 1 < 2 ^ 31 -> i32_add z 1 = Ret (z + 1).
Proof. intros ?. unfold i32_add. by case_match; [|lia]. Qed.

(** Turn [k] of the loop goes on to the next: the time is not up and the queue is
    still full. *)
Definition poll_goes_on (max_wait : Z) (turn : Z * TrySend) : Prop :=
  turn.1 < max_wait /\ turn.2 = SendFull.

(** How a turn that ends the loop ends it. *)
Definition poll_end (max_wait : Z) (turn : Z * TrySend) (q : Queueing) : Prop :=
  match q with
  | TimedOut => max_wait <= turn.1
  | Queued => turn.1 < max_wait /\ turn.2 = SendOk
  | Gone => turn.1 < max_wait /\ turn.2 = SendDisconnected
  end.

(** The loop ends at turn [k], with [q], and not before. *)
Definition poll_ends_at (polls : list (Z * TrySend)) (max_wait : Z) (k : nat) (q : Queueing) : Prop :=
  Forall (poll_goes_on max_wait) (take k polls) /\
  exists turn, polls !! k = Some turn /\ poll_end max_wait turn q.

(** Each turn sleeps ten milliseconds before the clock is read again. *)
Definition polls_clock (polls : list (Z * TrySend)) : Prop :=
  forall k elapsed sent, polls !! k = Some (elapsed, sent) -> 10 * Z.of_nat k <= elapsed.

Lemma poll_send_turns polls i max_wait :
  0 <= i -> i + zlen polls < 2 ^ 31 ->
  poll_send polls max_wait i = Ret None /\ Forall (poll_goes_on max_wait) polls \/
  exists k q, poll_send polls max_wait i = Ret (Some q) /\ poll_ends_at polls max_wait k q.
Proof.
  revert i; induction polls as [|[elapsed sent] polls IH]; intros i Hi Hm; [by left|].
  cbn [poll_send length] in *. destruct (Z.leb_spec max_wait elapsed) as [|Hlt].
  { right. exists 0%nat, TimedOut. split; [done|]. split; [constructor|]. eexists. by split. }
  rewrite i32_add_1 by lia. cbn [obind]. destruct sent.
  - right. exists 0%nat, Queued. split; [done|]. split; [constructor|]. eexists. by split.
  - destruct (IH (i + 1)) as [[-> Hall]|(k & q & -> & Hall & turn & Hk & He)]; [lia..| |].
    + left. split; [done|]. by constructor.
    + right. exists (S k), q. split; [done|]. split; [by constructor|]. by exists turn.
  - right. exists 0%nat, Gone. split; [done|]. split; [constructor|]. eexists. by split.
Qed.

(** Past the time no turn goes on. *)
Lemma polls_time_up polls max_wait :
  0 <= max_wait -> polls_clock polls -> max_wait / 10 + 2 <= zlen polls ->
  ~ Forall (poll_goes_on max_wait) polls.
Proof.
  intros Hm Hclock Hlen Hall. pose proof (Z.mul_succ_div_gt max_wait 10 ltac:(lia)).
  assert (0 <= max_wait / 10) by (apply Z.div_pos; lia).
  destruct (lookup_lt_is_Some_2 polls (Z.to_nat (max_wait / 10 + 1))) as [[elapsed sent] Hk]; [lia|].
  pose proof (Hclock _ _ _ Hk). destruct (proj1 (Forall_lookup _ _) Hall _ _ Hk) as [Hx _]. cbn in Hx. lia.
Qed.

Lemma poll_send_ends_at polls send_timeout :
  0 <= send_timeout < 10 * (2 ^ 31 - 3) -> polls_clock polls ->
  zlen polls = send_timeout / 10 + 2 ->
  exists k q, poll_send polls send_timeout 0 = Ret (Some q) /\ poll_ends_at polls send_timeout k q.
Proof.
  intros Hs Hclock Hlen.
  assert (send_timeout / 10 < 2 ^ 31 - 3) by (apply Z.div_lt_upper_bound; lia).
  destruct (poll_send_turns polls 0 send_timeout) as [[_ Hall]|?]; [lia|lia| |done].
  exfalso. apply (polls_time_up polls send_timeout); [lia|done|lia|done].
Qed.

(** The loop is a function of the turns it takes. *)
Lemma poll_ends_at_take polls n max_wait k q :
  poll_ends_at (take n polls) max_wait k q -> poll_ends_at polls max_wait k q.
Proof.
  intros (Hall & turn & Hk & He). apply lookup_take_Some in Hk as [Hk Hlt].
  rewrite take_take, Nat.min_l in Hall by lia. split; [done|]. by exists turn.
Qed.

Lemma poll_send_app polls more max_wait i q :
  poll_send polls max_wait i = Ret (Some q) -> poll_send (polls ++ more) max_wait i = Ret (Some q).
Proof.
  revert i; induction polls as [|[elapsed sent] polls IH]; intros i; [done|]. cbn.
  destruct (max_wait <=? elapsed); [done|]. destruct (i32_add i 1); [|done]. cbn. destruct sent; [done|apply IH|done].
Qed.

Lemma poll_send_ends_within polls send_timeout :
  0 <= send_timeout < 10 * (2 ^ 31 - 3) -> polls_clock polls ->
  send_timeout / 10 + 2 <= zlen polls ->
  exists k q, poll_send polls send_timeout 0 = Ret (Some q) /\
    poll_ends_at polls send_timeout k q /\ Z.of_nat k <= send_timeout / 10 + 1.
Proof.
  intros Hs Hclock Hlen. assert (0 <= send_timeout / 10) by (apply Z.div_pos; lia).
  set (n := Z.to_nat (send_timeout / 10 + 2)).
  destruct (poll_send_ends_at (take n polls) send_timeout) as (k & q & E & Hk); [done|..].
  - intros k e s' [Hx _]%lookup_take_Some. exact (Hclock _ _ _ Hx).
  - rewrite length_take. lia.
  - exists k, q. split; [|split; [by eapply poll_ends_at_take|]].
    + rewrite <- (take_drop n polls). by apply poll_send_app.
    + destruct Hk as (_ & turn & Hx & _). apply lookup_lt_Some in Hx. rewrite length_take in Hx. lia.
Qed.

(** C29. The polling loop ends, and where: each turn sleeps ten milliseconds, so within
    [send_timeout]/10 + 2 turns it comes to one that ends it, every turn before which
    found the time not up and the queue full.  It gives up at the first turn at which
    [send_timeout] has passed, and otherwise ends with what that turn's attempt was
    answered. *)
Theorem poll_send_ends polls send_timeout :
  0 <= send_timeout < 10 * (2 ^ 31 - 3) -> polls_clock polls ->
  send_timeout / 10 + 2 <= zlen polls ->
  exists k q, poll_send polls send_timeout 0 = Ret (Some q) /\
    poll_ends_at polls send_timeout k q /\ Z.of_nat k <= send_timeout / 10 + 1.
Proof. apply poll_send_ends_within. Qed.
End handle_request.

Section answers.
Context `{Profile, HttpSpec}.

(** A plain text answer. *)
Definition plain_answer (status : Z) (message : bytes) (r : HyperResponse) : Prop :=
  resp_status r = status /\
  (hm_get_str (bs "content-type") (resp_headers r) ≫= to_str) = Some (bs "text/plain") /\
  resp_body r = BodyWithTrailers_new message None.

(** A gRPC error: its status and message travel in the trailers of an empty body. *)
Definition grpc_answer (http_status grpc_status : Z) (message : bytes) (r : HyperResponse) : Prop :=
  resp_status r = http_status /\
  (hm_get_str (bs "content-type") (resp_headers r) ≫= to_str) =
    Some (bs "application/grpc+proto") /\
  exists t, resp_body r = BodyWithTrailers_new [] (Some t) /\
    grpc_trailers_ok grpc_status message t.

Lemma plain_text_response_ok status message :
  100 <= status < 1000 ->
  exists r, plain_text_response status message = Ret r /\ plain_answer status message r.
Proof.
  intros Hs. unfold plain_text_response.
  destruct (builder_one_header status (bs "content-type") (bs "text/plain")
              (BodyWithTrailers_new message None)) as (m & -> & Hct & _);
    [rewrite status_valid_spec; lia|decides|decides|].
  eexists. split; [done|]. by split_and!.
Qed.

Lemma grpc_response_ok http_status grpc_status message :
  100 <= http_status < 1000 -> 0 <= grpc_status -> visible message ->
  exists r, create_grpc_error_response http_status grpc_status message = Ret r /\
    grpc_answer (grpc_http_status http_status) grpc_status message r.
Proof.
  intros Hh Hg Hm.
  destruct (create_grpc_error_response_ok http_status grpc_status message Hh Hg Hm)
    as (r & t & E & Hs & Hct & Hb & Ht).
  exists r. split; [done|]. split_and!; [done..|]. by exists t.
Qed.

(** The answer to a request that gets none from a worker: plain or gRPC. *)
Definition error_answer (is_grpc : bool) (http_status grpc_http grpc_status : Z) (message : bytes)
    (r : HyperResponse) : Prop :=
  if is_grpc then grpc_answer grpc_http grpc_status message r
  else plain_answer http_status message r.

(** How the attempts to queue a request end: at once, or at a turn of the loop. *)
Definition queueing_ends (env : request_env) (send_timeout : Z) (q : Queueing) : Prop :=
  match first_send env with
  | SendOk => q = Queued
  | SendDisconnected => q = Gone
  | SendFull => exists k, poll_ends_at (polls env) send_timeout k q
  end.

(** The turns a handler needs that finds the queue full: a clock, and enough time for
    it to run out. *)
Definition enough_turns (env : request_env) (send_timeout : Z) : Prop :=
  first_send env = SendFull ->
  0 <= send_timeout < 10 * (2 ^ 31 - 3) /\ polls_clock (polls env) /\
  send_timeout / 10 + 2 <= zlen (polls env).

(** The answer to a request whose whole body has come, once the attempts to queue it
    have ended; [None] while its worker has neither answered nor dropped it. *)
Definition queued_ok (hyper_request : HyperRequest) (env : request_env) (q : Queueing)
    (h : option Handled) : Prop :=
  let is_grpc := is_grpc_request hyper_request in
  match q, reply env with
  | Queued, Replied response => h = Some (MkHandled (Some hyper_request) (Ok response))
  | Queued, ReplyPending => h = None
  | Queued, ReplyDropped =>
      exists r, h = Some (MkHandled (Some hyper_request) (Ok r)) /\
        error_answer is_grpc 500 500 13 (bs "Failed to get response") r
  | TimedOut, _ =>
      exists r, h = Some (MkHandled None (Ok r)) /\
        error_answer is_grpc 429 200 8 (bs "Server too busy, try again later") r
  | Gone, _ =>
      exists r, h = Some (MkHandled None (Ok r)) /\
        error_answer is_grpc 500 500 13 (bs "Server shutting down") r
  end.

(** What is to be answered when, and whether a worker is to see the request. *)
Definition handled_ok (parts : HyperRequest) (env : request_env) (send_timeout : Z)
    (h : option Handled) : Prop :=
  match collect env with
  | CollectError => h = Some (MkHandled None (Err tt))
  | CollectTimeout =>
      exists r, h = Some (MkHandled None (Ok r)) /\
        plain_answer 408 (bs "Request timed out while receiving body") r
  | CollectedBytes body =>
      if decide (declared_len env = None \/ declared_len env = Some (zlen body)) then
        exists q, queueing_ends env send_timeout q /\ queued_ok (from_parts parts body) env q h
      else exists r, h = Some (MkHandled None (Ok r)) /\
             plain_answer 400 (bs "Body length does not match Content-Length") r
  end.

(** Whether the handler gets as far as the queue. *)
Definition whole_body (env : request_env) : Prop :=
  exists body, collect env = CollectedBytes body /\
    (declared_len env = None \/ declared_len env = Some (zlen body)).

Lemma error_answer_ok (is_grpc : bool) http grpc_http grpc_status message q :
  100 <= http < 1000 -> grpc_http_status http = grpc_http -> 0 <= grpc_status ->
  visible message ->
  exists h, answer_with q
      (if is_grpc then create_grpc_error_response http grpc_status message
       else plain_text_response http message) = Ret h /\
    exists r, h = Some (MkHandled q (Ok r)) /\
      error_answer is_grpc http grpc_http grpc_status message r.
Proof.
  intros Hh Hg Hs Hm. unfold answer_with, error_answer. destruct is_grpc.
  - destruct (grpc_response_ok http grpc_status message Hh Hs Hm) as (r & -> & Hr).
    rewrite Hg in Hr. cbn. eauto.
  - destruct (plain_text_response_ok http message Hh) as (r & -> & Hr). cbn. eauto.
Qed.

Lemma plain_answer_ok status message q :
  100 <= status < 1000 ->
  exists h, answer_with q (plain_text_response status message) = Ret h /\
    exists r, h = Some (MkHandled q (Ok r)) /\ plain_answer status message r.
Proof.
  intros Hs. destruct (plain_text_response_ok status message Hs) as (r & E & Hr).
  unfold answer_with. rewrite E. cbn. eauto.
Qed.

Lemma answer_queueing_ok hyper_request env q :
  exists h, answer_queueing hyper_request env (Some q) = Ret h /\ queued_ok hyper_request env q h.
Proof.
  unfold answer_queueing, queued_ok.
  destruct q; [destruct (reply env); [by eauto| |by eauto]|..];
    apply error_answer_ok; (lia || done || decides).
Qed.

Lemma queue_request_ends env send_timeout :
  enough_turns env send_timeout ->
  exists q, queue_request env send_timeout = Ret (Some q) /\ queueing_ends env send_timeout q.
Proof.
  unfold enough_turns, queue_request, queueing_ends. destruct (first_send env); [eauto| |eauto].
  intros (Hs & Hc & Hl)%(fun H => H eq_refl).
  destruct (poll_send_ends_within _ _ Hs Hc Hl) as (k & q & -> & Hk & _). eauto.
Qed.

(** C13. How a request ends, on every branch.  The error of a body that cannot be
    collected is passed on; a body that did not arrive in time is answered 408, one
    of another length than declared 400.  A request with its whole body, and only
    such a one, is offered to the workers: the attempts end, at once or at the turn
    of the polling loop that calls for it, and a full queue is answered 429, a closed
    one 500, or their gRPC equivalents; a request that was queued is answered with
    its worker's reply, with an error if the worker drops it, and waits as long as
    the worker does neither.  The handler never panics. *)
Theorem handle_request_answer parts env send_timeout :
  (whole_body env -> enough_turns env send_timeout) ->
  exists h, handle_request parts env send_timeout = Ret h /\ handled_ok parts env send_timeout h.
Proof.
  intros Hq. unfold handle_request, handled_ok.
  destruct (collect env) as [body| |] eqn:Hb; [|by eauto|by apply plain_answer_ok].
  assert (Hd : (match declared_len env with
                | Some declared => negb (declared =? zlen body) | None => false end) =
               negb (bool_decide (declared_len env = None \/ declared_len env = Some (zlen body)))).
  { destruct (declared_len env) as [d|]; [|by rewrite bool_decide_eq_true_2 by auto].
    f_equal. destruct (Z.eqb_spec d (zlen body)) as [->|Hne].
    - by rewrite bool_decide_eq_true_2 by auto.
    - rewrite bool_decide_eq_false_2; [done|]. intros [?|[= ?]]; done. }
  rewrite Hd. case_bool_decide as Hdec; cbn [negb];
    destruct (decide (declared_len env = None \/ declared_len env = Some (zlen body))); try done;
    [|by apply plain_answer_ok].
  destruct (queue_request_ends env send_timeout) as (q & -> & He); [apply Hq; by exists body|].
  cbn [obind]. destruct (answer_queueing_ok (from_parts parts body) env q) as (h & -> & Hh). eauto.
Qed.

Lemma answer_with_queued q response h : answer_with q response = Ret (Some h) -> queued h = q.
Proof. intros (? & _ & [= <-])%obind_Ret_inv. done. Qed.

(** A truncated body never reaches a worker: a request is queued only with exactly
    the bytes that were collected, and as many of them as were declared. *)
Theorem queued_body_is_whole parts env send_timeout h r :
  handle_request parts env send_timeout = Ret (Some h) -> queued h = Some r ->
  exists body, collect env = CollectedBytes body /\ r = from_parts parts body /\
    (forall declared, declared_len env = Some declared -> declared = zlen body).
Proof.
  unfold handle_request. intros Hh Hr.
  destruct (collect env) as [body| |];
    [|by injection Hh as <-|by rewrite (answer_with_queued _ _ _ Hh) in Hr].
  exists body. split; [done|].
  destruct (match declared_len env with Some _ => _ | None => false end) eqn:Hd;
    [by rewrite (answer_with_queued _ _ _ Hh) in Hr|].
  split; [|intros d Ed; rewrite Ed in Hd; lia].
  apply obind_Ret_inv in Hh as ([[]|] & _ & Hh); unfold answer_queueing in Hh; [destruct (reply env); [|..|done]|..|done];
    rewrite (answer_with_queued _ _ _ Hh) in Hr; congruence.
Qed.
End answers.

(** ** Witnesses *)

Definition get_parts : HyperRequest := MkHyperRequest (bs "GET") (bs "/") None None [] [].

(** A queue that stays full: the clock passes the limit at the fourth turn. *)
Definition full_queue : request_env :=
  MkEnv (Some 2) (CollectedBytes (bs "hi")) SendFull
    [(0, SendFull); (10, SendFull); (20, SendFull); (31, SendFull); (41, SendFull)] ReplyPending.

(** A client that went away after three of its five bytes. *)
Definition truncated_body : request_env :=
  MkEnv (Some 5) (CollectedBytes (bs "abc")) SendOk [] ReplyPending.

Lemma full_queue_clock : polls_clock (polls full_queue).
Proof.
  intros k elapsed sent Hk. do 5 (destruct k as [|k]; [cbn in Hk; simplify_eq; lia|]). done.
Qed.

Lemma poll_send_ends_witness :
  exists k q, poll_send (H := release) (polls full_queue) 30 0 = Ret (Some q) /\
    poll_ends_at (polls full_queue) 30 k q /\ Z.of_nat k <= 30 / 10 + 1.
Proof. apply (poll_send_ends (H := release) (polls full_queue) 30); [lia|apply full_queue_clock|done]. Defined.

Lemma handle_request_answer_witness :
  exists h, handle_request (H := release) get_parts full_queue 30 = Ret h /\
    handled_ok get_parts full_queue 30 h.
Proof.
  apply (handle_request_answer (H := release) get_parts full_queue 30).
  intros _ _. split; [lia|]. split; [apply full_queue_clock|vm_compute; discriminate].
Defined.

Definition answered_body : request_env :=
  MkEnv (Some 2) (CollectedBytes (bs "hi")) SendOk []
    (Replied (MkHyperResponse 204 [] (BodyWithTrailers_new [] None))).

Lemma queued_body_is_whole_witness :
  exists body, collect answered_body = CollectedBytes body /\
    from_parts get_parts (bs "hi") = from_parts get_parts body /\
    (forall declared, declared_len answered_body = Some declared -> declared = zlen body).
Proof.
  eapply (queued_body_is_whole (H := release) get_parts answered_body 1000); reflexivity.
Defined.

(** The truncated body is answered 400 and goes nowhere. *)
Example truncated_body_refused :
  match handle_request (H := release) get_parts truncated_body 1000 with
  | Ret (Some (MkHandled None (Ok r))) => resp_status r = 400
  | _ => False
  end.
Proof. reflexivity. Qed.
