(* ===== verification/Gvl.v ===== *)
(** * Leaving the interpreter's lock

    [nogvl] of [gvl_helpers.rs]: run a function with Ruby's global lock released
    and hand its result back.  [rb_thread_call_without_gvl] is the interpreter's:
    what its documentation promises is [CallSpec].  It checks for interrupts, lets
    the lock go, calls back, takes the lock again and checks for interrupts; an
    interrupt (an exception raised in the thread, or its end) unwinds the stack of
    the caller. *)
From S2P Require Import Prelude.

Inductive CallEnd : Type :=
| CallReturned
| CallUnwound.

(** What becomes of a call of [nogvl]; [NUninit] is [assume_init] of a result that
    was never written, which is undefined behaviour. *)
Inductive NogvlEnd (R : Type) : Type :=
| NReturned (r : R)
| NUnwound
| NUninit.
Arguments NReturned {R} r.
Arguments NUnwound {R}.
Arguments NUninit {R}.

(** A thread: whether it holds the lock, what it shares with other threads, the
    [MaybeUninit] on its stack, and, for each call of the function so far, whether the
    thread held the lock then. *)
Record Thread (W R : Type) : Type := MkThread {
  t_gvl : bool;
  t_world : W;
  t_result : option R;
  t_calls : list bool;
}.
Arguments MkThread {W R} t_gvl t_world t_result t_calls.
Arguments t_gvl {W R} t.
Arguments t_world {W R} t.
Arguments t_result {W R} t.
Arguments t_calls {W R} t.

Section nogvl.
Context {W R : Type}.
Context (rb_thread_call_without_gvl : (Thread W R -> Thread W R) -> Thread W R ->
           CallEnd * Thread W R).

(** The trampoline: [result.write(func())].  Its [&mut MaybeUninit<R>] is cast from
    [&result], a shared reference, through which Rust's aliasing rules allow no write;
    the model has the write as the compiled code makes it and nothing of what an
    optimiser may assume. *)
Definition call_without_gvl (func : W -> R * W) (t : Thread W R) : Thread W R :=
  let '(r, w) := func (t_world t) in MkThread (t_gvl t) w (Some r) (t_calls t ++ [t_gvl t]).

Definition nogvl (func : W -> R * W) (t : Thread W R) : NogvlEnd R * Thread W R :=
  let '(e, t) :=
    rb_thread_call_without_gvl (call_without_gvl func)
      (MkThread (t_gvl t) (t_world t) None (t_calls t)) in
  (match e with
   | CallReturned =>
       match t_result t with
       | Some r => NReturned r
       | None => NUninit
       end
   | CallUnwound => NUnwound
   end, t).

(** What other threads may do to what is shared while the lock is free. *)
Context (others : relation W).

(** The documented steps of a call. *)
Inductive call_steps (f : Thread W R -> Thread W R) (t : Thread W R) : CallEnd -> Thread W R -> Prop :=
| interrupted_before : call_steps f t CallUnwound t
| called e w t1 w' :
    others (t_world t) w -> f (MkThread false w (t_result t) (t_calls t)) = t1 ->
    others (t_world t1) w' ->
    call_steps f t e (MkThread true w' (t_result t1) (t_calls t1)).

Class CallSpec : Prop := {
  call_documented : forall f t, t_gvl t = true ->
    call_steps f t (rb_thread_call_without_gvl f t).1 (rb_thread_call_without_gvl f t).2;
}.

Context `{!CallSpec}.

(** C28. [nogvl] is sound: when it returns, the function has run exactly once, without
    the lock, on what the other threads left it, and what is returned is what that run
    returned and not memory that was never written; the thread holds the lock again.
    When an interrupt unwinds it instead, either the function has not run, or it has,
    once and without the lock, and what it returned is lost. *)
Theorem nogvl_sound (func : W -> R * W) (t : Thread W R) :
  t_gvl t = true ->
  exists e t', nogvl func t = (e, t') /\ t_gvl t' = true /\
    match e with
    | NReturned r =>
        t_calls t' = t_calls t ++ [false] /\
        exists w, others (t_world t) w /\ r = (func w).1 /\ others (func w).2 (t_world t')
    | NUnwound =>
        (t_calls t' = t_calls t /\ t_world t' = t_world t) \/
        (t_calls t' = t_calls t ++ [false] /\
         exists w, others (t_world t) w /\ t_result t' = Some (func w).1 /\
           others (func w).2 (t_world t'))
    | NUninit => False
    end.
Proof.
  intros Hg. unfold nogvl.
  pose proof (call_documented (call_without_gvl func)
                (MkThread (t_gvl t) (t_world t) None (t_calls t)) Hg) as Hc.
  destruct (rb_thread_call_without_gvl _ _) as [e t']. cbn in Hc.
  eexists _, _. split; [done|]. inversion Hc as [|e0 w t1 w' Hw Ht1 Hw']; subst; cbn in *; [by auto|].
  unfold call_without_gvl in *. cbn in *. destruct (func w) as [r w1] eqn:Ef. cbn in *.
  split; [done|]. destruct e; [|right]; (split; [done|]); exists w; by rewrite Ef.
Qed.
End nogvl.

(** ** Witness *)

(** The documented steps, when nothing else runs: [pending] says whether an interrupt
    is found before and after the call. *)
Definition call_plain {W R} (pending : bool * bool) (f : Thread W R -> Thread W R) (t : Thread W R)
    : CallEnd * Thread W R :=
  if pending.1 then (CallUnwound, t)
  else
    let t' := f (MkThread false (t_world t) (t_result t) (t_calls t)) in
    ((if pending.2 then CallUnwound else CallReturned),
     MkThread true (t_world t') (t_result t') (t_calls t')).

Lemma call_plain_documented W R pending : CallSpec (@call_plain W R pending) eq.
Proof.
  constructor. intros f t Hg. unfold call_plain. destruct pending as [[] p]; cbn.
  - constructor.
  - by eapply (called eq f t _ (t_world t)).
Qed.

(** [recv] on a channel that holds something. *)
Definition recv_nat (queue : list nat) : option nat * list nat := (head queue, tail queue).

Lemma nogvl_sound_witness :
  let t := MkThread true [7; 8] None [] in
  nogvl (call_plain (false, false)) recv_nat t =
    (NReturned (Some 7), MkThread true [8] (Some (Some 7)) [false]) /\
  exists e t', nogvl (call_plain (false, false)) recv_nat t = (e, t') /\
    t_gvl t' = true /\
    match e with
    | NReturned r =>
        t_calls t' = [] ++ [false] /\
        exists w, [7; 8] = w /\ r = (recv_nat w).1 /\ (recv_nat w).2 = t_world t'
    | NUnwound =>
        (t_calls t' = [] /\ t_world t' = [7; 8]) \/
        (t_calls t' = [] ++ [false] /\
         exists w, [7; 8] = w /\ t_result t' = Some (recv_nat w).1 /\ (recv_nat w).2 = t_world t')
    | NUninit => False
    end.
Proof.
  intros t. split; [reflexivity|].
  apply (@nogvl_sound _ _ (call_plain (false, false)) eq (call_plain_documented _ _ _) recv_nat t).
  reflexivity.
Defined.

(** An interrupt found after the call: the item has left the channel and reaches
    nobody. *)
Example interrupt_loses_item :
  nogvl (call_plain (false, true)) recv_nat (MkThread true [7; 8] None []) =
  (NUnwound, MkThread true [8] (Some (Some 7)) [false]).
Proof. reflexivity. Qed.
