(* ===== verification/Worker.v ===== *)
(** * Scheduling of the Ruby workers

    [lib.rs]: how a worker picks its next piece of work from the HTTP and the
    syslog channel.  Other workers take from the same channels and connections add
    to them between any two calls, so a call is modelled by what each channel
    operation answers if the worker makes it ([observed]); nothing is assumed
    about how the answers of different calls are related. *)
From S2P Require Import Prelude.

Local Open Scope Z_scope.

Inductive TryRecvError : Type :=
| Empty
| Disconnected.

Section worker.
Context `{Profile} {Req Delivery : Type}.

(** A unit of work for a Ruby worker thread. *)
Inductive WorkItem : Type :=
| HttpItem (r : Req)
| SyslogItem (d : Delivery).

Inductive TryWork : Type :=
| Found (w : WorkItem)
| NoWork
| Closed.

Definition into_work_item (outcome : TryWork) : option WorkItem :=
  match outcome with
  | Found work_item => Some work_item
  | NoWork | Closed => None
  end.

(** Updates the streak and gives up the item. *)
Definition count_work_item (tried : TryWork) (syslog_streak : Z)
    : outcome (option WorkItem * Z) :=
  let* streak :=
    match tried with
    | Found (SyslogItem _) => u32_add syslog_streak 1
    | Found (HttpItem _) => Ret 0
    | _ => Ret syslog_streak
    end in
  Ret (into_work_item tried, streak).

Definition try_http_work_item (received : result Req TryRecvError) : TryWork :=
  match received with
  | Ok request => Found (HttpItem request)
  | Err Empty => NoWork
  | Err Disconnected => Closed
  end.

Definition try_syslog_work_item (received : result Delivery TryRecvError) : TryWork :=
  match received with
  | Ok delivery => Found (SyslogItem delivery)
  | Err Empty => NoWork
  | Err Disconnected => Closed
  end.

(** What the channels answer during one call: to [try_recv] on each, and to the
    blocking [recv] or [select!], [None] when the channel has closed. *)
Record observed : Type := Observed {
  http_try : result Req TryRecvError;
  syslog_try : result Delivery TryRecvError;
  http_recv : option Req;
  selected : option WorkItem;
}.

(** The next request when no syslog listener is running. *)
Definition next_http_work_item (o : observed) : option WorkItem :=
  match http_try o with
  | Ok request => Some (HttpItem request)
  | Err Empty => HttpItem <$> http_recv o
  | Err Disconnected => None
  end.

Definition next_work_item (o : observed) (syslog_streak work_ratio : Z)
    : outcome (option WorkItem * Z) :=
  let syslog_first := syslog_streak <? work_ratio in
  let select :=
    match selected o with
    | Some work_item => count_work_item (Found work_item) syslog_streak
    | None => Ret (None, syslog_streak)
    end in
  let then_http next :=
    match try_http_work_item (http_try o) with
    | NoWork => next
    | tried => count_work_item tried syslog_streak
    end in
  let then_syslog next :=
    match try_syslog_work_item (syslog_try o) with
    | NoWork => next
    | tried => count_work_item tried syslog_streak
    end in
  if syslog_first then then_syslog (then_http select)
  else then_http (then_syslog select).

(** A worker's successive calls: the items, and the streak they leave. *)
Fixpoint worker_calls (os : list observed) (syslog_streak work_ratio : Z)
    : outcome (list (option WorkItem) * Z) :=
  match os with
  | [] => Ret ([], syslog_streak)
  | o :: os' =>
      let* (item, streak) := next_work_item o syslog_streak work_ratio in
      let* (items, streak) := worker_calls os' streak work_ratio in
      Ret (item :: items, streak)
  end.

(** ** Properties *)

Definition is_http (item : option WorkItem) : Prop :=
  exists r, item = Some (HttpItem r).
Definition is_syslog (item : option WorkItem) : Prop :=
  exists d, item = Some (SyslogItem d).

Lemma u32_add_1 z : z + 1 < 2 ^ 32 -> u32_add z 1 = Ret (z + 1).
Proof. intros ?. unfold u32_add, add_wrapping. by case_match; [|lia]. Qed.

(** A request that is waiting when it is its turn. *)
Lemma next_work_item_http o s ratio r :
  http_try o = Ok r ->
  ratio <= s \/ syslog_try o = Err Empty ->
  next_work_item o s ratio = Ret (Some (HttpItem r), 0).
Proof.
  intros Hr Hs. unfold next_work_item. rewrite Hr. cbn.
  destruct (Z.ltb_spec s ratio); [|done]. destruct Hs as [?| ->]; [lia|done].
Qed.

Lemma next_work_item_syslog o s ratio d :
  syslog_try o = Ok d -> s < ratio -> ratio < 2 ^ 32 ->
  next_work_item o s ratio = Ret (Some (SyslogItem d), s + 1).
Proof.
  intros Hd Hs Hr. unfold next_work_item.
  rewrite (proj2 (Z.ltb_lt _ _)), Hd by lia.
  cbn [try_syslog_work_item count_work_item]. unfold count_work_item.
  by rewrite u32_add_1 by lia.
Qed.

Lemma worker_calls_app os1 os2 s ratio :
  worker_calls (os1 ++ os2) s ratio =
  let* (items1, s1) := worker_calls os1 s ratio in
  let* (items2, s2) := worker_calls os2 s1 ratio in
  Ret (items1 ++ items2, s2).
Proof.
  revert s; induction os1 as [|o os1 IH]; intros s; cbn [worker_calls app obind].
  - by destruct (worker_calls os2 s ratio) as [[]|].
  - destruct (next_work_item o s ratio) as [[i1 s1]|]; cbn [obind]; [|done]. rewrite IH.
    destruct (worker_calls os1 s1 ratio) as [[is1 s2]|]; cbn [obind]; [|done].
    by destruct (worker_calls os2 s2 ratio) as [[is2 s3]|].
Qed.

Lemma worker_calls_length os s ratio items s' :
  worker_calls os s ratio = Ret (items, s') -> length items = length os.
Proof.
  revert s items; induction os as [|o os IH]; intros s items; cbn; [by intros [= <- <-]|].
  destruct (next_work_item o s ratio) as [[i1 s1]|]; cbn [obind]; [|done].
  destruct (worker_calls os s1 ratio) as [[is1 s2]|] eqn:E; cbn [obind]; [|done].
  intros [= <- <-]. cbn. by erewrite IH.
Qed.

(** A call made while a request is waiting and the syslog channel is open. *)
Definition request_waiting (o : observed) : Prop :=
  (exists r, http_try o = Ok r) /\ syslog_try o <> Err Disconnected.

Lemma next_work_item_request_waiting o s ratio :
  0 <= s -> ratio < 2 ^ 32 -> request_waiting o ->
  exists item s', next_work_item o s ratio = Ret (item, s') /\
    ((is_http item /\ s' = 0) \/ (is_syslog item /\ s < ratio /\ s' = s + 1)).
Proof.
  intros Hs Hr [[r Hh] Hd].
  assert (Hhttp : ratio <= s \/ syslog_try o = Err Empty ->
            exists item s', next_work_item o s ratio = Ret (item, s') /\
              ((is_http item /\ s' = 0) \/ (is_syslog item /\ s < ratio /\ s' = s + 1))).
  { intros Ht. rewrite (next_work_item_http o s ratio r Hh Ht). eexists _, _. split; [done|].
    left. split; [by exists r|done]. }
  destruct (Z.le_gt_cases ratio s); [by apply Hhttp; left|].
  destruct (syslog_try o) as [d|[]] eqn:Es; [|by apply Hhttp; right|done].
  rewrite (next_work_item_syslog o s ratio d Es) by lia. eexists _, _. split; [done|].
  right. split; [by exists d|lia].
Qed.

(** Within its bound a run of such calls returns, and takes a request. *)
Lemma worker_calls_request_waiting os s ratio :
  0 <= s -> ratio < 2 ^ 32 -> Forall request_waiting os ->
  exists items s', worker_calls os s ratio = Ret (items, s') /\ 0 <= s' /\
    (Z.max 0 (ratio - s) < zlen os -> Exists is_http items).
Proof.
  revert s; induction os as [|o os IH]; intros s Hs Hr Hos.
  { eexists _, _. split; [done|]. cbn. lia. }
  apply Forall_cons in Hos as [Ho Hos].
  destruct (next_work_item_request_waiting o s ratio Hs Hr Ho) as (item & s1 & E & Hi).
  destruct (IH s1) as (items & s2 & E2 & Hs2 & Hx); [destruct Hi as [[_ ->]|(_ & _ & ->)]; lia|done..|].
  exists (item :: items), s2. cbn [worker_calls]. rewrite E. cbn [obind]. rewrite E2.
  split_and!; [done|done|]. intros Hlen. apply Exists_cons.
  destruct Hi as [[Hi _]|(_ & Hlt & ->)]; [by left|right]. apply Hx. cbn in Hlen. lia.
Qed.

(** No starvation of requests: while a request is waiting at every call and the
    syslog channel is open, the calls return, and among any [work_ratio] + 1
    successive ones at least one takes a request, whatever the syslog channel
    holds and however long the streak was before. *)
Theorem http_not_starved os streak ratio :
  0 <= streak -> 0 <= ratio < 2 ^ 32 -> Forall request_waiting os ->
  exists items s', worker_calls os streak ratio = Ret (items, s') /\
    forall before window after, items = before ++ window ++ after ->
      ratio < zlen window -> Exists is_http window.
Proof.
  intros Hs Hr Hos.
  destruct (worker_calls_request_waiting os streak ratio) as (items & s' & E & _); [lia..|done|].
  exists items, s'. split; [done|]. intros before window after -> Hw.
  pose proof (worker_calls_length _ _ _ _ _ E) as Hl. rewrite !length_app in Hl.
  rewrite <- (take_drop (length before) os) in E, Hos.
  set (os1 := take (length before) os) in *. set (os' := drop (length before) os) in *.
  rewrite <- (take_drop (length window) os') in E, Hos.
  set (os2 := take (length window) os') in *. set (os3 := drop (length window) os') in *.
  apply Forall_app in Hos as [H1 [H2 H3]%Forall_app].
  rewrite worker_calls_app in E.
  destruct (worker_calls_request_waiting os1 streak ratio) as (i1 & s1 & E1 & Hs1 & _); [lia..|done|].
  rewrite E1 in E. cbn [obind] in E. rewrite worker_calls_app in E.
  destruct (worker_calls_request_waiting os2 s1 ratio) as (i2 & s2 & E2 & _ & Hx); [lia..|done|].
  rewrite E2 in E. cbn [obind] in E.
  destruct (worker_calls os3 s2 ratio) as [[i3 s3]|]; [|done]. cbn [obind] in E.
  injection E as Ei _. apply worker_calls_length in E1, E2.
  unfold os1, os2, os' in E1, E2. rewrite length_take in E1. rewrite length_take, length_drop in E2.
  apply app_inj_1 in Ei as [_ Ei]; [|lia]. apply app_inj_1 in Ei as [-> _]; [|lia].
  apply Hx. unfold os2, os'. rewrite length_take, length_drop. lia.
Qed.

(** A call made while both channels hold work. *)
Definition both_waiting (o : observed) : Prop :=
  (exists r, http_try o = Ok r) /\ (exists d, syslog_try o = Ok d).

(** The position [i] of a round of [work_ratio] syslog messages and one request. *)
Definition scheduled (ratio i : Z) (item : option WorkItem) : Prop :=
  if i mod (ratio + 1) =? ratio then is_http item else is_syslog item.

Lemma worker_calls_schedule os s ratio :
  0 <= s <= ratio -> ratio < 2 ^ 32 -> Forall both_waiting os ->
  exists items s', worker_calls os s ratio = Ret (items, s') /\
    forall i item, items !! i = Some item -> scheduled ratio (s + Z.of_nat i) item.
Proof.
  revert s; induction os as [|o os IH]; intros s Hs Hr Hos; [by eexists _, _|].
  apply Forall_cons in Hos as [[[r Hh] [d Hd]] Hos]. cbn [worker_calls].
  destruct (decide (s = ratio)) as [->|Hne].
  - rewrite (next_work_item_http o ratio ratio r) by auto with lia. cbn [obind].
    destruct (IH 0) as (items & s' & -> & Hi); [lia|done..|]. eexists _, _. split; [done|].
    intros [|i] item; cbn.
    + intros [= <-]. unfold scheduled. rewrite Z.add_0_r, Z.mod_small, Z.eqb_refl by lia. by exists r.
    + intros Hx%Hi. revert Hx. unfold scheduled.
      replace (ratio + Z.of_nat (S i)) with (0 + Z.of_nat i + 1 * (ratio + 1)) by lia.
      by rewrite Z_mod_plus_full.
  - rewrite (next_work_item_syslog o s ratio d) by (done || lia). cbn [obind].
    destruct (IH (s + 1)) as (items & s' & -> & Hi); [lia|done..|]. eexists _, _. split; [done|].
    intros [|i] item; cbn.
    + intros [= <-]. unfold scheduled. rewrite Z.add_0_r, Z.mod_small by lia.
      case_match; [lia|]. by exists d.
    + intros Hx%Hi. by replace (s + Z.of_nat (S i)) with (s + 1 + Z.of_nat i) by lia.
Qed.

(** The exact schedule under load: while both channels hold work, a worker runs
    rounds of [work_ratio] syslog messages and then one request. *)
Theorem worker_schedule os ratio :
  0 <= ratio < 2 ^ 32 -> Forall both_waiting os ->
  exists items s', worker_calls os 0 ratio = Ret (items, s') /\ length items = length os /\
    forall i item, items !! i = Some item ->
      (is_http item <-> Z.of_nat i mod (ratio + 1) = ratio) /\
      (is_syslog item <-> Z.of_nat i mod (ratio + 1) <> ratio).
Proof.
  intros Hr Hos. destruct (worker_calls_schedule os 0 ratio) as (items & s' & E & Hi); [lia..|done|].
  exists items, s'. split; [done|]. split; [by eapply worker_calls_length|].
  intros i item Hx%Hi. unfold scheduled in Hx. rewrite Z.add_0_l in Hx.
  destruct (Z.eqb_spec (Z.of_nat i mod (ratio + 1)) ratio); destruct Hx as [x ->].
  - split; (split; [by intros [? [=]] || done|try done]). by exists x.
  - split; (split; [by intros [? [=]] || done|try done]). by exists x.
Qed.

(** A call panics only by counting one syslog message too many in a build that
    checks overflow: after 2^32 - 1 of them with no request in between. *)
Theorem next_work_item_panics o streak ratio :
  0 <= streak < 2 ^ 32 -> 0 <= ratio < 2 ^ 32 ->
  next_work_item o streak ratio = Panic ->
  overflow_checks = true /\ streak = 2 ^ 32 - 1 /\ ~ (exists r, http_try o = Ok r).
Proof.
  intros Hs Hr. unfold next_work_item, count_work_item, u32_add, add_wrapping.
  destruct (Z.ltb_spec streak ratio), (Z.ltb_spec (streak + 1) (2 ^ 32)), overflow_checks,
    (syslog_try o) as [d|[]], (http_try o) as [r|[]], (selected o) as [[]|]; cbn;
    try done; try lia; intros _; split_and!; try done; try lia; by intros [].
Qed.
End worker.

(** ** Witnesses *)

Definition busy : observed (Req := nat) (Delivery := nat) := Observed (Ok 1%nat) (Ok 2%nat) None None.

Lemma http_not_starved_witness :
  exists items s', worker_calls (H := release) (replicate 7 busy) 5 2 = Ret (items, s') /\
    forall before window after, items = before ++ window ++ after ->
      2 < zlen window -> Exists is_http window.
Proof.
  apply (http_not_starved (H := release) (replicate 7 busy) 5 2); [lia | lia |].
  repeat constructor; cbn; eauto.
Defined.

Lemma worker_schedule_witness :
  exists items s', worker_calls (H := release) (replicate 7 busy) 0 2 = Ret (items, s') /\
    length items = length (replicate 7 busy) /\
    forall i item, items !! i = Some item ->
      (is_http item <-> Z.of_nat i mod (2 + 1) = 2) /\
      (is_syslog item <-> Z.of_nat i mod (2 + 1) <> 2).
Proof.
  apply (worker_schedule (H := release) (replicate 7 busy) 2); [lia |].
  repeat constructor; cbn; eauto.
Defined.

(** The overflow, on the last value of the streak. *)
Lemma next_work_item_panics_witness :
  @overflow_checks dev = true /\ 2 ^ 32 - 1 = 2 ^ 32 - 1 /\
  ~ (exists r : nat, http_try (Delivery := nat) (Observed (Err Empty) (Ok 2%nat) None None) = Ok r).
Proof.
  apply (next_work_item_panics (H := dev) (Observed (Err Empty) (Ok 2%nat) None None)
           (2 ^ 32 - 1) 4); [lia | lia | reflexivity].
Defined.
