(* ===== verification/Pool.v ===== *)
(** * The worker threads, the lock and the channels they share

    [run_worker] runs in several Ruby threads at once, which take work from the same
    two channels ([crossbeam_channel::bounded]) while the listeners add to them, and
    which share the interpreter's lock with each other and with the thread that calls
    [Server::stop].  [pool_step] is one atomic action of one of them: an operation on
    a channel, taking or leaving the lock, or the end of a call.  [Worker] has the
    same calls seen by one worker; here its [observed] answers are what the shared
    channels give. *)
From S2P Require Import Prelude Worker.

Local Open Scope Z_scope.

(** ** Channels *)

(** [crossbeam_channel] is a dependency: the interface of a bounded channel, with what
    is in it, how much it may hold, and whether some sender is alive.  [ch_push] is a
    [try_send] that finds room and [ch_close] the end of the last sender; the server
    object keeps a receiver of both channels, so that a send never finds one
    disconnected. *)
Class Channel (Ch : Type -> Type) := {
  bounded : forall A, Z -> Ch A;
  ch_push : forall A, A -> Ch A -> Ch A;
  ch_close : forall A, Ch A -> Ch A;
  try_recv : forall A, Ch A -> result A TryRecvError * Ch A;
  ch_queue : forall A, Ch A -> list A;
  ch_capacity : forall A, Ch A -> Z;
  ch_open : forall A, Ch A -> bool;
}.
Arguments bounded {Ch _} {A}.
Arguments ch_push {Ch _} {A}.
Arguments ch_close {Ch _} {A}.
Arguments try_recv {Ch _} {A}.
Arguments ch_queue {Ch _} {A}.
Arguments ch_capacity {Ch _} {A}.
Arguments ch_open {Ch _} {A}.

(** Two channels that cannot be told apart, but for what is in them. *)
Definition ch_same {Ch} `{!Channel Ch} {A} (c c' : Ch A) : Prop :=
  ch_capacity c' = ch_capacity c /\ ch_open c' = ch_open c.

(** First in, first out; what is in a channel can still be received after it closed. *)
Class ChannelSpec (Ch : Type -> Type) `{!Channel Ch} : Prop := {
  bounded_spec A n :
    ch_queue (bounded n : Ch A) = [] /\ ch_capacity (bounded n : Ch A) = n /\
    ch_open (bounded n : Ch A) = true;
  ch_push_spec A (x : A) (c : Ch A) : ch_queue (ch_push x c) = ch_queue c ++ [x] /\ ch_same c (ch_push x c);
  ch_close_spec A (c : Ch A) :
    ch_queue (ch_close c) = ch_queue c /\ ch_capacity (ch_close c) = ch_capacity c /\
    ch_open (ch_close c) = false;
  try_recv_spec A (c : Ch A) :
    (try_recv c).1 =
      match ch_queue c with
      | x :: _ => Ok x
      | [] => Err (if ch_open c then Empty else Disconnected)
      end /\
    ch_queue (try_recv c).2 = tail (ch_queue c) /\ ch_same c (try_recv c).2;
}.

Definition ch_has_room {Ch} `{!Channel Ch} {A} (c : Ch A) : bool := zlen (ch_queue c) <? ch_capacity c.

Section pool.
Context `{Profile} {Ch : Type -> Type} `{!Channel Ch} {Req Delivery : Type}.
Notation WorkItem := (WorkItem (Req := Req) (Delivery := Delivery)).

(** ** Threads *)

(** Where a worker is in the loop of [run_worker]. *)
Inductive Pc : Type :=
| Ready                            (** at the head of the loop *)
| TrySyslogFirst                   (** the three tries of [next_work_item] *)
| TryHttp
| TrySyslogThen
| TryHttpOnly                      (** the try of [next_http_work_item] *)
| Selecting                        (** in [nogvl], blocked on its channels *)
| Selected (item : option WorkItem)  (** back from it, about to retake the lock *)
| Handling (item : WorkItem)       (** the block *)
| Stopped                          (** [run_worker] has returned *)
| Killed.                          (** the thread was interrupted in [nogvl] *)

Record WorkerState : Type := MkWorkerState {
  w_pc : Pc;
  w_streak : Z;
}.

(** The thread that owns the server: in its own code, waiting in [stop] for the HTTP
    task, draining the syslog listeners, or past the end of [stop]. *)
Inductive Main : Type :=
| MainCode
| MainWaitHttp
| MainDraining
| MainDrained
| MainStopped.

(** Who has the lock: that thread, a worker in its loop, or other Ruby code, which is
    what the thread of a worker runs once [run_worker] has returned or was unwound. *)
Inductive Owner : Type :=
| OwnMain
| OwnWorker (i : nat)
| OwnRuby.

#[export] Instance Owner_eq_dec : EqDecision Owner.
Proof. solve_decision. Defined.

Record Pool : Type := MkPool {
  p_http : Ch Req;
  p_syslog : Ch Delivery;
  p_workers : gmap nat WorkerState;
  p_gvl : option Owner;
  p_main : Main;
}.

Inductive pool_event : Type :=
| PSendHttp (r : Req)
| PSendSyslog (d : Delivery)
| PHandoff (i : nat) (item : WorkItem)
| PWorker (i : nat)
| PSelectHttp (i : nat)
| PSelectSyslog (i : nat)
| PAcquire (o : Owner)
| PYield (o : Owner)
| PInterrupt (i : nat)
| PStop
| PHttpEnd
| PDrainEnd
| PCloseHttp                       (** the last sender of a channel is dropped *)
| PCloseSyslog
| PClose.                          (** [stop] returns *)

(** What can be seen: items queued, taken from a channel, returned by
    [next_work_item], answered, and lost with an interrupted thread. *)
Inductive pool_obs : Type :=
| Sent (item : WorkItem)
| Took (i : nat) (item : WorkItem)
| Called (i : nat) (item : option WorkItem)
| Answered (i : nat) (item : WorkItem)
| Lost (i : nat) (item : WorkItem).

(** What the server was started with. *)
Record PoolConfig : Type := MkPoolConfig {
  pc_syslog_enabled : bool;
  pc_work_ratio : Z;
  pc_capacity : Z;
}.

Definition set_http (c : Ch Req) (s : Pool) : Pool :=
  MkPool c (p_syslog s) (p_workers s) (p_gvl s) (p_main s).
Definition set_syslog (c : Ch Delivery) (s : Pool) : Pool :=
  MkPool (p_http s) c (p_workers s) (p_gvl s) (p_main s).
Definition set_worker (i : nat) (w : WorkerState) (s : Pool) : Pool :=
  MkPool (p_http s) (p_syslog s) (<[i := w]> (p_workers s)) (p_gvl s) (p_main s).
Definition set_gvl (g : option Owner) (s : Pool) : Pool :=
  MkPool (p_http s) (p_syslog s) (p_workers s) g (p_main s).
Definition set_main (m : Main) (s : Pool) : Pool :=
  MkPool (p_http s) (p_syslog s) (p_workers s) (p_gvl s) m.

Definition holds (o : Owner) (s : Pool) : bool := bool_decide (p_gvl s = Some o).

(** ** A worker with the lock *)

Definition took (i : nat) (tried : TryWork (Req := Req) (Delivery := Delivery)) : list pool_obs :=
  match tried with
  | Found item => [Took i item]
  | NoWork | Closed => []
  end.

(** A call has returned: the block is next, or the end of the loop, from which the
    thread goes on in Ruby, with the lock. *)
Definition call_returned (i : nat) (item : option WorkItem) (streak : Z) (s : Pool)
    : Pool * list pool_obs :=
  match item with
  | Some item => (set_worker i (MkWorkerState (Handling item) streak) s, [Called i (Some item)])
  | None =>
      (set_gvl (Some OwnRuby) (set_worker i (MkWorkerState Stopped streak) s), [Called i None])
  end.

(** A try ends the call unless there is nothing to take. *)
Definition after_try (i : nat) (w : WorkerState) (tried : TryWork (Req := Req) (Delivery := Delivery))
    (next : Pool) (s : Pool) : outcome (Pool * list pool_obs) :=
  match tried with
  | NoWork => Ret (next, [])
  | _ =>
      let* (item, streak) := count_work_item tried (w_streak w) in
      let '(s, o) := call_returned i item streak s in
      Ret (s, took i tried ++ o)
  end.

(** Into [nogvl]. *)
Definition block_worker (i : nat) (w : WorkerState) (s : Pool) : Pool :=
  set_gvl None (set_worker i (MkWorkerState Selecting (w_streak w)) s).

Definition worker_turn (config : PoolConfig) (i : nat) (w : WorkerState) (s : Pool)
    : outcome (option (Pool * list pool_obs)) :=
  let syslog_first := w_streak w <? pc_work_ratio config in
  let goto pc := set_worker i (MkWorkerState pc (w_streak w)) s in
  let some (x : outcome (Pool * list pool_obs)) := let* r := x in Ret (Some r) in
  match w_pc w with
  | Ready =>
      Ret (Some (goto (if pc_syslog_enabled config
                       then if syslog_first then TrySyslogFirst else TryHttp
                       else TryHttpOnly), []))
  | TrySyslogFirst =>
      let '(received, ch) := try_recv (p_syslog s) in
      some (after_try i w (try_syslog_work_item received) (goto TryHttp) (set_syslog ch s))
  | TryHttp =>
      let '(received, ch) := try_recv (p_http s) in
      some (after_try i w (try_http_work_item received)
              (if syslog_first then block_worker i w s else goto TrySyslogThen) (set_http ch s))
  | TrySyslogThen =>
      let '(received, ch) := try_recv (p_syslog s) in
      some (after_try i w (try_syslog_work_item received) (block_worker i w s) (set_syslog ch s))
  | TryHttpOnly =>
      let '(received, ch) := try_recv (p_http s) in
      Ret (Some
        match received with
        | Ok r =>
            let '(s, o) := call_returned i (Some (HttpItem r)) (w_streak w) (set_http ch s) in
            (s, Took i (HttpItem r) :: o)
        | Err Empty => (block_worker i w s, [])
        | Err Disconnected => call_returned i None (w_streak w) s
        end)
  | Selected item =>
      if pc_syslog_enabled config then
        match item with
        | Some item =>
            let* (item, streak) := count_work_item (Found item) (w_streak w) in
            Ret (Some (call_returned i item streak s))
        | None => Ret (Some (call_returned i None (w_streak w) s))
        end
      else Ret (Some (call_returned i item (w_streak w) s))
  | Handling item => Ret (Some (goto Ready, [Answered i item]))
  | Selecting | Stopped | Killed => Ret None
  end.

(** ** A worker in [nogvl] *)

Definition selected_item (i : nat) (w : WorkerState) (item : option WorkItem) (s : Pool)
    : Pool * list pool_obs :=
  (set_worker i (MkWorkerState (Selected item) (w_streak w)) s,
   match item with
   | Some item => [Took i item]
   | None => []
   end).

(** An arm of [select!] that is ready: its channel holds something or has closed. *)
Definition select_http (i : nat) (w : WorkerState) (s : Pool) : option (Pool * list pool_obs) :=
  let '(received, ch) := try_recv (p_http s) in
  match received with
  | Ok r => Some (selected_item i w (Some (HttpItem r)) (set_http ch s))
  | Err Disconnected => Some (selected_item i w None s)
  | Err Empty => None
  end.

Definition select_syslog (i : nat) (w : WorkerState) (s : Pool) : option (Pool * list pool_obs) :=
  let '(received, ch) := try_recv (p_syslog s) in
  match received with
  | Ok d => Some (selected_item i w (Some (SyslogItem d)) (set_syslog ch s))
  | Err Disconnected => Some (selected_item i w None s)
  | Err Empty => None
  end.

(** A channel without room hands what is sent to a receiver that waits. *)
Definition rendezvous (config : PoolConfig) (item : WorkItem) (s : Pool) : bool :=
  match item with
  | HttpItem _ => ch_open (p_http s) && (ch_capacity (p_http s) =? 0)
  | SyslogItem _ =>
      pc_syslog_enabled config && ch_open (p_syslog s) && (ch_capacity (p_syslog s) =? 0)
  end.

(** ** Steps *)

(** Whether a thread wants the lock. *)
Definition wants (o : Owner) (s : Pool) : bool :=
  match o with
  | OwnMain => match p_main s with MainDraining => false | _ => true end
  | OwnRuby => true
  | OwnWorker i =>
      match p_workers s !! i with
      | Some w =>
          match w_pc w with
          | Ready | Selected _ | Handling _ => true
          | _ => false
          end
      | None => false
      end
  end.

(** Ruby code can be preempted, native code cannot. *)
Definition preemptible (o : Owner) (s : Pool) : bool :=
  match o with
  | OwnMain => match p_main s with MainCode | MainStopped => true | _ => false end
  | OwnRuby => true
  | OwnWorker i =>
      match p_workers s !! i with
      | Some w => match w_pc w with Handling _ => true | _ => false end
      | None => false
      end
  end.

(** The worker that runs, if it is at a given place. *)
Definition selecting (i : nat) (s : Pool) : option WorkerState :=
  match p_workers s !! i with
  | Some w => match w_pc w with Selecting => Some w | _ => None end
  | None => None
  end.

Definition when_ok (b : bool) (r : Pool * list pool_obs) : option (Pool * list pool_obs) :=
  if b then Some r else None.

(** The server's own senders go at the end of [stop], those of the tasks that are left
    when the runtime is dropped, at the return of [stop] with the lock still held: each
    channel closes with its last one. *)
Definition pool_step (config : PoolConfig) (e : pool_event) (s : Pool)
    : outcome (option (Pool * list pool_obs)) :=
  match e with
  | PSendHttp r =>
      Ret (when_ok (ch_open (p_http s) && ch_has_room (p_http s))
             (set_http (ch_push r (p_http s)) s, [Sent (HttpItem r)]))
  | PSendSyslog d =>
      Ret (when_ok (ch_open (p_syslog s) && ch_has_room (p_syslog s))
             (set_syslog (ch_push d (p_syslog s)) s, [Sent (SyslogItem d)]))
  | PHandoff i item =>
      Ret (w ← selecting i s;
           let '(s', o) := selected_item i w (Some item) s in
           when_ok (rendezvous config item s) (s', Sent item :: o))
  | PWorker i =>
      match p_workers s !! i with
      | Some w => if holds (OwnWorker i) s then worker_turn config i w s else Ret None
      | None => Ret None
      end
  | PSelectHttp i => Ret (w ← selecting i s; select_http i w s)
  | PSelectSyslog i =>
      Ret (w ← selecting i s; if pc_syslog_enabled config then select_syslog i w s else None)
  | PAcquire o =>
      Ret (when_ok (bool_decide (p_gvl s = None) && wants o s) (set_gvl (Some o) s, []))
  | PYield o => Ret (when_ok (holds o s && preemptible o s) (set_gvl None s, []))
  | PInterrupt i =>
      Ret match p_workers s !! i with
          | Some w =>
              match w_pc w with
              | Selected item =>
                  when_ok (holds (OwnWorker i) s)
                    (set_gvl (Some OwnRuby) (set_worker i (MkWorkerState Killed (w_streak w)) s),
                     match item with Some item => [Lost i item] | None => [] end)
              | _ => None
              end
          | None => None
          end
  | PStop =>
      Ret match p_main s with
          | MainCode => when_ok (holds OwnMain s) (set_main MainWaitHttp s, [])
          | _ => None
          end
  | PHttpEnd =>
      Ret match p_main s with
          | MainWaitHttp =>
              Some (if pc_syslog_enabled config then (set_gvl None (set_main MainDraining s), [])
                    else (set_main MainDrained s, []))
          | _ => None
          end
  | PDrainEnd =>
      Ret match p_main s with
          | MainDraining => Some (set_main MainDrained s, [])
          | _ => None
          end
  | PCloseHttp =>
      Ret match p_main s with
          | MainDrained => when_ok (holds OwnMain s) (set_http (ch_close (p_http s)) s, [])
          | _ => None
          end
  | PCloseSyslog =>
      Ret match p_main s with
          | MainDrained => when_ok (holds OwnMain s) (set_syslog (ch_close (p_syslog s)) s, [])
          | _ => None
          end
  | PClose =>
      Ret match p_main s with
          | MainDrained =>
              when_ok (holds OwnMain s && negb (ch_open (p_http s)) && negb (ch_open (p_syslog s)))
                (set_main MainStopped s, [])
          | _ => None
          end
  end.

(** After [start], with a worker for each of the given threads. *)
Definition pool_init (config : PoolConfig) (threads : gset nat) : Pool :=
  MkPool (bounded (pc_capacity config)) (bounded (pc_capacity config))
    (gset_to_gmap (MkWorkerState Ready 0) threads) (Some OwnMain) MainCode.

Inductive pool_reachable (config : PoolConfig) (threads : gset nat) : list pool_obs -> Pool -> Prop :=
| pool_reachable_init : pool_reachable config threads [] (pool_init config threads)
| pool_reachable_step tr s e s' o :
    pool_reachable config threads tr s -> pool_step config e s = Ret (Some (s', o)) ->
    pool_reachable config threads (tr ++ o) s'.

Fixpoint pool_run (config : PoolConfig) (es : list pool_event) (s : Pool)
    : option (Pool * list pool_obs) :=
  match es with
  | [] => Some (s, [])
  | e :: es' =>
      match pool_step config e s with
      | Ret (Some (s1, o1)) => '(s2, o2) ← pool_run config es' s1; Some (s2, o1 ++ o2)
      | _ => None
      end
  end.
End pool.

(** ** A reference channel *)

Record Chan (A : Type) : Type := MkChan {
  chan_queue : list A;
  chan_capacity : Z;
  chan_open : bool;
}.
Arguments MkChan {A} chan_queue chan_capacity chan_open.
Arguments chan_queue {A} c.
Arguments chan_capacity {A} c.
Arguments chan_open {A} c.

#[export] Instance ref_channel : Channel Chan := {|
  bounded A n := MkChan [] n true;
  ch_push A x c := MkChan (chan_queue c ++ [x]) (chan_capacity c) (chan_open c);
  ch_close A c := MkChan (chan_queue c) (chan_capacity c) false;
  try_recv A c :=
    (match chan_queue c with
     | x :: _ => Ok x
     | [] => Err (if chan_open c then Empty else Disconnected)
     end, MkChan (tail (chan_queue c)) (chan_capacity c) (chan_open c));
  ch_queue A c := chan_queue c;
  ch_capacity A c := chan_capacity c;
  ch_open A c := chan_open c;
|}.

#[export] Instance ref_channel_spec : ChannelSpec Chan.
Proof. by constructor. Qed.
