(* ===== verification/PoolProps.v ===== *)
(** * What the pool of workers guarantees

    Over every interleaving of the senders, the workers and the thread that stops
    the server. *)
From S2P Require Import Prelude Worker Pool.

Local Open Scope Z_scope.

Section props.
Context `{Profile} {Ch : Type -> Type} `{!Channel Ch, !ChannelSpec Ch} {Req Delivery : Type}.
Context (config : PoolConfig) (threads : gset nat).
Notation WorkItem := (WorkItem (Req := Req) (Delivery := Delivery)).
Notation Pool := (Pool (Ch := Ch) (Req := Req) (Delivery := Delivery)).
Notation pool_obs := (pool_obs (Req := Req) (Delivery := Delivery)).
Implicit Types (s : Pool) (o tr : list pool_obs) (w : WorkerState (Req := Req) (Delivery := Delivery)).

(** ** What a trace says *)

Definition http_of (item : WorkItem) : option Req :=
  match item with
  | HttpItem r => Some r
  | SyslogItem _ => None
  end.
Definition syslog_of (item : WorkItem) : option Delivery :=
  match item with
  | HttpItem _ => None
  | SyslogItem d => Some d
  end.

Definition sent_items tr : list WorkItem :=
  omap (fun x => match x with Sent item => Some item | _ => None end) tr.
Definition taken_items tr : list WorkItem :=
  omap (fun x => match x with Took _ item => Some item | _ => None end) tr.

(** What one worker took, answered and lost, and what its calls returned. *)
Definition on (i j : nat) {A} (a : A) : option A := if decide (i = j) then Some a else None.
Definition taken_by (i : nat) tr : list WorkItem :=
  omap (fun x => match x with Took j item => on i j item | _ => None end) tr.
Definition answered_by (i : nat) tr : list WorkItem :=
  omap (fun x => match x with Answered j item => on i j item | _ => None end) tr.
Definition lost_by (i : nat) tr : list WorkItem :=
  omap (fun x => match x with Lost j item => on i j item | _ => None end) tr.
Definition calls_by (i : nat) tr : list (option WorkItem) :=
  omap (fun x => match x with Called j item => on i j item | _ => None end) tr.

(** What a worker has in hand. *)
Definition in_hand (pc : Pc (Req := Req) (Delivery := Delivery)) : list WorkItem :=
  match pc with
  | Selected (Some item) | Handling item => [item]
  | _ => []
  end.

Definition hand s (i : nat) : list WorkItem :=
  from_option (fun w => in_hand (w_pc w)) [] (p_workers s !! i).

(** ** Case analysis of a step *)

Lemma when_ok_inv b (r r' : Pool * list pool_obs) : when_ok b r = Some r' -> b = true /\ r = r'.
Proof. destruct b; [by intros [= ->]|done]. Qed.

Lemma selecting_inv i s w : selecting i s = Some w -> p_workers s !! i = Some w /\ w_pc w = Selecting.
Proof.
  unfold selecting. destruct (p_workers s !! i) as [w'|]; [|done].
  destruct (w_pc w') eqn:E; try done. by intros [= <-].
Qed.

Lemma try_recv_cases {A} (c : Ch A) :
  (exists x rest c', ch_queue c = x :: rest /\ try_recv c = (Ok x, c') /\
     ch_queue c' = rest /\ ch_same c c') \/
  (exists c', ch_queue c = [] /\ ch_open c = true /\ try_recv c = (Err Empty, c') /\
     ch_queue c' = [] /\ ch_same c c') \/
  (exists c', ch_queue c = [] /\ ch_open c = false /\ try_recv c = (Err Disconnected, c') /\
     ch_queue c' = [] /\ ch_same c c').
Proof.
  destruct (try_recv_spec A c) as (E & Hq & Hs). destruct (try_recv c) as [r c']. cbn in *. subst r.
  destruct (ch_queue c) as [|x rest], (ch_open c) eqn:Ho; cbn in Hq; [right; left|right; right|left..];
    eauto 10.
Qed.

(** What a worker does in a step. *)
Inductive label : Type :=
| LTau
| LTake (item : WorkItem)
| LReturn (item : option WorkItem)
| LTakeReturn (item : WorkItem)
| LAnswer (item : WorkItem)
| LLose (item : option WorkItem).

Definition label_obs (i : nat) (l : label) : list pool_obs :=
  match l with
  | LTau | LLose None => []
  | LTake item => [Took i item]
  | LReturn item => [Called i item]
  | LTakeReturn item => [Took i item; Called i (Some item)]
  | LAnswer item => [Answered i item]
  | LLose (Some item) => [Lost i item]
  end.

(** The try that comes first in a call. *)
Definition first_try (streak : Z) : Pc (Req := Req) (Delivery := Delivery) :=
  if pc_syslog_enabled config
  then if streak <? pc_work_ratio config then TrySyslogFirst else TryHttp
  else TryHttpOnly.

(** How a worker gets from one place to the next. *)
Inductive rule s (streak : Z) : Pc -> label -> Pc -> Z -> Prop :=
| r_begin : rule s streak Ready LTau (first_try streak) streak
| r_first_empty :
    ch_queue (p_syslog s) = [] -> rule s streak TrySyslogFirst LTau TryHttp streak
| r_first d streak' :
    u32_add streak 1 = Ret streak' ->
    rule s streak TrySyslogFirst (LTakeReturn (SyslogItem d)) (Handling (SyslogItem d)) streak'
| r_http_empty :
    ch_queue (p_http s) = [] ->
    rule s streak TryHttp LTau
      (if streak <? pc_work_ratio config then Selecting else TrySyslogThen) streak
| r_http r : rule s streak TryHttp (LTakeReturn (HttpItem r)) (Handling (HttpItem r)) 0
| r_then_empty :
    ch_queue (p_syslog s) = [] -> rule s streak TrySyslogThen LTau Selecting streak
| r_then d streak' :
    u32_add streak 1 = Ret streak' ->
    rule s streak TrySyslogThen (LTakeReturn (SyslogItem d)) (Handling (SyslogItem d)) streak'
| r_only_empty :
    ch_queue (p_http s) = [] -> rule s streak TryHttpOnly LTau Selecting streak
| r_only r : rule s streak TryHttpOnly (LTakeReturn (HttpItem r)) (Handling (HttpItem r)) streak
| r_closed pc :
    (pc = TrySyslogFirst \/ pc = TrySyslogThen) /\ ch_open (p_syslog s) = false \/
    (pc = TryHttp \/ pc = TryHttpOnly) /\ ch_open (p_http s) = false ->
    rule s streak pc (LReturn None) Stopped streak
| r_select item :
    (pc_syslog_enabled config = false -> is_Some (http_of item)) ->
    rule s streak Selecting (LTake item) (Selected (Some item)) streak
| r_select_closed :
    ch_open (p_http s) = false \/ ch_open (p_syslog s) = false ->
    rule s streak Selecting LTau (Selected None) streak
| r_selected item streak' :
    (if pc_syslog_enabled config then count_work_item (Found item) streak = Ret (Some item, streak')
     else streak' = streak) ->
    rule s streak (Selected (Some item)) (LReturn (Some item)) (Handling item) streak'
| r_selected_none : rule s streak (Selected None) (LReturn None) Stopped streak
| r_answer item : rule s streak (Handling item) (LAnswer item) Ready streak
| r_lose item : rule s streak (Selected item) (LLose item) Killed streak.

(** A step is one of a worker, or leaves the workers alone. *)
Inductive pool_move s o s' : Prop :=
| move_worker i w l w' :
    p_workers s !! i = Some w -> p_workers s' = <[i := w']> (p_workers s) ->
    rule s (w_streak w) (w_pc w) l (w_pc w') (w_streak w') ->
    (o = label_obs i l \/ exists item, o = Sent item :: label_obs i l) -> pool_move s o s'
| move_other :
    p_workers s' = p_workers s -> o = [] \/ (exists item, o = [Sent item]) -> pool_move s o s'.

(** A worker's own step. *)
Inductive worker_move s o s' : Prop :=
| worker_moves i w l w' :
    p_workers s !! i = Some w -> p_workers s' = <[i := w']> (p_workers s) ->
    rule s (w_streak w) (w_pc w) l (w_pc w') (w_streak w') -> o = label_obs i l ->
    worker_move s o s'.

Lemma worker_move_pool s o s' : worker_move s o s' -> pool_move s o s'.
Proof. intros [i w l w' Hi Hs Hr Ho]. apply (move_worker _ _ _ i w l w'); auto. Qed.

Lemma move_rule i w s pc streak l s' o :
  p_workers s !! i = Some w -> p_workers s' = <[i := MkWorkerState pc streak]> (p_workers s) ->
  rule s (w_streak w) (w_pc w) l pc streak -> o = label_obs i l -> worker_move s o s'.
Proof. intros Hi Hs Hr ->. by apply (worker_moves _ _ _ i w l (MkWorkerState pc streak)). Qed.

Lemma count_inv (item : WorkItem) streak r streak' :
  count_work_item (Found item) streak = Ret (r, streak') -> r = Some item.
Proof. unfold count_work_item. destruct item; cbn; [by intros [= <- _]|]. by destruct (u32_add streak 1); [intros [= <- _]|]. Qed.

(** A try on a channel. *)
Lemma after_try_move i w s tried next s1 s' o :
  p_workers s !! i = Some w -> p_workers s1 = p_workers s ->
  after_try i w tried next s1 = Ret (s', o) ->
  (tried = NoWork -> worker_move s [] next) ->
  (tried = Closed -> rule s (w_streak w) (w_pc w) (LReturn None) Stopped (w_streak w)) ->
  (forall (item : WorkItem) streak', tried = Found item ->
     count_work_item (Found item) (w_streak w) = Ret (Some item, streak') ->
     rule s (w_streak w) (w_pc w) (LTakeReturn item) (Handling item) streak') ->
  worker_move s o s'.
Proof.
  intros Hi Hw E Hno Hcl Hf. unfold after_try in E. destruct tried as [item| |].
  - destruct (count_work_item (Found item) (w_streak w)) as [[r streak']|] eqn:Ec; [|done].
    pose proof (count_inv _ _ _ _ Ec) as ->. cbn in E. injection E as <- <-.
    eapply move_rule; [done| |by apply Hf|done]. cbn. by rewrite Hw.
  - injection E as <- <-. by apply Hno.
  - cbn in E. injection E as <- <-. eapply move_rule; [done| |by apply Hcl|done]. cbn. by rewrite Hw.
Qed.

Lemma count_syslog (d : Delivery) streak streak' :
  count_work_item (Req := Req) (Found (SyslogItem d)) streak = Ret (Some (SyslogItem d), streak') ->
  u32_add streak 1 = Ret streak'.
Proof. unfold count_work_item. destruct (u32_add streak 1); cbn; congruence. Qed.

Lemma count_http (r : Req) streak streak' :
  count_work_item (Delivery := Delivery) (Found (HttpItem r)) streak = Ret (Some (HttpItem r), streak') ->
  streak' = 0.
Proof. unfold count_work_item. cbn. congruence. Qed.

(** A worker that only changes place. *)
Lemma goto_move i w s pc s' :
  p_workers s !! i = Some w -> p_workers s' = <[i := MkWorkerState pc (w_streak w)]> (p_workers s) ->
  rule s (w_streak w) (w_pc w) LTau pc (w_streak w) -> worker_move s [] s'.
Proof. intros Hi Hs Hr. by eapply move_rule. Qed.

(** A try on the syslog channel. *)
Lemma try_syslog_move i w s next received ch s' o :
  p_workers s !! i = Some w -> try_recv (p_syslog s) = (received, ch) ->
  w_pc w = TrySyslogFirst \/ w_pc w = TrySyslogThen ->
  (ch_queue (p_syslog s) = [] -> worker_move s [] next) ->
  after_try i w (try_syslog_work_item received) next (set_syslog ch s) = Ret (s', o) ->
  worker_move s o s'.
Proof.
  intros Hi Ht Hpc Hno E. eapply (after_try_move i w s); [done| |exact E|..]; [done|..];
    destruct (try_recv_cases (p_syslog s)) as
    [(x & rest & c' & Hq & E' & Hq' & Hsm)|[(c' & Hq & Hop & E' & Hq' & Hsm)|(c' & Hq & Hop & E' & Hq' & Hsm)]];
    rewrite Ht in E'; injection E' as -> ->; cbn; try done.
  - intros _. by apply Hno.
  - intros _. apply r_closed. by left.
  - intros item streak' [= <-] Hc%count_syslog. destruct Hpc as [-> | ->]; by constructor.
Qed.

Lemma try_http_move i w s next received ch s' o :
  p_workers s !! i = Some w -> try_recv (p_http s) = (received, ch) -> w_pc w = TryHttp ->
  (ch_queue (p_http s) = [] -> worker_move s [] next) ->
  after_try i w (try_http_work_item received) next (set_http ch s) = Ret (s', o) ->
  worker_move s o s'.
Proof.
  intros Hi Ht Hpc Hno E. eapply (after_try_move i w s); [done| |exact E|..]; [done|..];
    destruct (try_recv_cases (p_http s)) as
    [(x & rest & c' & Hq & E' & Hq' & Hsm)|[(c' & Hq & Hop & E' & Hq' & Hsm)|(c' & Hq & Hop & E' & Hq' & Hsm)]];
    rewrite Ht in E'; injection E' as -> ->; cbn; try done.
  - intros _. by apply Hno.
  - intros _. apply r_closed. right. auto.
  - intros item streak' [= <-] Hc%count_http. rewrite Hpc, Hc. by constructor.
Qed.

Lemma worker_turn_move i w s s' o :
  p_workers s !! i = Some w -> worker_turn config i w s = Ret (Some (s', o)) -> worker_move s o s'.
Proof.
  intros Hi. unfold worker_turn. cbv zeta.
  destruct (w_pc w) as [| | | | | |item|item| |] eqn:Hpc; try done.
  - intros [= <- <-]. eapply goto_move; [done..|]. rewrite Hpc. apply r_begin.
  - destruct (try_recv (p_syslog s)) as [received ch] eqn:Ht.
    destruct (after_try _ _ _ _ _) as [[s1 o1]|] eqn:E; [|done]. cbn. intros [= <- <-].
    eapply try_syslog_move; [done..|by left| |exact E].
    intros Hq. eapply goto_move; [done..|]. rewrite Hpc. by apply r_first_empty.
  - destruct (try_recv (p_http s)) as [received ch] eqn:Ht.
    destruct (after_try _ _ _ _ _) as [[s1 o1]|] eqn:E; [|done]. cbn. intros [= <- <-].
    eapply try_http_move; [done..| |exact E].
    intros Hq. pose proof (r_http_empty s (w_streak w) Hq) as Hr.
    case_match; (eapply goto_move; [done..|]); by rewrite Hpc.
  - destruct (try_recv (p_syslog s)) as [received ch] eqn:Ht.
    destruct (after_try _ _ _ _ _) as [[s1 o1]|] eqn:E; [|done]. cbn. intros [= <- <-].
    eapply try_syslog_move; [done..|by right| |exact E].
    intros Hq. eapply goto_move; [done..|]. rewrite Hpc. by apply r_then_empty.
  - destruct (try_recv_cases (p_http s)) as
      [(x & rest & c' & Hq & -> & Hq' & Hsm)|[(c' & Hq & Hop & -> & Hq' & Hsm)|(c' & Hq & Hop & -> & Hq' & Hsm)]];
      intros [= <- <-]; (eapply move_rule; [done|done|rewrite Hpc|]).
    + apply r_only.
    + done.
    + by apply r_only_empty.
    + done.
    + apply r_closed. right. auto.
    + done.
  - destruct (pc_syslog_enabled config) eqn:Hen; destruct item as [item|].
    + destruct (count_work_item (Found item) (w_streak w)) as [[r streak']|] eqn:Ec; [|done].
      pose proof (count_inv _ _ _ _ Ec) as ->. cbn. intros [= <- <-].
      eapply move_rule; [done|done|rewrite Hpc|].
      { apply r_selected. by rewrite Hen. } done.
    + intros [= <- <-]. eapply move_rule; [done|done|rewrite Hpc; apply r_selected_none|done].
    + intros [= <- <-]. eapply move_rule; [done|done|rewrite Hpc|].
      { apply r_selected. by rewrite Hen. } done.
    + intros [= <- <-]. eapply move_rule; [done|done|rewrite Hpc; apply r_selected_none|done].
  - intros [= <- <-]. eapply move_rule; [done|done|rewrite Hpc; apply r_answer|done].
Qed.

Lemma select_move i w s item s' :
  p_workers s !! i = Some w -> w_pc w = Selecting ->
  (pc_syslog_enabled config = false -> is_Some (http_of item)) ->
  p_workers s' = <[i := MkWorkerState (Selected (Some item)) (w_streak w)]> (p_workers s) ->
  worker_move s [Took i item] s'.
Proof.
  intros Hi Hpc Hit Hs. eapply (move_rule i w); [done|exact Hs| |].
  { rewrite Hpc. by apply r_select. } done.
Qed.

Lemma select_closed_move i w s s' :
  p_workers s !! i = Some w -> w_pc w = Selecting ->
  ch_open (p_http s) = false \/ ch_open (p_syslog s) = false ->
  p_workers s' = <[i := MkWorkerState (Selected None) (w_streak w)]> (p_workers s) ->
  worker_move s [] s'.
Proof.
  intros Hi Hpc Hcl Hs. eapply (move_rule i w); [done|exact Hs| |].
  { rewrite Hpc. by apply r_select_closed. } done.
Qed.

(** Every step of the pool is a rule of one worker or leaves the workers alone. *)
Lemma pool_step_move e s s' o : pool_step config e s = Ret (Some (s', o)) -> pool_move s o s'.
Proof.
  unfold pool_step. destruct e as [r|d|i item|i|i|i|ow|ow|i| | | | | |].
  - intros [= [_ [= <- <-]]%when_ok_inv]. apply move_other; eauto.
  - intros [= [_ [= <- <-]]%when_ok_inv]. apply move_other; eauto.
  - destruct (selecting i s) as [w|] eqn:E; [|done]. apply selecting_inv in E as [Hi Hpc].
    intros [= [Hrv [= <- <-]]%when_ok_inv].
    eapply (move_worker _ _ _ i w (LTake item)); [done|done| |right; by exists item].
    cbn. rewrite Hpc. apply r_select. intros Hen. unfold rendezvous in Hrv.
    destruct item; [by eexists|]. by rewrite Hen in Hrv.
  - destruct (p_workers s !! i) as [w|] eqn:Hi; [|done]. destruct (holds _ s); [|done].
    intros E. apply worker_move_pool. by eapply worker_turn_move.
  - destruct (selecting i s) as [w|] eqn:E; [|done]. apply selecting_inv in E as [Hi Hpc]. cbn.
    unfold select_http.
    destruct (try_recv_cases (p_http s)) as
      [(x & rest & c' & Hq & -> & Hq' & Hsm)|[(c' & Hq & Hop & -> & Hq' & Hsm)|(c' & Hq & Hop & -> & Hq' & Hsm)]];
      [|done|]; intros [= <- <-].
    + apply worker_move_pool. by eapply select_move.
    + apply worker_move_pool. eapply select_closed_move; eauto.
  - destruct (selecting i s) as [w|] eqn:E; [|done]. apply selecting_inv in E as [Hi Hpc]. cbn.
    destruct (pc_syslog_enabled config) eqn:Hen; [|done]. unfold select_syslog.
    destruct (try_recv_cases (p_syslog s)) as
      [(x & rest & c' & Hq & -> & Hq' & Hsm)|[(c' & Hq & Hop & -> & Hq' & Hsm)|(c' & Hq & Hop & -> & Hq' & Hsm)]];
      [|done|]; intros [= <- <-].
    + apply worker_move_pool. eapply select_move; [done..|congruence|done].
    + apply worker_move_pool. eapply select_closed_move; eauto.
  - intros [= [_ [= <- <-]]%when_ok_inv]. apply move_other; eauto.
  - intros [= [_ [= <- <-]]%when_ok_inv]. apply move_other; eauto.
  - destruct (p_workers s !! i) as [w|] eqn:Hi; [|done]. destruct (w_pc w) eqn:Hpc; try done.
    intros [= [_ [= <- <-]]%when_ok_inv].
    apply worker_move_pool.
    eapply (move_rule i w _ _ _ (LLose item)); [done|done|rewrite Hpc; apply r_lose|by destruct item].
  - destruct (p_main s); try done. intros [= [_ [= <- <-]]%when_ok_inv]. apply move_other; eauto.
  - destruct (p_main s); try done. destruct (pc_syslog_enabled config); intros [= <- <-];
      apply move_other; eauto.
  - destruct (p_main s); try done. intros [= <- <-]. apply move_other; eauto.
  - destruct (p_main s); try done. intros [= [_ [= <- <-]]%when_ok_inv]. apply move_other; eauto.
  - destruct (p_main s); try done. intros [= [_ [= <- <-]]%when_ok_inv]. apply move_other; eauto.
  - destruct (p_main s); try done. intros [= [_ [= <- <-]]%when_ok_inv]. apply move_other; eauto.
Qed.

(** ** The channels *)

(** What a step puts into a channel and takes out of it, at the two ends. *)
Definition flows {A} (f : WorkItem -> option A) o (c c' : Ch A) : Prop :=
  ch_queue c ++ omap f (sent_items o) = omap f (taken_items o) ++ ch_queue c' /\
  ch_capacity c' = ch_capacity c.

Definition flow o s s' : Prop :=
  flows http_of o (p_http s) (p_http s') /\ flows syslog_of o (p_syslog s) (p_syslog s').

Lemma flows_nothing {A} (f : WorkItem -> option A) o c :
  sent_items o = [] -> taken_items o = [] -> flows f o c c.
Proof. intros Hs Ht. unfold flows. rewrite Hs, Ht. by rewrite app_nil_r. Qed.

Lemma call_returned_chans i item streak s s' o :
  call_returned i item streak s = (s', o) ->
  p_http s' = p_http s /\ p_syslog s' = p_syslog s /\ sent_items o = [] /\ taken_items o = [].
Proof. destruct item; intros [= <- <-]; done. Qed.

(** Only senders put something in. *)
Definition takes o s s' : Prop := flow o s s' /\ sent_items o = [].

Lemma after_try_flow i w s tried next s1 s' o :
  after_try i w tried next s1 = Ret (s', o) ->
  (tried = NoWork -> p_http next = p_http s /\ p_syslog next = p_syslog s) ->
  (forall o', taken_items o' = taken_items (took i tried) -> sent_items o' = [] -> flow o' s s1) ->
  takes o s s'.
Proof.
  intros E Hno Hf. unfold after_try in E.
  assert (Hgo : (let* (item, streak) := count_work_item tried (w_streak w) in
                 let '(s, o) := call_returned i item streak s1 in Ret (s, took i tried ++ o)) =
                Ret (s', o) -> takes o s s').
  { destruct (count_work_item tried (w_streak w)) as [[item streak]|]; [|done]. cbn.
    destruct (call_returned i item streak s1) as [s2 o2] eqn:Ec. intros [= <- <-].
    apply call_returned_chans in Ec as (Hh & Hs & Hse & Ht). 
    assert (Hno' : sent_items (took i tried ++ o2) = []).
    { unfold sent_items in *. rewrite omap_app, Hse. by destruct tried. }
    split; [|done]. unfold flow. rewrite Hh, Hs. apply Hf; [|done].
    unfold taken_items in *. by rewrite omap_app, Ht, app_nil_r. }
  destruct tried as [item| |]; [by apply Hgo| |by apply Hgo]. injection E as <- <-.
  destruct Hno as [Hh Hs]; [done|]. split; [|done]. unfold flow. rewrite Hh, Hs. split; by apply flows_nothing.
Qed.

Lemma try_syslog_flow i w s next received ch s' o :
  try_recv (p_syslog s) = (received, ch) -> p_http next = p_http s -> p_syslog next = p_syslog s ->
  after_try i w (try_syslog_work_item received) next (set_syslog ch s) = Ret (s', o) -> takes o s s'.
Proof.
  intros Ht Hh Hs E. eapply after_try_flow; [exact E|done|]. intros o' Hta Hse. unfold flow, flows.
  rewrite Hta, Hse, !app_nil_r. cbn.
  destruct (try_recv_cases (p_syslog s)) as
    [(x & rest & c' & Hq & E' & Hq' & Hsm)|[(c' & Hq & Hop & E' & Hq' & Hsm)|(c' & Hq & Hop & E' & Hq' & Hsm)]];
    rewrite Ht in E'; injection E' as -> ->; destruct Hsm as [Hcap _]; cbn;
    by rewrite ?Hq, ?Hq', ?Hcap.
Qed.

Lemma try_http_flow i w s next received ch s' o :
  try_recv (p_http s) = (received, ch) -> p_http next = p_http s -> p_syslog next = p_syslog s ->
  after_try i w (try_http_work_item received) next (set_http ch s) = Ret (s', o) -> takes o s s'.
Proof.
  intros Ht Hh Hs E. eapply after_try_flow; [exact E|done|]. intros o' Hta Hse. unfold flow, flows.
  rewrite Hta, Hse, !app_nil_r. cbn.
  destruct (try_recv_cases (p_http s)) as
    [(x & rest & c' & Hq & E' & Hq' & Hsm)|[(c' & Hq & Hop & E' & Hq' & Hsm)|(c' & Hq & Hop & E' & Hq' & Hsm)]];
    rewrite Ht in E'; injection E' as -> ->; destruct Hsm as [Hcap _]; cbn;
    by rewrite ?Hq, ?Hq', ?Hcap.
Qed.

Lemma takes_nothing o s s' :
  p_http s' = p_http s -> p_syslog s' = p_syslog s -> sent_items o = [] -> taken_items o = [] ->
  takes o s s'.
Proof.
  intros Hh Hs Hse Ht. split; [|done]. unfold flow. rewrite Hh, Hs. split; by apply flows_nothing.
Qed.

Lemma worker_turn_flow i w s s' o :
  worker_turn config i w s = Ret (Some (s', o)) -> takes o s s'.
Proof.
  unfold worker_turn. cbv zeta.
  destruct (w_pc w) as [| | | | | |item|item| |]; try done.
  - intros [= <- <-]. by apply takes_nothing.
  - destruct (try_recv (p_syslog s)) as [received ch] eqn:Ht.
    destruct (after_try _ _ _ _ _) as [[s1 o1]|] eqn:E; [|done]. cbn. intros [= <- <-].
    eapply try_syslog_flow; [exact Ht|..|exact E]; done.
  - destruct (try_recv (p_http s)) as [received ch] eqn:Ht.
    destruct (after_try _ _ _ _ _) as [[s1 o1]|] eqn:E; [|done]. cbn. intros [= <- <-].
    eapply try_http_flow; [exact Ht|..|exact E]; by case_match.
  - destruct (try_recv (p_syslog s)) as [received ch] eqn:Ht.
    destruct (after_try _ _ _ _ _) as [[s1 o1]|] eqn:E; [|done]. cbn. intros [= <- <-].
    eapply try_syslog_flow; [exact Ht|..|exact E]; done.
  - destruct (try_recv_cases (p_http s)) as
      [(x & rest & c' & Hq & -> & Hq' & Hsm)|[(c' & Hq & Hop & -> & Hq' & Hsm)|(c' & Hq & Hop & -> & Hq' & Hsm)]];
      intros [= <- <-]; [|by apply takes_nothing..].
    split; [|done]. unfold flow, flows. destruct Hsm as [Hcap _]. cbn.
  by rewrite Hq, Hq', Hcap, !app_nil_r.
  - assert (Hgo : forall r streak, Ret (Some (call_returned i r streak s)) = Ret (Some (s', o)) ->
              takes o s s').
    { intros r streak E. assert (Ec : call_returned i r streak s = (s', o)) by congruence.
      apply call_returned_chans in Ec as (? & ? & ? & ?). by apply takes_nothing. }
    destruct (pc_syslog_enabled config); [|apply Hgo].
    destruct item as [item|]; [|apply Hgo].
    destruct (count_work_item (Found item) (w_streak w)) as [[r streak']|]; [|done]. cbn.
    apply Hgo.
  - intros [= <- <-]. by apply takes_nothing.
Qed.

(** No channel ever holds more than it may. *)
Definition bounded_ok {A} (c : Ch A) : Prop := zlen (ch_queue c) <= ch_capacity c.

Lemma full_empty {A} (c : Ch A) : bounded_ok c -> ch_capacity c = 0 -> ch_queue c = [].
Proof. unfold bounded_ok. intros Hb Hc. destruct (ch_queue c); [done|cbn in Hb; lia]. Qed.

Lemma takes_bounded o s s' :
  takes o s s' -> bounded_ok (p_http s) -> bounded_ok (p_syslog s) ->
  flow o s s' /\ bounded_ok (p_http s') /\ bounded_ok (p_syslog s').
Proof.
  intros [Hf Hn]. split; [done|]. destruct Hf as [[Eh Hch] [Es Hcs]]. rewrite Hn, !app_nil_r in *.
  unfold bounded_ok in *. rewrite Hch, Hcs, Eh, Es, !length_app in *. lia.
Qed.

Lemma select_http_flow i w s s' o : select_http i w s = Some (s', o) -> takes o s s'.
Proof.
  unfold select_http.
  destruct (try_recv_cases (p_http s)) as
      [(x & rest & c' & Hq & -> & Hq' & Hsm)|[(c' & Hq & Hop & -> & Hq' & Hsm)|(c' & Hq & Hop & -> & Hq' & Hsm)]];
    [|done|]; intros [= <- <-]; [|by apply takes_nothing].
  split; [|done]. unfold flow, flows. destruct Hsm as [Hcap _]. cbn.
  by rewrite Hq, Hq', Hcap, !app_nil_r.
Qed.

Lemma select_syslog_flow i w s s' o : select_syslog i w s = Some (s', o) -> takes o s s'.
Proof.
  unfold select_syslog.
  destruct (try_recv_cases (p_syslog s)) as
      [(x & rest & c' & Hq & -> & Hq' & Hsm)|[(c' & Hq & Hop & -> & Hq' & Hsm)|(c' & Hq & Hop & -> & Hq' & Hsm)]];
    [|done|]; intros [= <- <-]; [|by apply takes_nothing].
  split; [|done]. unfold flow, flows. destruct Hsm as [Hcap _]. cbn.
  by rewrite Hq, Hq', Hcap, !app_nil_r.
Qed.

(** A rendezvous passes an empty channel by. *)
Lemma handoff_flow i w item s s' o :
  rendezvous config item s = true -> bounded_ok (p_http s) -> bounded_ok (p_syslog s) ->
  selected_item i w (Some item) s = (s', o) ->
  flow (Sent item :: o) s s' /\ bounded_ok (p_http s') /\ bounded_ok (p_syslog s').
Proof.
  intros Hr Hbh Hbs [= <- <-]. split; [|done]. unfold flow, flows, rendezvous in *. cbn.
  destruct item as [r|d]; cbn.
  - rewrite full_empty by (done || lia). by rewrite app_nil_r.
  - rewrite app_nil_r. rewrite (full_empty (p_syslog s)) by (done || lia). done.
Qed.

Lemma push_bounded {A} (x : A) (c : Ch A) : ch_has_room c = true -> bounded_ok (ch_push x c).
Proof.
  unfold bounded_ok, ch_has_room. destruct (ch_push_spec A x c) as (-> & -> & _).
  rewrite length_app. cbn. lia.
Qed.

Lemma push_flows {A} (f : WorkItem -> option A) item x (c : Ch A) :
  f item = Some x -> flows f [Sent item] c (ch_push x c).
Proof.
  intros Hf. unfold flows. cbn. rewrite Hf. by destruct (ch_push_spec A x c) as (-> & -> & _).
Qed.

(** A channel that closes keeps what it holds. *)
Lemma close_flows {A} (f : WorkItem -> option A) (c : Ch A) : flows f [] c (ch_close c).
Proof. destruct (ch_close_spec A c) as (E & Ec & _). unfold flows. cbn. by rewrite E, Ec, app_nil_r. Qed.

Lemma close_bounded {A} (c : Ch A) : bounded_ok c -> bounded_ok (ch_close c).
Proof. destruct (ch_close_spec A c) as (E & Ec & _). unfold bounded_ok. by rewrite E, Ec. Qed.

Lemma pool_step_flow e s s' o :
  bounded_ok (p_http s) -> bounded_ok (p_syslog s) ->
  pool_step config e s = Ret (Some (s', o)) ->
  flow o s s' /\ bounded_ok (p_http s') /\ bounded_ok (p_syslog s').
Proof.
  intros Hbh Hbs. pose proof (fun Ht => takes_bounded o s s' Ht Hbh Hbs) as Ht.
  unfold pool_step. destruct e as [r|d|i item|i|i|i|ow|ow|i| | | | | |].
  - intros [= [[_ Hroom]%andb_true_iff [= <- <-]]%when_ok_inv].
    split_and!; [|by apply push_bounded|done].
    split; [by apply push_flows|]. unfold flows. cbn. by rewrite app_nil_r.
  - intros [= [[_ Hroom]%andb_true_iff [= <- <-]]%when_ok_inv].
    split_and!; [|done|by apply push_bounded].
    split; [|by apply push_flows]. unfold flows. cbn. by rewrite app_nil_r.
  - destruct (selecting i s) as [w|]; [|done]. cbn -[selected_item].
    destruct (selected_item i w (Some item) s) as [s1 o1] eqn:E. intros [= [Hr [= <- <-]]%when_ok_inv].
    by eapply handoff_flow.
  - destruct (p_workers s !! i) as [w|]; [|done]. destruct (holds _ s); [|done].
    intros E. apply Ht. by eapply worker_turn_flow.
  - destruct (selecting i s) as [w|]; [|done]. intros [= E]. apply Ht. by eapply select_http_flow.
  - destruct (selecting i s) as [w|]; [|done]. cbn. destruct (pc_syslog_enabled config); [|done].
    intros [= E]. apply Ht. by eapply select_syslog_flow.
  - intros [= [_ [= <- <-]]%when_ok_inv]. apply Ht. by apply takes_nothing.
  - intros [= [_ [= <- <-]]%when_ok_inv]. apply Ht. by apply takes_nothing.
  - destruct (p_workers s !! i) as [w|]; [|done]. destruct (w_pc w) as [| | | | | |item| | |]; try done.
    intros [= [_ [= <- <-]]%when_ok_inv]. apply Ht. by destruct item; apply takes_nothing.
  - destruct (p_main s); try done. intros [= [_ [= <- <-]]%when_ok_inv]. apply Ht. by apply takes_nothing.
  - destruct (p_main s); try done. destruct (pc_syslog_enabled config); intros [= <- <-];
      apply Ht; by apply takes_nothing.
  - destruct (p_main s); try done. intros [= <- <-]. apply Ht. by apply takes_nothing.
  - destruct (p_main s); try done. intros [= [_ [= <- <-]]%when_ok_inv].
    split_and!; [split; [apply close_flows|]|by apply close_bounded|done].
    unfold flows. cbn. by rewrite app_nil_r.
  - destruct (p_main s); try done. intros [= [_ [= <- <-]]%when_ok_inv].
    split_and!; [split; [|apply close_flows]|done|by apply close_bounded].
    unfold flows. cbn. by rewrite app_nil_r.
  - destruct (p_main s); try done. intros [= [_ [= <- <-]]%when_ok_inv]. apply Ht. by apply takes_nothing.
Qed.

(** ** What becomes of the items *)

Lemma on_eq {A} i (a : A) : on i i a = Some a.
Proof. unfold on. by rewrite decide_True. Qed.

Lemma on_ne {A} i j (a : A) : i <> j -> on i j a = None.
Proof. intros ?. unfold on. by rewrite decide_False. Qed.

(** A rule moves one item from the channel to the hand, or from the hand on. *)
Lemma rule_hand s streak pc l pc' streak' i :
  rule s streak pc l pc' streak' ->
  in_hand pc ++ taken_by i (label_obs i l) =
  answered_by i (label_obs i l) ++ lost_by i (label_obs i l) ++ in_hand pc'.
Proof.
  destruct 1 as [| | | | | | | | |pc [[[] ?]|[[] ?]]| | | | | |[]]; subst; cbn; rewrite ?on_eq; try done;
    unfold first_try; repeat case_match; done.
Qed.

Lemma label_obs_other i j l :
  i <> j -> taken_by i (label_obs j l) = [] /\ answered_by i (label_obs j l) = [] /\
  lost_by i (label_obs j l) = [].
Proof. intros Hne. destruct l as [| | | | |[]]; cbn; rewrite ?on_ne by done; done. Qed.

(** A worker that lost its item is gone. *)
Definition killed s (i : nat) : Prop := w_pc <$> p_workers s !! i = Some Killed.

Definition items_ok tr s (i : nat) : Prop :=
  taken_by i tr = answered_by i tr ++ lost_by i tr ++ hand s i /\
  (lost_by i tr = [] \/ (zlen (lost_by i tr) = 1 /\ killed s i)).

Lemma items_ok_same tr o s s' i :
  p_workers s' !! i = p_workers s !! i -> taken_by i o = [] -> answered_by i o = [] ->
  lost_by i o = [] -> items_ok tr s i -> items_ok (tr ++ o) s' i.
Proof.
  unfold items_ok, hand, killed, taken_by, answered_by, lost_by. intros Hs Ht Ha Hl [E Hk].
  by rewrite !omap_app, Ht, Ha, Hl, !app_nil_r, Hs.
Qed.

Lemma rule_killed s streak l pc' streak' : ~ rule s streak Killed l pc' streak'.
Proof. inversion 1; subst; naive_solver. Qed.

Lemma rule_lost s streak pc l pc' streak' i :
  rule s streak pc l pc' streak' ->
  lost_by i (label_obs i l) = [] \/ (zlen (lost_by i (label_obs i l)) = 1 /\ pc' = Killed).
Proof. destruct 1 as [| | | | | | | | | | | | | | |[]]; cbn; rewrite ?on_eq; auto. Qed.

Lemma items_ok_rule tr o s s' i w l w' :
  p_workers s !! i = Some w -> p_workers s' = <[i := w']> (p_workers s) ->
  rule s (w_streak w) (w_pc w) l (w_pc w') (w_streak w') ->
  taken_by i o = taken_by i (label_obs i l) -> answered_by i o = answered_by i (label_obs i l) ->
  lost_by i o = lost_by i (label_obs i l) -> items_ok tr s i -> items_ok (tr ++ o) s' i.
Proof.
  intros Hi Hs Hr Et Ea El [E Hk].
  assert (Hlost : lost_by i tr = []).
  { destruct Hk as [?|[_ Hk]]; [done|]. unfold killed in Hk. rewrite Hi in Hk. injection Hk as Hk.
    rewrite Hk in Hr. by apply rule_killed in Hr. }
  pose proof (rule_hand _ _ _ _ _ _ i Hr) as Hh. pose proof (rule_lost _ _ _ _ _ _ i Hr) as Hl.
  unfold items_ok, hand, killed, taken_by, answered_by, lost_by in *.
  rewrite !omap_app, Hs, lookup_insert_eq, Et, Ea, El, Hlost. cbn. rewrite Hi, Hlost in E. cbn in E.
  rewrite E, <- !app_assoc, Hh. split; [done|]. destruct Hl as [?|[? ->]]; auto.
Qed.

Lemma obs_sent i item o :
  taken_by i (Sent item :: o) = taken_by i o /\ answered_by i (Sent item :: o) = answered_by i o /\
  lost_by i (Sent item :: o) = lost_by i o.
Proof. done. Qed.

Lemma items_ok_step tr e s s' o i :
  pool_step config e s = Ret (Some (s', o)) -> items_ok tr s i -> items_ok (tr ++ o) s' i.
Proof.
  intros [j w l w' Hj Hs Hr Ho|Hs Ho]%pool_step_move Hit.
  - assert (taken_by i o = taken_by i (label_obs j l) /\ answered_by i o = answered_by i (label_obs j l) /\
            lost_by i o = lost_by i (label_obs j l)) as (Et & Ea & El)
      by (by destruct Ho as [->|[item ->]]).
    destruct (decide (i = j)) as [<-|Hne]; [by eapply items_ok_rule|].
    destruct (label_obs_other i j l Hne) as (Ht' & Ha' & Hl').
    apply (items_ok_same tr o s); [|congruence..|done]. by rewrite Hs, lookup_insert_ne.
  - apply (items_ok_same tr o s); [by rewrite Hs|..|done]; by destruct Ho as [->|[item ->]].
Qed.

Lemma sent_items_app tr o : sent_items (tr ++ o) = sent_items tr ++ sent_items o.
Proof. apply omap_app. Qed.
Lemma taken_items_app tr o : taken_items (tr ++ o) = taken_items tr ++ taken_items o.
Proof. apply omap_app. Qed.

(** The flow through a channel since the start. *)
Lemma flows_app {A} (f : WorkItem -> option A) tr o (c c' : Ch A) :
  omap f (sent_items tr) = omap f (taken_items tr) ++ ch_queue c -> flows f o c c' ->
  omap f (sent_items (tr ++ o)) = omap f (taken_items (tr ++ o)) ++ ch_queue c'.
Proof.
  intros E [Ef _]. rewrite sent_items_app, taken_items_app, !omap_app, E, <- !app_assoc. by f_equal.
Qed.

Lemma pool_channels tr s :
  0 <= pc_capacity config -> pool_reachable config threads tr s ->
  (bounded_ok (p_http s) /\ ch_capacity (p_http s) = pc_capacity config /\
   omap http_of (sent_items tr) = omap http_of (taken_items tr) ++ ch_queue (p_http s)) /\
  (bounded_ok (p_syslog s) /\ ch_capacity (p_syslog s) = pc_capacity config /\
   omap syslog_of (sent_items tr) = omap syslog_of (taken_items tr) ++ ch_queue (p_syslog s)).
Proof.
  intros Hc. induction 1 as [|tr s e s' o Hr IH Hs].
  { cbn. unfold bounded_ok. destruct (bounded_spec Req (pc_capacity config)) as (-> & -> & _),
      (bounded_spec Delivery (pc_capacity config)) as (-> & -> & _). by split_and!. }
  destruct IH as [(Hbh & Hch & Eh) (Hbs & Hcs & Es)].
  destruct (pool_step_flow _ _ _ _ Hbh Hbs Hs) as ([Fh Fs] & Hbh' & Hbs').
  split; (split_and!; [done| |]).
  - by rewrite (proj2 Fh).
  - by eapply flows_app.
  - by rewrite (proj2 Fs).
  - by eapply flows_app.
Qed.

Lemma pool_items tr s i : pool_reachable config threads tr s -> items_ok tr s i.
Proof.
  induction 1 as [|tr s e s' o Hr IH Hs]; [|by eapply items_ok_step].
  split; [|by left]. unfold hand, pool_init. cbn. rewrite lookup_gset_to_gmap. by case_guard.
Qed.

(** C6. Work is taken once and in order: what the workers have taken from a channel, in
    the order in which they took it, followed by what it holds, is what was sent on
    it, and it never holds more than its capacity; and what one worker took is what
    it answered, in order, then what it holds or, if its thread was interrupted while
    it waited, the item that was lost with it. *)
Theorem pool_takes_once tr s :
  0 <= pc_capacity config -> pool_reachable config threads tr s ->
  omap http_of (sent_items tr) = omap http_of (taken_items tr) ++ ch_queue (p_http s) /\
  omap syslog_of (sent_items tr) = omap syslog_of (taken_items tr) ++ ch_queue (p_syslog s) /\
  zlen (ch_queue (p_http s)) <= pc_capacity config /\
  zlen (ch_queue (p_syslog s)) <= pc_capacity config /\
  forall i, taken_by i tr = answered_by i tr ++ lost_by i tr ++ hand s i /\
    zlen (lost_by i tr ++ hand s i) <= 1.
Proof.
  intros Hc Hr. destruct (pool_channels tr s Hc Hr) as [(Hbh & Hch & Eh) (Hbs & Hcs & Es)].
  unfold bounded_ok in *. rewrite Hch in Hbh. rewrite Hcs in Hbs. split_and!; [done..|].
  intros i. destruct (pool_items tr s i Hr) as [E Hl]. split; [done|]. rewrite length_app.
  destruct Hl as [-> |[Hl Hk]].
  - unfold hand. destruct (p_workers s !! i) as [w|]; cbn; [|lia].
    destruct (w_pc w) as [| | | | | |[]| | |]; cbn; lia.
  - unfold hand, killed in *. destruct (p_workers s !! i) as [w|]; [|done]. cbn in *.
    injection Hk as ->. cbn. lia.
Qed.
End props.

(** ** Executions *)

Section executions.
Context `{Profile} {Ch : Type -> Type} `{!Channel Ch, !ChannelSpec Ch} {Req Delivery : Type}.

Lemma pool_run_reachable config threads es : forall tr s (s' : Pool (Req := Req) (Delivery := Delivery)) o,
  pool_reachable config threads tr s -> pool_run config es s = Some (s', o) ->
  pool_reachable config threads (tr ++ o) s'.
Proof.
  induction es as [|e es IH]; intros tr s s' o Hr; cbn [pool_run].
  - intros [= <- <-]. by rewrite app_nil_r.
  - destruct (pool_step config e s) as [[[s1 o1]|]|] eqn:Hs; try done.
    destruct (pool_run config es s1) as [[s2 o2]|] eqn:Hrun; [|done]. cbn. intros [= <- <-].
    rewrite app_assoc. eapply IH; [|done]. by eapply pool_reachable_step.
Qed.
End executions.

(** ** Witness *)

#[local] Existing Instance release.

(** Two workers; every second item may be a syslog message. *)
Definition demo_pool_config : PoolConfig := MkPoolConfig true 1 2.
Definition demo_threads : gset nat := {[ 0; 1 ]}%nat.

Definition demo_start : Pool (Req := nat) (Delivery := nat) :=
  pool_init demo_pool_config demo_threads.

(** Worker 0 waits; a request arrives, and another; worker 0 takes the first one, a
    syslog message follows; worker 1 takes that, and worker 0 answers its request. *)
Definition demo_pool_events : list (pool_event (Req := nat) (Delivery := nat)) :=
  [PYield OwnMain; PAcquire (OwnWorker 0); PWorker 0; PWorker 0; PWorker 0;
   PSendHttp 1%nat; PSendHttp 2%nat; PSelectHttp 0; PSendSyslog 7%nat;
   PAcquire (OwnWorker 1); PWorker 1; PWorker 1; PYield (OwnWorker 1);
   PAcquire (OwnWorker 0); PWorker 0; PWorker 0].

Definition demo_pool : Pool * list (pool_obs (Req := nat) (Delivery := nat)) :=
  default (demo_start, []) (pool_run demo_pool_config demo_pool_events demo_start).

Lemma demo_pool_reachable : pool_reachable demo_pool_config demo_threads demo_pool.2 demo_pool.1.
Proof.
  apply (pool_run_reachable demo_pool_config demo_threads demo_pool_events [] demo_start);
    [constructor|vm_compute; reflexivity].
Qed.

Lemma pool_takes_once_witness :
  demo_pool.2 = [Sent (HttpItem 1); Sent (HttpItem 2); Took 0 (HttpItem 1); Sent (SyslogItem 7);
                 Took 1 (SyslogItem 7); Called 1 (Some (SyslogItem 7));
                 Called 0 (Some (HttpItem 1)); Answered 0 (HttpItem 1)]%nat /\
  omap http_of (sent_items demo_pool.2) =
    omap http_of (taken_items demo_pool.2) ++ ch_queue (p_http demo_pool.1) /\
  omap syslog_of (sent_items demo_pool.2) =
    omap syslog_of (taken_items demo_pool.2) ++ ch_queue (p_syslog demo_pool.1) /\
  zlen (ch_queue (p_http demo_pool.1)) <= 2 /\ zlen (ch_queue (p_syslog demo_pool.1)) <= 2 /\
  forall i, taken_by i demo_pool.2 =
      answered_by i demo_pool.2 ++ lost_by i demo_pool.2 ++ hand demo_pool.1 i /\
    zlen (lost_by i demo_pool.2 ++ hand demo_pool.1 i) <= 1.
Proof.
  split; [vm_compute; reflexivity|].
  apply (pool_takes_once demo_pool_config demo_threads demo_pool.2 demo_pool.1);
    [by vm_compute|apply demo_pool_reachable].
Defined.
