(* ===== verification/PoolSched.v ===== *)
(** * Scheduling in the pool of workers

    How the pool relates to [next_work_item], how long syslog messages can run ahead
    of a request that waits, and what holding the lock means for the workers. *)
From S2P Require Import Prelude Worker Pool PoolProps.

Local Open Scope Z_scope.

Section sched.
Context `{Profile} {Ch : Type -> Type} `{!Channel Ch, !ChannelSpec Ch} {Req Delivery : Type}.
Context (config : PoolConfig) (threads : gset nat).
Notation WorkItem := (WorkItem (Req := Req) (Delivery := Delivery)).
Notation Pool := (Pool (Ch := Ch) (Req := Req) (Delivery := Delivery)).
Notation Pc := (Pc (Req := Req) (Delivery := Delivery)).
Notation WorkerState := (WorkerState (Req := Req) (Delivery := Delivery)).
Notation pool_obs := (pool_obs (Req := Req) (Delivery := Delivery)).
Notation label := (label (Req := Req) (Delivery := Delivery)).
Implicit Types (s : Pool) (o tr : list pool_obs) (w : WorkerState) (pc : Pc).

Context (Hratio : 0 <= pc_work_ratio config < 2 ^ 32).

(** ** Where a worker can be *)

(** The order of the tries was chosen by the streak, which is a [u32]. *)
Definition place_ok pc (streak : Z) : Prop :=
  0 <= streak < 2 ^ 32 /\
  match pc with
  | TrySyslogFirst => pc_syslog_enabled config = true /\ streak < pc_work_ratio config
  | TrySyslogThen => pc_syslog_enabled config = true /\ pc_work_ratio config <= streak
  | TryHttp => pc_syslog_enabled config = true
  | TryHttpOnly => pc_syslog_enabled config = false
  | _ => True
  end.

Lemma u32_add_mod streak streak' :
  0 <= streak < 2 ^ 32 -> u32_add streak 1 = Ret streak' -> streak' = (streak + 1) mod 2 ^ 32.
Proof.
  intros Hs. unfold u32_add, add_wrapping. destruct (Z.ltb_spec (streak + 1) (2 ^ 32)).
  - intros [= <-]. rewrite Z.mod_small; lia.
  - by destruct overflow_checks; intros [= <-].
Qed.

Lemma count_mod (item : WorkItem) streak streak' :
  0 <= streak < 2 ^ 32 -> count_work_item (Found item) streak = Ret (Some item, streak') ->
  streak' = match item with HttpItem _ => 0 | SyslogItem _ => (streak + 1) mod 2 ^ 32 end.
Proof.
  intros Hs. destruct item as [r|d]; [by intros E%count_http|].
  intros E%count_syslog. by apply u32_add_mod.
Qed.

Lemma rule_place s streak pc l pc' streak' :
  place_ok pc streak -> rule config s streak pc l pc' streak' -> place_ok pc' streak'.
Proof.
  unfold place_ok. intros [Hs Hp] Hr. pose proof (Z.mod_pos_bound (streak + 1) (2 ^ 32) ltac:(done)).
  destruct Hr as [|?|d streak' Hu|?|r|?|d streak' Hu|?|r|pc Hc|item Hi|Hc|item streak' Hc| |item|item];
    try (split; [lia|done]); try (apply u32_add_mod in Hu as ->; [by split|done]).
  - split; [done|]. unfold first_try. destruct (pc_syslog_enabled config); [|done].
    by destruct (Z.ltb_spec streak (pc_work_ratio config)).
  - by destruct Hp.
  - split; [done|]. by destruct (Z.ltb_spec streak (pc_work_ratio config)).
  - destruct (pc_syslog_enabled config); [|subst; by split].
    apply count_mod in Hc as ->; [|done]. split; [destruct item; lia|done].
Qed.

Definition places_ok s : Prop := map_Forall (fun _ w => place_ok (w_pc w) (w_streak w)) (p_workers s).

Lemma pool_places tr s : pool_reachable config threads tr s -> places_ok s.
Proof.
  induction 1 as [|tr s e s' o Hr IH Hs].
  - intros i w Hi. cbn in Hi. rewrite lookup_gset_to_gmap in Hi.
    destruct (decide (i ∈ threads)); [|by rewrite option_guard_False in Hi].
    rewrite option_guard_True in Hi by done. injection Hi as <-. by split.
  - apply pool_step_move in Hs as [i w l w' Hi Ew Hrule _|Ew _]; unfold places_ok; rewrite Ew; [|done].
    apply map_Forall_insert_2; [|done]. eapply rule_place; [|done]. by apply IH in Hi.
Qed.

(** ** A call is [next_work_item] *)

(** The answers a call of the worker has had and, at a try, the one it is about to
    have: a place is reached only after the tries before it found nothing. *)
Definition call_answers s w (ob : observed (Req := Req) (Delivery := Delivery)) : Prop :=
  match w_pc w with
  | TrySyslogFirst => syslog_try ob = (try_recv (p_syslog s)).1
  | TryHttp =>
      (w_streak w < pc_work_ratio config -> syslog_try ob = Err Empty) /\
      http_try ob = (try_recv (p_http s)).1
  | TrySyslogThen => http_try ob = Err Empty /\ syslog_try ob = (try_recv (p_syslog s)).1
  | TryHttpOnly => http_try ob = (try_recv (p_http s)).1
  | Selected item =>
      http_try ob = Err Empty /\
      if pc_syslog_enabled config then syslog_try ob = Err Empty /\ selected ob = item
      else HttpItem <$> http_recv ob = item
  | _ => False
  end.

Definition call_result ob streak (item : option WorkItem) streak' : Prop :=
  if pc_syslog_enabled config
  then next_work_item ob streak (pc_work_ratio config) = Ret (item, streak')
  else next_http_work_item ob = item /\ streak' = streak.

Lemma call_returned_called i item streak s s' o r :
  call_returned i item streak s = (s', o) -> Called i r ∈ o ->
  r = item /\ w_streak <$> p_workers s' !! i = Some streak.
Proof.
  unfold call_returned. destruct item; intros [= <- <-] Hin; apply list_elem_of_singleton in Hin;
    injection Hin as ->; cbn; by rewrite lookup_insert_eq.
Qed.

(** A try that ends the call. *)
Lemma after_try_called i w tried next s1 s' o r :
  after_try i w tried next s1 = Ret (s', o) -> Called i r ∈ o ->
  exists streak', count_work_item tried (w_streak w) = Ret (r, streak') /\ tried <> NoWork /\
    w_streak <$> p_workers s' !! i = Some streak'.
Proof.
  unfold after_try. intros E Hin.
  assert (tried <> NoWork) as Hne by (by intros ->; injection E as <- <-; apply elem_of_nil in Hin).
  assert (Hgo : (let* (item, streak) := count_work_item tried (w_streak w) in
                 let '(s, o) := call_returned i item streak s1 in Ret (s, took i tried ++ o)) =
                Ret (s', o)) by (by destruct tried).
  destruct (count_work_item tried (w_streak w)) as [[item streak]|]; [|done]. cbn in Hgo.
  destruct (call_returned i item streak s1) as [s2 o2] eqn:Ec. injection Hgo as <- <-.
  apply elem_of_app in Hin as [Hin|Hin].
  - destruct tried; cbn in Hin; [|done|by apply elem_of_nil in Hin].
    by apply list_elem_of_singleton in Hin.
  - destruct (call_returned_called _ _ _ _ _ _ _ Ec Hin) as [-> ?]. eauto.
Qed.

Lemma worker_turn_called i w s ob s' o item :
  place_ok (w_pc w) (w_streak w) -> call_answers s w ob ->
  worker_turn config i w s = Ret (Some (s', o)) -> Called i item ∈ o ->
  exists streak', call_result ob (w_streak w) item streak' /\
    w_streak <$> p_workers s' !! i = Some streak'.
Proof.
  unfold place_ok, call_answers, worker_turn, call_result. cbv zeta. intros [_ Hp] Ha.
  destruct (w_pc w) as [| | | | | |sel|h| |]; try done.
  - destruct Hp as [-> Hlt]. destruct (try_recv (p_syslog s)) as [received ch]. cbn in Ha.
    destruct (after_try _ _ _ _ _) as [[s1 o1]|] eqn:E; [|done]. cbn. intros [= <- <-] Hin.
    destruct (after_try_called _ _ _ _ _ _ _ _ E Hin) as (streak' & Hc & Hne & Hs).
    exists streak'. split; [|done]. unfold next_work_item.
    rewrite (proj2 (Z.ltb_lt _ _) Hlt), Ha. by destruct (try_syslog_work_item received).
  - rewrite Hp. destruct Ha as [Hsy Hh]. destruct (try_recv (p_http s)) as [received ch]. cbn in Hh.
    destruct (after_try _ _ _ _ _) as [[s1 o1]|] eqn:E; [|done]. cbn. intros [= <- <-] Hin.
    destruct (after_try_called _ _ _ _ _ _ _ _ E Hin) as (streak' & Hc & Hne & Hs).
    exists streak'. split; [|done]. unfold next_work_item. rewrite Hh.
    destruct (Z.ltb_spec (w_streak w) (pc_work_ratio config)) as [Hlt|Hge].
    + rewrite Hsy by done. cbn. by destruct (try_http_work_item received).
    + by destruct (try_http_work_item received).
  - destruct Hp as [-> Hge]. destruct Ha as [Hh Hsy].
    destruct (try_recv (p_syslog s)) as [received ch]. cbn in Hsy.
    destruct (after_try _ _ _ _ _) as [[s1 o1]|] eqn:E; [|done]. cbn. intros [= <- <-] Hin.
    destruct (after_try_called _ _ _ _ _ _ _ _ E Hin) as (streak' & Hc & Hne & Hs).
    exists streak'. split; [|done]. unfold next_work_item.
    rewrite (proj2 (Z.ltb_ge _ _) Hge), Hh, Hsy. by destruct (try_syslog_work_item received).
  - rewrite Hp. unfold next_http_work_item. rewrite Ha.
    destruct (try_recv (p_http s)) as [[r|[]] ch]; intros [= <- <-] Hin.
    + exists (w_streak w). cbn. rewrite lookup_insert_eq. split_and!; [|done..].
      apply elem_of_cons in Hin as [?|Hin%list_elem_of_singleton]; [done|by injection Hin as ->].
    + by apply elem_of_nil in Hin.
    + exists (w_streak w). cbn. rewrite lookup_insert_eq. split_and!; [|done..].
      apply list_elem_of_singleton in Hin. by injection Hin as ->.
  - destruct Ha as [Hh Hsel]. unfold next_work_item, next_http_work_item. rewrite Hh.
    destruct (pc_syslog_enabled config).
    + destruct Hsel as [Hsy ->]. rewrite Hsy. cbn [try_http_work_item try_syslog_work_item].
      destruct sel as [it|].
      * destruct (count_work_item (Found it) (w_streak w)) as [[r streak']|] eqn:Ec; [|done]. cbn.
        destruct (call_returned i r streak' s) as [s1 o1] eqn:Er. intros [= <- <-] Hin.
        destruct (call_returned_called _ _ _ _ _ _ _ Er Hin) as [-> ?]. exists streak'.
        split; [|done]. by case_match.
      * destruct (call_returned i None (w_streak w) s) as [s1 o1] eqn:Er. intros [= <- <-] Hin.
        destruct (call_returned_called _ _ _ _ _ _ _ Er Hin) as [-> ?]. exists (w_streak w).
        split; [|done]. by case_match.
    + destruct (call_returned i sel (w_streak w) s) as [s1 o1] eqn:Er. intros [= <- <-] Hin.
      destruct (call_returned_called _ _ _ _ _ _ _ Er Hin) as [-> ?]. by exists (w_streak w).
Qed.

(** The two models of a worker's call agree: whenever a call of a worker among others
    returns, its item and its new streak are those [next_work_item] (or
    [next_http_work_item] without syslog listeners) computes from the answers the
    shared channels gave it. *)
Theorem pool_call_refines tr s i w ob s' o item :
  pool_reachable config threads tr s -> p_workers s !! i = Some w -> call_answers s w ob ->
  pool_step config (PWorker i) s = Ret (Some (s', o)) -> Called i item ∈ o ->
  exists streak', call_result ob (w_streak w) item streak' /\
    w_streak <$> p_workers s' !! i = Some streak'.
Proof.
  intros Hr Hi Ha. cbn. rewrite Hi. destruct (holds (OwnWorker i) s); [|done].
  eapply worker_turn_called; [|done]. by apply (pool_places _ _ Hr i).
Qed.

(** ** Requests are not starved by the pool *)

Definition debit (streak : Z) : Z := Z.max 0 (pc_work_ratio config - streak).

(** How many syslog messages a worker may still take before a request that waits. *)
Definition allowance w : Z :=
  let after := debit ((w_streak w + 1) mod 2 ^ 32) in
  match w_pc w with
  | TrySyslogThen | Selecting => Z.max (debit (w_streak w)) after + 1
  | Selected (Some (SyslogItem _)) => after
  | Selected (Some (HttpItem _)) => debit 0
  | Stopped | Killed => 0
  | _ => debit (w_streak w)
  end.

Lemma debit_bound streak : 0 <= streak -> 0 <= debit streak <= pc_work_ratio config.
Proof. unfold debit. lia. Qed.

Lemma allowance_bound w :
  place_ok (w_pc w) (w_streak w) -> 0 <= allowance w <= pc_work_ratio config + 1.
Proof.
  intros [Hs _]. pose proof (Z.mod_pos_bound (w_streak w + 1) (2 ^ 32) ltac:(done)).
  pose proof (debit_bound (w_streak w)). pose proof (debit_bound ((w_streak w + 1) mod 2 ^ 32)).
  pose proof (debit_bound 0). unfold allowance. repeat case_match; lia.
Qed.

Definition syslog_taken o : Z := zlen (omap syslog_of (taken_items o)).

Lemma rule_allowance s w l w' i :
  pc_syslog_enabled config = true -> ch_queue (p_http s) <> [] ->
  place_ok (w_pc w) (w_streak w) ->
  rule config s (w_streak w) (w_pc w) l (w_pc w') (w_streak w') ->
  omap http_of (taken_items (label_obs i l)) = [] ->
  allowance w' + syslog_taken (label_obs i l) <= allowance w.
Proof.
  intros Hen Hq [Hs Hp]. destruct w as [pc streak], w' as [pc' streak']. cbn in *.
  pose proof (Z.mod_pos_bound (streak + 1) (2 ^ 32) ltac:(done)) as Hm.
  pose proof (debit_bound streak). pose proof (debit_bound ((streak + 1) mod 2 ^ 32)).
  intros Hr Ht. unfold allowance, syslog_taken. cbn.
  destruct Hr as [|?|d streak' Hu|?|r|?|d streak' Hu|?|r|pc Hc|item Hi|Hc|item streak' Hc| |item|item];
    cbn in *; try done; try (apply u32_add_mod in Hu as ->; [|done]); try lia.
  - unfold first_try. rewrite Hen. destruct (streak <? pc_work_ratio config); lia.
  - unfold debit in *. rewrite (Z.mod_small (streak + 1)) by lia. lia.
  - destruct Hc as [[[-> | ->] _]|[[-> | ->] _]]; lia.
  - destruct item as [r|d]; [done|]. cbn. lia.
  - rewrite Hen in Hc. apply count_mod in Hc as ->; [|done]. destruct item; cbn; lia.
  - destruct item as [[]|]; cbn; pose proof (debit_bound 0); lia.
Qed.

Definition allowances s : Z := map_sum allowance (p_workers s).

Lemma allowances_bound s :
  places_ok s -> 0 <= allowances s <= Z.of_nat (size (p_workers s)) * (pc_work_ratio config + 1).
Proof.
  unfold allowances, places_ok.
  induction (p_workers s) as [|i w m Hi IH] using map_ind; intros Hp; [done|].
  apply map_Forall_insert in Hp as [Hw Hp]; [|done].
  rewrite map_sum_insert, map_size_insert_None by done.
  pose proof (allowance_bound w Hw). specialize (IH Hp). lia.
Qed.

Lemma syslog_taken_app o o' : syslog_taken (o ++ o') = syslog_taken o + syslog_taken o'.
Proof. unfold syslog_taken. rewrite taken_items_app, omap_app, length_app. lia. Qed.

Lemma step_allowances e s s' o :
  pc_syslog_enabled config = true -> places_ok s -> ch_queue (p_http s) <> [] ->
  pool_step config e s = Ret (Some (s', o)) -> omap http_of (taken_items o) = [] ->
  allowances s' + syslog_taken o <= allowances s.
Proof.
  intros Hen Hp Hq [i w l w' Hi Ew Hr Ho|Ew Ho]%pool_step_move Ht; unfold allowances; rewrite Ew.
  - rewrite (map_sum_update _ _ _ _ w' Hi).
    assert (Et : taken_items o = taken_items (label_obs i l)) by (by destruct Ho as [->|[item ->]]).
    rewrite Et in Ht. pose proof (rule_allowance s w l w' i Hen Hq ltac:(by apply Hp in Hi) Hr Ht) as Ha.
    unfold syslog_taken in *. rewrite Et. lia.
  - destruct Ho as [->|[item ->]]; unfold syslog_taken; cbn; lia.
Qed.

(** A request that nobody takes stays. *)
Lemma step_http_waits e s s' o :
  bounded_ok (p_http s) -> bounded_ok (p_syslog s) -> ch_queue (p_http s) <> [] ->
  pool_step config e s = Ret (Some (s', o)) -> omap http_of (taken_items o) = [] ->
  ch_queue (p_http s') <> [].
Proof.
  intros Hbh Hbs Hq Hs Ht. destruct (pool_step_flow _ _ _ _ _ Hbh Hbs Hs) as ([[E _] _] & _).
  rewrite Ht in E. cbn in E. intros E'. rewrite E' in E. by apply app_eq_nil in E as [? _].
Qed.

Lemma run_allowances es : forall tr s s' o,
  0 <= pc_capacity config -> pc_syslog_enabled config = true ->
  pool_reachable config threads tr s -> ch_queue (p_http s) <> [] ->
  pool_run config es s = Some (s', o) -> omap http_of (taken_items o) = [] ->
  allowances s' + syslog_taken o <= allowances s /\ places_ok s'.
Proof.
  induction es as [|e es IH]; intros tr s s' o Hc Hen Hr Hq; cbn [pool_run].
  - intros [= <- <-] _. split; [unfold syslog_taken; cbn; lia|by eapply pool_places].
  - destruct (pool_step config e s) as [[[s1 o1]|]|] eqn:Hs; try done.
    destruct (pool_run config es s1) as [[s2 o2]|] eqn:Hrun; [|done]. cbn. intros [= <- <-] Ht.
    rewrite taken_items_app, omap_app in Ht. apply app_eq_nil in Ht as [Ht1 Ht2].
    destruct (pool_channels config threads tr s Hc Hr) as [(Hbh & _) (Hbs & _)].
    pose proof (step_allowances _ _ _ _ Hen (pool_places _ _ Hr) Hq Hs Ht1).
    destruct (IH (tr ++ o1) s1 s2 o2) as [? ?]; [done|done| | |done..|].
    { by eapply pool_reachable_step. }
    { by eapply step_http_waits. }
    split; [|done]. rewrite syslog_taken_app. lia.
Qed.

Lemma pool_size tr s : pool_reachable config threads tr s -> size (p_workers s) = size threads.
Proof.
  induction 1 as [|tr s e s' o Hr IH Hs].
  - cbn. by rewrite <- size_dom, dom_gset_to_gmap.
  - apply pool_step_move in Hs as [i w l w' Hi Ew _ _|Ew _]; rewrite Ew; [|done].
    by rewrite (size_update _ _ _ _ Hi).
Qed.

(** C7. No starvation by the pool: while a request waits, and whatever the interleaving,
    all the workers together take at most [work_ratio] + 1 syslog messages each before
    one of them takes a request. *)
Theorem pool_not_starved tr s es s' o :
  0 <= pc_capacity config -> pc_syslog_enabled config = true ->
  pool_reachable config threads tr s -> ch_queue (p_http s) <> [] ->
  pool_run config es s = Some (s', o) -> omap http_of (taken_items o) = [] ->
  zlen (omap syslog_of (taken_items o)) <= Z.of_nat (size threads) * (pc_work_ratio config + 1).
Proof.
  intros Hc Hen Hr Hq Hrun Ht. destruct (run_allowances es tr s s' o Hc Hen Hr Hq Hrun Ht) as [Ha Hp].
  pose proof (allowances_bound s' Hp). pose proof (allowances_bound s (pool_places _ _ Hr)) as Hb.
  rewrite (pool_size _ _ Hr) in Hb. unfold syslog_taken in Ha. lia.
Qed.

(** ** The lock *)

(** Native code of [next_work_item], which is never preempted. *)
Definition native pc : bool :=
  match pc with
  | TrySyslogFirst | TryHttp | TrySyslogThen | TryHttpOnly => true
  | _ => false
  end.

(** Places where a worker does not have the lock. *)
Definition outside pc : bool :=
  match pc with
  | Selecting | Stopped | Killed => true
  | _ => false
  end.

Record lock_ok s : Prop := {
  lk_wait : p_main s = MainWaitHttp -> p_gvl s = Some OwnMain;
  lk_drain : p_main s = MainDraining -> p_gvl s <> Some OwnMain;
  lk_native : forall i w, p_workers s !! i = Some w -> native (w_pc w) = true ->
    p_gvl s = Some (OwnWorker i);
  lk_outside : forall i w, p_workers s !! i = Some w -> outside (w_pc w) = true ->
    p_gvl s <> Some (OwnWorker i);
  lk_owner : forall i, p_gvl s = Some (OwnWorker i) -> is_Some (p_workers s !! i);
}.

(** What a turn does to the lock: keeps it, leaves it, or takes it along out of the
    loop. *)
Definition turn_lock i s s' : Prop :=
  p_main s' = p_main s /\ exists w', p_workers s' = <[i := w']> (p_workers s) /\
    ((p_gvl s' = p_gvl s /\ outside (w_pc w') = false) \/
     ((p_gvl s' = None \/ p_gvl s' = Some OwnRuby) /\ native (w_pc w') = false)).

Lemma call_returned_lock i item streak s s1 s' o :
  call_returned i item streak s1 = (s', o) -> p_main s1 = p_main s -> p_gvl s1 = p_gvl s ->
  p_workers s1 = p_workers s -> turn_lock i s s'.
Proof.
  unfold call_returned. destruct item; intros [= <- _] Hm Hg Hw; (split; [done|]);
    eexists; (split; [cbn; by rewrite Hw|]); [left|right]; cbn; rewrite ?Hg; auto.
Qed.

Lemma after_try_lock i w tried next s s1 s' o :
  after_try i w tried next s1 = Ret (s', o) -> turn_lock i s next ->
  p_main s1 = p_main s -> p_gvl s1 = p_gvl s -> p_workers s1 = p_workers s -> turn_lock i s s'.
Proof.
  intros E Hn Hm Hg Hw. unfold after_try in E.
  destruct tried as [item| |]; [|by injection E as <- _|];
    (destruct (count_work_item _ _) as [[r streak]|]; [|done]); cbn in E;
    destruct (call_returned i r streak s1) as [s2 o2] eqn:Ec; injection E as <- _;
    by eapply call_returned_lock.
Qed.

Lemma goto_lock i pc streak s :
  outside pc = false -> turn_lock i s (set_worker i (MkWorkerState pc streak) s).
Proof. intros Ho. split; [done|]. eexists. split; [done|]. by left. Qed.

Lemma block_lock i w s : turn_lock i s (block_worker i w s).
Proof. split; [done|]. eexists. split; [done|]. right. auto. Qed.
#[local] Hint Resolve goto_lock block_lock : core.

Lemma worker_turn_lock i w s s' o :
  worker_turn config i w s = Ret (Some (s', o)) -> turn_lock i s s'.
Proof.
  unfold worker_turn. cbv zeta. destruct (w_pc w) as [| | | | | |sel|h| |]; try done.
  - intros [= <- _]. apply goto_lock. by repeat case_match.
  - destruct (try_recv (p_syslog s)) as [received ch].
    destruct (after_try _ _ _ _ _) as [[s1 o1]|] eqn:E; [|done]. cbn. intros [= <- _].
    eapply after_try_lock; [exact E|auto..].
  - destruct (try_recv (p_http s)) as [received ch].
    destruct (after_try _ _ _ _ _) as [[s1 o1]|] eqn:E; [|done]. cbn. intros [= <- _].
    eapply after_try_lock; [exact E|case_match; auto|done..].
  - destruct (try_recv (p_syslog s)) as [received ch].
    destruct (after_try _ _ _ _ _) as [[s1 o1]|] eqn:E; [|done]. cbn. intros [= <- _].
    eapply after_try_lock; [exact E|auto..].
  - destruct (try_recv (p_http s)) as [[r|[]] ch]; intros [= <- _]; [by apply (goto_lock i _ _ (set_http ch s))|auto|].
    by apply (call_returned_lock i None (w_streak w) s s _ [Called i None]).
  - destruct (pc_syslog_enabled config); [destruct sel as [it|]|].
    + destruct (count_work_item _ _) as [[r streak]|]; [|done]. cbn.
      destruct (call_returned i r streak s) as [s2 o2] eqn:Ec. intros [= <- _].
      by eapply call_returned_lock.
    + destruct (call_returned i None (w_streak w) s) as [s2 o2] eqn:Ec. intros [= <- _].
      by eapply call_returned_lock.
    + destruct (call_returned i sel (w_streak w) s) as [s2 o2] eqn:Ec. intros [= <- _].
      by eapply call_returned_lock.
  - intros [= <- _]. by apply goto_lock.
Qed.

Lemma lock_ok_turn i w s s' :
  p_workers s !! i = Some w -> holds (OwnWorker i) s = true -> lock_ok s -> turn_lock i s s' -> lock_ok s'.
Proof.
  intros Hi Hh%bool_decide_eq_true [Hwt Hdr Hn Ho Hx] (Hm & w' & Hw & Hg).
  constructor; rewrite ?Hm, ?Hw.
  - intros E. specialize (Hwt E). congruence.
  - intros E. specialize (Hdr E). destruct Hg as [[-> _]|[[-> | ->] _]]; congruence.
  - intros j v [[-> <-]|[Hne Hj]]%lookup_insert_Some Hv.
    + destruct Hg as [[-> _]|[_ ?]]; congruence.
    + specialize (Hn j v Hj Hv). congruence.
  - intros j v [[-> <-]|[Hne Hj]]%lookup_insert_Some Hv.
    + destruct Hg as [[_ ?]|[[-> | ->] _]]; congruence.
    + specialize (Ho j v Hj Hv). destruct Hg as [[-> _]|[[-> | ->] _]]; congruence.
  - intros j Hj. rewrite lookup_insert_is_Some'. destruct Hg as [[E _]|[[E|E] _]]; [|congruence..].
    right. apply Hx. congruence.
Qed.

(** A worker in [nogvl] comes out of it without the lock. *)
Lemma lock_ok_selected i w item s s' :
  p_workers s !! i = Some w -> w_pc w = Selecting -> lock_ok s ->
  p_workers s' = <[i := MkWorkerState (Selected item) (w_streak w)]> (p_workers s) ->
  p_gvl s' = p_gvl s -> p_main s' = p_main s -> lock_ok s'.
Proof.
  intros Hi Hpc [Hwt Hdr Hn Ho Hx] Hw Hg Hm. constructor; rewrite ?Hm, ?Hg, ?Hw; [done|done|..].
  - intros j v [[-> <-]|[Hne Hj]]%lookup_insert_Some Hv; [done|by eapply Hn].
  - intros j v [[-> <-]|[Hne Hj]]%lookup_insert_Some Hv; [done|by eapply Ho].
  - intros j Hj. rewrite lookup_insert_is_Some'. right. by apply Hx.
Qed.

(** Only the lock and the owner's thread. *)
Lemma lock_ok_main s s' :
  lock_ok s -> p_workers s' = p_workers s -> (forall i, p_gvl s <> Some (OwnWorker i)) ->
  (forall i, p_gvl s' <> Some (OwnWorker i)) ->
  (p_main s' = MainWaitHttp -> p_gvl s' = Some OwnMain) ->
  (p_main s' = MainDraining -> p_gvl s' <> Some OwnMain) -> lock_ok s'.
Proof.
  intros [Hwt Hdr Hn Ho Hx] Hw Hg Hg' H1 H2. constructor; rewrite ?Hw; [done|done|..].
  - intros i w Hi Hv. by destruct (Hg i (Hn i w Hi Hv)).
  - intros i w _ _. apply Hg'.
  - intros i E. by destruct (Hg' i).
Qed.

(** The lock is taken by a thread that wants it. *)
Lemma lock_ok_acquire ow s : p_gvl s = None -> wants ow s = true -> lock_ok s -> lock_ok (set_gvl (Some ow) s).
Proof.
  intros Hg Hwant [Hwt Hdr Hn Ho Hx]. constructor; cbn.
  - intros E. specialize (Hwt E). congruence.
  - intros E. destruct ow; [|congruence..]. cbn in Hwant. by rewrite E in Hwant.
  - intros i w Hi Hv. specialize (Hn i w Hi Hv). congruence.
  - intros i w Hi Hv [= ->]. cbn in Hwant. rewrite Hi in Hwant. by destruct (w_pc w).
  - intros i [= ->]. cbn in Hwant. by destruct (p_workers s !! i).
Qed.

Lemma lock_ok_yield ow s : holds ow s = true -> preemptible ow s = true -> lock_ok s -> lock_ok (set_gvl None s).
Proof.
  intros Hh%bool_decide_eq_true Hp [Hwt Hdr Hn Ho Hx]. constructor; cbn; try done.
  - intros E. specialize (Hwt E). destruct ow; [|congruence..]. cbn in Hp. by rewrite E in Hp.
  - intros i w Hi Hv. specialize (Hn i w Hi Hv). assert (ow = OwnWorker i) as -> by congruence.
    cbn in Hp. rewrite Hi in Hp. by destruct (w_pc w).
Qed.

Lemma select_http_lock i w s s' o :
  selecting i s = Some w -> select_http i w s = Some (s', o) -> lock_ok s -> lock_ok s'.
Proof.
  intros [Hi Hpc]%selecting_inv E Hl. unfold select_http in E.
  destruct (try_recv (p_http s)) as [[r|[]] ch]; [|done|]; injection E as <- <-;
    (eapply (lock_ok_selected i w _ s); [done|done|done|reflexivity|done|done]).
Qed.

Lemma select_syslog_lock i w s s' o :
  selecting i s = Some w -> select_syslog i w s = Some (s', o) -> lock_ok s -> lock_ok s'.
Proof.
  intros [Hi Hpc]%selecting_inv E Hl. unfold select_syslog in E.
  destruct (try_recv (p_syslog s)) as [[r|[]] ch]; [|done|]; injection E as <- <-;
    (eapply (lock_ok_selected i w _ s); [done|done|done|reflexivity|done|done]).
Qed.

Lemma step_lock e s s' o : pool_step config e s = Ret (Some (s', o)) -> lock_ok s -> lock_ok s'.
Proof.
  unfold pool_step. intros E Hl. pose proof Hl as [Hwt Hdr Hn Ho Hx].
  destruct e as [r|d|i item|i|i|i|ow|ow|i| | | | | |].
  - injection E as [_ [= <- <-]]%when_ok_inv. by constructor.
  - injection E as [_ [= <- <-]]%when_ok_inv. by constructor.
  - destruct (selecting i s) as [w|] eqn:Es; [|done]. apply selecting_inv in Es as [Hi Hpc].
    injection E as [_ [= <- <-]]%when_ok_inv. by apply (lock_ok_selected i w (Some item) s).
  - destruct (p_workers s !! i) as [w|] eqn:Hi; [|done].
    destruct (holds (OwnWorker i) s) eqn:Hh; [|done].
    apply (lock_ok_turn i w s); [done..|]. by eapply worker_turn_lock.
  - destruct (selecting i s) as [w|] eqn:Es; [|done]. injection E as E. by apply (select_http_lock i w s s' o).
  - destruct (selecting i s) as [w|] eqn:Es; [|done]. cbn in E.
    destruct (pc_syslog_enabled config); [|done]. injection E as E. by apply (select_syslog_lock i w s s' o).
  - injection E as [[Hg Hw]%andb_true_iff [= <- <-]]%when_ok_inv. apply bool_decide_eq_true in Hg.
    by apply lock_ok_acquire.
  - injection E as [[Hh Hp]%andb_true_iff [= <- <-]]%when_ok_inv. by eapply lock_ok_yield.
  - destruct (p_workers s !! i) as [w|] eqn:Hi; [|done]. destruct (w_pc w) eqn:Hpc; try done.
    injection E as [Hh [= <- <-]]%when_ok_inv. apply (lock_ok_turn i w s); [done..|].
    split; [done|]. eexists. split; [done|]. right. auto.
  - destruct (p_main s) eqn:Hm; try done. injection E as [Hh [= <- <-]]%when_ok_inv.
    apply bool_decide_eq_true in Hh. apply (lock_ok_main s); cbn; try done; intros; congruence.
  - destruct (p_main s) eqn:Hm; try done. specialize (Hwt eq_refl).
    destruct (pc_syslog_enabled config); injection E as <- <-; apply (lock_ok_main s); cbn; try done;
      intros; congruence.
  - destruct (p_main s) eqn:Hm; try done. injection E as <- <-. by constructor.
  - destruct (p_main s) eqn:Hm; try done. injection E as [_ [= <- <-]]%when_ok_inv.
    by constructor; cbn; rewrite ?Hm.
  - destruct (p_main s) eqn:Hm; try done. injection E as [_ [= <- <-]]%when_ok_inv.
    by constructor; cbn; rewrite ?Hm.
  - destruct (p_main s) eqn:Hm; try done.
    injection E as [[[Hh _]%andb_true_iff _]%andb_true_iff [= <- <-]]%when_ok_inv.
    apply bool_decide_eq_true in Hh. apply (lock_ok_main s); cbn; try done; intros; congruence.
Qed.

Lemma pool_lock_ok tr s : pool_reachable config threads tr s -> lock_ok s.
Proof.
  induction 1 as [|tr s e s' o Hr IH Hs]; [|by eapply step_lock].
  constructor; cbn; try done. intros i w Hi. rewrite lookup_gset_to_gmap in Hi.
  destruct (decide (i ∈ threads)); [|by rewrite option_guard_False in Hi].
  rewrite option_guard_True in Hi by done. by injection Hi as <-.
Qed.

(** C27. The lock is kept where it must be and left where it must be: two workers are
    never in the native code of [next_work_item] at once, a worker that waits for work
    does not hold the lock, one whose loop has ended holds it no longer (what its
    thread does then is other Ruby code), and neither does the thread in [stop] while
    it drains the syslog listeners, so that workers can take what they framed. *)
Theorem pool_lock tr s :
  pool_reachable config threads tr s ->
  (forall i j v w, p_workers s !! i = Some v -> p_workers s !! j = Some w ->
     native (w_pc v) = true -> native (w_pc w) = true -> i = j) /\
  (forall i w, p_workers s !! i = Some w -> outside (w_pc w) = true -> holds (OwnWorker i) s = false) /\
  (p_main s = MainDraining -> holds OwnMain s = false).
Proof.
  intros Hr. destruct (pool_lock_ok _ _ Hr) as [_ Hdr Hn Ho _]. split_and!.
  - intros i j v w Hi Hj Hv Hw. pose proof (Hn i v Hi Hv). pose proof (Hn j w Hj Hw). congruence.
  - intros i w Hi Hw. apply bool_decide_eq_false. by eapply Ho.
  - intros E. apply bool_decide_eq_false. by apply Hdr.
Qed.

(** One step while the owner's thread waits for the HTTP task. *)
Lemma step_waiting e s s' o :
  lock_ok s -> p_main s = MainWaitHttp -> e <> PHttpEnd ->
  pool_step config e s = Ret (Some (s', o)) ->
  p_main s' = MainWaitHttp /\ forall i, answered_by i o = [] /\ calls_by i o = [].
Proof.
  intros [Hwt _ _ _ _] Hm Hne. specialize (Hwt Hm). unfold pool_step.
  destruct e as [r|d|i item|i|i|i|ow|ow|i| | | | | |]; try done; rewrite ?Hm; try done.
  - by intros [= [_ [= <- <-]]%when_ok_inv].
  - by intros [= [_ [= <- <-]]%when_ok_inv].
  - destruct (selecting i s); [|done]. by intros [= [_ [= <- <-]]%when_ok_inv].
  - destruct (p_workers s !! i); [|done]. unfold holds. by rewrite Hwt.
  - destruct (selecting i s); [|done]. cbn. unfold select_http.
    destruct (try_recv (p_http s)) as [[r|[]] ch]; [|done|]; by intros [= <- <-].
  - destruct (selecting i s); [|done]. cbn. destruct (pc_syslog_enabled config); [|done].
    unfold select_syslog. destruct (try_recv (p_syslog s)) as [[r|[]] ch]; [|done|]; by intros [= <- <-].
  - rewrite Hwt. done.
  - intros [= [[Hh Hp]%andb_true_iff [= <- <-]]%when_ok_inv]. done.
  - destruct (p_workers s !! i) as [w|]; [|done]. destruct (w_pc w); try done.
    unfold holds. by rewrite Hwt.
Qed.

(** C20. [stop] waits for the HTTP connections with the lock held: from the moment it
    starts to wait to the end of the wait, no worker answers anything and no call
    returns, whatever is queued or in the workers' hands. *)
Theorem stop_waits_with_lock tr s es s' o :
  pool_reachable config threads tr s -> p_main s = MainWaitHttp ->
  Forall (fun e => e <> PHttpEnd) es -> pool_run config es s = Some (s', o) ->
  p_main s' = MainWaitHttp /\ holds OwnMain s' = true /\
  forall i, answered_by i o = [] /\ calls_by i o = [].
Proof.
  intros Hr%pool_lock_ok Hm Hes. revert s s' o Hr Hm.
  induction Hes as [|e es He Hes IH]; intros s s' o Hl Hm; cbn [pool_run].
  - intros [= <- <-]. split_and!; [done| |done]. apply bool_decide_eq_true. by apply (lk_wait _ Hl).
  - destruct (pool_step config e s) as [[[s1 o1]|]|] eqn:Hs; try done.
    destruct (pool_run config es s1) as [[s2 o2]|] eqn:Hrun; [|done]. cbn. intros [= <- <-].
    destruct (step_waiting _ _ _ _ Hl Hm He Hs) as [Hm1 Ho1].
    destruct (IH s1 s2 o2 (step_lock _ _ _ _ Hs Hl) Hm1 Hrun) as (? & ? & Ho2). split_and!; [done..|].
    intros i. destruct (Ho1 i) as [Ha Hc], (Ho2 i) as [Ha' Hc'].
    unfold answered_by, calls_by in *. by rewrite !omap_app, Ha, Hc, Ha', Hc'.
Qed.
End sched.

(** ** Witnesses *)

#[local] Existing Instance release.

(** Worker 0, whose streak is used up by a message, is about to try for a request. *)
Definition trying_events : list (pool_event (Req := nat) (Delivery := nat)) :=
  demo_pool_events ++
  [PSendSyslog 8%nat; PSendSyslog 9%nat; PWorker 0; PWorker 0; PWorker 0; PWorker 0].

Definition trying : Pool * list (pool_obs (Req := nat) (Delivery := nat)) :=
  default (demo_start, []) (pool_run demo_pool_config trying_events demo_start).

Definition trying_worker : WorkerState := default (MkWorkerState Stopped 0) (p_workers trying.1 !! 0%nat).

Lemma trying_reachable : pool_reachable demo_pool_config demo_threads trying.2 trying.1.
Proof.
  apply (pool_run_reachable demo_pool_config demo_threads trying_events [] demo_start);
    [constructor|vm_compute; reflexivity].
Qed.

(** What the channels answer worker 0: there is a message too, but the request goes. *)
Definition trying_answers : observed := Observed (Ok 2%nat) (Ok 9%nat) None None.

Lemma pool_call_refines_witness :
  w_pc trying_worker = TryHttp /\ w_streak trying_worker = 1 /\
  exists streak', call_result demo_pool_config trying_answers (w_streak trying_worker)
                    (Some (HttpItem 2%nat)) streak' /\
    w_streak <$> p_workers (default trying (pool_run demo_pool_config [PWorker 0] trying.1)).1 !! 0%nat
    = Some streak'.
Proof.
  split; [vm_compute; reflexivity|]. split; [vm_compute; reflexivity|].
  eapply (pool_call_refines demo_pool_config demo_threads trying.2 trying.1 0 trying_worker
           trying_answers _ [Took 0 (HttpItem 2%nat); Called 0 (Some (HttpItem 2%nat))]).
  - apply trying_reachable.
  - vm_compute. reflexivity.
  - vm_compute. split; [discriminate|reflexivity].
  - vm_compute. reflexivity.
  - right. left.
Defined.

(** A request waits while worker 0 takes a message. *)
Lemma pool_not_starved_witness :
  ch_queue (p_http demo_pool.1) = [2%nat] /\
  zlen (omap syslog_of (taken_items
    (default demo_pool (pool_run demo_pool_config
       [PSendSyslog 8%nat; PSendSyslog 9%nat; PWorker 0; PWorker 0] demo_pool.1)).2)) <= 2 * (1 + 1).
Proof.
  split; [vm_compute; reflexivity|].
  eapply (pool_not_starved demo_pool_config demo_threads ltac:(by vm_compute) demo_pool.2 demo_pool.1
           [PSendSyslog 8%nat; PSendSyslog 9%nat; PWorker 0; PWorker 0]);
    [by vm_compute|reflexivity|apply demo_pool_reachable|by vm_compute|vm_compute; reflexivity|
     vm_compute; reflexivity].
Defined.

Lemma pool_lock_witness :
  (forall i j v w, p_workers trying.1 !! i = Some v -> p_workers trying.1 !! j = Some w ->
     native (w_pc v) = true -> native (w_pc w) = true -> i = j) /\
  (forall i w, p_workers trying.1 !! i = Some w -> outside (w_pc w) = true ->
     holds (OwnWorker i) trying.1 = false) /\
  (p_main trying.1 = MainDraining -> holds OwnMain trying.1 = false).
Proof. apply (pool_lock demo_pool_config demo_threads trying.2 trying.1 trying_reachable). Defined.

(** [stop] is called while worker 1 has a message in hand. *)
Definition waiting_events : list (pool_event (Req := nat) (Delivery := nat)) :=
  firstn 8 demo_pool_events ++ [PAcquire OwnMain; PStop].

Definition waiting : Pool * list (pool_obs (Req := nat) (Delivery := nat)) :=
  default (demo_start, []) (pool_run demo_pool_config waiting_events demo_start).

Lemma waiting_reachable : pool_reachable demo_pool_config demo_threads waiting.2 waiting.1.
Proof.
  apply (pool_run_reachable demo_pool_config demo_threads waiting_events [] demo_start);
    [constructor|vm_compute; reflexivity].
Qed.

Definition while_waiting : Pool * list (pool_obs (Req := nat) (Delivery := nat)) :=
  default waiting (pool_run demo_pool_config [PSendHttp 3%nat; PSendSyslog 8%nat] waiting.1).

Lemma stop_waits_with_lock_witness :
  hand waiting.1 0 = [HttpItem 1%nat] /\
  p_main while_waiting.1 = MainWaitHttp /\ holds OwnMain while_waiting.1 = true /\
  forall i, answered_by i while_waiting.2 = [] /\ calls_by i while_waiting.2 = [].
Proof.
  split; [vm_compute; reflexivity|].
  apply (stop_waits_with_lock demo_pool_config demo_threads waiting.2 waiting.1
           [PSendHttp 3%nat; PSendSyslog 8%nat]);
    [apply waiting_reachable|vm_compute; reflexivity|by repeat constructor|vm_compute; reflexivity].
Defined.
