(* ===== verification/PoolStop.v ===== *)
(** * The workers end after [stop]

    Once [stop] has dropped the senders of both channels, every worker comes to the
    end of its loop. *)
From S2P Require Import Prelude Worker Pool PoolProps PoolSched.

Local Open Scope Z_scope.

(** The steps by which workers get on with it; the others only add work, or hand the
    lock to a thread that has none left. *)
Definition ending_event {Req Delivery} (e : pool_event (Req := Req) (Delivery := Delivery)) : bool :=
  match e with
  | PWorker _ | PSelectHttp _ | PSelectSyslog _ | PAcquire (OwnWorker _)
  | PYield OwnMain | PYield OwnRuby => true
  | _ => false
  end.

Section stop.
Context `{Profile} {Ch : Type -> Type} `{!Channel Ch, !ChannelSpec Ch} {Req Delivery : Type}.
Context (config : PoolConfig) (threads : gset nat).
Notation Pool := (Pool (Ch := Ch) (Req := Req) (Delivery := Delivery)).
Notation Pc := (Pc (Req := Req) (Delivery := Delivery)).
Notation pool_obs := (pool_obs (Req := Req) (Delivery := Delivery)).
Implicit Types (s : Pool) (o tr : list pool_obs) (pc : Pc).

(** ** Closed channels *)

(** Both channels are closed when [stop] is over, and neither before it has drained. *)
Definition closed_ok s : Prop :=
  match p_main s with
  | MainStopped => ch_open (p_http s) = false /\ ch_open (p_syslog s) = false
  | MainDrained => True
  | _ => ch_open (p_http s) = true /\ ch_open (p_syslog s) = true
  end.

Lemma try_recv_open {A} (c : Ch A) : ch_open (try_recv c).2 = ch_open c.
Proof. by destruct (try_recv_spec A c) as (_ & _ & _ & ->). Qed.

Definition same_open s s' : Prop :=
  ch_open (p_http s') = ch_open (p_http s) /\ ch_open (p_syslog s') = ch_open (p_syslog s) /\
  p_main s' = p_main s.

Lemma after_try_open i w tried next s s1 s' o :
  after_try i w tried next s1 = Ret (s', o) -> same_open s next -> same_open s s1 -> same_open s s'.
Proof.
  intros E Hn H1. unfold after_try in E.
  destruct tried as [item| |]; [|by injection E as <- _|];
    (destruct (count_work_item _ _) as [[[r|] streak]|]; [..|done]); cbn in E; by injection E as <- _.
Qed.

Lemma worker_turn_open i w s s' o : worker_turn config i w s = Ret (Some (s', o)) -> same_open s s'.
Proof.
  pose proof (try_recv_open (p_http s)) as Hh. pose proof (try_recv_open (p_syslog s)) as Hs.
  unfold worker_turn. cbv zeta. destruct (w_pc w) as [| | | | | |sel|h| |]; try done.
  - by intros [= <- _].
  - destruct (try_recv (p_syslog s)) as [received ch].
    destruct (after_try _ _ _ _ _) as [[s1 o1]|] eqn:E; [|done]. cbn. intros [= <- _].
    by eapply after_try_open; [exact E|..].
  - destruct (try_recv (p_http s)) as [received ch].
    destruct (after_try _ _ _ _ _) as [[s1 o1]|] eqn:E; [|done]. cbn. intros [= <- _].
    eapply after_try_open; [exact E|by case_match|done].
  - destruct (try_recv (p_syslog s)) as [received ch].
    destruct (after_try _ _ _ _ _) as [[s1 o1]|] eqn:E; [|done]. cbn. intros [= <- _].
    by eapply after_try_open; [exact E|..].
  - destruct (try_recv (p_http s)) as [[r|[]] ch]; by intros [= <- _].
  - destruct (pc_syslog_enabled config); [|by destruct sel; intros [= <- _]].
    destruct sel as [it|]; [|by intros [= <- _]].
    destruct (count_work_item _ _) as [[[r|] streak]|]; [..|done]; by intros [= <- _].
  - by intros [= <- _].
Qed.

Lemma same_open_closed s s' : same_open s s' -> closed_ok s -> closed_ok s'.
Proof. intros (Eh & Es & Em). unfold closed_ok. by rewrite Eh, Es, Em. Qed.

Lemma step_closed e s s' o : pool_step config e s = Ret (Some (s', o)) -> closed_ok s -> closed_ok s'.
Proof.
  pose proof (try_recv_open (p_http s)) as Hrh. pose proof (try_recv_open (p_syslog s)) as Hrs.
  unfold pool_step. intros E Hc.
  destruct e as [r|d|i item|i|i|i|ow|ow|i| | | | | |].
  - injection E as [_ [= <- <-]]%when_ok_inv. apply (same_open_closed s); [|done]. split; cbn; [|done].
    by destruct (ch_push_spec Req r (p_http s)) as (_ & _ & ->).
  - injection E as [_ [= <- <-]]%when_ok_inv. apply (same_open_closed s); [|done]. split_and!; cbn; [done| |done].
    by destruct (ch_push_spec Delivery d (p_syslog s)) as (_ & _ & ->).
  - destruct (selecting i s); [|done]. by injection E as [_ [= <- <-]]%when_ok_inv.
  - destruct (p_workers s !! i) as [w|]; [|done]. destruct (holds _ s); [|done].
    apply (same_open_closed s); [by eapply worker_turn_open|done].
  - destruct (selecting i s); [|done]. cbn in E. unfold select_http in E.
    destruct (try_recv (p_http s)) as [[r|[]] ch]; [|done|]; injection E as <- <-;
      (apply (same_open_closed s); [by split_and!|done]).
  - destruct (selecting i s); [|done]. cbn in E. destruct (pc_syslog_enabled config); [|done].
    unfold select_syslog in E.
    destruct (try_recv (p_syslog s)) as [[r|[]] ch]; [|done|]; injection E as <- <-;
      (apply (same_open_closed s); [by split_and!|done]).
  - by injection E as [_ [= <- <-]]%when_ok_inv.
  - by injection E as [_ [= <- <-]]%when_ok_inv.
  - destruct (p_workers s !! i) as [w|]; [|done]. destruct (w_pc w); try done.
    by injection E as [_ [= <- <-]]%when_ok_inv.
  - unfold closed_ok in *. destruct (p_main s); try done. by injection E as [_ [= <- <-]]%when_ok_inv.
  - unfold closed_ok in *. destruct (p_main s); try done.
    destruct (pc_syslog_enabled config); by injection E as <- <-.
  - unfold closed_ok in *. destruct (p_main s); try done. by injection E as <- <-.
  - unfold closed_ok. destruct (p_main s) eqn:Hm; try done.
    injection E as [_ [= <- <-]]%when_ok_inv. cbn. by rewrite Hm.
  - unfold closed_ok. destruct (p_main s) eqn:Hm; try done.
    injection E as [_ [= <- <-]]%when_ok_inv. cbn. by rewrite Hm.
  - destruct (p_main s); try done.
    injection E as [[[_ Hh]%andb_true_iff Hs]%andb_true_iff [= <- <-]]%when_ok_inv.
    by split; apply negb_true_iff.
Qed.

Lemma pool_closed tr s : pool_reachable config threads tr s -> closed_ok s.
Proof.
  induction 1; [|by eapply step_closed]. split; cbn; apply bounded_spec.
Qed.

(** ** How far the workers are from the end *)

Definition pc_rank pc : Z :=
  match pc with
  | Selected (Some _) => 8
  | Handling _ => 7
  | Ready => 6
  | TrySyslogFirst => 5
  | TryHttp | TryHttpOnly => 4
  | TrySyslogThen => 3
  | Selecting => 2
  | Selected None => 1
  | Stopped | Killed => 0
  end.

Definition lock_rank (g : option Owner) : Z :=
  match g with
  | Some OwnMain | Some OwnRuby => 2
  | None => 1
  | Some (OwnWorker _) => 0
  end.

Definition queued s : Z := zlen (ch_queue (p_http s)) + zlen (ch_queue (p_syslog s)).

Definition left_to_do s : Z :=
  3 * (7 * queued s + map_sum (fun w => pc_rank (w_pc w)) (p_workers s)) + lock_rank (p_gvl s).

Lemma left_to_do_nonneg s : 0 <= left_to_do s.
Proof.
  unfold left_to_do, queued. pose proof (map_sum_nonneg (fun w => pc_rank (w_pc w)) (p_workers s)
    ltac:(intros [[| | | | | |[]| | |] ?]; cbn; lia)).
  destruct (p_gvl s) as [[]|]; cbn; lia.
Qed.

(** A rule brings its worker closer, by as much as what it takes is worth. *)
Lemma rule_rank s streak pc l pc' streak' i :
  rule config s streak pc l pc' streak' ->
  pc_rank pc' - 7 * zlen (taken_items (label_obs i l)) < pc_rank pc.
Proof.
  destruct 1 as [| | | | | | | | |pc [[[-> | ->] _]|[[-> | ->] _]]| | | | | |[]]; cbn; try lia.
  - unfold first_try. repeat case_match; cbn; lia.
  - case_match; cbn; lia.
Qed.

Lemma items_split (items : list (WorkItem (Req := Req) (Delivery := Delivery))) :
  zlen items = zlen (omap http_of items) + zlen (omap syslog_of items).
Proof. induction items as [|[] items IH]; cbn -[Z.of_nat] in *; lia. Qed.

Lemma flow_queued o s s' : takes o s s' -> queued s' = queued s - zlen (taken_items o).
Proof.
  intros [[[Eh _] [Es _]] Hn]. rewrite Hn, !app_nil_r in *. unfold queued.
  rewrite Eh, Es, !length_app, items_split. lia.
Qed.

(** A worker's own step brings the end closer. *)
Lemma worker_move_shrinks s o s' :
  worker_move config s o s' -> takes o s s' -> lock_rank (p_gvl s') <= lock_rank (p_gvl s) + 2 ->
  left_to_do s' < left_to_do s.
Proof.
  intros [i w l w' Hi Hw Hr ->] Hf Hg. unfold left_to_do. rewrite (flow_queued _ _ _ Hf), Hw.
  rewrite (map_sum_update _ _ _ _ w' Hi). pose proof (rule_rank _ _ _ _ _ _ i Hr). lia.
Qed.

Lemma select_http_move i w s s' o :
  p_workers s !! i = Some w -> w_pc w = Selecting -> select_http i w s = Some (s', o) ->
  worker_move config s o s' /\ p_gvl s' = p_gvl s.
Proof.
  intros Hi Hpc. unfold select_http.
  destruct (try_recv_cases (p_http s)) as
      [(x & rest & c' & Hq & -> & Hq' & Hsm)|[(c' & Hq & Hop & -> & Hq' & Hsm)|(c' & Hq & Hop & -> & Hq' & Hsm)]];
    [|done|]; intros [= <- <-]; (split; [|done]).
  - by eapply select_move.
  - eapply select_closed_move; eauto.
Qed.

Lemma select_syslog_move i w s s' o :
  pc_syslog_enabled config = true -> p_workers s !! i = Some w -> w_pc w = Selecting ->
  select_syslog i w s = Some (s', o) -> worker_move config s o s' /\ p_gvl s' = p_gvl s.
Proof.
  intros Hen Hi Hpc. unfold select_syslog.
  destruct (try_recv_cases (p_syslog s)) as
      [(x & rest & c' & Hq & -> & Hq' & Hsm)|[(c' & Hq & Hop & -> & Hq' & Hsm)|(c' & Hq & Hop & -> & Hq' & Hsm)]];
    [|done|]; intros [= <- <-]; (split; [|done]).
  - eapply select_move; [done..|congruence|done].
  - eapply select_closed_move; eauto.
Qed.

Lemma lock_shrinks g s : lock_rank g < lock_rank (p_gvl s) -> left_to_do (set_gvl g s) < left_to_do s.
Proof. unfold left_to_do, queued. cbn. lia. Qed.

Lemma ending_step_shrinks e s s' o :
  ending_event e = true -> pool_step config e s = Ret (Some (s', o)) -> left_to_do s' < left_to_do s.
Proof.
  unfold pool_step. destruct e as [r|d|i item|i|i|i|[|i|]|[|i|]|i| | | | | |]; try done; intros _.
  - destruct (p_workers s !! i) as [w|] eqn:Hi; [|done]. destruct (holds _ s) eqn:Hh; [|done].
    intros E. apply bool_decide_eq_true in Hh.
    apply (worker_move_shrinks s o); [by eapply worker_turn_move|by eapply worker_turn_flow|].
    apply worker_turn_lock in E as (_ & w' & _ & [[-> _]|[[-> | ->] _]]); rewrite Hh; cbn; lia.
  - destruct (selecting i s) as [w|] eqn:Es; [|done]. apply selecting_inv in Es as [Hi Hpc]. intros [= E].
    destruct (select_http_move i w s s' o Hi Hpc E) as [Hm Hg].
    apply (worker_move_shrinks s o); [done|by eapply select_http_flow|rewrite Hg; lia].
  - destruct (selecting i s) as [w|] eqn:Es; [|done]. apply selecting_inv in Es as [Hi Hpc]. cbn.
    destruct (pc_syslog_enabled config) eqn:Hen; [|done]. intros [= E].
    destruct (select_syslog_move i w s s' o Hen Hi Hpc E) as [Hm Hg].
    apply (worker_move_shrinks s o); [done|by eapply select_syslog_flow|rewrite Hg; lia].
  - intros [= [[Hg%bool_decide_eq_true _]%andb_true_iff [= <- <-]]%when_ok_inv]. by apply lock_shrinks; rewrite Hg.
  - intros [= [[Hg%bool_decide_eq_true _]%andb_true_iff [= <- <-]]%when_ok_inv]. by apply lock_shrinks; rewrite Hg.
  - intros [= [[Hg%bool_decide_eq_true _]%andb_true_iff [= <- <-]]%when_ok_inv]. by apply lock_shrinks; rewrite Hg.
Qed.

(** ** Some worker can go on *)

Definition has_ended pc : bool :=
  match pc with
  | Stopped | Killed => true
  | _ => false
  end.

Definition ended s : Prop := map_Forall (fun _ w => has_ended (w_pc w) = true) (p_workers s).

Definition can_go_on s : Prop :=
  exists e s' o, ending_event e = true /\ pool_step config e s = Ret (Some (s', o)).

Section progress.
Context (Ho : overflow_checks = false).

Lemma count_returns tried streak :
  exists r, count_work_item (Req := Req) (Delivery := Delivery) tried streak = Ret r.
Proof.
  unfold count_work_item, u32_add, add_wrapping. rewrite Ho.
  destruct tried as [[]| |]; cbn; try case_match; by eexists.
Qed.

Lemma after_try_returns i w tried next s1 :
  exists r, after_try (Req := Req) (Delivery := Delivery) i w tried next s1 = Ret r.
Proof.
  unfold after_try. destruct (count_returns tried (w_streak w)) as [[item streak] E].
  destruct tried; [|by eexists|]; rewrite E; cbn; destruct (call_returned _ _ _ _); by eexists.
Qed.

Lemma turn_goes_on i w s :
  outside (w_pc w) = false -> exists r, worker_turn config i w s = Ret (Some r).
Proof.
  intros Hout. unfold worker_turn. cbv zeta. destruct (w_pc w) as [| | | | | |sel|h| |]; try done.
  - by eexists.
  - destruct (try_recv (p_syslog s)) as [received ch].
    match goal with |- context [after_try ?a ?b ?c ?d ?e] =>
      destruct (after_try_returns a b c d e) as [r ->] end. by eexists.
  - destruct (try_recv (p_http s)) as [received ch].
    match goal with |- context [after_try ?a ?b ?c ?d ?e] =>
      destruct (after_try_returns a b c d e) as [r ->] end. by eexists.
  - destruct (try_recv (p_syslog s)) as [received ch].
    match goal with |- context [after_try ?a ?b ?c ?d ?e] =>
      destruct (after_try_returns a b c d e) as [r ->] end. by eexists.
  - destruct (try_recv (p_http s)) as [received ch]. by eexists.
  - destruct (pc_syslog_enabled config); [|by eexists]. destruct sel as [it|]; [|by eexists].
    destruct (count_returns (Found it) (w_streak w)) as [[item streak] ->]. by eexists.
  - by eexists.
Qed.

(** A worker that waits on closed channels. *)
Lemma selecting_goes_on i w s :
  p_workers s !! i = Some w -> w_pc w = Selecting -> ch_open (p_http s) = false -> can_go_on s.
Proof.
  intros Hi Hpc Hc. exists (PSelectHttp i).
  assert (Hsel : selecting i s = Some w) by (unfold selecting; by rewrite Hi, Hpc).
  cbn. rewrite Hsel. cbn. unfold select_http.
  destruct (try_recv_cases (p_http s)) as
      [(x & rest & c' & Hq & -> & Hq' & Hsm)|[(c' & Hq & Hop & -> & Hq' & Hsm)|(c' & Hq & Hop & -> & Hq' & Hsm)]];
    [by do 2 eexists|congruence|by do 2 eexists].
Qed.

Lemma pool_progress tr s :
  pool_reachable config threads tr s -> p_main s = MainStopped -> ended s \/ can_go_on s.
Proof.
  intros Hr Hm. pose proof (pool_closed _ _ Hr) as Hc. unfold closed_ok in Hc. rewrite Hm in Hc.
  destruct Hc as [Hc _].
  destruct (pool_lock_ok config threads tr s Hr) as [_ _ Hn Hout Hx].
  destruct (decide (ended s)) as [|He]; [by left|right].
  apply map_not_Forall in He as (i & w & Hi & Hw); [|apply _].
  destruct (p_gvl s) as [[|j|]|] eqn:Hg.
  - exists (PYield OwnMain). cbn. unfold holds. rewrite Hg, Hm. cbn. by do 2 eexists.
  - destruct (Hx j eq_refl) as [v Hj].
    destruct (turn_goes_on j v s) as [[s' o] E].
    { destruct (outside (w_pc v)) eqn:Ev; [|done]. by destruct (Hout j v Hj Ev). }
    exists (PWorker j), s', o. split; [done|]. cbn. rewrite Hj. unfold holds. rewrite Hg.
    by rewrite bool_decide_eq_true_2.
  - exists (PYield OwnRuby). cbn. unfold holds. rewrite Hg. cbn. by do 2 eexists.
  - destruct (w_pc w) eqn:Hpc; try (by eapply selecting_goes_on); try done;
      try (by specialize (Hn i w Hi); rewrite Hpc in Hn; discriminate Hn);
      exists (PAcquire (OwnWorker i)); cbn; rewrite Hg, Hi, Hpc; by do 2 eexists.
Qed.

(** ** Runs *)

Lemma step_stopped e s s' o :
  ending_event e = true -> pool_step config e s = Ret (Some (s', o)) -> p_main s' = p_main s.
Proof.
  unfold pool_step. destruct e as [r|d|i item|i|i|i|[|i|]|[|i|]|i| | | | | |]; try done; intros _.
  - destruct (p_workers s !! i) as [w|]; [|done]. destruct (holds _ s); [|done].
    by intros (_ & _ & ->)%worker_turn_open.
  - destruct (selecting i s); [|done]. cbn. unfold select_http.
    destruct (try_recv (p_http s)) as [[r|[]] ch]; [|done|]; by intros [= <- <-].
  - destruct (selecting i s); [|done]. cbn. destruct (pc_syslog_enabled config); [|done].
    unfold select_syslog. destruct (try_recv (p_syslog s)) as [[r|[]] ch]; [|done|]; by intros [= <- <-].
  - by intros [= [_ [= <- <-]]%when_ok_inv].
  - by intros [= [_ [= <- <-]]%when_ok_inv].
  - by intros [= [_ [= <- <-]]%when_ok_inv].
Qed.

Lemma ending_run es : forall tr s s' o,
  pool_reachable config threads tr s -> p_main s = MainStopped ->
  Forall (fun e => ending_event e = true) es -> pool_run config es s = Some (s', o) ->
  zlen es <= left_to_do s - left_to_do s' /\
  pool_reachable config threads (tr ++ o) s' /\ p_main s' = MainStopped.
Proof.
  induction es as [|e es IH]; intros tr s s' o Hr Hm Hq; cbn [pool_run].
  - intros [= <- <-]. rewrite app_nil_r. cbn. split_and!; [lia|done..].
  - apply Forall_cons in Hq as [He Hq].
    destruct (pool_step config e s) as [[[s1 o1]|]|] eqn:Hs; try done.
    destruct (pool_run config es s1) as [[s2 o2]|] eqn:Hrun; [|done]. cbn [mbind option_bind].
    intros [= <- <-]. pose proof (ending_step_shrinks _ _ _ _ He Hs).
    destruct (IH (tr ++ o1) s1 s2 o2) as (Hl & Hr' & Hm'); [|by rewrite (step_stopped _ _ _ _ He Hs)|done..|].
    { by eapply pool_reachable_step. }
    rewrite app_assoc. split_and!; [cbn [length]; lia|done..].
Qed.

Lemma ending_run_exists n : forall tr s,
  pool_reachable config threads tr s -> p_main s = MainStopped -> left_to_do s < Z.of_nat n ->
  exists es s' o, Forall (fun e => ending_event e = true) es /\
    pool_run config es s = Some (s', o) /\ ended s'.
Proof.
  induction n as [|n IH]; intros tr s Hr Hm Hn; [pose proof (left_to_do_nonneg s); lia|].
  destruct (pool_progress tr s Hr Hm) as [Hf|(e & s1 & o1 & He & Hs)]; [by exists [], s, []|].
  pose proof (ending_step_shrinks _ _ _ _ He Hs).
  destruct (IH (tr ++ o1) s1) as (es & s2 & o2 & Hq & Hrun & Hf);
    [|by rewrite (step_stopped _ _ _ _ He Hs)|lia|].
  { by eapply pool_reachable_step. }
  exists (e :: es), s2, (o1 ++ o2). split; [by constructor|]. split; [|done]. cbn [pool_run].
  by rewrite Hs, Hrun.
Qed.
End progress.

(** C17. The workers end: when [stop] has dropped the senders, the threads that get on
    with it (a worker's step, a worker that takes the lock, other Ruby code giving it
    up) cannot do so for ever, one of them can until every worker has left its
    loop, and there is a run in which all have. *)
Theorem pool_ends tr s :
  overflow_checks = false -> pool_reachable config threads tr s -> p_main s = MainStopped ->
  (forall es s' o, Forall (fun e => ending_event e = true) es ->
     pool_run config es s = Some (s', o) ->
     zlen es <= left_to_do s - left_to_do s' /\ 0 <= left_to_do s' /\ (ended s' \/ can_go_on s')) /\
  (exists es s' o, Forall (fun e => ending_event e = true) es /\
     pool_run config es s = Some (s', o) /\ ended s').
Proof.
  intros Ho Hr Hm. split.
  - intros es s' o Hq Hrun. destruct (ending_run es tr s s' o Hr Hm Hq Hrun) as (Hl & Hr' & Hm').
    split_and!; [done|apply left_to_do_nonneg|by eapply pool_progress].
  - apply (ending_run_exists Ho (Z.to_nat (left_to_do s + 1)) tr s Hr Hm).
    pose proof (left_to_do_nonneg s). lia.
Qed.
End stop.

(** ** Witness *)

#[local] Existing Instance release.

(** The server of [waiting] has been stopped, with a request in worker 0's hands and
    another in the channel. *)
Definition over : Pool * list (pool_obs (Req := nat) (Delivery := nat)) :=
  default (demo_start, [])
    (pool_run demo_pool_config
       (waiting_events ++ [PHttpEnd; PDrainEnd; PAcquire OwnMain; PCloseHttp; PCloseSyslog; PClose]) demo_start).

Lemma over_reachable : pool_reachable demo_pool_config demo_threads over.2 over.1.
Proof.
  apply (pool_run_reachable demo_pool_config demo_threads
           (waiting_events ++ [PHttpEnd; PDrainEnd; PAcquire OwnMain; PCloseHttp; PCloseSyslog; PClose]) [] demo_start);
    [constructor|vm_compute; reflexivity].
Qed.

Lemma pool_ends_witness :
  hand over.1 0 = [HttpItem 1%nat] /\ ch_queue (p_http over.1) = [2%nat] /\
  (forall es s' o, Forall (fun e => ending_event e = true) es ->
     pool_run demo_pool_config es over.1 = Some (s', o) ->
     zlen es <= left_to_do over.1 - left_to_do s' /\ 0 <= left_to_do s' /\
     (ended s' \/ can_go_on demo_pool_config s')) /\
  (exists es s' o, Forall (fun e => ending_event e = true) es /\
     pool_run demo_pool_config es over.1 = Some (s', o) /\ ended s').
Proof.
  split; [vm_compute; reflexivity|]. split; [vm_compute; reflexivity|].
  apply (pool_ends demo_pool_config demo_threads over.2 over.1);
    [reflexivity|apply over_reachable|vm_compute; reflexivity].
Defined.
