(* ===== verification/RunWorker.v ===== *)
(** * The Ruby workers

    [Server::run_worker] and [call_block_with_syslog_message] of [lib.rs]: a
    worker takes work until its channel closes, calls its Ruby block on each
    item and sends back what the block made of it.  The block is code of the
    embedding program: at each item it is some function of its argument. *)
From S2P Require Import Prelude Utf8 Decimal Http Body Grpc Response Request Syslog HandleRequest.
From S2P Require Import Worker.

Local Open Scope Z_scope.

Section run_worker.
Context `{Profile, Http, Magnus}.

(** A request with the channel its answer goes back on. *)
Record RequestWithCompletion : Type := MkRequestWithCompletion {
  completion_request : HyperRequest;
  response_tx : nat;
}.

(** What a block is called with, and what it may return. *)
Inductive BlockArg : Type :=
| ArgRequest (r : Request)
| ArgGrpcRequest (r : GrpcRequest)
| ArgSyslogMessage (m : SyslogMessage).

Inductive BlockValue : Type :=
| AResponse (r : Response)
| AGrpcResponse (r : GrpcResponse)
| OtherValue (v : Value).

Definition Block : Type := BlockArg -> result BlockValue MagnusError.

(** An answer sent on a oneshot channel. *)
Inductive Answer : Type :=
| ResponseSent (tx : nat) (r : HyperResponse)
| VerdictSent (tx : nat) (v : HandlerResult).

(** Ruby truthiness of what a block returned; objects are truthy. *)
Definition block_value_to_bool (v : BlockValue) : bool :=
  match v with
  | AResponse _ | AGrpcResponse _ => true
  | OtherValue v => to_bool v
  end.

(** Anything other than a truthy result means the message was not admitted. *)
Definition call_block_with_syslog_message (block : Block) (message : SyslogMessage)
    : HandlerResult :=
  match block (ArgSyslogMessage message) with
  | Ok v =>
      match v with
      | AResponse _ | AGrpcResponse _ => Failed
      | _ => if block_value_to_bool v then Accepted else Refused
      end
  | Err _ => Failed
  end.

(** One turn of the loop, on a request: what is sent. *)
Definition handle_http (block : Block) (w : RequestWithCompletion) : outcome (list Answer) :=
  let hyper_request := completion_request w in
  let called value :=
    let* hyper_response :=
      match block value with
      | Ok (AGrpcResponse grpc_response) => Ret (GrpcResponse_into_hyper_response grpc_response)
      | Ok (AResponse http_response) => Ret (Response_into_hyper_response http_response)
      | Ok (OtherValue _) => create_error_response (bs "Internal server error")
      | Err _ => create_error_response (bs "Internal server error")
      end in
    Ret [ResponseSent (response_tx w) hyper_response] in
  if is_grpc_request hyper_request then
    match GrpcRequest_new hyper_request with
    | Some grpc_request => called (ArgGrpcRequest grpc_request)
    | None =>
        let* made := GrpcResponse_error (u32_into_value 3) (bs "Invalid gRPC request path") in
        match made with
        | Ok response =>
            Ret [ResponseSent (response_tx w) (GrpcResponse_into_hyper_response response)]
        | Err _ => Panic
        end
    end
  else called (ArgRequest (Request_new hyper_request)).

Definition handle_syslog (block : Block) (delivery : SyslogDelivery) : list Answer :=
  let '(message, result_tx) := into_parts delivery in
  [VerdictSent result_tx (call_block_with_syslog_message block message)].

Definition handle_work_item (block : Block)
    (work_item : WorkItem (Req := RequestWithCompletion) (Delivery := SyslogDelivery))
    : outcome (list Answer) :=
  match work_item with
  | HttpItem work_request => handle_http block work_request
  | SyslogItem delivery => Ret (handle_syslog block delivery)
  end.

(** What one turn of the loop meets: the channels' answers, and the block. *)
Record turn : Type := MkTurn {
  turn_observed : observed (Req := RequestWithCompletion) (Delivery := SyslogDelivery);
  turn_block : Block;
}.

(** How the loop ends: a closed channel, or the turns given to the model. *)
Inductive loop_end : Type :=
| WorkerStopped
| TurnsOver.

(** The work item of one turn. *)
Definition next_item (syslog_enabled : bool) (o : observed) (syslog_streak work_ratio : Z)
    : outcome (option (WorkItem (Req := RequestWithCompletion) (Delivery := SyslogDelivery)) * Z) :=
  if syslog_enabled then next_work_item o syslog_streak work_ratio
  else Ret (next_http_work_item o, syslog_streak).

Fixpoint worker_loop (syslog_enabled : bool) (work_ratio syslog_streak : Z) (turns : list turn)
    : outcome (list Answer * loop_end) :=
  match turns with
  | [] => Ret ([], TurnsOver)
  | t :: turns' =>
      let* (next, streak) := next_item syslog_enabled (turn_observed t) syslog_streak work_ratio in
      match next with
      | None => Ret ([], WorkerStopped)
      | Some work_item =>
          let* sent := handle_work_item (turn_block t) work_item in
          let* (answers, e) := worker_loop syslog_enabled work_ratio streak turns' in
          Ret (sent ++ answers, e)
      end
  end.

(** [block_given]: [block_proc] finds a block, without which its [unwrap] panics.
    [started]: both channels exist, which is what [start] leaves. *)
Definition run_worker (block_given started : bool) (config : SyslogConfig) (turns : list turn)
    : outcome (result (list Answer * loop_end) MagnusError) :=
  if negb block_given then Panic else
  if started then
    let* r := worker_loop (enabled config) (work_ratio config) 0 turns in
    Ret (Ok r)
  else Ret (Err (RuntimeError (bs "Server must be started before running workers"))).

End run_worker.

(** ** Properties *)

Section worker_props.
Context `{Profile, HttpSpec, Magnus}.

Lemma GrpcRequest_new_is_grpc (r : HyperRequest) :
  is_grpc_request r = true -> exists g, GrpcRequest_new r = Some g.
Proof.
  unfold is_grpc_request, GrpcRequest_new. intros Hg.
  destruct (path_parts (req_path r)) as [|? [|]]; [repeat case_match; done|eauto..].
Qed.

(** The object a request is wrapped in. *)
Definition block_arg_for (r : HyperRequest) (arg : BlockArg) : Prop :=
  if is_grpc_request r then exists g, GrpcRequest_new r = Some g /\ arg = ArgGrpcRequest g
  else arg = ArgRequest (Request_new r).

(** The answer to a request, from what its block returned. *)
Definition response_for (returned : result BlockValue MagnusError) (r : HyperResponse) : Prop :=
  match returned with
  | Ok (AResponse resp) => r = Response_into_hyper_response resp
  | Ok (AGrpcResponse resp) => r = GrpcResponse_into_hyper_response resp
  | Ok (OtherValue _) | Err _ => plain_answer 500 (bs "Internal server error") r
  end.

Lemma handle_http_answers block (w : RequestWithCompletion) :
  exists arg r, handle_http block w = Ret [ResponseSent (response_tx w) r] /\
    block_arg_for (completion_request w) arg /\ response_for (block arg) r.
Proof.
  assert (Hcalled : forall arg, exists r,
            (let* hyper_response :=
               match block arg with
               | Ok (AGrpcResponse grpc_response) => Ret (GrpcResponse_into_hyper_response grpc_response)
               | Ok (AResponse http_response) => Ret (Response_into_hyper_response http_response)
               | Ok (OtherValue _) => create_error_response (bs "Internal server error")
               | Err _ => create_error_response (bs "Internal server error")
               end in
             Ret [ResponseSent (response_tx w) hyper_response]) =
            Ret [ResponseSent (response_tx w) r] /\ response_for (block arg) r).
  { intros arg. unfold create_error_response, response_for.
    destruct (plain_text_response_ok 500 (bs "Internal server error")) as (r & -> & Hr); [lia|].
    destruct (block arg) as [[]|]; cbn; eauto. }
  unfold handle_http, block_arg_for. cbv zeta beta.
  destruct (is_grpc_request (completion_request w)) eqn:Hg.
  - destruct (GrpcRequest_new_is_grpc _ Hg) as [g ->].
    destruct (Hcalled (ArgGrpcRequest g)) as (r & E & Hr).
    exists (ArgGrpcRequest g), r. split; [exact E|]. eauto.
  - destruct (Hcalled (ArgRequest (Request_new (completion_request w)))) as (r & E & Hr). eauto.
Qed.

(** C35. What a worker answers a request: the block is called with the request, as a
    gRPC request when it is one, and its response is sent back, once, on the request's
    own channel; any other value, and an exception, become a plain 500.  The worker
    does not panic on any of them. *)
Theorem handle_http_response block (w : RequestWithCompletion) :
  exists arg r, handle_http block w = Ret [ResponseSent (response_tx w) r] /\
    block_arg_for (completion_request w) arg /\ response_for (block arg) r.
Proof. apply handle_http_answers. Qed.

(** The verdict on a message, from what its block returned: accepted on a truthy
    value that is no response to a request, refused on a falsy one. *)
Definition verdict_for (returned : result BlockValue MagnusError) (v : HandlerResult) : Prop :=
  v = match returned with
      | Ok (OtherValue x) => if to_bool x then Accepted else Refused
      | Ok _ | Err _ => Failed
      end.

Lemma call_block_verdict block (m : SyslogMessage) :
  verdict_for (block (ArgSyslogMessage m)) (call_block_with_syslog_message block m).
Proof. unfold verdict_for, call_block_with_syslog_message. by destruct (block _) as [[]|]. Qed.

Lemma next_item_returns syslog_enabled o streak work_ratio :
  overflow_checks = false ->
  exists item streak', next_item syslog_enabled o streak work_ratio = Ret (item, streak').
Proof.
  intros Hp. unfold next_item. destruct syslog_enabled; [|eauto].
  assert (Hc : forall tried : TryWork (Req := RequestWithCompletion) (Delivery := SyslogDelivery),
    exists item streak', count_work_item tried streak = Ret (item, streak')).
  { intros [[]| |]; unfold count_work_item, u32_add, add_wrapping; rewrite ?Hp; cbn; try case_match;
      cbn; eauto. }
  unfold next_work_item. repeat case_match; eauto.
Qed.

(** An item is answered with what its block made of it, on its own channel. *)
Inductive answers_item (block : Block) : WorkItem -> Answer -> Prop :=
| answers_http w arg r :
    block_arg_for (completion_request w) arg -> response_for (block arg) r ->
    answers_item block (HttpItem w) (ResponseSent (response_tx w) r)
| answers_syslog d v :
    verdict_for (block (ArgSyslogMessage (delivery_message d))) v ->
    answers_item block (SyslogItem d) (VerdictSent (result_tx d) v).

Lemma handle_work_item_answers block w :
  exists a, handle_work_item block w = Ret [a] /\ answers_item block w a.
Proof.
  destruct w as [r|d]; cbn [handle_work_item].
  - destruct (handle_http_answers block r) as (arg & resp & -> & ? & ?). eexists. split; [done|].
    by econstructor.
  - eexists. split; [done|]. apply answers_syslog, call_block_verdict.
Qed.

(** The items a worker takes over some turns, each with the block it is given to. *)
Inductive worker_takes (syslog_enabled : bool) (work_ratio : Z)
    : Z -> list turn -> list (Block * WorkItem) -> loop_end -> Prop :=
| takes_over streak : worker_takes syslog_enabled work_ratio streak [] [] TurnsOver
| takes_stop streak t turns streak' :
    next_item syslog_enabled (turn_observed t) streak work_ratio = Ret (None, streak') ->
    worker_takes syslog_enabled work_ratio streak (t :: turns) [] WorkerStopped
| takes_item streak t turns item streak' taken e :
    next_item syslog_enabled (turn_observed t) streak work_ratio = Ret (Some item, streak') ->
    worker_takes syslog_enabled work_ratio streak' turns taken e ->
    worker_takes syslog_enabled work_ratio streak (t :: turns) ((turn_block t, item) :: taken) e.

End worker_props.

(** ** Witnesses *)

Definition echo_block : Block := fun arg =>
  match arg with
  | ArgSyslogMessage _ => Ok (OtherValue RNil)
  | _ => Err TypeError
  end.

(** A message, then a closed channel. *)
Definition two_turns : list turn :=
  [MkTurn (Observed (Err Empty)
     (Ok (MkSyslogDelivery (MkSyslogMessage (bs "hi") true None Stream 0 1 1) 7)) None None)
     echo_block;
   MkTurn (Observed (Err Disconnected) (Err Empty) None None) echo_block].


(** A block that raises on a request. *)
Lemma handle_http_response_witness :
  exists arg r, handle_http echo_block (MkRequestWithCompletion get_parts 3) = Ret [ResponseSent 3 r] /\
    block_arg_for get_parts arg /\ response_for (echo_block arg) r.
Proof. apply (handle_http_response echo_block (MkRequestWithCompletion get_parts 3)). Defined.
