(* ===== verification/Sockets.v ===== *)
(** * Unix socket files

    How a server takes a socket path over and gives it up: [bind_unix_listener]
    and [remove_socket_file] of [syslog.rs], and the same steps of
    [Server::start] and [Server::stop] in [lib.rs].  The file system is a map from
    paths to file identities, (device, inode); what may fail is a parameter of
    each call, and so is what other processes do between two system calls.  Several
    servers, of this and of other processes, use the same paths. *)
From S2P Require Import Prelude Decimal Http.

Local Open Scope Z_scope.

(** The identity [symlink_metadata] reports. *)
Definition ident : Type := (Z * Z).
Abbreviation files := (gmap bytes ident).

(** What the system answers to one attempt to bind: the identity of the socket
    file, [None] if [bind] fails, and whether the later calls succeed. *)
Record bind_env : Type := MkBindEnv {
  bound : option ident;
  metadata_ok : bool;
  rename_ok : bool;
  tmp_removed : bool;
}.

(** [format!("{}.{}.{}.tmp", path, pid, seq)]. *)
Definition tmp_path (path : bytes) (pid seq : Z) : bytes :=
  path ++ bs "." ++ to_string pid ++ bs "." ++ to_string seq ++ bs ".tmp".

(** The listener's own file, the identity remembered for [stop], and the states
    the files go through, the last one first. *)
Definition bind_unix_listener (path : bytes) (pid seq : Z) (env : bind_env) (fs : files)
    : result (ident * option ident) unit * list files :=
  let tmp := tmp_path path pid seq in
  match fs !! tmp, bound env with
  | None, Some socket =>
      let fs1 := <[tmp := socket]> fs in
      let id := if metadata_ok env then Some socket else None in
      if rename_ok env then
        (Ok (socket, id), [<[path := socket]> (delete tmp fs1); fs1; fs])
      else
        (Err tt, [if tmp_removed env then delete tmp fs1 else fs1; fs1; fs])
  | _, _ => (Err tt, [fs])
  end.

(** The first half of [remove_socket_file]: the path to unlink, if the file at it is
    the one that was bound ([symlink_metadata] and the comparison). *)
Definition ours (path : option bytes) (id : option ident) (fs : files) : option bytes :=
  match path, id with
  | Some path, Some id =>
      match fs !! path with
      | Some meta => if decide (meta = id) then Some path else None
      | None => None
      end
  | _, _ => None
  end.

(** The second half: [remove_file], which may fail. *)
Definition remove_file (path : bytes) (removed : bool) (fs : files) : files :=
  if removed then delete path fs else fs.

(** Whether [remove_file] succeeds, and what other processes do to the files between
    the two system calls. *)
Record remove_env : Type := MkRemoveEnv {
  removed : bool;
  meanwhile : files -> files;
}.

(** Unlink a bound socket file, unless a replacement has taken the path over. *)
Definition remove_socket_file (path : option bytes) (id : option ident) (env : remove_env)
    (fs : files) : files :=
  match ours path id fs with
  | Some path => remove_file path (removed env) (meanwhile env fs)
  | None => fs
  end.

#[global] Arguments remove_socket_file : simpl never.

(** [s.trim_start_matches(prefix)]: the prefix removed as often as it is there. *)
Fixpoint trim_start_matches (fuel : nat) (prefix s : bytes) : bytes :=
  match fuel with
  | O => s
  | S fuel' =>
      if starts_with prefix s then trim_start_matches fuel' prefix (drop (length prefix) s) else s
  end.

(** The path of a [unix:] bind address; it has at most one prefix per five bytes. *)
Definition unix_path (bind_address : bytes) : option bytes :=
  if starts_with (bs "unix:") bind_address
  then Some (trim_start_matches (length bind_address) (bs "unix:") bind_address)
  else None.

(** The end of [Server::stop]: the HTTP socket file and what is left to remember. *)
Definition stop_socket_file (bind_address : bytes) (socket_ident : option ident)
    (env : remove_env) (fs : files) : option ident * files :=
  match unix_path bind_address with
  | Some path => (None, remove_socket_file (Some path) socket_ident env fs)
  | None => (socket_ident, fs)
  end.

(** ** One call *)

Lemma tmp_path_ne path pid seq : tmp_path path pid seq <> path.
Proof.
  intros E. apply (f_equal length) in E. unfold tmp_path in E. rewrite !length_app in E.
  assert (length (bs ".tmp") = 4%nat) by done. lia.
Qed.

(** The state of the files a call leaves. *)
Definition left_by {A} (r : A * list files) (fs : files) : files := default fs (head (r.2)).

(** Taking a path over is atomic: at every moment of the call the path leads to the
    file it led to before or to the new, bound, socket; it is the new one exactly
    when the call succeeds; no other path but the temporary one is touched. *)
Theorem bind_atomic path pid seq env fs r states :
  bind_unix_listener path pid seq env fs = (r, states) ->
  Forall (fun fs' => fs' !! path = fs !! path \/
            (exists socket id, r = Ok (socket, id) /\ fs' !! path = Some socket)) states /\
  (forall socket id, r = Ok (socket, id) ->
     left_by (r, states) fs !! path = Some socket /\ (id = None \/ id = Some socket)) /\
  (forall e, r = Err e -> left_by (r, states) fs !! path = fs !! path) /\
  (forall other, other <> path -> other <> tmp_path path pid seq ->
     left_by (r, states) fs !! other = fs !! other).
Proof.
  unfold bind_unix_listener, left_by. pose proof (tmp_path_ne path pid seq) as Hne.
  destruct (fs !! tmp_path path pid seq) as [x|] eqn:Ht.
  { intros [= <- <-]. cbn. by split_and!; [repeat constructor; left| |..]. }
  destruct (bound env) as [socket|].
  2:{ intros [= <- <-]. cbn. by split_and!; [repeat constructor; left| |..]. }
  destruct (rename_ok env); intros [= <- <-]; cbn.
  - rewrite !Forall_cons. split_and!.
    + right. exists socket. eexists. split; [done|]. by rewrite lookup_insert_eq.
    + left. by rewrite lookup_insert_ne.
    + by left.
    + constructor.
    + intros ? ? [= <- <-]. rewrite lookup_insert_eq. split; [done|]. destruct (metadata_ok env); auto.
    + done.
    + intros other Ho1 Ho2. by rewrite lookup_insert_ne, lookup_delete_ne, lookup_insert_ne.
  - assert (Hother : forall other, other <> tmp_path path pid seq ->
      (if tmp_removed env then delete (tmp_path path pid seq) (<[tmp_path path pid seq := socket]> fs)
       else <[tmp_path path pid seq := socket]> fs) !! other = fs !! other).
    { intros other Ho. destruct (tmp_removed env); by rewrite ?lookup_delete_ne, lookup_insert_ne. }
    rewrite !Forall_cons. split_and!; [left; by apply Hother|left; by rewrite lookup_insert_ne|
      by left|constructor|done|intros _ _; by apply Hother|auto].
Qed.

Lemma bind_ok_socket path pid seq env fs socket id states :
  bind_unix_listener path pid seq env fs = (Ok (socket, id), states) ->
  id = None \/ id = Some socket.
Proof.
  unfold bind_unix_listener. repeat case_match; intros; simplify_eq; auto.
Qed.

(** Which paths a call leaves alone. *)
Lemma bind_lookup path pid seq env fs r states other :
  bind_unix_listener path pid seq env fs = (r, states) -> other <> tmp_path path pid seq ->
  left_by (r, states) fs !! other =
    match r with
    | Ok (socket, _) => if decide (other = path) then Some socket else fs !! other
    | Err _ => fs !! other
    end.
Proof.
  unfold bind_unix_listener, left_by. intros Hb Ho.
  destruct (fs !! tmp_path path pid seq), (bound env), (rename_ok env); simplify_eq/=; try done.
  - case_decide as E; [subst; by rewrite lookup_insert_eq|].
    by rewrite lookup_insert_ne, lookup_delete_ne, lookup_insert_ne.
  - destruct (tmp_removed env); by rewrite ?lookup_delete_ne, lookup_insert_ne.
Qed.

Lemma ours_Some path id fs p :
  ours path id fs = Some p <-> path = Some p /\ is_Some id /\ fs !! p = id.
Proof.
  unfold ours. destruct path as [q|]; [|naive_solver].
  destruct id as [id|]; [|split; [done|by intros (_ & [? [=]] & _)]].
  destruct (fs !! q) as [meta|] eqn:E; [case_decide as Hd|].
  - subst. split; [by intros [= <-]|by intros ([= <-] & _)].
  - split; [done|]. intros ([= <-] & _ & Hx). congruence.
  - split; [done|]. intros ([= <-] & _ & Hx). congruence.
Qed.

Lemma remove_file_lookup path removed fs other :
  remove_file path removed fs !! other = if decide (removed = true /\ other = path) then None else fs !! other.
Proof.
  unfold remove_file. destruct removed; [|by rewrite decide_False by naive_solver].
  case_decide as E; [destruct E as [_ ->]; by rewrite lookup_delete_eq|].
  rewrite lookup_delete_ne; [done|naive_solver].
Qed.

(** ** Servers sharing paths *)

(** Where a server is with its socket: [stop] has not been called, has been, has found
    its own file at the path and is about to remove it, is done with it. *)
Inductive Stage : Type :=
| Running
| Stopping
| Removing
| Finished.

(** A server that bound a path: its file, the identity it remembers, and whether its
    listener is open. *)
Record Socket : Type := MkSocket {
  sk_path : bytes;
  sk_file : ident;
  sk_ident : option ident;
  sk_open : bool;
  sk_stage : Stage;
}.

(** [w_latest] names, for each path, the server that took it over last. *)
Record World : Type := MkWorld {
  w_files : files;
  w_sockets : gmap nat Socket;
  w_latest : gmap bytes nat;
}.

Definition at_stage (t : Stage) (k : Socket) : Socket :=
  MkSocket (sk_path k) (sk_file k) (sk_ident k) (sk_open k) t.
Definition listener_closed (k : Socket) : Socket :=
  MkSocket (sk_path k) (sk_file k) (sk_ident k) false (sk_stage k).

Definition set_socket (g : nat) (k : Socket) (w : World) : World :=
  MkWorld (w_files w) (<[g := k]> (w_sockets w)) (w_latest w).
Definition set_files (fs : files) (w : World) : World := MkWorld fs (w_sockets w) (w_latest w).

(** The file system gives an identity to a new file only when no file has it: none
    that a path leads to and none that an open socket is bound to. *)
Definition free_file (id : ident) (w : World) : Prop :=
  map_Forall (fun _ k => sk_open k = true -> sk_file k <> id) (w_sockets w) /\
  map_Forall (fun _ id' => id' <> id) (w_files w).

Inductive socket_event : Type :=
| TakesOver (path : bytes)
| OtherStep.

(** The system calls of the servers, one at a time.  A temporary path is nobody's
    socket path. *)
Inductive socket_step (w : World) : socket_event -> World -> Prop :=
| socket_bind g path pid seq env socket id states :
    w_sockets w !! g = None ->
    bind_unix_listener path pid seq env (w_files w) = (Ok (socket, id), states) ->
    free_file socket w -> w_latest w !! tmp_path path pid seq = None ->
    socket_step w (TakesOver path)
      (MkWorld (left_by (Ok (socket, id) : result _ unit, states) (w_files w))
         (<[g := MkSocket path socket id true Running]> (w_sockets w)) (<[path := g]> (w_latest w)))
| socket_bind_failed path pid seq env e states :
    bind_unix_listener path pid seq env (w_files w) = (Err e, states) ->
    w_latest w !! tmp_path path pid seq = None ->
    socket_step w OtherStep
      (set_files (left_by (Err e : result (ident * option ident) unit, states) (w_files w)) w)
| socket_stop g k :
    w_sockets w !! g = Some k -> sk_stage k = Running ->
    socket_step w OtherStep (set_socket g (at_stage Stopping k) w)
| socket_close g k :
    w_sockets w !! g = Some k -> sk_stage k <> Running ->
    socket_step w OtherStep (set_socket g (listener_closed k) w)
| socket_compare g k :
    w_sockets w !! g = Some k -> sk_stage k = Stopping ->
    socket_step w OtherStep
      (set_socket g (at_stage (if ours (Some (sk_path k)) (sk_ident k) (w_files w)
                               then Removing else Finished) k) w)
| socket_remove g k removed :
    w_sockets w !! g = Some k -> sk_stage k = Removing ->
    socket_step w OtherStep
      (set_files (remove_file (sk_path k) removed (w_files w)) (set_socket g (at_stage Finished k) w)).

(** Runs in which each step is allowed by [ok]. *)
Inductive socket_reachable (ok : World -> socket_event -> Prop) (fs : files) : World -> Prop :=
| sockets_init : socket_reachable ok fs (MkWorld fs ∅ ∅)
| sockets_step w e w' :
    socket_reachable ok fs w -> ok w e -> socket_step w e w' -> socket_reachable ok fs w'.

(** A server whose end a takeover of its path must not overlap: it has closed its
    listener or found its file at the path, and has not done with the path. *)
Definition ending (k : Socket) : bool :=
  match sk_stage k with
  | Running | Stopping => negb (sk_open k)
  | Removing => true
  | Finished => false
  end.

(** A path is not taken over between the moment a server of the path closes its
    listener and the end of its [stop]. *)
Definition no_overlap (w : World) (e : socket_event) : Prop :=
  match e with
  | TakesOver path => map_Forall (fun _ k => sk_path k = path -> ending k = false) (w_sockets w)
  | OtherStep => True
  end.

(** A server that has not yet looked whether to remove its file. *)
Definition owning (k : Socket) : Prop := sk_stage k = Running \/ sk_stage k = Stopping.

Record sockets_ok (w : World) : Prop := {
  so_live : forall path g k, w_latest w !! path = Some g -> w_sockets w !! g = Some k ->
    owning k -> w_files w !! path = Some (sk_file k);
  so_latest : forall path g, w_latest w !! path = Some g ->
    exists k, w_sockets w !! g = Some k /\ sk_path k = path;
  so_files : forall g g' k k', w_sockets w !! g = Some k -> w_sockets w !! g' = Some k' ->
    owning k -> owning k' -> sk_path k = sk_path k' -> sk_file k = sk_file k' -> g = g';
  so_removing : forall g k g' k', w_sockets w !! g = Some k -> sk_stage k = Removing ->
    w_latest w !! sk_path k = Some g' -> w_sockets w !! g' = Some k' -> ~ owning k';
  so_ident : forall g k id, w_sockets w !! g = Some k -> sk_ident k = Some id -> id = sk_file k;
}.

Lemma sockets_ok_bind w g path pid seq env socket id states :
  sockets_ok w -> w_sockets w !! g = None ->
  bind_unix_listener path pid seq env (w_files w) = (Ok (socket, id), states) ->
  free_file socket w -> w_latest w !! tmp_path path pid seq = None -> no_overlap w (TakesOver path) ->
  sockets_ok
    (MkWorld (left_by (Ok (socket, id) : result _ unit, states) (w_files w))
       (<[g := MkSocket path socket id true Running]> (w_sockets w)) (<[path := g]> (w_latest w))).
Proof.
  intros [Hli Hla Hfi Hre Hid] Hg Hb [Hf _] Ht Hno.
  assert (Hother : forall g' k', w_sockets w !! g' = Some k' -> sk_path k' = path ->
    owning k' -> sk_file k' <> socket).
  { intros g' k' Hk Hp Ho. specialize (Hno _ _ Hk Hp). apply (Hf _ _ Hk).
    unfold ending in Hno. destruct Ho as [E|E]; rewrite E in Hno; by destruct (sk_open k'). }
  constructor; cbn.
  - intros other g' k' Hl Hk Hr.
    assert (Ho : other <> tmp_path path pid seq).
    { intros ->. rewrite lookup_insert_ne in Hl; [congruence|]. intros E. symmetry in E.
      by apply tmp_path_ne in E. }
    rewrite (bind_lookup _ _ _ _ _ _ _ _ Hb Ho). case_decide as E.
    + subst. rewrite lookup_insert_eq in Hl. injection Hl as <-.
      rewrite lookup_insert_eq in Hk. by injection Hk as <-.
    + rewrite lookup_insert_ne in Hl by done. destruct (Hla _ _ Hl) as (k & Hk' & _).
      rewrite lookup_insert_ne in Hk by congruence. by eapply Hli.
  - intros other g' Hl. destruct (decide (path = other)) as [->|Hne].
    + rewrite lookup_insert_eq in Hl. injection Hl as <-. eexists. by rewrite lookup_insert_eq.
    + rewrite lookup_insert_ne in Hl by done. destruct (Hla _ _ Hl) as (k & Hk & Hp).
      exists k. split; [|done]. rewrite lookup_insert_ne; [done|]. congruence.
  - intros g1 g2 k1 k2 H1 H2 O1 O2 Ep E. apply lookup_insert_Some in H1, H2.
    destruct H1 as [[<- <-]|[Hn1 H1]], H2 as [[<- <-]|[Hn2 H2]]; cbn in *; [done|..].
    + by destruct (Hother _ _ H2 (eq_sym Ep) O2).
    + by destruct (Hother _ _ H1 Ep O1).
    + by eapply Hfi.
  - intros g1 k1 g2 k2 [[<- <-]|[Hn1 H1]]%lookup_insert_Some Hs Hl H2; [done|].
    destruct (decide (sk_path k1 = path)) as [Ep|Hne].
    { specialize (Hno _ _ H1 Ep). unfold ending in Hno. by rewrite Hs in Hno. }
    rewrite lookup_insert_ne in Hl by done. destruct (Hla _ _ Hl) as (k & Hk & _).
    rewrite lookup_insert_ne in H2 by congruence. exact (Hre _ _ _ _ H1 Hs Hl H2).
  - intros g' k' id' Hk Hi. apply lookup_insert_Some in Hk as [[<- <-]|[_ Hk]]; [|by eapply Hid].
    cbn in *. apply bind_ok_socket in Hb as [-> | ->]; congruence.
Qed.

(** A server that goes on with its end: the files are as they were, and if it starts to
    remove its file no other server owns the path. *)
Lemma sockets_ok_update w g k k1 :
  sockets_ok w -> w_sockets w !! g = Some k ->
  sk_path k1 = sk_path k -> sk_file k1 = sk_file k -> sk_ident k1 = sk_ident k ->
  (owning k1 -> owning k) ->
  (sk_stage k1 = Removing -> sk_stage k = Removing \/
     forall g' k', w_latest w !! sk_path k = Some g' -> w_sockets w !! g' = Some k' -> g' <> g ->
       ~ owning k') ->
  sockets_ok (set_socket g k1 w).
Proof.
  intros [Hli Hla Hfi Hre Hid] Hg Ep Ef Ei Ho Hrm.
  assert (Hold : forall g' k', <[g := k1]> (w_sockets w) !! g' = Some k' ->
    exists k0, w_sockets w !! g' = Some k0 /\ sk_file k' = sk_file k0 /\ sk_ident k' = sk_ident k0 /\
      sk_path k' = sk_path k0 /\ (owning k' -> owning k0)).
  { intros g' k' [[<- <-]|[Hn Hk]]%lookup_insert_Some; eauto 10. }
  constructor; cbn.
  - intros path g' k' Hl Hk Hr. destruct (Hold _ _ Hk) as (k0 & Hk0 & -> & _ & _ & Hown). eauto.
  - intros path g' Hl. destruct (Hla _ _ Hl) as (k0 & Hk0 & Hp). destruct (decide (g = g')) as [<-|].
    + exists k1. rewrite lookup_insert_eq. split; [done|]. congruence.
    + exists k0. by rewrite lookup_insert_ne.
  - intros g1 g2 j1 j2 H1 H2 O1 O2 Epp E.
    destruct (Hold _ _ H1) as (k3 & ? & E1 & _ & P1 & ?), (Hold _ _ H2) as (k4 & ? & E2 & _ & P2 & ?).
    eapply (Hfi g1 g2 k3 k4); [done..|auto|auto|congruence|congruence].
  - intros g1 j1 g2 j2 H1 Hs Hl H2 O2. destruct (Hold _ _ H2) as (k4 & Hk4 & _ & _ & P2 & Ho2).
    apply lookup_insert_Some in H1 as [[<- <-]|[Hn1 H1]]; [|exact (Hre _ _ _ _ H1 Hs Hl Hk4 (Ho2 O2))].
    rewrite Ep in Hl. destruct (Hrm Hs) as [Hk|Hno]; [exact (Hre _ _ _ _ Hg Hk Hl Hk4 (Ho2 O2))|].
    apply (Hno g2 k4 Hl Hk4); [|auto]. intros ->. rewrite lookup_insert_eq in H2. injection H2 as <-.
    destruct O2 as [O2|O2]; congruence.
  - intros g' k' id' Hk Hi. destruct (Hold _ _ Hk) as (k0 & Hk0 & -> & E & _). eapply Hid; [done|congruence].
Qed.

Lemma sockets_ok_files w fs :
  sockets_ok w ->
  (forall path g k, w_latest w !! path = Some g -> w_sockets w !! g = Some k -> owning k ->
     fs !! path = w_files w !! path) ->
  sockets_ok (set_files fs w).
Proof.
  intros [Hli Hla Hfi Hre Hid] Hfs. constructor; cbn; [|done..].
  intros path g k Hl Hk Ho. rewrite (Hfs _ _ _ Hl Hk Ho). by eapply Hli.
Qed.

(** A server that finds its own file at its path finds no other owner of the path. *)
Lemma ours_alone w g k :
  sockets_ok w -> w_sockets w !! g = Some k -> owning k ->
  ours (Some (sk_path k)) (sk_ident k) (w_files w) = Some (sk_path k) ->
  forall g' k', w_latest w !! sk_path k = Some g' -> w_sockets w !! g' = Some k' -> g' <> g -> ~ owning k'.
Proof.
  intros [Hli Hla Hfi _ Hid] Hg Ho (_ & [id Hi] & Hf)%ours_Some g' k' Hl Hk Hne Ho'.
  rewrite (Hli _ _ _ Hl Hk Ho'), Hi in Hf. injection Hf as Hf.
  apply (Hid _ _ _ Hg) in Hi. destruct (Hla _ _ Hl) as (k0 & Hk0 & Hp).
  assert (k0 = k') as -> by congruence. apply Hne. by eapply (Hfi g' g k' k); [done..|congruence].
Qed.

Lemma sockets_invariant fs w : socket_reachable no_overlap fs w -> sockets_ok w.
Proof.
  induction 1 as [|w e w' _ IH Hok Hs]; [by constructor|]. destruct Hs as
    [g path pid seq env socket id states Hg Hb Hf Ht|path pid seq env e states Hb Ht|g k Hg Hst
    |g k Hg Hst|g k Hg Hst|g k rm Hg Hst].
  - by eapply sockets_ok_bind.
  - apply sockets_ok_files; [done|]. intros other g' k' Hl Hk Ho.
    rewrite (bind_lookup _ _ _ _ _ _ _ _ Hb); [done|]. intros ->. congruence.
  - eapply sockets_ok_update; [done|done|done..| |done]. intros _. by left.
  - eapply sockets_ok_update; [done|done|done..|]. intros E. by left.
  - assert (Hown : owning k) by (by right). eapply sockets_ok_update; [done|done|done..| |].
    + by destruct (ours _ _ _); intros [|].
    + destruct (ours (Some (sk_path k)) (sk_ident k) (w_files w)) as [p|] eqn:E; [|done].
      intros _. right. apply (ours_alone w g k); [done..|].
      assert (Some (sk_path k) = Some p) as [= <-] by (by apply ours_Some in E as [? _]). done.
  - apply (sockets_ok_files (set_socket g (at_stage Finished k) w)).
    + eapply sockets_ok_update; [done|done|done..|by intros [|]|done].
    + intros path g' k' Hl Hk Ho. cbn in *. rewrite remove_file_lookup. case_decide as E; [|done].
      destruct E as [_ ->]. exfalso.
      apply lookup_insert_Some in Hk as [[<- <-]|[Hn Hk]]; [by destruct Ho|].
      by eapply (so_removing _ IH g k g' k').
Qed.

(** C12. A path leads to the server that took it over last for as long as that server
    has not come to the end of its [stop]: whichever older servers stop, in whatever
    order and however their system calls interleave, whatever attempts to take the
    path over fail, and whether or not files can be removed.  What it takes is that no
    server takes the path over just while another one of the path, its listener
    closed, looks whether the file is still its own and removes it; an older server
    that is still draining when it is replaced is no such case. *)
Theorem latest_server_reachable fs w path g k :
  socket_reachable no_overlap fs w -> w_latest w !! path = Some g -> w_sockets w !! g = Some k ->
  sk_stage k = Running \/ sk_stage k = Stopping -> w_files w !! path = Some (sk_file k).
Proof. intros Hr. apply (so_live _ (sockets_invariant _ _ Hr)). Qed.

(** ** Witnesses *)

Definition all_succeed (id : ident) : bind_env := MkBindEnv (Some id) true true true.
Definition just_removed : remove_env := MkRemoveEnv true id.

Lemma bind_atomic_witness :
  let path := bs "/s" in
  let fs : files := <[path := (1, 10)]> ∅ in
  let '(r, states) := bind_unix_listener path 7 0 (all_succeed (1, 11)) fs in
  Forall (fun fs' => fs' !! path = fs !! path \/
            (exists socket id, r = Ok (socket, id) /\ fs' !! path = Some socket)) states /\
  (forall socket id, r = Ok (socket, id) ->
     left_by (r, states) fs !! path = Some socket /\ (id = None \/ id = Some socket)) /\
  (forall e, r = Err e -> left_by (r, states) fs !! path = fs !! path) /\
  (forall other, other <> path -> other <> tmp_path path 7 0 ->
     left_by (r, states) fs !! other = fs !! other).
Proof.
  exact (bind_atomic (bs "/s") 7 0 (all_succeed (1, 11)) (<[bs "/s" := (1, 10)]> ∅) _ _ eq_refl).
Defined.

(** A server [g] takes [/s] over. *)
Definition bind_world (g : nat) (pid : Z) (id : ident) (w : World) : World :=
  let r := bind_unix_listener (bs "/s") pid 0 (all_succeed id) (w_files w) in
  MkWorld (left_by r (w_files w)) (<[g := MkSocket (bs "/s") id (Some id) true Running]> (w_sockets w))
    (<[bs "/s" := g]> (w_latest w)).

Lemma bind_world_step g pid id w :
  w_sockets w !! g = None ->
  (bind_unix_listener (bs "/s") pid 0 (all_succeed id) (w_files w)).1 = Ok (id, Some id) ->
  free_file id w -> w_latest w !! tmp_path (bs "/s") pid 0 = None ->
  socket_step w (TakesOver (bs "/s")) (bind_world g pid id w).
Proof.
  intros Hg Hb Hf Ht. unfold bind_world.
  destruct (bind_unix_listener (bs "/s") pid 0 (all_succeed id) (w_files w)) as [r states] eqn:E.
  cbn in Hb. subst r. by eapply socket_bind.
Qed.

(** What the servers have done to one of them. *)
Definition old_socket (is_open : bool) (t : Stage) : Socket :=
  MkSocket (bs "/s") (1, 10) (Some (1, 10)) is_open t.

(** An older server, the newer one that takes its path over while it is draining, and
    the older one stopping: it closes its listener and finds another file. *)
Definition takeover : World :=
  bind_world 1 8 (1, 11)
    (set_socket 0 (old_socket true Stopping) (bind_world 0 7 (1, 10) (MkWorld ∅ ∅ ∅))).

Definition after_stop : World :=
  set_socket 0 (old_socket false Finished) (set_socket 0 (old_socket false Stopping) takeover).

#[local] Tactic Notation "lookup" := vm_compute; reflexivity.

(** The step of a server to its next stage. *)
Ltac next_step := eapply sockets_step; [|exact I|].

Lemma first_server_reachable (ok : World -> socket_event -> Prop) :
  (forall e, ok (MkWorld ∅ ∅ ∅) e) -> (forall w, ok w OtherStep) ->
  socket_reachable ok ∅ (set_socket 0 (old_socket true Stopping) (bind_world 0 7 (1, 10) (MkWorld ∅ ∅ ∅))).
Proof.
  intros H0 H1. eapply sockets_step; [eapply sockets_step; [constructor|apply H0|]|apply H1|].
  - apply bind_world_step; [done|lookup| |lookup]. split; apply map_Forall_empty.
  - apply (socket_stop (bind_world 0 7 (1, 10) (MkWorld ∅ ∅ ∅)) 0 (old_socket true Running)); lookup.
Qed.

Lemma takeover_reachable ok :
  (forall e, ok (MkWorld ∅ ∅ ∅) e) -> (forall w, ok w OtherStep) ->
  ok (set_socket 0 (old_socket true Stopping) (bind_world 0 7 (1, 10) (MkWorld ∅ ∅ ∅)))
    (TakesOver (bs "/s")) ->
  socket_reachable ok ∅ takeover.
Proof.
  intros H0 H1 H2. eapply sockets_step; [by apply first_server_reachable|exact H2|].
  apply bind_world_step; [lookup|lookup| |lookup].
  split; apply (bool_decide_unpack _); vm_compute; exact I.
Qed.

Lemma after_stop_reachable : socket_reachable no_overlap ∅ after_stop.
Proof.
  apply (sockets_step _ _ (set_socket 0 (old_socket false Stopping) takeover) OtherStep); [|exact I|].
  - apply (sockets_step _ _ takeover OtherStep); [|exact I|].
    + apply takeover_reachable; [intros []; [apply map_Forall_empty|exact I]|intros w; exact I|].
      apply (bool_decide_unpack _). vm_compute. exact I.
    + by apply (socket_close takeover 0 (old_socket true Stopping)); [lookup|].
  - exact (socket_compare (set_socket 0 (old_socket false Stopping) takeover) 0 (old_socket false Stopping)
             eq_refl eq_refl).
Qed.

Lemma latest_server_reachable_witness : w_files after_stop !! bs "/s" = Some (1, 11).
Proof.
  apply (latest_server_reachable ∅ after_stop (bs "/s") 1
           (MkSocket (bs "/s") (1, 11) (Some (1, 11)) true Running));
    [apply after_stop_reachable | vm_compute; reflexivity | vm_compute; reflexivity | left; reflexivity].
Defined.

(** ** Takeovers that overlap the end of a [stop] *)

(** A world in which a server is running that cannot be reached. *)
Definition unreachable_server (w : World) : Prop :=
  exists g k, w_latest w !! bs "/s" = Some g /\ w_sockets w !! g = Some k /\
    sk_stage k = Running /\ w_files w !! bs "/s" = None.

(** Between the comparison and the removal: the file of the new server is removed. *)
Theorem overlap_removes_replacement :
  exists w, socket_reachable (fun _ _ => True) ∅ w /\ unreachable_server w.
Proof.
  set (w0 := set_socket 0 (old_socket true Stopping) (bind_world 0 7 (1, 10) (MkWorld ∅ ∅ ∅))).
  set (w1 := set_socket 0 (old_socket true Removing) w0).
  set (w2 := bind_world 1 8 (1, 11) w1).
  set (w3 := set_files (remove_file (bs "/s") true (w_files w2))
               (set_socket 0 (old_socket true Finished) w2)).
  exists w3. split.
  - next_step; [next_step; [next_step; [by apply first_server_reachable|]|]|].
    + exact (socket_compare w0 0 (old_socket true Stopping) eq_refl eq_refl).
    + apply (bind_world_step 1 8 (1, 11) w1); [lookup|lookup| |lookup].
      split; apply (bool_decide_unpack _); vm_compute; exact I.
    + exact (socket_remove w2 0 (old_socket true Removing) true eq_refl eq_refl).
  - exists 1%nat, (MkSocket (bs "/s") (1, 11) (Some (1, 11)) true Running). split_and!; lookup.
Qed.

(** After the listener is closed and before the comparison: the identity of the old
    server's file is free again, and a third server's file that has it is taken for
    the old one. *)
Theorem overlap_reuses_identity :
  exists w, socket_reachable (fun _ _ => True) ∅ w /\ unreachable_server w.
Proof.
  set (w1 := set_socket 0 (old_socket false Stopping) takeover).
  set (w2 := bind_world 2 9 (1, 10) w1).
  set (w3 := set_socket 0 (old_socket false Removing) w2).
  set (w4 := set_files (remove_file (bs "/s") true (w_files w3))
               (set_socket 0 (old_socket false Finished) w3)).
  exists w4. split.
  - next_step; [next_step; [next_step; [next_step; [by apply takeover_reachable|]|]|]|].
    + by apply (socket_close takeover 0 (old_socket true Stopping)); [lookup|].
    + apply (bind_world_step 2 9 (1, 10) w1); [lookup|lookup| |lookup].
      split; apply (bool_decide_unpack _); vm_compute; exact I.
    + exact (socket_compare w2 0 (old_socket false Stopping) eq_refl eq_refl).
    + exact (socket_remove w3 0 (old_socket false Removing) true eq_refl eq_refl).
  - exists 2%nat, (MkSocket (bs "/s") (1, 10) (Some (1, 10)) true Running). split_and!; lookup.
Qed.
