(* ===== verification/Delivery.v ===== *)
(** * Handing messages to the workers

    [Dispatcher::deliver] and one turn of [deliver_stream_messages] of
    [syslog.rs]: a message is queued for the workers and its verdict awaited; a
    refused stream message is offered again after a growing delay. *)
From S2P Require Import Prelude Utf8 Decimal Http Framing Response Syslog HandleRequest.

Local Open Scope Z_scope.

Inductive DeliveryOutcome : Type :=
| DeliveryAccepted
| DeliveryRefused
| Unavailable.

#[export] Instance DeliveryOutcome_eq_dec : EqDecision DeliveryOutcome.
Proof. solve_decision. Defined.

(** The message a worker sees of a pending one. *)
Definition delivery_for (p : PendingMessage) (attempt : Z) : SyslogMessage :=
  MkSyslogMessage (p_message p) (p_utf8 p) (p_peer p) (p_transport p) (p_received_at_ns p)
    (p_message_id p) attempt.

(** The loop that queues a delivery: whether it was queued, [None] while the
    queue has been full at every attempt so far. *)
Fixpoint queue_delivery (sends : list TrySend) : option bool :=
  match sends with
  | [] => None
  | SendOk :: _ => Some true
  | SendFull :: sends' => queue_delivery sends'
  | SendDisconnected :: _ => Some false
  end.

(** [result]: what comes back on the oneshot channel, [None] if it was dropped. *)
Definition deliver (sends : list TrySend) (result : option HandlerResult)
    (counters : SyslogCounters) : option (DeliveryOutcome * SyslogCounters) :=
  match queue_delivery sends with
  | None => None
  | Some false => Some (Unavailable, counters)
  | Some true =>
      Some match result with
           | Some Accepted => (DeliveryAccepted, fetch_add messages_delivered 1 counters)
           | Some Refused => (DeliveryRefused, fetch_add deliveries_refused 1 counters)
           | Some Failed => (DeliveryRefused, fetch_add handler_errors 1 counters)
           | None => (Unavailable, counters)
           end
  end.

Section retry.
Context `{Profile}.

(** The delivery task of a connection: waiting for a message, with one in hand
    at some attempt, sleeping before the next, or ended. *)
Inductive Task : Type :=
| TaskRecv
| TaskDelivering (p : PendingMessage) (attempt delay : Z)
| TaskBackoff (p : PendingMessage) (attempt delay : Z)
| TaskDone.

(** [delay = (delay * 2).min(MAX_REFUSAL_DELAY)]. *)
Definition next_delay (delay : Z) : Z := Z.min (delay * 2) MAX_REFUSAL_DELAY.

(** What the task makes of an outcome: its next state, [workers_gone], and the
    counters. *)
Definition task_after (outcome : DeliveryOutcome) (cancelled : bool)
    (p : PendingMessage) (attempt delay : Z) (gone : bool) (counters : SyslogCounters)
    : Task * bool * SyslogCounters :=
  match outcome with
  | DeliveryAccepted => (TaskRecv, gone, release_pending counters)
  | DeliveryRefused =>
      if cancelled then (TaskRecv, gone, abandon_pending counters)
      else (TaskBackoff p attempt delay, gone, counters)
  | Unavailable => (TaskRecv, true, abandon_pending counters)
  end.

(** After the sleep. *)
Definition retry (p : PendingMessage) (attempt delay : Z) : outcome Task :=
  let* attempt := u32_add attempt 1 in
  Ret (TaskDelivering p attempt (next_delay delay)).

(** A message taken from the channel. *)
Definition first_attempt (p : PendingMessage) : Task :=
  TaskDelivering p 1 MIN_REFUSAL_DELAY.

(** ** Properties of the retries *)

(** The state of a message after [k] refusals. *)
Fixpoint after_refusals (k : nat) (p : PendingMessage) : outcome Task :=
  match k with
  | O => Ret (first_attempt p)
  | S k' =>
      let* t := after_refusals k' p in
      match t with
      | TaskDelivering p attempt delay => retry p attempt delay
      | t => Ret t
      end
  end.

Lemma next_delay_pow k :
  0 <= k -> next_delay (Z.min 500 (5 * 2 ^ k)) = Z.min 500 (5 * 2 ^ (k + 1)).
Proof.
  intros Hk. unfold next_delay, MAX_REFUSAL_DELAY. rewrite Z.pow_add_r by lia. lia.
Qed.

(** The retries of a refused message: the same message with its attempts
    numbered 1, 2, 3, ..., and a delay that doubles from 5 ms to at most 500 ms. *)
Theorem refusal_backoff k p :
  Z.of_nat k + 1 < 2 ^ 32 ->
  after_refusals k p =
    Ret (TaskDelivering p (Z.of_nat k + 1) (Z.min 500 (5 * 2 ^ Z.of_nat k))).
Proof.
  induction k as [|k IH]; intros Hk; [done|]. cbn [after_refusals].
  rewrite IH by lia. cbn [obind]. unfold retry, u32_add, add_wrapping.
  rewrite (proj2 (Z.ltb_lt _ _)) by lia. cbn [obind].
  rewrite next_delay_pow by lia. do 2 f_equal; [lia|]. by rewrite Nat2Z.inj_succ, Z.add_1_r.
Qed.

Lemma queue_delivery_full sends :
  queue_delivery sends = None <-> Forall (.= SendFull) sends.
Proof.
  induction sends as [|[] sends IH]; cbn; rewrite ?Forall_cons; [by split; [constructor|]|..];
    rewrite ?IH; naive_solver.
Qed.

(** A delivery ends as soon as the queue takes it and it is answered: it is
    accepted exactly when a worker accepted it, the listener gives up exactly when
    no worker can answer, and each way to end moves its own counter and no other. *)
Theorem deliver_outcome sends verdict counters :
  Exists (fun sent => sent <> SendFull) sends ->
  exists out counters', deliver sends verdict counters = Some (out, counters') /\
    (out = Unavailable <-> queue_delivery sends = Some false \/ verdict = None) /\
    (out = DeliveryAccepted <-> queue_delivery sends = Some true /\ verdict = Some Accepted) /\
    forall c, counters' c =
      if decide (queue_delivery sends = Some true /\
                 ((c = messages_delivered /\ verdict = Some Accepted) \/
                  (c = deliveries_refused /\ verdict = Some Refused) \/
                  (c = handler_errors /\ verdict = Some Failed)))
      then u64_fetch_add (counters c) 1 else counters c.
Proof.
  intros Hs. unfold deliver. destruct (queue_delivery sends) as [[]|] eqn:Hq; cycle 2.
  { apply queue_delivery_full in Hq. apply Exists_exists in Hs as (x & Hx & Hn).
    rewrite Forall_forall in Hq. by apply Hq in Hx. }
  - destruct verdict as [[]|]; (eexists _, _; split; [done|]; split_and!; [naive_solver..|]);
      intros c; unfold fetch_add, store; repeat case_decide; subst; try done; naive_solver.
  - eexists _, _. split; [done|]. split_and!; [naive_solver..|]. intros c.
    rewrite decide_False by naive_solver. done.
Qed.
End retry.

(** ** Witnesses *)

Definition a_message : PendingMessage := MkPendingMessage (bs "<13>x") true None Stream 0 1.

(** The eighth attempt is the first at the longest delay. *)
Lemma refusal_backoff_witness :
  after_refusals (H := release) 7 a_message = Ret (TaskDelivering a_message 8 500).
Proof. apply (refusal_backoff (H := release) 7 a_message). reflexivity. Defined.

Lemma deliver_outcome_witness :
  let sends := [SendFull; SendOk] in
  exists out counters', deliver sends (Some Failed) SyslogCounters_default = Some (out, counters') /\
    (out = Unavailable <-> queue_delivery sends = Some false \/ Some Failed = None) /\
    (out = DeliveryAccepted <-> queue_delivery sends = Some true /\ Some Failed = Some Accepted) /\
    forall c, counters' c =
      if decide (queue_delivery sends = Some true /\
                 ((c = messages_delivered /\ Some Failed = Some Accepted) \/
                  (c = deliveries_refused /\ Some Failed = Some Refused) \/
                  (c = handler_errors /\ Some Failed = Some Failed)))
      then u64_fetch_add (SyslogCounters_default c) 1 else SyslogCounters_default c.
Proof.
  intros sends. apply (deliver_outcome sends (Some Failed) SyslogCounters_default).
  apply Exists_cons_tl, Exists_cons_hd. discriminate.
Defined.
