(* ===== verification/Peer.v ===== *)
(** * Peer addresses as text

    [IpAddr::to_string] of the standard library, which is how a connection's peer,
    a PROXY header's source and a datagram's sender become the [peer_ip] of a
    message. *)
From S2P Require Import Prelude Decimal Proxy.

Local Open Scope Z_scope.

Definition hex_digit (z : Z) : byte :=
  if z <? 10 then z2b (0x30 + z) else z2b (0x61 + (z - 10)).

(** [{:x}] of a [u16]. *)
Definition to_hex (z : Z) : bytes :=
  if z <? 0x10 then [hex_digit z]
  else if z <? 0x100 then [hex_digit (z / 0x10); hex_digit (z mod 0x10)]
  else if z <? 0x1000 then
    [hex_digit (z / 0x100); hex_digit (z / 0x10 mod 0x10); hex_digit (z mod 0x10)]
  else [hex_digit (z / 0x1000); hex_digit (z / 0x100 mod 0x10);
        hex_digit (z / 0x10 mod 0x10); hex_digit (z mod 0x10)].

Fixpoint join (sep : bytes) (parts : list bytes) : bytes :=
  match parts with
  | [] => []
  | [p] => p
  | p :: parts' => p ++ sep ++ join sep parts'
  end.

Definition ipv4_to_string (octets : bytes) : bytes :=
  join (bs ".") ((fun b => to_string (b2z b)) <$> octets).

(** Big-endian pairs of octets. *)
Fixpoint segments (octets : bytes) : list Z :=
  match octets with
  | hi :: lo :: octets' => u16_from_be_bytes hi lo :: segments octets'
  | _ => []
  end.

(** The first longest run of zero segments, as its start and length. *)
Fixpoint longest_zeroes (i : nat) (segs : list Z) (longest current : nat * nat) : nat * nat :=
  match segs with
  | [] => longest
  | segment :: segs' =>
      if segment =? 0 then
        let current := (if decide (current.2 = 0%nat) then i else current.1, S current.2) in
        let longest := if decide (longest.2 < current.2)%nat then current else longest in
        longest_zeroes (S i) segs' longest current
      else longest_zeroes (S i) segs' longest (0%nat, 0%nat)
  end.

Definition fmt_subslice (chunk : list Z) : bytes := join (bs ":") (to_hex <$> chunk).

Definition ipv6_to_string (octets : bytes) : bytes :=
  if decide (take 12 octets = replicate 10 (z2b 0) ++ [z2b 0xff; z2b 0xff])
  then bs "::ffff:" ++ ipv4_to_string (drop 12 octets)
  else
    let segs := segments octets in
    let '(start, len) := longest_zeroes 0 segs (0%nat, 0%nat) (0%nat, 0%nat) in
    if decide (1 < len)%nat
    then fmt_subslice (take start segs) ++ bs "::" ++ fmt_subslice (drop (start + len) segs)
    else fmt_subslice segs.

Definition IpAddr_to_string (a : IpAddr) : bytes :=
  match a with
  | V4 octets => ipv4_to_string octets
  | V6 octets => ipv6_to_string octets
  end.

Example show_v4 : IpAddr_to_string (V4 (z2b <$> [192; 0; 2; 7])) = bs "192.0.2.7".
Proof. reflexivity. Qed.

Example show_v6 :
  IpAddr_to_string (V6 (z2b <$> [0x20; 0x01; 0x0d; 0xb8; 0; 0; 0; 0; 0; 0; 0; 0; 0; 0; 0; 1]))
  = bs "2001:db8::1".
Proof. reflexivity. Qed.
