(* ===== verification/System.v ===== *)
(** * The syslog listeners as a concurrent system

    The tasks of [syslog.rs] - the accept loops, the reader and the delivery task
    of each connection, the datagram listener and a task per datagram - share the
    semaphore, the counters, the number of connections and the next message id.
    [step] is what one of them does from one point where it may wait to the next,
    as a function of the state and of an [event]: which task runs and what the
    network, the clock and the workers answer it.  [None] means that the task
    cannot run now; [Panic] that it panics. *)
From S2P Require Import Prelude Utf8 Decimal LinesCodec Framing FramingSpec FramingStream.
From S2P Require Import FramingProps Proxy Peer Http Response Syslog HandleRequest Delivery.

Local Open Scope Z_scope.

(** Why a connection gave up before its PROXY header was complete. *)
Inductive ProxyFailure : Type :=
| HeaderFailure (e : ProxyError)
| ReadFailure (reason : string).

Definition ProxyFailure_as_str (f : ProxyFailure) : string :=
  match f with
  | HeaderFailure e => ProxyError_as_str e
  | ReadFailure reason => reason
  end.

Definition ProxyFailure_record (f : ProxyFailure) (counters : SyslogCounters) : SyslogCounters :=
  match f with
  | HeaderFailure _ => fetch_add proxy_header_errors 1 counters
  | ReadFailure _ => fetch_add proxy_read_errors 1 counters
  end.

(** [StreamListener]: a Unix socket names no peer. *)
Inductive StreamListener : Type :=
| UnixStream
| TcpStream.

Definition stream_peer (l : StreamListener) (address : IpAddr) : option bytes :=
  match l with
  | UnixStream => None
  | TcpStream => Some (IpAddr_to_string address)
  end.

(** [stream.read_buf]: some bytes, the end of the stream (no bytes), or an error. *)
Inductive ReadResult : Type :=
| ReadBytes (data : bytes)
| ReadError.

(** Where the reader of a connection is. *)
Inductive Reader : Type :=
| Starting                                         (** spawned, not yet running *)
| ProxyParsing                                     (** about to parse the header *)
| ProxyReading                                     (** waiting for more of it *)
| Decoding                                         (** about to call the framer *)
| WantPermit (message : bytes) (received_at : Z)   (** [credits.acquire_owned()] *)
| WantSlot (p : PendingMessage)                    (** [pending_tx.send()] *)
| Reading                                          (** the [select!] *)
| ReaderDone.                                      (** out of the loop, sender dropped *)

#[export] Instance Reader_eq_dec : EqDecision Reader.
Proof. solve_decision. Defined.

(** Where an accept loop is: between [fetch_add] and [fetch_sub] it is refusing. *)
Inductive ListenerTask : Type :=
| Accepting (l : StreamListener)
| Refusing (l : StreamListener).

(** What a start finds: the counters and [NEXT_MESSAGE_ID]. *)
Record Boot : Type := MkBoot {
  b_counters : SyslogCounters;
  b_next_message_id : Z;
}.

(** The first start of a process. *)
Definition first_boot : Boot := MkBoot SyslogCounters_default 1.

Section system.
Context `{Profile} {C : Type} `{!LinesCodec C} `{Tokio}.

Record Conn : Type := MkConn {
  c_reader : Reader;
  c_framer : Framer C;
  c_buffer : bytes;
  c_eof : bool;
  c_peer : option bytes;
  c_chan : list PendingMessage;
  c_task : Task;
  c_workers_gone : bool;
}.

Record Sys : Type := MkSys {
  s_counters : SyslogCounters;
  s_credits : Z;
  s_connections : Z;
  s_next_message_id : Z;
  s_cancelled : bool;
  s_listeners : gmap nat ListenerTask;
  s_udp : bool;
  s_conns : gmap nat Conn;
  s_datagrams : gmap nat PendingMessage;
}.

Inductive event : Type :=
| EAccept (l : nat) (c : nat) (address : IpAddr)
| EAcceptError (l : nat)
| ERefused (l : nat)
| EListenerStop (l : nat)
| EStart (c : nat)
| EProxyParse (c : nat)
| EProxyRead (c : nat) (r : ReadResult)
| EProxyTimeout (c : nat)
| EDecode (c : nat) (now : Z)
| EPermit (c : nat)
| ESend (c : nat)
| ERead (c : nat) (r : ReadResult)
| EIdle (c : nat)
| EReadsStop (c : nat)
| ERecv (c : nat)
| EDelivered (c : nat) (sends : list TrySend) (verdict : option HandlerResult)
| ERetry (c : nat)
| EClose (c : nat)
| EDatagram (d : nat) (datagram : bytes) (peer : IpAddr) (now : Z)
| EDatagramError
| EDatagramDelivered (d : nat) (sends : list TrySend) (verdict : option HandlerResult)
| EUdpStop
| EStopAccepting
| EDrainTimeout.

(** What a step lets be seen: connections opened, what is read on them (no bytes
    are the end of the stream), messages framed, offered, resolved
    or dropped unframed, and a drain that gave up. *)
Inductive obs : Type :=
| Opened (c : nat)
| BytesRead (c : nat) (data : bytes)
| Framed (c : nat) (p : PendingMessage)
| Offered (c : nat) (m : SyslogMessage) (out : DeliveryOutcome)
| Resolved (c : nat) (p : PendingMessage)
| DatagramFramed (d : nat) (p : PendingMessage)
| DatagramResolved (d : nat) (p : PendingMessage)
| DatagramDropped
| Drained.

(** ** Updates *)

Definition set_counters (k : SyslogCounters) (s : Sys) : Sys :=
  MkSys k (s_credits s) (s_connections s) (s_next_message_id s) (s_cancelled s)
    (s_listeners s) (s_udp s) (s_conns s) (s_datagrams s).
Definition set_credits (n : Z) (s : Sys) : Sys :=
  MkSys (s_counters s) n (s_connections s) (s_next_message_id s) (s_cancelled s)
    (s_listeners s) (s_udp s) (s_conns s) (s_datagrams s).
Definition set_connections (n : Z) (s : Sys) : Sys :=
  MkSys (s_counters s) (s_credits s) n (s_next_message_id s) (s_cancelled s)
    (s_listeners s) (s_udp s) (s_conns s) (s_datagrams s).
Definition set_next_message_id (n : Z) (s : Sys) : Sys :=
  MkSys (s_counters s) (s_credits s) (s_connections s) n (s_cancelled s)
    (s_listeners s) (s_udp s) (s_conns s) (s_datagrams s).
Definition set_cancelled (s : Sys) : Sys :=
  MkSys (s_counters s) (s_credits s) (s_connections s) (s_next_message_id s) true
    (s_listeners s) (s_udp s) (s_conns s) (s_datagrams s).
Definition set_listeners (m : gmap nat ListenerTask) (s : Sys) : Sys :=
  MkSys (s_counters s) (s_credits s) (s_connections s) (s_next_message_id s) (s_cancelled s)
    m (s_udp s) (s_conns s) (s_datagrams s).
Definition set_udp (b : bool) (s : Sys) : Sys :=
  MkSys (s_counters s) (s_credits s) (s_connections s) (s_next_message_id s) (s_cancelled s)
    (s_listeners s) b (s_conns s) (s_datagrams s).
Definition set_conns (m : gmap nat Conn) (s : Sys) : Sys :=
  MkSys (s_counters s) (s_credits s) (s_connections s) (s_next_message_id s) (s_cancelled s)
    (s_listeners s) (s_udp s) m (s_datagrams s).
Definition set_datagrams (m : gmap nat PendingMessage) (s : Sys) : Sys :=
  MkSys (s_counters s) (s_credits s) (s_connections s) (s_next_message_id s) (s_cancelled s)
    (s_listeners s) (s_udp s) (s_conns s) m.

Definition count (f : SyslogCounters -> SyslogCounters) (s : Sys) : Sys :=
  set_counters (f (s_counters s)) s.
Definition set_conn (c : nat) (k : Conn) (s : Sys) : Sys := set_conns (<[c := k]> (s_conns s)) s.

Definition set_reader (r : Reader) (k : Conn) : Conn :=
  MkConn r (c_framer k) (c_buffer k) (c_eof k) (c_peer k) (c_chan k) (c_task k) (c_workers_gone k).
Definition set_buffer (b : bytes) (k : Conn) : Conn :=
  MkConn (c_reader k) (c_framer k) b (c_eof k) (c_peer k) (c_chan k) (c_task k) (c_workers_gone k).
Definition set_framer (f : Framer C) (b : bytes) (k : Conn) : Conn :=
  MkConn (c_reader k) f b (c_eof k) (c_peer k) (c_chan k) (c_task k) (c_workers_gone k).
Definition set_eof (k : Conn) : Conn :=
  MkConn (c_reader k) (c_framer k) (c_buffer k) true (c_peer k) (c_chan k) (c_task k)
    (c_workers_gone k).
Definition set_peer (p : option bytes) (k : Conn) : Conn :=
  MkConn (c_reader k) (c_framer k) (c_buffer k) (c_eof k) p (c_chan k) (c_task k) (c_workers_gone k).
Definition set_chan (ps : list PendingMessage) (k : Conn) : Conn :=
  MkConn (c_reader k) (c_framer k) (c_buffer k) (c_eof k) (c_peer k) ps (c_task k) (c_workers_gone k).
Definition set_task (t : Task) (gone : bool) (k : Conn) : Conn :=
  MkConn (c_reader k) (c_framer k) (c_buffer k) (c_eof k) (c_peer k) (c_chan k) t gone.

(** ** The accept loops *)

(** A connection as [serve_stream] starts it; its delivery task is spawned after
    the PROXY header, and has nothing to do before. *)
Definition new_conn (config : SyslogConfig) (peer : option bytes) : Conn :=
  MkConn Starting (Framer_new (max_frame_bytes config)) [] false peer [] TaskRecv false.

(** [mpsc::channel], which panics on a capacity it does not support. *)
Definition spawn_delivery (config : SyslogConfig) (k : Conn) : outcome Conn :=
  if (1 <=? max_pending_per_connection config) && (max_pending_per_connection config <=? MAX_PERMITS)
  then Ret (set_reader Decoding k) else Panic.

Definition accept (config : SyslogConfig) (l : nat) (listener : StreamListener) (c : nat)
    (address : IpAddr) (s : Sys) : Sys * list obs :=
  let before := s_connections s in
  let s := set_connections (u64_fetch_add before 1) s in
  if max_connections config <=? before then
    (set_listeners (<[l := Refusing listener]> (s_listeners s)) s, [])
  else
    let s := count (fetch_add connections_opened 1) s in
    (set_conn c (new_conn config (stream_peer listener address)) s, [Opened c]).

Definition refused (l : nat) (listener : StreamListener) (s : Sys) : Sys :=
  let s := set_connections (u64_fetch_sub (s_connections s) 1) s in
  let s := count (fetch_add connections_refused 1) s in
  set_listeners (<[l := Accepting listener]> (s_listeners s)) s.

(** ** The reader of a connection *)

Definition close_stream (s : Sys) : Sys :=
  count (fetch_add connections_closed 1)
    (set_connections (u64_fetch_sub (s_connections s) 1) s).

(** The start of [serve_stream]. *)
Definition start_turn (config : SyslogConfig) (c : nat) (k : Conn) (s : Sys) : outcome Sys :=
  let* k := if proxy_protocol config then Ret (set_reader ProxyParsing k)
            else spawn_delivery config k in
  Ret (set_conn c k s).

(** A failed PROXY header ends the connection. *)
Definition proxy_failed (c : nat) (f : ProxyFailure) (s : Sys) : Sys :=
  close_stream (count (ProxyFailure_record f) (set_conns (delete c (s_conns s)) s)).

(** One turn of the loop of [read_proxy_header]. *)
Definition proxy_parse (config : SyslogConfig) (c : nat) (k : Conn) (s : Sys) : outcome Sys :=
  let* parsed := parse (c_buffer k) MAX_PROXY_HEADER_BYTES in
  match parsed with
  | Ok (Complete source length) =>
      let* rest := advance length (c_buffer k) in
      let peer :=
        match source with
        | Some source => Some (IpAddr_to_string source)
        | None => c_peer k
        end in
      let* k := spawn_delivery config (set_peer peer (set_buffer rest k)) in
      Ret (set_conn c k s)
  | Ok Incomplete => Ret (set_conn c (set_reader ProxyReading k) s)
  | Err e => Ret (proxy_failed c (HeaderFailure e) s)
  end.

Definition proxy_read (c : nat) (k : Conn) (r : ReadResult) (s : Sys) : Sys :=
  match r with
  | ReadBytes [] => proxy_failed c (ReadFailure "eof") s
  | ReadBytes data =>
      set_conn c (set_reader ProxyParsing (set_buffer (c_buffer k ++ data) k)) s
  | ReadError => proxy_failed c (ReadFailure "io") s
  end.

(** One turn of the inner loop of [serve_stream]. *)
Definition decode_turn (c : nat) (k : Conn) (now : Z) (s : Sys) : outcome Sys :=
  let* (decoded, framer, buffer) := decode_at (c_eof k) (c_framer k) (c_buffer k) in
  let k := set_framer framer buffer k in
  match decoded with
  | Ok (Some message) => Ret (set_conn c (set_reader (WantPermit message now) k) s)
  | Ok None =>
      Ret (set_conn c (set_reader (if c_eof k then ReaderDone else Reading) k) s)
  | Err error =>
      let s := count (record_rejection (reason error)) s in
      Ret (set_conn c (set_reader (if fatal error then ReaderDone else Decoding) k) s)
  end.

(** A permit is there: the message gets its identity and counts as pending. *)
Definition permit_granted (c : nat) (k : Conn) (message : bytes) (received_at : Z) (s : Sys)
    : Sys * PendingMessage :=
  let s := set_credits (s_credits s - 1) s in
  let p := MkPendingMessage message true (c_peer k) Stream received_at (s_next_message_id s) in
  let s := set_next_message_id (u64_fetch_add (s_next_message_id s) 1) s in
  let s := count (fetch_add pending 1) s in
  (set_conn c (set_reader (WantSlot p) k) s, p).

(** The delivery task has gone, and the receiver with it. *)
Definition send_failed (c : nat) (k : Conn) (p : PendingMessage) (s : Sys) : Sys * list obs :=
  (set_credits (s_credits s + 1)
     (count abandon_pending (set_conn c (set_reader ReaderDone k) s)), [Resolved c p]).

Definition read_turn (c : nat) (k : Conn) (r : ReadResult) (s : Sys) : Sys :=
  match r with
  | ReadBytes [] => set_conn c (set_reader Decoding (set_eof k)) s
  | ReadBytes data => set_conn c (set_reader Decoding (set_buffer (c_buffer k ++ data) k)) s
  | ReadError => set_conn c (set_reader ReaderDone k) s
  end.

(** ** The delivery task of a connection *)

(** The permit of a message is released when the message is dropped. *)
Definition drop_permit (s : Sys) : Sys := set_credits (s_credits s + 1) s.

(** [pending_rx.recv()]: [None] when the channel is empty and still open. *)
Definition recv_turn (c : nat) (k : Conn) (s : Sys) : option (Sys * list obs) :=
  match c_chan k with
  | p :: rest =>
      let k := set_chan rest k in
      if c_workers_gone k then
        Some (drop_permit (count abandon_pending (set_conn c k s)), [Resolved c p])
      else Some (set_conn c (set_task (first_attempt p) false k) s, [])
  | [] =>
      match c_reader k with
      | ReaderDone => Some (set_conn c (set_task TaskDone (c_workers_gone k) k) s, [])
      | _ => None
      end
  end.

Definition delivered_turn (c : nat) (k : Conn) (p : PendingMessage) (attempt delay : Z)
    (sends : list TrySend) (verdict : option HandlerResult) (s : Sys)
    : option (Sys * list obs) :=
  '(out, counters) ← deliver sends verdict (s_counters s);
  let '(t, gone, counters) :=
    task_after out (s_cancelled s) p attempt delay (c_workers_gone k) counters in
  let s := set_conn c (set_task t gone k) (set_counters counters s) in
  let offered := Offered c (delivery_for p attempt) out in
  Some match t with
       | TaskBackoff _ _ _ => (s, [offered])
       | _ => (drop_permit s, [offered; Resolved c p])
       end.

(** ** The datagram listener *)

(** [recv_from] into the buffer: a longer datagram loses its end. *)
Definition received_bytes (config : SyslogConfig) (datagram : bytes) : bytes :=
  take (Z.to_nat (udp_max_datagram_bytes config)) datagram.

Definition datagram_turn (config : SyslogConfig) (d : nat) (datagram : bytes) (peer : IpAddr)
    (now : Z) (s : Sys) : Sys * list obs :=
  let received := received_bytes config datagram in
  if zlen received =? udp_max_datagram_bytes config then
    (count (fetch_add udp_truncated 1) s, [])
  else if 0 <? s_credits s then
    let s := set_credits (s_credits s - 1) s in
    let p := MkPendingMessage received false (Some (IpAddr_to_string peer)) Datagram now
               (s_next_message_id s) in
    let s := set_next_message_id (u64_fetch_add (s_next_message_id s) 1) s in
    let s := count (fetch_add pending 1) s in
    (set_datagrams (<[d := p]> (s_datagrams s)) s, [DatagramFramed d p])
  else (count (fetch_add udp_dropped 1) s, [DatagramDropped]).

(** A refusal drops the message. *)
Definition datagram_delivered (d : nat) (p : PendingMessage) (sends : list TrySend)
    (verdict : option HandlerResult) (s : Sys) : option (Sys * list obs) :=
  '(out, counters) ← deliver sends verdict (s_counters s);
  let counters :=
    match out with
    | DeliveryAccepted => counters
    | DeliveryRefused | Unavailable => fetch_add udp_dropped 1 counters
    end in
  let s := set_counters (release_pending counters) s in
  Some (drop_permit (set_datagrams (delete d (s_datagrams s)) s), [DatagramResolved d p]).

(** ** Shutdown *)

Definition stop_accepting (s : Sys) : Sys := set_cancelled s.

(** [drain] after its timeout. *)
Definition drain_timeout (s : Sys) : Sys :=
  let abandoned := s_counters s pending in
  count (fetch_add abandoned_at_shutdown abandoned) (count (store pending 0) s).

(** ** Steps *)

(** An answer of a task that may not be able to run. *)
Definition when (b : bool) (x : outcome (Sys * list obs)) : outcome (option (Sys * list obs)) :=
  if b then let* r := x in Ret (Some r) else Ret None.

Definition quiet (x : outcome Sys) : outcome (Sys * list obs) := let* s := x in Ret (s, []).

(** A reader that waits for data of a buffer that still fits an address space. *)
Definition fits (k : Conn) (r : ReadResult) : bool :=
  match r with
  | ReadBytes data => zlen (c_buffer k) + zlen data <=? usize_max
  | ReadError => true
  end.

Definition read_obs (c : nat) (r : ReadResult) : list obs :=
  match r with
  | ReadBytes data => [BytesRead c data]
  | ReadError => []
  end.

Definition conn_step (config : SyslogConfig) (c : nat) (k : Conn) (e : event) (s : Sys)
    : outcome (option (Sys * list obs)) :=
  match e, c_reader k, c_task k with
  | EStart _, Starting, _ => when true (quiet (start_turn config c k s))
  | EProxyParse _, ProxyParsing, _ => when true (quiet (proxy_parse config c k s))
  | EProxyRead _ r, ProxyReading, _ => when (fits k r) (Ret (proxy_read c k r s, read_obs c r))
  | EProxyTimeout _, ProxyReading, _ =>
      when true (quiet (Ret (proxy_failed c (ReadFailure "timeout") s)))
  | EDecode _ now, Decoding, _ => when true (quiet (decode_turn c k now s))
  | EPermit _, WantPermit message received_at, _ =>
      let '(s', p) := permit_granted c k message received_at s in
      when (0 <? s_credits s) (Ret (s', [Framed c p]))
  | ESend _, WantSlot p, TaskDone => when true (Ret (send_failed c k p s))
  | ESend _, WantSlot p, _ =>
      when (zlen (c_chan k) <? max_pending_per_connection config)
        (quiet (Ret (set_conn c (set_reader Decoding (set_chan (c_chan k ++ [p]) k)) s)))
  | ERead _ r, Reading, _ => when (fits k r) (Ret (read_turn c k r s, read_obs c r))
  | EIdle _, Reading, _ =>
      when (0 <? idle_timeout config) (quiet (Ret (set_conn c (set_reader ReaderDone k) s)))
  | EReadsStop _, Reading, _ =>
      when (s_cancelled s) (quiet (Ret (set_conn c (set_reader ReaderDone k) s)))
  | ERecv _, _, TaskRecv => Ret (recv_turn c k s)
  | EDelivered _ sends verdict, _, TaskDelivering p attempt delay =>
      Ret (delivered_turn c k p attempt delay sends verdict s)
  | ERetry _, _, TaskBackoff p attempt delay =>
      when true (quiet (let* t := retry p attempt delay in
                        Ret (set_conn c (set_task t (c_workers_gone k) k) s)))
  | EClose _, ReaderDone, TaskDone =>
      when true (quiet (Ret (close_stream (set_conns (delete c (s_conns s)) s))))
  | _, _, _ => Ret None
  end.

(** The connection an event is about. *)
Definition event_conn (e : event) : option nat :=
  match e with
  | EStart c | EProxyParse c | EProxyRead c _ | EProxyTimeout c | EDecode c _ | EPermit c | ESend c
  | ERead c _ | EIdle c | EReadsStop c | ERecv c | EDelivered c _ _ | ERetry c | EClose c => Some c
  | _ => None
  end.

Definition listener_step (config : SyslogConfig) (l : nat) (t : ListenerTask) (e : event) (s : Sys)
    : outcome (option (Sys * list obs)) :=
  match e, t with
  | EAccept _ c address, Accepting listener =>
      when (negb (is_some (s_conns s !! c))) (Ret (accept config l listener c address s))
  | EAcceptError _, Accepting _ => when true (quiet (Ret s))
  | ERefused _, Refusing listener => when true (quiet (Ret (refused l listener s)))
  | EListenerStop _, Accepting _ =>
      when (s_cancelled s) (quiet (Ret (set_listeners (delete l (s_listeners s)) s)))
  | _, _ => Ret None
  end.

Definition event_listener (e : event) : option nat :=
  match e with
  | EAccept l _ _ | EAcceptError l | ERefused l | EListenerStop l => Some l
  | _ => None
  end.

Definition other_step (config : SyslogConfig) (e : event) (s : Sys)
    : outcome (option (Sys * list obs)) :=
  match e with
  | EDatagram d datagram peer now =>
      when (s_udp s && negb (is_some (s_datagrams s !! d)))
        (Ret (datagram_turn config d datagram peer now s))
  | EDatagramError => when (s_udp s) (Ret (s, []))
  | EDatagramDelivered d sends verdict =>
      match s_datagrams s !! d with
      | Some p => Ret (datagram_delivered d p sends verdict s)
      | None => Ret None
      end
  | EUdpStop => when (s_udp s && s_cancelled s) (Ret (set_udp false s, []))
  | EStopAccepting => when true (Ret (stop_accepting s, []))
  | EDrainTimeout => when (s_cancelled s) (Ret (drain_timeout s, [Drained]))
  | _ => Ret None
  end.

Definition step (config : SyslogConfig) (e : event) (s : Sys)
    : outcome (option (Sys * list obs)) :=
  match event_conn e, event_listener e with
  | Some c, _ =>
      match s_conns s !! c with
      | Some k => conn_step config c k e s
      | None => Ret None
      end
  | None, Some l =>
      match s_listeners s !! l with
      | Some t => listener_step config l t e s
      | None => Ret None
      end
  | None, None => other_step config e s
  end.

(** ** Executions *)

(** [start_listeners], once every socket is bound.  The counters are the server
    object's and the message identities the process's: both go on from where the
    last start left them. *)
Definition init (boot : Boot) (config : SyslogConfig) : Sys := {|
  s_counters := b_counters boot;
  s_credits := max_pending config;
  s_connections := 0;
  s_next_message_id := b_next_message_id boot;
  s_cancelled := false;
  s_listeners :=
    (if stream_path config then <[0%nat := Accepting UnixStream]> else id)
      ((if stream_bind config then <[1%nat := Accepting TcpStream]> else id) ∅);
  s_udp := is_some (udp_bind config);
  s_conns := ∅;
  s_datagrams := ∅;
|}.

Inductive reachable (boot : Boot) (config : SyslogConfig) : list obs -> Sys -> Prop :=
| reachable_init : reachable boot config [] (init boot config)
| reachable_step tr s e s' o :
    reachable boot config tr s -> step config e s = Ret (Some (s', o)) ->
    reachable boot config (tr ++ o) s'.

(** Run a list of events. *)
Fixpoint run (config : SyslogConfig) (es : list event) (s : Sys) : option (Sys * list obs) :=
  match es with
  | [] => Some (s, [])
  | e :: es' =>
      match step config e s with
      | Ret (Some (s1, o1)) => '(s2, o2) ← run config es' s1; Some (s2, o1 ++ o2)
      | _ => None
      end
  end.
End system.
Arguments Conn C : clear implicits.
Arguments Sys C : clear implicits.
