(* ===== verification/SystemRules.v ===== *)
(** * The steps of the listeners as rules

    [istep] lists what the tasks of [System] can do to the state, a rule per
    effect, and [step_istep] shows that every step is an instance of a rule:
    invariants are proved by cases on the rules. *)
From S2P Require Import Prelude Utf8 Decimal LinesCodec Framing FramingSpec FramingStream.
From S2P Require Import FramingProps Proxy Peer Http Response Syslog HandleRequest Delivery.
From S2P Require Import System.

Local Open Scope Z_scope.

Section rules.
Context `{Profile} {C : Type} `{!LinesCodec C} `{Tokio}.
Implicit Types (k : Conn C) (s : Sys C).

(** The messages a connection holds permits for, oldest first. *)
Definition in_hand (t : Task) : list PendingMessage :=
  match t with
  | TaskDelivering p _ _ | TaskBackoff p _ _ => [p]
  | TaskRecv | TaskDone => []
  end.

Definition in_slot (r : Reader) : list PendingMessage :=
  match r with
  | WantSlot p => [p]
  | _ => []
  end.

Definition pipeline k : list PendingMessage :=
  in_hand (c_task k) ++ c_chan k ++ in_slot (c_reader k).

(** What a connection does by itself, and the bytes it reads when it does; none are
    the end of the stream. *)
Inductive conn_local (config : SyslogConfig) k : option bytes -> Conn C -> Prop :=
| l_start :
    c_reader k = Starting -> proxy_protocol config = true ->
    conn_local config k None (set_reader ProxyParsing k)
| l_spawn :
    c_reader k = Starting -> proxy_protocol config = false ->
    conn_local config k None (set_reader Decoding k)
| l_proxy_done source len rest :
    c_reader k = ProxyParsing ->
    parse (c_buffer k) MAX_PROXY_HEADER_BYTES = Ret (Ok (Complete source len)) ->
    advance len (c_buffer k) = Ret rest ->
    conn_local config k None (set_reader Decoding
      (set_peer match source with
                | Some a => Some (IpAddr_to_string a)
                | None => c_peer k
                end (set_buffer rest k)))
| l_proxy_more :
    c_reader k = ProxyParsing ->
    parse (c_buffer k) MAX_PROXY_HEADER_BYTES = Ret (Ok Incomplete) ->
    conn_local config k None (set_reader ProxyReading k)
| l_proxy_read data :
    c_reader k = ProxyReading -> data <> [] -> fits k (ReadBytes data) = true ->
    conn_local config k (Some data) (set_reader ProxyParsing (set_buffer (c_buffer k ++ data) k))
| l_message message now framer buffer :
    c_reader k = Decoding ->
    decode_at (c_eof k) (c_framer k) (c_buffer k) = Ret (Ok (Some message), framer, buffer) ->
    conn_local config k None (set_reader (WantPermit message now) (set_framer framer buffer k))
| l_drained framer buffer :
    c_reader k = Decoding ->
    decode_at (c_eof k) (c_framer k) (c_buffer k) = Ret (Ok None, framer, buffer) ->
    conn_local config k None
      (set_reader (if c_eof k then ReaderDone else Reading) (set_framer framer buffer k))
| l_send p :
    c_reader k = WantSlot p -> c_task k <> TaskDone ->
    zlen (c_chan k) < max_pending_per_connection config ->
    conn_local config k None (set_reader Decoding (set_chan (c_chan k ++ [p]) k))
| l_read data :
    c_reader k = Reading -> data <> [] -> fits k (ReadBytes data) = true ->
    conn_local config k (Some data) (set_reader Decoding (set_buffer (c_buffer k ++ data) k))
| l_eof :
    c_reader k = Reading -> conn_local config k (Some []) (set_reader Decoding (set_eof k))
| l_stop :
    c_reader k = Reading -> conn_local config k None (set_reader ReaderDone k)
| l_recv p rest :
    c_task k = TaskRecv -> c_chan k = p :: rest ->
    conn_local config k None (set_task (first_attempt p) false (set_chan rest k))
| l_done :
    c_task k = TaskRecv -> c_chan k = [] -> c_reader k = ReaderDone ->
    conn_local config k None (set_task TaskDone (c_workers_gone k) k)
| l_retry p attempt delay t :
    c_task k = TaskBackoff p attempt delay -> retry p attempt delay = Ret t ->
    conn_local config k None (set_task t (c_workers_gone k) k).

Definition local_obs (c : nat) (r : option bytes) : list obs :=
  match r with
  | Some data => [BytesRead c data]
  | None => []
  end.

Inductive istep (config : SyslogConfig) s : list obs -> Sys C -> Prop :=
| i_nothing : istep config s [] s
| i_refuse l li :
    s_listeners s !! l = Some (Accepting li) -> max_connections config <= s_connections s ->
    istep config s []
      (set_listeners (<[l := Refusing li]> (s_listeners s))
        (set_connections (u64_fetch_add (s_connections s) 1) s))
| i_open l li c address :
    s_listeners s !! l = Some (Accepting li) -> s_conns s !! c = None ->
    s_connections s < max_connections config ->
    istep config s [Opened c]
      (set_conn c (new_conn config (stream_peer li address))
        (count (fetch_add connections_opened 1)
          (set_connections (u64_fetch_add (s_connections s) 1) s)))
| i_refused l li :
    s_listeners s !! l = Some (Refusing li) -> istep config s [] (refused l li s)
| i_listener_stop l li :
    s_listeners s !! l = Some (Accepting li) ->
    istep config s [] (set_listeners (delete l (s_listeners s)) s)
| i_local c k r k' :
    s_conns s !! c = Some k -> conn_local config k r k' ->
    istep config s (local_obs c r) (set_conn c k' s)
| i_proxy_failed c k r f :
    s_conns s !! c = Some k -> c_reader k = ProxyParsing \/ c_reader k = ProxyReading ->
    r = None \/ r = Some [] -> istep config s (local_obs c r) (proxy_failed c f s)
| i_rejected c k e framer buffer :
    s_conns s !! c = Some k -> c_reader k = Decoding ->
    decode_at (c_eof k) (c_framer k) (c_buffer k) = Ret (Err e, framer, buffer) ->
    istep config s []
      (set_conn c (set_reader (if fatal e then ReaderDone else Decoding)
                     (set_framer framer buffer k))
        (count (record_rejection (reason e)) s))
| i_permit c k message now :
    s_conns s !! c = Some k -> c_reader k = WantPermit message now -> 0 < s_credits s ->
    istep config s [Framed c (permit_granted c k message now s).2]
      (permit_granted c k message now s).1
| i_send_failed c k p :
    s_conns s !! c = Some k -> c_reader k = WantSlot p -> c_task k = TaskDone ->
    istep config s (send_failed c k p s).2 (send_failed c k p s).1
| i_abandoned c k p rest :
    s_conns s !! c = Some k -> c_task k = TaskRecv -> c_chan k = p :: rest ->
    c_workers_gone k = true ->
    istep config s [Resolved c p]
      (drop_permit (count abandon_pending (set_conn c (set_chan rest k) s)))
| i_backoff c k p attempt delay sends verdict counters :
    s_conns s !! c = Some k -> c_task k = TaskDelivering p attempt delay ->
    deliver sends verdict (s_counters s) = Some (DeliveryRefused, counters) ->
    istep config s [Offered c (delivery_for p attempt) DeliveryRefused]
      (set_conn c (set_task (TaskBackoff p attempt delay) (c_workers_gone k) k)
        (set_counters counters s))
| i_resolved c k p attempt delay sends verdict out counters gone counters' :
    s_conns s !! c = Some k -> c_task k = TaskDelivering p attempt delay ->
    deliver sends verdict (s_counters s) = Some (out, counters) ->
    counters' = (if decide (out = DeliveryAccepted) then release_pending counters
                 else abandon_pending counters) ->
    istep config s [Offered c (delivery_for p attempt) out; Resolved c p]
      (drop_permit (set_conn c (set_task TaskRecv gone k) (set_counters counters' s)))
| i_close c k :
    s_conns s !! c = Some k -> c_reader k = ReaderDone -> c_task k = TaskDone ->
    istep config s [] (close_stream (set_conns (delete c (s_conns s)) s))
| i_datagram d datagram peer now :
    s_datagrams s !! d = None ->
    istep config s (datagram_turn config d datagram peer now s).2
      (datagram_turn config d datagram peer now s).1
| i_datagram_delivered d p sends verdict out counters :
    s_datagrams s !! d = Some p ->
    deliver sends verdict (s_counters s) = Some (out, counters) ->
    istep config s [DatagramResolved d p]
      (drop_permit (set_datagrams (delete d (s_datagrams s))
        (set_counters (release_pending
           (if decide (out = DeliveryAccepted) then counters
            else fetch_add udp_dropped 1 counters)) s)))
| i_udp_stop : istep config s [] (set_udp false s)
| i_cancel : istep config s [] (stop_accepting s)
| i_drain : s_cancelled s = true -> istep config s [Drained] (drain_timeout s).

Lemma when_inv b (x : outcome (Sys C * list obs)) r :
  when b x = Ret (Some r) -> b = true /\ x = Ret r.
Proof. unfold when. destruct b, x; cbn; naive_solver. Qed.

Lemma quiet_inv (x : outcome (Sys C)) s o : quiet x = Ret (s, o) -> x = Ret s /\ o = [].
Proof. unfold quiet. destruct x; cbn; naive_solver. Qed.

Lemma spawn_delivery_inv config k k' :
  spawn_delivery config k = Ret k' -> k' = set_reader Decoding k.
Proof. unfold spawn_delivery. case_match; naive_solver. Qed.

Ltac whens :=
  repeat match goal with
  | Hx : when _ _ = Ret (Some _) |- _ => apply when_inv in Hx as [? Hx]
  | Hx : quiet _ = Ret (_, _) |- _ => apply quiet_inv in Hx as [Hx ->]
  end; simplify_eq/=.

Lemma listener_step_istep config l t e s s' o :
  s_listeners s !! l = Some t -> listener_step config l t e s = Ret (Some (s', o)) ->
  istep config s o s'.
Proof.
  intros Hl Hs. unfold listener_step in Hs.
  destruct e; try done; destruct t as [li|li]; try done; whens.
  - unfold accept in Hs. case_match; simplify_eq; [apply (i_refuse config s); [done|lia]|].
    apply (i_open config s l); [done| |lia]. by destruct (s_conns s !! c).
  - apply i_nothing.
  - by eapply i_refused.
  - by eapply i_listener_stop.
Qed.

Lemma other_step_istep config e s s' o :
  other_step config e s = Ret (Some (s', o)) -> istep config s o s'.
Proof.
  unfold other_step. intros Hs. destruct e; try done; whens.
  - apply andb_true_iff in H1 as [_ Hd].
    destruct (datagram_turn config d datagram peer now s) as [s1 o1] eqn:E. injection Hs as <- <-.
    pose proof (i_datagram config s d datagram peer now) as Hi. rewrite E in Hi. apply Hi.
    by destruct (s_datagrams s !! d).
  - apply i_nothing.
  - destruct (s_datagrams s !! d) as [p|] eqn:Hd; [|done]. unfold datagram_delivered in Hs.
    destruct (deliver sends verdict (s_counters s)) as [[out counters]|] eqn:E; [|done].
    cbn in Hs. injection Hs as <- <-.
    pose proof (i_datagram_delivered config s d p sends verdict out counters Hd E) as Hi.
    by destruct out.
  - apply i_udp_stop.
  - apply i_cancel.
  - by apply i_drain.
Qed.

Lemma delivered_istep config c k p attempt delay sends verdict s s' o :
  s_conns s !! c = Some k -> c_task k = TaskDelivering p attempt delay ->
  delivered_turn c k p attempt delay sends verdict s = Some (s', o) -> istep config s o s'.
Proof.
  intros Hc Ht Hs. unfold delivered_turn in Hs.
  destruct (deliver sends verdict (s_counters s)) as [[out counters]|] eqn:E; [|done].
  cbn in Hs. destruct out; cbn in Hs.
  - injection Hs as <- <-. by eapply i_resolved.
  - destruct (s_cancelled s); cbn in Hs; injection Hs as <- <-.
    + by eapply i_resolved.
    + by eapply i_backoff.
  - injection Hs as <- <-. by eapply i_resolved.
Qed.

(** A lemma per turn of a connection's tasks. *)
Section turns.
Context (config : SyslogConfig) (c : nat) (k : Conn C) (s : Sys C)
  (Hc : s_conns s !! c = Some k).

Lemma start_istep s' :
  c_reader k = Starting -> start_turn config c k s = Ret s' -> istep config s [] s'.
Proof.
  intros Hr (k' & Hk & [= <-])%obind_Ret_inv. apply (i_local _ _ _ _ None _ Hc).
  destruct (proxy_protocol config) eqn:Hp.
  - injection Hk as <-. by apply l_start.
  - apply spawn_delivery_inv in Hk as ->. by apply l_spawn.
Qed.

Lemma proxy_parse_istep s' :
  c_reader k = ProxyParsing -> proxy_parse config c k s = Ret s' -> istep config s [] s'.
Proof.
  intros Hr ([[|source len]|e] & Hp & Hs)%obind_Ret_inv.
  - injection Hs as <-. apply (i_local _ _ _ _ None _ Hc). by apply l_proxy_more.
  - apply obind_Ret_inv in Hs as (rest & Ha & Hs).
    apply obind_Ret_inv in Hs as (k' & ->%spawn_delivery_inv & [= <-]).
    apply (i_local _ _ _ _ None _ Hc). by eapply l_proxy_done.
  - injection Hs as <-. eapply (i_proxy_failed _ _ _ _ None); eauto.
Qed.

Lemma proxy_read_istep r :
  c_reader k = ProxyReading -> fits k r = true ->
  istep config s (read_obs c r) (proxy_read c k r s).
Proof.
  intros Hr Hf. destruct r as [[|b data]|]; cbn [proxy_read read_obs].
  - eapply (i_proxy_failed _ _ _ _ (Some [])); eauto.
  - apply (i_local _ _ _ _ (Some (b :: data)) _ Hc). by apply l_proxy_read.
  - eapply (i_proxy_failed _ _ _ _ None); eauto.
Qed.

Lemma decode_istep now s' :
  c_reader k = Decoding -> decode_turn c k now s = Ret s' -> istep config s [] s'.
Proof.
  intros Hr ([[[[message|]|e] framer] buffer] & Hd & Hs)%obind_Ret_inv; injection Hs as <-.
  - apply (i_local _ _ _ _ None _ Hc). by apply l_message.
  - apply (i_local _ _ _ _ None _ Hc). cbn. by apply l_drained.
  - by apply i_rejected.
Qed.

Lemma read_istep r :
  c_reader k = Reading -> fits k r = true -> istep config s (read_obs c r) (read_turn c k r s).
Proof.
  intros Hr Hf. destruct r as [[|b data]|]; cbn [read_turn read_obs].
  - apply (i_local _ _ _ _ (Some []) _ Hc). by apply l_eof.
  - apply (i_local _ _ _ _ (Some (b :: data)) _ Hc). by apply l_read.
  - apply (i_local _ _ _ _ None _ Hc). by apply l_stop.
Qed.

Lemma recv_istep s' o :
  c_task k = TaskRecv -> recv_turn c k s = Some (s', o) -> istep config s o s'.
Proof.
  intros Ht. unfold recv_turn. destruct (c_chan k) as [|p rest] eqn:Hch.
  - destruct (c_reader k) eqn:Hr; try done. intros [= <- <-].
    apply (i_local _ _ _ _ None _ Hc). by apply l_done.
  - cbn. destruct (c_workers_gone k) eqn:Hg; intros [= <- <-].
    + by eapply i_abandoned.
    + apply (i_local _ _ _ _ None _ Hc). by apply l_recv.
Qed.

Lemma retry_istep p attempt delay s' :
  c_task k = TaskBackoff p attempt delay ->
  (let* t := retry p attempt delay in
   Ret (set_conn c (set_task t (c_workers_gone k) k) s)) = Ret s' -> istep config s [] s'.
Proof.
  intros Ht (t & Hx & [= <-])%obind_Ret_inv. apply (i_local _ _ _ _ None _ Hc). by eapply l_retry.
Qed.

Lemma send_istep p :
  c_reader k = WantSlot p -> c_task k <> TaskDone ->
  (zlen (c_chan k) <? max_pending_per_connection config) = true ->
  istep config s [] (set_conn c (set_reader Decoding (set_chan (c_chan k ++ [p]) k)) s).
Proof. intros. apply (i_local _ _ _ _ None _ Hc). apply l_send; [done|done|lia]. Qed.

Lemma stop_istep :
  c_reader k = Reading -> istep config s [] (set_conn c (set_reader ReaderDone k) s).
Proof. intros. apply (i_local _ _ _ _ None _ Hc). by apply l_stop. Qed.

Lemma conn_step_istep e s' o :
  conn_step config c k e s = Ret (Some (s', o)) -> istep config s o s'.
Proof.
  intros Hs. unfold conn_step in Hs.
  destruct e; try done;
    first [ destruct (c_reader k) eqn:Hr; try done | idtac ];
    try (destruct (c_task k) eqn:Ht; try done); whens; whens;
    first [ by eapply start_istep | by eapply proxy_parse_istep | by eapply decode_istep
          | by eapply recv_istep | by eapply retry_istep | by eapply delivered_istep
          | by apply proxy_read_istep | by apply read_istep | by apply stop_istep
          | by eapply (i_proxy_failed _ _ _ _ None); eauto | by eapply i_close
          | by apply send_istep; congruence
          | by apply (i_send_failed config s c k)
          | apply (i_permit config s c k); [done|done|lia] ].
Qed.
End turns.

(** Every step of a task is an instance of a rule. *)
Lemma step_istep config e s s' o :
  step config e s = Ret (Some (s', o)) -> istep config s o s'.
Proof.
  unfold step. destruct (event_conn e) as [c|].
  - destruct (s_conns s !! c) eqn:Hc; [|done]. by apply conn_step_istep.
  - destruct (event_listener e) as [l|]; [|apply other_step_istep].
    destruct (s_listeners s !! l) eqn:Hl; [|done]. by apply listener_step_istep.
Qed.
End rules.

(** Use what a rule says of the connection it starts from. *)
Ltac conn_eqs :=
  repeat match goal with
  | E : c_reader _ = _ |- _ => rewrite E in *
  | E : c_task _ = _ |- _ => rewrite E in *
  | E : c_chan _ = _ |- _ => rewrite E in *
  | E : retry _ _ _ = Ret _ |- _ => apply obind_Ret_inv in E as (? & _ & [= <-])
  end.
