(* ===== verification/SystemInv.v ===== *)
(** * Invariants of the syslog listeners

    What holds in every state the tasks can reach: of each connection
    ([conn_ok]), of the permits and the gauge ([permits_ok]) and the connection
    counts ([conns_balanced]) they share. *)
From S2P Require Import Prelude Utf8 Decimal LinesCodec Framing FramingSpec FramingStream.
From S2P Require Import FramingProps Proxy Peer Http Response Syslog SyslogProps HandleRequest.
From S2P Require Import Delivery System SystemRules.

Local Open Scope Z_scope.

Section invariants.
Context `{Profile} {C : Type} `{!LinesCodec C, !LinesCodecSpec C} `{Tokio}.
Context (boot : Boot) (config : SyslogConfig).
Implicit Types (k : Conn C) (s : Sys C).

(** ** A connection *)

(** A message of a connection: valid text within the limit, with its peer. *)
Definition stream_message (peer : option bytes) (p : PendingMessage) : Prop :=
  p_utf8 p = true /\ utf8_text (p_message p) /\ zlen (p_message p) <= max_frame_bytes config /\
  p_transport p = Stream /\ p_peer p = peer.

(** Before its framer runs a connection has nothing to deliver. *)
Definition early (r : Reader) : Prop :=
  match r with
  | Starting | ProxyParsing | ProxyReading => True
  | _ => False
  end.

Record conn_ok k : Prop := {
  ok_chan : zlen (c_chan k) <= max_pending_per_connection config;
  ok_done : c_task k = TaskDone -> c_reader k = ReaderDone /\ c_chan k = [];
  ok_pipeline : Forall (stream_message (c_peer k)) (pipeline k);
  ok_permit : forall m t, c_reader k = WantPermit m t ->
    utf8_text m /\ zlen m <= max_frame_bytes config;
  ok_framer : c_reader k <> ReaderDone ->
    framer_wf (c_framer k) (c_buffer k) /\
    max_length (other (c_framer k)) = max_frame_bytes config /\ is_usize (zlen (c_buffer k));
  ok_early : early (c_reader k) -> pipeline k = [] /\ octet_decoding (c_framer k) = None;
}.

(** What a connection does by itself moves messages along and keeps them in order. *)
Lemma conn_local_pipeline k r k' : conn_local config k r k' -> pipeline k' = pipeline k.
Proof.
  unfold pipeline. destruct 1; conn_eqs; cbn; conn_eqs; cbn;
    rewrite ?app_nil_r, <- ?app_assoc; try done. destruct (c_eof k); cbn; by rewrite app_nil_r.
Qed.

Lemma framer_wf_none (f : Framer C) src : octet_decoding f = None -> framer_wf f src.
Proof. intros E. unfold framer_wf. by rewrite E. Qed.

Lemma decode_at_keeps eof (f : Framer C) src r f' src' :
  framer_wf f src -> is_usize (zlen src) ->
  decode_at eof f src = Ret (r, f', src') -> (forall e, r = Err e -> fatal e = false) ->
  framer_wf f' src' /\ max_length (other f') = max_length (other f) /\ is_usize (zlen src').
Proof.
  intros Hw Hs Hd Hr.
  destruct (decode_keeps_wf eof f src r f' src' [] Hw Hs Hd Hr) as (Hw' & Hm & used & ->).
  rewrite app_nil_r in Hw'. split_and!; [done..|]. unfold is_usize in *. rewrite length_app in Hs. lia.
Qed.

Lemma fits_usize k data :
  fits k (ReadBytes data) = true -> is_usize (zlen (c_buffer k ++ data)).
Proof. unfold fits, is_usize. rewrite length_app. lia. Qed.

Lemma local_chan k r k' :
  conn_local config k r k' -> conn_ok k ->
  zlen (c_chan k') <= max_pending_per_connection config.
Proof.
  intros Hl [Hch _ _ _ _ _]. destruct Hl; cbn; try done; rewrite ?length_app in *; cbn; try lia.
  conn_eqs. cbn in Hch. lia.
Qed.

Lemma local_done k r k' :
  conn_local config k r k' -> conn_ok k ->
  c_task k' = TaskDone -> c_reader k' = ReaderDone /\ c_chan k' = [].
Proof.
  intros Hl [_ Hd _ _ _ _]. destruct Hl; conn_eqs; cbn; try done;
    intros Ht; by destruct (Hd Ht).
Qed.

Lemma local_permit k r k' m t :
  conn_local config k r k' -> conn_ok k -> c_reader k' = WantPermit m t ->
  utf8_text m /\ zlen m <= max_frame_bytes config.
Proof.
  intros Hl [_ _ _ Hpm Hf _]. destruct Hl; cbn; conn_eqs; try done; try apply Hpm.
  - intros [= <- <-]. destruct Hf as (Hw & <- & Hu); [done|].
    destruct (decode_message _ _ _ _ _ _ Hw Hu H2) as (? & ? & _). done.
  - by destruct (c_eof k).
Qed.

Lemma local_early k r k' :
  conn_local config k r k' -> conn_ok k -> early (c_reader k') ->
  pipeline k' = [] /\ octet_decoding (c_framer k') = None.
Proof.
  intros Hl [_ _ _ _ _ He]. rewrite (conn_local_pipeline _ _ _ Hl).
  destruct Hl; cbn; try done; conn_eqs; try (intros _; by apply He); try exact He.
  by destruct (c_eof k).
Qed.

Lemma local_framer k r k' :
  conn_local config k r k' -> conn_ok k -> c_reader k' <> ReaderDone ->
  framer_wf (c_framer k') (c_buffer k') /\
  max_length (other (c_framer k')) = max_frame_bytes config /\ is_usize (zlen (c_buffer k')).
Proof.
  intros Hl [_ _ _ _ Hf He]. destruct Hl; cbn; conn_eqs; try exact Hf; intros Hr;
    try (by destruct Hf as (? & ? & ?)); destruct Hf as (Hw & Hm & Hu); try done.
  - destruct He as [_ He]; [done|]. split_and!; [by apply framer_wf_none|done|].
    apply advance_Ret_inv in H3 as [_ ->]. unfold is_usize in *. rewrite length_drop. lia.
  - split_and!; [by apply framer_wf_app|done|by apply fits_usize].
  - rewrite <- Hm. by eapply decode_at_keeps.
  - rewrite <- Hm. by eapply decode_at_keeps.
  - split_and!; [by apply framer_wf_app|done|by apply fits_usize].
Qed.

Lemma conn_local_ok k r k' : conn_ok k -> conn_local config k r k' -> conn_ok k'.
Proof.
  intros Hk Hl. constructor; try (by eapply local_chan); try (by eapply local_done);
    try (intros; by eapply local_permit); try (by eapply local_framer); try (by eapply local_early).
  rewrite (conn_local_pipeline _ _ _ Hl). pose proof (ok_pipeline _ Hk).
  destruct Hl; try done. destruct (ok_early _ Hk) as [-> _]; [by conn_eqs|constructor].
Qed.

(** The steps of a connection that touch shared state. *)

Lemma new_conn_ok peer : config_wf config -> conn_ok (new_conn config peer).
Proof.
  intros (_ & Hc & _ & Hm & _). constructor; cbn; try done; try lia.
  intros _. split_and!; [done|by rewrite max_length_new by lia|].
  unfold is_usize, usize_max. lia.
Qed.

Lemma rejected_ok k e framer buffer :
  conn_ok k -> c_reader k = Decoding ->
  decode_at (c_eof k) (c_framer k) (c_buffer k) = Ret (Err e, framer, buffer) ->
  conn_ok (set_reader (if fatal e then ReaderDone else Decoding) (set_framer framer buffer k)).
Proof.
  intros [Hch Hd Hpl Hpm Hf He] Hr Hdec.
  assert (Hp : pipeline (set_reader (if fatal e then ReaderDone else Decoding)
                           (set_framer framer buffer k)) = pipeline k).
  { unfold pipeline. rewrite Hr. cbn. by destruct (fatal e). }
  rewrite Hr in *. destruct Hf as (Hw & Hm & Hu); [done|]. constructor; cbn; rewrite ?Hp; try done.
  - intros Ht. by destruct (Hd Ht).
  - by destruct (fatal e).
  - destruct (fatal e) eqn:Hfat; [done|]. intros _. rewrite <- Hm.
    eapply decode_at_keeps; [exact Hw|exact Hu|exact Hdec|]. by intros ? [= <-].
  - by destruct (fatal e).
Qed.

Lemma permit_pipeline c k message now s k' p :
  c_reader k = WantPermit message now ->
  p = (permit_granted c k message now s).2 -> k' = set_reader (WantSlot p) k ->
  pipeline k' = pipeline k ++ [p].
Proof.
  intros Hr -> ->. unfold pipeline. rewrite Hr. cbn. by rewrite app_nil_r, app_assoc.
Qed.

Lemma permit_ok c k message now s :
  conn_ok k -> c_reader k = WantPermit message now ->
  conn_ok (set_reader (WantSlot (permit_granted c k message now s).2) k).
Proof.
  intros Hk Hr. pose proof (permit_pipeline c k message now s _ _ Hr eq_refl eq_refl) as Hp.
  destruct (ok_permit _ Hk _ _ Hr). destruct Hk as [Hch Hd Hpl Hpm Hf He]. rewrite Hr in *.
  constructor; cbn -[permit_granted]; rewrite ?Hp; try done.
  - intros Ht. by destruct (Hd Ht).
  - apply Forall_app. split; [done|]. constructor; [|constructor]. by split_and!.
  - intros _. by apply Hf.
Qed.

(** A connection whose oldest message is done with. *)
Lemma resolved_pipeline k p attempt delay gone :
  c_task k = TaskDelivering p attempt delay ->
  pipeline k = p :: pipeline (set_task TaskRecv gone k).
Proof. intros Ht. unfold pipeline. by rewrite Ht. Qed.

Lemma abandoned_pipeline k p rest :
  c_task k = TaskRecv -> c_chan k = p :: rest -> pipeline k = p :: pipeline (set_chan rest k).
Proof. intros Ht Hc. unfold pipeline. cbn. by rewrite Ht, Hc. Qed.

Lemma resolved_ok k p attempt delay gone :
  conn_ok k -> c_task k = TaskDelivering p attempt delay -> conn_ok (set_task TaskRecv gone k).
Proof.
  intros [Hch Hd Hpl Hpm Hf He] Ht. rewrite (resolved_pipeline k p attempt delay gone Ht) in *.
  constructor; cbn -[pipeline]; try done.
  - by apply Forall_cons in Hpl as [_ ?].
  - intros Hr. by destruct (He Hr).
Qed.

Lemma abandoned_ok k p rest :
  conn_ok k -> c_task k = TaskRecv -> c_chan k = p :: rest -> conn_ok (set_chan rest k).
Proof.
  intros [Hch Hd Hpl Hpm Hf He] Ht Hc. rewrite (abandoned_pipeline k p rest Ht Hc) in *.
  rewrite Hc in Hch. constructor; cbn -[pipeline]; try done.
  - cbn in Hch. lia.
  - congruence.
  - by apply Forall_cons in Hpl as [_ ?].
  - intros Hr. by destruct (He Hr).
Qed.

Lemma backoff_ok k p attempt delay gone :
  conn_ok k -> c_task k = TaskDelivering p attempt delay ->
  conn_ok (set_task (TaskBackoff p attempt delay) gone k).
Proof.
  intros [Hch Hd Hpl Hpm Hf He] Ht.
  assert (Hp : pipeline (set_task (TaskBackoff p attempt delay) gone k) = pipeline k)
    by (unfold pipeline; by rewrite Ht).
  constructor; rewrite ?Hp; cbn; try done.
Qed.

(** Every connection and datagram in the system is well formed. *)
Definition datagram_ok (p : PendingMessage) : Prop :=
  p_utf8 p = false /\ p_transport p = Datagram /\
  zlen (p_message p) < udp_max_datagram_bytes config.

Definition all_ok s : Prop :=
  map_Forall (fun _ => conn_ok) (s_conns s) /\ map_Forall (fun _ => datagram_ok) (s_datagrams s).

Lemma datagram_turn_ok d datagram peer now s :
  config_wf config -> all_ok s -> all_ok (datagram_turn config d datagram peer now s).1.
Proof.
  intros (_ & _ & Hu & _) [Hc Hd]. unfold datagram_turn.
  destruct (Z.eqb_spec (zlen (received_bytes config datagram)) (udp_max_datagram_bytes config)); [done|].
  case_match; [|done]. split; [done|]. cbn. apply map_Forall_insert_2; [|done]. split_and!; [done..|].
  cbn. unfold received_bytes in *. rewrite length_take in *. lia.
Qed.

Lemma istep_all_ok s o s' :
  config_wf config -> all_ok s -> istep config s o s' -> all_ok s'.
Proof.
  intros Hw [Hc Hd] Hi. pose proof (fun c k => map_Forall_lookup_1 _ _ c k Hc) as Hk.
  destruct Hi; try (split; [|done]; cbn -[permit_granted]); try done;
    try (apply map_Forall_insert_2; [|done]); try (by apply map_Forall_delete).
  - by apply new_conn_ok.
  - by eapply conn_local_ok; [eapply Hk|].
  - by eapply rejected_ok; [eapply Hk|..].
  - eapply (permit_ok c); [by eapply Hk|done].
  - destruct (ok_done _ (Hk _ _ H1)); congruence.
  - by eapply abandoned_ok; [eapply Hk|..].
  - by eapply backoff_ok; [eapply Hk|..].
  - by eapply resolved_ok; [eapply Hk|..].
  - by apply datagram_turn_ok.
  - split; [done|]. by apply map_Forall_delete.
Qed.

(** ** Shared resources *)

(** The permits that are taken. *)
Definition held s : Z :=
  map_sum (fun k => zlen (pipeline k)) (s_conns s) + Z.of_nat (size (s_datagrams s)).

Definition is_refusing (t : ListenerTask) : Z :=
  match t with
  | Refusing _ => 1
  | Accepting _ => 0
  end.

(** Limits that leave the gauge and the connection count room to count, and a next
    identity that is a [u64]. *)
Definition limits_ok : Prop :=
  (0 <= b_counters boot pending /\ b_counters boot pending + max_pending config < 2 ^ 64) /\
  max_connections config + 2 < 2 ^ 64 /\ 0 <= b_next_message_id boot < 2 ^ 64.

Lemma held_nonneg s : 0 <= held s.
Proof.
  unfold held. pose proof (map_sum_nonneg (fun k => zlen (pipeline k)) (s_conns s) ltac:(intros; cbn; lia)). lia.
Qed.

Lemma held_update c k k' s :
  s_conns s !! c = Some k ->
  held (set_conn c k' s) = held s - zlen (pipeline k) + zlen (pipeline k').
Proof. intros Hc. unfold held. cbn. erewrite map_sum_update by done. lia. Qed.

Lemma held_new c k s : s_conns s !! c = None -> held (set_conn c k s) = held s + zlen (pipeline k).
Proof. intros Hc. unfold held. cbn. rewrite map_sum_insert by done. lia. Qed.

Lemma held_delete c k s :
  s_conns s !! c = Some k -> held (set_conns (delete c (s_conns s)) s) = held s - zlen (pipeline k).
Proof. intros Hc. unfold held. cbn. erewrite map_sum_delete by done. lia. Qed.

(** [deliver] moves its own counter and no other. *)
Lemma deliver_counter sends verdict counters out counters' c :
  deliver sends verdict counters = Some (out, counters') ->
  c <> messages_delivered -> c <> deliveries_refused -> c <> handler_errors ->
  counters' c = counters c.
Proof.
  unfold deliver. intros Hd H1' H2' H3'. repeat case_match; simplify_eq; try done;
    by rewrite fetch_add_ne.
Qed.

Lemma u64_fetch_add_small z n : 0 <= z + n < 2 ^ 64 -> u64_fetch_add z n = z + n.
Proof. apply Z.mod_small. Qed.

(** Congruence modulo the width of a counter. *)
Lemma eqm_iff a b : eqm (2 ^ 64) a b <-> exists q, a = b + q * 2 ^ 64.
Proof.
  unfold eqm. split.
  - intros E. exists (a / 2 ^ 64 - b / 2 ^ 64).
    pose proof (Z.div_mod a (2 ^ 64) ltac:(done)). pose proof (Z.div_mod b (2 ^ 64) ltac:(done)). lia.
  - intros [q ->]. apply Z_mod_plus_full.
Qed.

Lemma eqm_0 z : eqm (2 ^ 64) z (z + 0).
Proof. by rewrite Z.add_0_r. Qed.

Lemma eqm_fetch_add z : eqm (2 ^ 64) (u64_fetch_add z 1) (z + 1).
Proof. unfold eqm, u64_fetch_add. by rewrite Z.mod_mod. Qed.

(** Every message that has been framed, from both transports. *)
Definition message_framed (o : obs) : option PendingMessage :=
  match o with
  | Framed _ p | DatagramFramed _ p => Some p
  | _ => None
  end.
Definition all_framed (tr : list obs) : list PendingMessage := omap message_framed tr.

Definition message_resolved (o : obs) : option PendingMessage :=
  match o with
  | Resolved _ p | DatagramResolved _ p => Some p
  | _ => None
  end.

(** How many more messages are held after a step than before. *)
Definition n_moved (o : list obs) : Z := zlen (all_framed o) - zlen (omap message_resolved o).

(** How a step moves the held messages, the permits and the gauge: together. *)
Inductive permit_move s (o : list obs) s' : Prop :=
| move_none :
    n_moved o = 0 -> held s' = held s -> s_credits s' = s_credits s ->
    s_counters s' pending = s_counters s pending -> permit_move s o s'
| move_take :
    n_moved o = 1 -> held s' = held s + 1 -> 0 < s_credits s -> s_credits s' = s_credits s - 1 ->
    s_counters s' pending = u64_fetch_add (s_counters s pending) 1 -> permit_move s o s'
| move_drop :
    n_moved o = -1 -> held s' = held s - 1 -> s_credits s' = s_credits s + 1 ->
    s_counters s' pending = Z.max 0 (s_counters s pending - 1) -> permit_move s o s'.

Lemma permit_move_held s o s' : permit_move s o s' -> held s' = held s + n_moved o.
Proof. destruct 1; lia. Qed.

Lemma datagram_turn_move d datagram peer now s :
  s_datagrams s !! d = None ->
  permit_move s (datagram_turn config d datagram peer now s).2
    (datagram_turn config d datagram peer now s).1.
Proof.
  intros Hd. unfold datagram_turn. case_match; [by apply move_none|].
  destruct (Z.ltb_spec 0 (s_credits s)); [|by apply move_none].
  apply move_take; [done| |done|done|done]. unfold held. cbn.
  rewrite map_size_insert_None by done. lia.
Qed.

Lemma istep_move s o s' :
  all_ok s -> istep config s o s' ->
  permit_move s o s' \/ (o = [Drained] /\ s' = drain_timeout s).
Proof.
  intros [Hc _] Hi. pose proof (fun c k => map_Forall_lookup_1 _ _ c k Hc) as Hk.
  destruct Hi as [|l li|l li c address Hl Hn|l li|l li|c k r k' Hs Hl|c k r f Hs Hr Hx
    |c k e framer buffer Hs Hr|c k message now Hs Hr Hcr|c k p Hs Hr Ht|c k p rest Hs Ht Hch
    |c k p attempt delay sends verdict counters Hs Ht Hd
    |c k p attempt delay sends verdict out counters gone counters' Hs Ht Hd Hc'
    |c k Hs Hr Ht|d datagram peer now Hd|d p sends verdict out counters Hp Hd| | |];
    try (left; by apply move_none); [..|by right]; left.
  - apply move_none; [done| |done|done]. etransitivity; [by apply (held_new c _ s)|]. cbn. lia.
  - apply move_none; [by destruct r| |done|done]. etransitivity; [by apply (held_update c k _ s)|].
    rewrite (conn_local_pipeline _ _ _ Hl). lia.
  - apply move_none; [by destruct r| |done|by destruct f].
    etransitivity; [by apply (held_delete c k s)|].
    destruct (ok_early _ (Hk _ _ Hs)) as [-> _]; [by destruct Hr as [-> | ->]|]. cbn. lia.
  - apply move_none; [done| |done|by destruct e as [[] ?]].
    etransitivity; [by apply (held_update c k _ s)|].
    unfold pipeline. rewrite Hr. cbn. destruct (fatal e); cbn; lia.
  - apply move_take; [done| |done|done|done]. etransitivity.
    { by apply (held_update c k (set_reader (WantSlot (permit_granted c k message now s).2) k) s). }
    rewrite (permit_pipeline c k message now s _ _ Hr eq_refl eq_refl), length_app. cbn. lia.
  - destruct (ok_done _ (Hk _ _ Hs) Ht). congruence.
  - apply move_drop; [done| |done|done]. etransitivity; [by apply (held_update c k _ s)|].
    rewrite (abandoned_pipeline k p rest) by done. cbn [length]. lia.
  - apply move_none; [done| |done|by rewrite <- (deliver_counter _ _ _ _ _ pending Hd)].
    etransitivity; [by apply (held_update c k _ s)|]. unfold pipeline. rewrite Ht. cbn. lia.
  - apply move_drop; [done| |done|].
    + etransitivity; [by apply (held_update c k _ s)|].
      rewrite (resolved_pipeline k p attempt delay gone) by done. cbn [length]. lia.
    + subst counters'. cbn. rewrite <- (deliver_counter _ _ _ _ _ pending Hd) by done. by case_decide.
  - apply move_none; [done| |done|done]. etransitivity; [by apply (held_delete c k s)|].
    destruct (ok_done _ (Hk _ _ Hs) Ht) as [_ Hch].
    unfold pipeline. rewrite Hr, Ht, Hch. cbn. lia.
  - by apply datagram_turn_move.
  - apply move_drop; [done| |done|].
    + unfold held. cbn. pose proof (size_delete (s_datagrams s) d p Hp). lia.
    + cbn. rewrite <- (deliver_counter _ _ _ _ _ pending Hd) by done. by case_decide.
Qed.

(** How a step moves the connections and their counts. *)
Definition n_conns s : Z := Z.of_nat (size (s_conns s)).
Definition refusals s : Z := map_sum is_refusing (s_listeners s).

Record conn_counts s s' (conns connections refusing opened closed : Z) : Prop := {
  cc_conns : n_conns s' = n_conns s + conns;
  cc_connections : s_connections s' = (s_connections s + connections) mod 2 ^ 64 \/
    (connections = 0 /\ s_connections s' = s_connections s);
  cc_refusing : refusals s' = refusals s + refusing;
  cc_listeners : (size (s_listeners s') <= size (s_listeners s))%nat;
  cc_opened : eqm (2 ^ 64) (s_counters s' connections_opened)
                (s_counters s connections_opened + opened);
  cc_closed : eqm (2 ^ 64) (s_counters s' connections_closed)
                (s_counters s connections_closed + closed);
}.

Inductive conn_move s s' : Prop :=
| conn_same : conn_counts s s' 0 0 0 0 0 -> conn_move s s'
| conn_open : s_connections s < max_connections config ->
    conn_counts s s' 1 1 0 1 0 -> conn_move s s'
| conn_close : conn_counts s s' (-1) (-1) 0 0 1 -> conn_move s s'
| conn_refuse : conn_counts s s' 0 1 1 0 0 -> conn_move s s'
| conn_refused : conn_counts s s' 0 (-1) (-1) 0 0 -> conn_move s s'.

Lemma conn_counts_same s s' :
  n_conns s' = n_conns s -> s_connections s' = s_connections s ->
  s_listeners s' = s_listeners s ->
  s_counters s' connections_opened = s_counters s connections_opened ->
  s_counters s' connections_closed = s_counters s connections_closed ->
  conn_move s s'.
Proof.
  intros Hn Hc Hl Ho Hcl. apply conn_same. unfold refusals.
  constructor; rewrite ?Ho, ?Hcl, ?Hn, ?Hl; unfold refusals; rewrite ?Hl; try apply eqm_0; try lia; auto.
Qed.

Lemma istep_conn_move s o s' : istep config s o s' -> conn_move s s'.
Proof.
  intros Hi.
  destruct Hi as [|l li Hl|l li c address Hl Hn|l li Hl|l li Hl|c k r k' Hs Hl|c k r f Hs Hr Hx
    |c k e framer buffer Hs Hr|c k message now Hs Hr Hcr|c k p Hs Hr Ht|c k p rest Hs Ht Hch
    |c k p attempt delay sends verdict counters Hs Ht Hd
    |c k p attempt delay sends verdict out counters gone counters' Hs Ht Hd Hc'
    |c k Hs Hr Ht|d datagram peer now Hd|d p sends verdict out counters Hp Hd| | |].
  all: try (by apply conn_counts_same).
  all: try (apply conn_counts_same; unfold n_conns; cbn; try done; by erewrite size_update).
  - apply conn_refuse. constructor; unfold n_conns, refusals; cbn; try apply eqm_0; try lia;
      [by left|erewrite map_sum_update by done; cbn; lia|by erewrite size_update].
  - apply conn_open; [lia|]. constructor; unfold n_conns, refusals; cbn; try apply eqm_0; try lia;
      [by rewrite map_size_insert_None by done; lia|by left|apply eqm_fetch_add].
  - apply conn_refused. constructor; unfold n_conns, refusals; cbn; try apply eqm_0; try lia;
      [by left|erewrite map_sum_update by done; cbn; lia|by erewrite size_update].
  - apply conn_same. constructor; unfold n_conns, refusals; cbn; try apply eqm_0; try lia;
      [erewrite map_sum_delete by done; cbn; lia|].
    pose proof (size_delete (s_listeners s) l _ Hl). lia.
  - apply conn_close. constructor; unfold n_conns, refusals; cbn; try lia;
      [rewrite (size_delete _ c k) by done; lia|by left|..]; destruct f; cbn;
      first [apply eqm_0 | apply eqm_fetch_add].
  - apply conn_counts_same; try done; [|by destruct e as [[] ?]..].
    unfold n_conns; cbn. by erewrite size_update.
  - apply conn_counts_same; try done; try (by apply (deliver_counter _ _ _ _ _ _ Hd)).
    unfold n_conns; cbn. by erewrite size_update.
  - apply conn_counts_same; try done.
    + unfold n_conns; cbn. by erewrite size_update.
    + subst counters'. cbn. rewrite <- (deliver_counter _ _ _ _ _ _ Hd) by done. by case_decide.
    + subst counters'. cbn. rewrite <- (deliver_counter _ _ _ _ _ _ Hd) by done. by case_decide.
  - apply conn_close. constructor; unfold n_conns, refusals; cbn; try apply eqm_0; try lia;
      [rewrite (size_delete _ c k) by done; lia|by left|apply eqm_fetch_add].
  - unfold datagram_turn. repeat case_match; by apply conn_counts_same.
  - apply conn_counts_same; try done; cbn;
      rewrite <- (deliver_counter _ _ _ _ _ _ Hd) by done; by case_decide.
Qed.

Lemma refusals_bound s : 0 <= refusals s <= Z.of_nat (size (s_listeners s)).
Proof.
  split; [apply map_sum_nonneg|apply map_sum_le_size]; by intros [].
Qed.

(** The connection count, the limit and the balance of opened and closed. *)
Definition conns_balanced s : Prop :=
  s_connections s = n_conns s + refusals s /\ n_conns s <= max_connections config /\
  Z.of_nat (size (s_listeners s)) <= 2 /\
  eqm (2 ^ 64) (s_counters s connections_opened + b_counters boot connections_closed)
    (s_counters s connections_closed + b_counters boot connections_opened + n_conns s).

Lemma eqm_balance x y a b n a' b' n' da db dn :
  eqm (2 ^ 64) (a + x) (b + y + n) -> eqm (2 ^ 64) a' (a + da) -> eqm (2 ^ 64) b' (b + db) ->
  n' = n + dn -> da = db + dn -> eqm (2 ^ 64) (a' + x) (b' + y + n').
Proof.
  rewrite !eqm_iff. intros [q E] [qa ->] [qb ->] -> ->. exists (q + qa - qb). lia.
Qed.

Lemma conn_counts_balanced s s' conns connections refusing opened closed :
  limits_ok -> conns_balanced s -> conn_counts s s' conns connections refusing opened closed ->
  connections = conns + refusing -> opened = closed + conns ->
  n_conns s' <= max_connections config -> conns_balanced s'.
Proof.
  intros (_ & Hlim & _) (Hcn & Hmx & Hls & Hbl) [Hc Hn Hr Hl Ho Hcl] -> -> Hmx'.
  pose proof (refusals_bound s'). pose proof (refusals_bound s).
  assert (0 <= n_conns s') by (unfold n_conns; lia).
  split_and!; [|done|lia|by eapply (eqm_balance _ _ _ _ _ _ _ _ _ _ _ Hbl Ho Hcl Hc)].
  destruct Hn as [Hn|[? ->]]; [|lia]. rewrite Hn, Z.mod_small by lia. lia.
Qed.

Lemma istep_balanced s o s' :
  limits_ok -> conns_balanced s -> istep config s o s' -> conns_balanced s'.
Proof.
  intros Hlim Hb Hi. pose proof Hb as (Hcn & Hmx & _). pose proof (refusals_bound s).
  apply istep_conn_move in Hi as [Hm|? Hm|Hm|Hm|Hm]; pose proof (cc_conns _ _ _ _ _ _ _ Hm);
    refine (conn_counts_balanced s s' _ _ _ _ _ Hlim Hb Hm _ _ _); lia.
Qed.

(** The permits and the gauge. *)
Definition permits_ok (drained : Prop) s : Prop :=
  0 <= s_credits s /\ s_credits s + held s = max_pending config /\
  0 <= s_counters s pending <= held s + b_counters boot pending /\
  (~ drained -> s_counters s pending = held s + b_counters boot pending).

Lemma istep_permits (drained : Prop) s o s' :
  limits_ok -> all_ok s -> permits_ok drained s -> istep config s o s' ->
  permits_ok (drained \/ Drained ∈ o) s'.
Proof.
  intros ((Hb & Hlim) & _) Hok (Hcr & Hpe & Hpd & Hg) Hi. pose proof (held_nonneg s).
  destruct (istep_move _ _ _ Hok Hi) as [[_ Hh Hc Hp|_ Hh ? Hc Hp|_ Hh Hc Hp]|[-> ->]].
  - unfold permits_ok. rewrite Hh, Hc, Hp. split_and!; [done|done|lia|lia|tauto].
  - rewrite u64_fetch_add_small in Hp by lia. unfold permits_ok. rewrite Hh, Hc, Hp.
    split_and!; [lia|lia|lia|lia|]. intros ?. rewrite Hg by tauto. lia.
  - pose proof (held_nonneg s') as Hn. rewrite Hh in Hn. unfold permits_ok. rewrite Hc, Hp, Hh.
    split_and!; [lia|lia|lia|lia|]. intros ?. rewrite Hg by tauto. lia.
  - unfold permits_ok. change (held (drain_timeout s)) with (held s).
    change (s_counters (drain_timeout s) pending) with 0.
    split_and!; [done|done|lia|lia|]. intros []. right. constructor.
Qed.

(** ** The messages seen so far *)

Definition framed_on (c : nat) (o : obs) : option PendingMessage :=
  match o with
  | Framed c' p => if decide (c' = c) then Some p else None
  | _ => None
  end.
Definition resolved_on (c : nat) (o : obs) : option PendingMessage :=
  match o with
  | Resolved c' p => if decide (c' = c) then Some p else None
  | _ => None
  end.

(** The messages framed on a connection, and those done with, in order. *)
Definition framed (c : nat) (tr : list obs) : list PendingMessage := omap (framed_on c) tr.
Definition resolved (c : nat) (tr : list obs) : list PendingMessage := omap (resolved_on c) tr.

(** What a connection still holds. *)
Definition pipeline_of s (c : nat) : list PendingMessage :=
  from_option pipeline [] (s_conns s !! c).

Lemma pipeline_of_update s s' c k k' c' rs fs :
  s_conns s !! c = Some k -> s_conns s' = <[c := k']> (s_conns s) ->
  rs ++ pipeline k' = pipeline k ++ fs ->
  (if decide (c = c') then rs else []) ++ pipeline_of s' c' =
  pipeline_of s c' ++ (if decide (c = c') then fs else []).
Proof.
  intros Hc Hs Hp. unfold pipeline_of. rewrite Hs. case_decide as E.
  - subst. by rewrite lookup_insert_eq, Hc.
  - rewrite lookup_insert_ne by done. by rewrite app_nil_r.
Qed.

Lemma pipeline_of_same s s' c k k' c' :
  s_conns s !! c = Some k -> s_conns s' = <[c := k']> (s_conns s) -> pipeline k' = pipeline k ->
  pipeline_of s' c' = pipeline_of s c' ++ [].
Proof.
  intros Hc Hs Hp. pose proof (pipeline_of_update s s' c k k' c' [] []) as Hx.
  rewrite app_nil_r in Hx. specialize (Hx Hc Hs Hp). by destruct (decide (c = c')).
Qed.

Lemma pipeline_of_drop s s' c k k' c' p :
  s_conns s !! c = Some k -> s_conns s' = <[c := k']> (s_conns s) ->
  pipeline k = p :: pipeline k' ->
  ((if decide (c = c') then [p] else []) ++ []) ++ pipeline_of s' c' = pipeline_of s c' ++ [].
Proof.
  intros Hc Hs Hp. pose proof (pipeline_of_update s s' c k k' c' [p] []) as Hx.
  rewrite Hp, !app_nil_r in *. specialize (Hx Hc Hs eq_refl). rewrite Hx.
  by destruct (decide (c = c')); rewrite app_nil_r.
Qed.

Lemma pipeline_of_delete s s' c k c' :
  s_conns s !! c = Some k -> pipeline k = [] -> s_conns s' = delete c (s_conns s) ->
  pipeline_of s' c' = pipeline_of s c' ++ [].
Proof.
  intros Hc Hp Hs. rewrite app_nil_r. unfold pipeline_of. rewrite Hs. destruct (decide (c = c')) as [<-|].
  - by rewrite lookup_delete_eq, Hc.
  - by rewrite lookup_delete_ne.
Qed.

Lemma resolved_1 c c' p rest :
  resolved c (Resolved c' p :: rest) = (if decide (c' = c) then [p] else []) ++ resolved c rest.
Proof. unfold resolved. cbn. by case_decide. Qed.

Lemma framed_1 c c' p rest :
  framed c (Framed c' p :: rest) = (if decide (c' = c) then [p] else []) ++ framed c rest.
Proof. unfold framed. cbn. by case_decide. Qed.

Lemma resolved_local c c' r : resolved c (local_obs c' r) = [].
Proof. by destruct r. Qed.

Lemma framed_local c c' r : framed c (local_obs c' r) = [].
Proof. by destruct r. Qed.

(** A step adds the messages it frames at one end and takes those it resolves off
    the other. *)
Lemma istep_fifo s o s' c :
  all_ok s -> istep config s o s' ->
  resolved c o ++ pipeline_of s' c = pipeline_of s c ++ framed c o.
Proof.
  intros [Hc _] Hi. pose proof (fun c k => map_Forall_lookup_1 _ _ c k Hc) as Hk.
  destruct Hi as [|l li Hl|l li c0 address Hl Hn|l li Hl|l li Hl|c0 k r k' Hs Hl|c0 k r f Hs Hr Hx
    |c0 k e framer buffer Hs Hr|c0 k message now Hs Hr Hcr|c0 k p Hs Hr Ht|c0 k p rest Hs Ht Hch
    |c0 k p attempt delay sends verdict counters Hs Ht Hd
    |c0 k p attempt delay sends verdict out counters gone counters' Hs Ht Hd Hc'
    |c0 k Hs Hr Ht|d datagram peer now Hd|d p sends verdict out counters Hp Hd| | |];
    try (by rewrite app_nil_r); rewrite ?resolved_1, ?framed_1.
  - unfold pipeline_of. cbn. destruct (decide (c0 = c)) as [<-|].
    + by rewrite lookup_insert_eq, Hn.
    + by rewrite lookup_insert_ne, app_nil_r.
  - rewrite resolved_local, framed_local.
    by eapply pipeline_of_same; [..|by eapply conn_local_pipeline].
  - rewrite resolved_local, framed_local. eapply pipeline_of_delete; [done| |by destruct f].
    destruct (ok_early _ (Hk _ _ Hs)) as [-> _]; [by destruct Hr as [-> | ->]|done].
  - eapply pipeline_of_same; [done..|]. unfold pipeline. rewrite Hr. cbn. by destruct (fatal e).
  - rewrite app_nil_r. unfold pipeline_of. cbn. case_decide as E.
    + subst. rewrite lookup_insert_eq, Hs. cbn. unfold pipeline. rewrite Hr. cbn.
      by rewrite app_nil_r, <- app_assoc.
    + by rewrite lookup_insert_ne, app_nil_r.
  - destruct (ok_done _ (Hk _ _ Hs) Ht). congruence.
  - by eapply pipeline_of_drop; [..|by apply abandoned_pipeline].
  - eapply pipeline_of_same; [done..|]. unfold pipeline. by rewrite Ht.
  - assert (forall m out' l, resolved c (Offered c0 m out' :: l) = resolved c l) as -> by done.
    rewrite resolved_1. by eapply pipeline_of_drop; [..|by eapply resolved_pipeline].
  - eapply pipeline_of_delete; [done| |done]. destruct (ok_done _ (Hk _ _ Hs) Ht) as [_ Hch].
    unfold pipeline. by rewrite Hr, Ht, Hch.
  - unfold datagram_turn. repeat case_match; cbn; by rewrite app_nil_r.
Qed.

(** A datagram that found no permit. *)
Definition dropped_unframed (tr : list obs) : Z :=
  zlen (omap (fun o => match o with DatagramDropped => Some tt | _ => None end) tr).

(** What becomes of messages, as the counters see it. *)
Definition accounted s : Z :=
  s_counters s messages_delivered + s_counters s abandoned_at_shutdown +
  s_counters s udp_dropped + held s.

Lemma deliver_delivered sends verdict counters out counters' :
  deliver sends verdict counters = Some (out, counters') ->
  counters' messages_delivered =
    if decide (out = DeliveryAccepted) then u64_fetch_add (counters messages_delivered) 1
    else counters messages_delivered.
Proof.
  unfold deliver. intros Hd. repeat case_match; simplify_eq; try done; by rewrite ?fetch_add_ne.
Qed.

(** Counters that move together keep the account balanced. *)
Lemma accounted_move s s' dd da du dh n :
  eqm (2 ^ 64) (s_counters s' messages_delivered) (s_counters s messages_delivered + dd) ->
  eqm (2 ^ 64) (s_counters s' abandoned_at_shutdown) (s_counters s abandoned_at_shutdown + da) ->
  eqm (2 ^ 64) (s_counters s' udp_dropped) (s_counters s udp_dropped + du) ->
  held s' = held s + dh -> dd + da + du + dh = n ->
  eqm (2 ^ 64) (accounted s') (accounted s + n).
Proof.
  unfold accounted. rewrite !eqm_iff. intros [q1 ->] [q2 ->] [q3 ->] -> <-.
  exists (q1 + q2 + q3). lia.
Qed.

Lemma accounted_same s s' :
  s_counters s' messages_delivered = s_counters s messages_delivered ->
  s_counters s' abandoned_at_shutdown = s_counters s abandoned_at_shutdown ->
  s_counters s' udp_dropped = s_counters s udp_dropped -> held s' = held s ->
  eqm (2 ^ 64) (accounted s') (accounted s + 0).
Proof.
  intros Hd Ha Hu Hh. eapply (accounted_move s s' 0 0 0 0); rewrite ?Hd, ?Ha, ?Hu, ?Hh;
    try apply eqm_0; lia.
Qed.

(** The length of what a step frames or drops. *)
Definition n_seen (o : list obs) : Z := zlen (all_framed o) + dropped_unframed o.

Lemma datagram_turn_account d datagram peer now s :
  s_datagrams s !! d = None ->
  eqm (2 ^ 64) (accounted (datagram_turn config d datagram peer now s).1)
    (accounted s + n_seen (datagram_turn config d datagram peer now s).2).
Proof.
  intros Hd. unfold datagram_turn. case_match; [by apply accounted_same|].
  case_match.
  - eapply (accounted_move s _ 0 0 0 1); try apply eqm_0; [|done].
    unfold held. cbn. rewrite map_size_insert_None by done. lia.
  - by eapply (accounted_move s _ 0 0 1 0); try apply eqm_0;
      [apply eqm_fetch_add|rewrite Z.add_0_r|].
Qed.

Lemma release_other counters c : c <> pending -> release_pending counters c = counters c.
Proof. apply store_ne. Qed.

Lemma abandon_other counters c :
  c <> pending -> c <> abandoned_at_shutdown -> abandon_pending counters c = counters c.
Proof. intros ??. unfold abandon_pending. by rewrite release_other, fetch_add_ne. Qed.

Lemma abandon_abandoned counters :
  abandon_pending counters abandoned_at_shutdown =
  u64_fetch_add (counters abandoned_at_shutdown) 1.
Proof. done. Qed.

Lemma istep_account s o s' :
  all_ok s -> istep config s o s' -> Drained ∉ o ->
  eqm (2 ^ 64) (accounted s') (accounted s + n_seen o).
Proof.
  intros Hok Hi Hdr.
  assert (Hh : held s' = held s + n_moved o).
  { destruct (istep_move _ _ _ Hok Hi) as [Hm|[-> _]]; [by apply permit_move_held|set_solver]. }
  destruct Hok as [Hc _]. pose proof (fun c k => map_Forall_lookup_1 _ _ c k Hc) as Hk.
  destruct Hi as [|l li Hl|l li c0 address Hl Hn|l li Hl|l li Hl|c0 k r k' Hs Hl|c0 k r f Hs Hr Hx
    |c0 k e framer buffer Hs Hr|c0 k message now Hs Hr Hcr|c0 k p Hs Hr Ht|c0 k p rest Hs Ht Hch
    |c0 k p attempt delay sends verdict counters Hs Ht Hd
    |c0 k p attempt delay sends verdict out counters gone counters' Hs Ht Hd Hc'
    |c0 k Hs Hr Ht|d datagram peer now Hd|d p sends verdict out counters Hp Hd| | |];
    try (rewrite Z.add_0_r in Hh; by apply accounted_same).
  - destruct r; rewrite Z.add_0_r in Hh; by apply accounted_same.
  - destruct r; rewrite Z.add_0_r in Hh; apply accounted_same; try done; by destruct f.
  - rewrite Z.add_0_r in Hh. apply accounted_same; try done; by destruct e as [[] ?].
  - by eapply (accounted_move s _ 0 0 0 1); try apply eqm_0.
  - destruct (ok_done _ (Hk _ _ Hs) Ht). congruence.
  - by eapply (accounted_move s _ 0 1 0 (-1)); try apply eqm_0; [apply eqm_fetch_add|..].
  - rewrite Z.add_0_r in Hh. pose proof (deliver_delivered _ _ _ _ _ Hd).
    apply accounted_same; try done; by apply (deliver_counter _ _ _ _ _ _ Hd).
  - pose proof (deliver_delivered _ _ _ _ _ Hd) as Hdd.
    pose proof (deliver_counter _ _ _ _ _ abandoned_at_shutdown Hd) as Hda.
    pose proof (deliver_counter _ _ _ _ _ udp_dropped Hd) as Hdu. subst counters'.
    case_decide; [eapply (accounted_move s _ 1 0 0 (-1))|eapply (accounted_move s _ 0 1 0 (-1))];
      try done; cbn; rewrite ?release_other, ?abandon_other, ?abandon_abandoned, ?Hdd, ?Hda, ?Hdu
        by done; first [apply eqm_0 | apply eqm_fetch_add].
  - by apply datagram_turn_account.
  - pose proof (deliver_delivered _ _ _ _ _ Hd) as Hdd.
    pose proof (deliver_counter _ _ _ _ _ abandoned_at_shutdown Hd) as Hda.
    pose proof (deliver_counter _ _ _ _ _ udp_dropped Hd) as Hdu.
    case_decide; [eapply (accounted_move s _ 1 0 0 (-1))|eapply (accounted_move s _ 0 0 1 (-1))];
      try done; cbn; rewrite ?release_other, ?fetch_add_eq, ?fetch_add_ne, ?Hdd, ?Hda, ?Hdu
        by done; first [apply eqm_0 | apply eqm_fetch_add].
  - set_solver.
Qed.

(** A step gives at most one message the next identity. *)
Lemma istep_ids s o s' :
  istep config s o s' ->
  (all_framed o = [] /\ s_next_message_id s' = s_next_message_id s) \/
  (exists p, all_framed o = [p] /\ p_message_id p = s_next_message_id s /\
     s_next_message_id s' = u64_fetch_add (s_next_message_id s) 1).
Proof.
  intros Hi. destruct Hi; try (by left); try (by destruct r; left); [right; eauto|].
  unfold datagram_turn. repeat case_match; [by left|right; eauto|by left].
Qed.

(** A message handed to a worker: text that a string may be made of unchecked. *)
Definition offered_ok (o : obs) : Prop :=
  match o with
  | Offered _ m _ =>
      msg_transport m = Stream /\ zlen (msg_bytes m) <= max_frame_bytes config /\
      message_string m = Some (Utf8String (msg_bytes m))
  | _ => True
  end.

Lemma stream_message_offered peer p attempt c out :
  stream_message peer p -> offered_ok (Offered c (delivery_for p attempt) out).
Proof.
  intros (Hu & Ht & Hl & Htr & _). cbn. unfold message_string. cbn.
  rewrite Hu. apply from_utf8_iff in Ht. by rewrite Ht.
Qed.

Lemma istep_offered s o s' : all_ok s -> istep config s o s' -> Forall offered_ok o.
Proof.
  intros [Hc _] Hi. pose proof (fun c k => map_Forall_lookup_1 _ _ c k Hc) as Hk.
  assert (Hof : forall c k p attempt delay out, s_conns s !! c = Some k ->
            c_task k = TaskDelivering p attempt delay ->
            offered_ok (Offered c (delivery_for p attempt) out)).
  { intros c k p attempt delay out Hs Ht. pose proof (ok_pipeline _ (Hk _ _ Hs)) as Hp.
    rewrite (resolved_pipeline k p attempt delay false Ht) in Hp.
    apply Forall_cons in Hp as [Hp _]. by eapply stream_message_offered. }
  destruct Hi; repeat first [apply Forall_nil_2 | apply Forall_cons_2]; try done;
    try (by eapply Hof); try (destruct r; by repeat constructor).
  unfold datagram_turn. repeat case_match; repeat constructor.
Qed.
End invariants.
