(* ===== verification/SystemProps.v ===== *)
(** * What the syslog listeners guarantee

    Theorems about every state the listeners can reach, whatever the network, the
    clock and the workers do and however the tasks interleave. *)
From S2P Require Import Prelude Utf8 Decimal LinesCodec Framing FramingSpec FramingStream.
From S2P Require Import FramingProps Proxy ProxyProps Peer Http Response Syslog SyslogProps.
From S2P Require Import HandleRequest Delivery System SystemRules SystemInv.

Local Open Scope Z_scope.

Section props.
Context `{Profile} {C : Type} `{!LinesCodec C, !LinesCodecSpec C} `{Tokio}.
Context (boot : Boot) (config : SyslogConfig).
Implicit Types (k : Conn C) (s : Sys C) (tr : list obs).

(** The identities of the first [n] messages. *)
Definition message_ids (n : nat) : list Z :=
  (fun i => (b_next_message_id boot + Z.of_nat i) mod 2 ^ 64) <$> seq 0 n.

(** The messages the counters had accounted for before. *)
Definition accounted_before : Z :=
  b_counters boot messages_delivered + b_counters boot abandoned_at_shutdown +
  b_counters boot udp_dropped.

Record history tr s : Prop := {
  h_fifo : forall c, framed c tr = resolved c tr ++ pipeline_of s c;
  h_ids : p_message_id <$> all_framed tr = message_ids (length (all_framed tr));
  h_next : s_next_message_id s = (b_next_message_id boot + zlen (all_framed tr)) mod 2 ^ 64;
  h_account : Drained ∉ tr -> eqm (2 ^ 64) (accounted s) (accounted_before + n_seen tr);
  h_offered : Forall (offered_ok config) tr;
}.

Record invariant tr s : Prop := {
  i_ok : all_ok config s;
  i_permits : permits_ok boot config (Drained ∈ tr) s;
  i_balanced : conns_balanced boot config s;
  i_history : history tr s;
}.

Lemma n_seen_app tr o : n_seen (tr ++ o) = n_seen tr + n_seen o.
Proof.
  unfold n_seen, dropped_unframed, all_framed. rewrite !omap_app, !length_app. lia.
Qed.

Lemma message_ids_S n :
  message_ids (S n) = message_ids n ++ [(b_next_message_id boot + Z.of_nat n) mod 2 ^ 64].
Proof. unfold message_ids. by rewrite seq_S, fmap_app. Qed.

Lemma init_history : 0 <= b_next_message_id boot < 2 ^ 64 -> history [] (init boot config : Sys C).
Proof.
  intros Hn. constructor; cbn; try done. by rewrite Z.add_0_r, Z.mod_small.
Qed.

Lemma init_invariant : config_wf config -> limits_ok boot config -> invariant [] (init boot config : Sys C).
Proof.
  intros (Hp & _ & _ & _ & Hc & _) ((Hb & Hl) & _ & Hn). constructor.
  - split; apply map_Forall_empty.
  - assert (Hh : held (init boot config : Sys C) = 0) by done.
    unfold permits_ok. rewrite Hh. cbn. split_and!; lia.
  - unfold conns_balanced, n_conns, refusals. cbn.
    destruct (stream_path config), (stream_bind config);
      (split_and!; [done|rewrite map_size_empty; lia|done|]); rewrite map_size_empty;
      apply eqm_iff; exists 0; lia.
  - by apply init_history.
Qed.

Lemma history_step tr s o s' :
  all_ok config s -> history tr s -> istep config s o s' -> history (tr ++ o) s'.
Proof.
  intros Hok [Hf Hi Hn Ha Ho] Hs. constructor.
  - intros c. unfold framed, resolved in *. rewrite !omap_app, Hf, <- !app_assoc.
    f_equal. symmetry. by apply (istep_fifo config).
  - unfold all_framed in *. rewrite omap_app, fmap_app, Hi, length_app.
    destruct (istep_ids config _ _ _ Hs) as [[E _]|(p & E & Hp & _)]; unfold all_framed in E; rewrite E.
    + by rewrite app_nil_r, Nat.add_0_r.
    + cbn [fmap list_fmap length]. rewrite Nat.add_1_r, message_ids_S, Hp, Hn. done.
  - unfold all_framed in *. rewrite omap_app, length_app.
    destruct (istep_ids config _ _ _ Hs) as [[E ->]|(p & E & _ & ->)]; unfold all_framed in E; rewrite E.
    + by rewrite Nat.add_0_r.
    + rewrite Hn. unfold u64_fetch_add. rewrite Z.add_mod_idemp_l by done. f_equal. cbn. lia.
  - intros Hd. rewrite n_seen_app.
    assert (Ho' : Drained ∉ o) by set_solver. pose proof (istep_account config _ _ _ Hok Hs Ho') as E.
    specialize (Ha ltac:(set_solver)). revert E Ha. rewrite !eqm_iff. intros [q ->] [q' ->].
    exists (q + q'). lia.
  - apply Forall_app. split; [done|]. by eapply istep_offered.
Qed.

(** What was seen so far, whatever the limits. *)
Lemma reachable_history tr s :
  config_wf config -> 0 <= b_next_message_id boot < 2 ^ 64 -> reachable boot config tr s ->
  all_ok config s /\ history tr s.
Proof.
  intros Hw Hn. induction 1 as [|tr s e s' o Hr [Hok Hh] Hs%step_istep].
  - split; [split; apply map_Forall_empty|by apply init_history].
  - split; [by eapply istep_all_ok|by eapply history_step].
Qed.

(** The invariant of every execution. *)
Lemma reachable_invariant tr s :
  config_wf config -> limits_ok boot config -> reachable boot config tr s -> invariant tr s.
Proof.
  intros Hw Hl. induction 1 as [|tr s e s' o Hr [Hok Hp Hb Hh] Hs]; [by apply init_invariant|].
  apply step_istep in Hs. constructor.
  - by eapply istep_all_ok.
  - destruct (istep_permits boot config _ _ _ _ Hl Hok Hp Hs) as (? & ? & ? & Hg).
    refine (conj _ (conj _ (conj _ _))); [done..|]. intros Hd. apply Hg. set_solver.
  - by eapply istep_balanced.
  - by eapply history_step.
Qed.

(** C3. Backpressure overall: the permits that are free and the messages framed but not
    yet through a handler always add up to [max_pending], so there are never more
    such messages than that; the [pending] gauge has grown by their number since the
    start until a drain gives up, and never by more. *)
Theorem pending_bounded tr s :
  config_wf config -> limits_ok boot config -> reachable boot config tr s ->
  0 <= s_credits s /\ s_credits s + held s = max_pending config /\ held s <= max_pending config /\
  0 <= s_counters s pending <= held s + b_counters boot pending /\
  (Drained ∉ tr -> s_counters s pending = held s + b_counters boot pending).
Proof.
  intros Hw Hl Hr. destruct (reachable_invariant _ _ Hw Hl Hr) as [_ (? & ? & ? & ?) _ _].
  split_and!; try done; lia.
Qed.

(** C4. Order and no loss on a connection: the messages framed on it are, in order,
    those done with followed by those it still holds; nothing is skipped,
    duplicated or overtaken, whatever is refused and retried. *)
Theorem connection_fifo tr s c :
  config_wf config -> limits_ok boot config -> reachable boot config tr s ->
  framed c tr = resolved c tr ++ pipeline_of s c.
Proof.
  intros Hw Hl Hr. destruct (reachable_invariant _ _ Hw Hl Hr) as [_ _ _ Hh]. apply (h_fifo _ _ Hh).
Qed.

(** C26. The connection limit holds: there are never more connections than
    [max_connections], and opened less closed, since the start, is their number. *)
Theorem connections_bounded tr s :
  config_wf config -> limits_ok boot config -> reachable boot config tr s ->
  n_conns s <= max_connections config /\
  eqm (2 ^ 64) (s_counters s connections_opened + b_counters boot connections_closed)
    (s_counters s connections_closed + b_counters boot connections_opened + n_conns s).
Proof.
  intros Hw Hl Hr. by destruct (reachable_invariant _ _ Hw Hl Hr) as [_ _ (_ & ? & _ & ?) _].
Qed.

(** No two messages share an identity, across connections, datagrams and
    transports, until 2^64 of them have been framed. *)
Theorem message_ids_unique tr s :
  config_wf config -> limits_ok boot config -> reachable boot config tr s ->
  zlen (all_framed tr) < 2 ^ 64 -> NoDup (p_message_id <$> all_framed tr).
Proof.
  intros Hw Hl Hr Hn. destruct (reachable_invariant _ _ Hw Hl Hr) as [_ _ _ Hh].
  rewrite (h_ids _ _ Hh). unfold message_ids.
  apply NoDup_fmap_2_strong; [|apply NoDup_seq].
  intros i j Hi%elem_of_seq Hj%elem_of_seq E.
  apply Nat2Z.inj, (mod_offset_inj (b_next_message_id boot) (2 ^ 64)); [lia..|done].
Qed.

(** C10. Every message is accounted for: until a drain gives up, the messages delivered,
    abandoned, dropped and still held since the start are exactly the messages framed
    and the datagrams that found no permit, as counted modulo 2^64. *)
Theorem messages_accounted tr s :
  config_wf config -> limits_ok boot config -> reachable boot config tr s -> Drained ∉ tr ->
  eqm (2 ^ 64)
    (s_counters s messages_delivered + s_counters s abandoned_at_shutdown +
     s_counters s udp_dropped + s_counters s pending)
    (accounted_before + b_counters boot pending + zlen (all_framed tr) + dropped_unframed tr).
Proof.
  intros Hw Hl Hr Hd. destruct (reachable_invariant _ _ Hw Hl Hr) as [_ (_ & _ & _ & Hg) _ Hh].
  rewrite (Hg Hd). pose proof (h_account _ _ Hh Hd) as Ha. unfold accounted, n_seen in Ha.
  revert Ha. rewrite !eqm_iff. intros [q Ha]. exists q. lia.
Qed.

(** C11. What workers are handed from a stream is valid UTF-8 within the frame limit, so
    the string made of it without a check is well defined: from the framer through
    the pending queue and every retry. *)
Theorem offered_messages_valid tr s :
  config_wf config -> limits_ok boot config -> reachable boot config tr s -> Forall (offered_ok config) tr.
Proof.
  intros Hw Hl Hr. by destruct (reachable_invariant _ _ Hw Hl Hr) as [_ _ _ [_ _ _ _ ?]].
Qed.

(** C37. Backpressure per connection: a connection holds at most
    [max_pending_per_connection] messages in its queue, one with its delivery task
    and one waiting for a place; all of them carry the connection's peer. *)
Theorem connection_pending_bounded tr s c k :
  config_wf config -> limits_ok boot config -> reachable boot config tr s -> s_conns s !! c = Some k ->
  zlen (c_chan k) <= max_pending_per_connection config /\
  zlen (pipeline k) <= max_pending_per_connection config + 2 /\
  Forall (fun p => p_peer p = c_peer k) (pipeline k).
Proof.
  intros Hw Hl Hr Hc. destruct (reachable_invariant _ _ Hw Hl Hr) as [[Hok _] _ _ _].
  pose proof (map_Forall_lookup_1 _ _ _ _ Hok Hc) as Hk. destruct Hk as [Hch _ Hp _ _ _].
  split_and!; [done| |].
  - unfold pipeline. rewrite !length_app. destruct (c_task k), (c_reader k); cbn; lia.
  - eapply Forall_impl; [exact Hp|]. by intros p (_ & _ & _ & _ & ?).
Qed.

(** C16. A drain that is not cut short leaves nothing behind: once every task has ended,
    all permits are back, the gauge is where it was at the start and the connection
    count is zero, every connection opened has been closed, and every message framed
    was delivered, abandoned or dropped. *)
Theorem drained_clean tr s :
  config_wf config -> limits_ok boot config -> reachable boot config tr s -> Drained ∉ tr ->
  s_conns s = ∅ -> s_listeners s = ∅ -> s_datagrams s = ∅ ->
  s_credits s = max_pending config /\ s_counters s pending = b_counters boot pending /\
  s_connections s = 0 /\
  eqm (2 ^ 64) (s_counters s connections_opened + b_counters boot connections_closed)
    (s_counters s connections_closed + b_counters boot connections_opened) /\
  (forall c, resolved c tr = framed c tr) /\
  eqm (2 ^ 64)
    (s_counters s messages_delivered + s_counters s abandoned_at_shutdown + s_counters s udp_dropped)
    (accounted_before + zlen (all_framed tr) + dropped_unframed tr).
Proof.
  intros Hw Hl Hr Hd Hc Hls Hdg. destruct (reachable_invariant _ _ Hw Hl Hr)
    as [_ (_ & Hp & _ & Hg) (Hcn & _ & _ & Hb) Hh].
  assert (Hheld : held s = 0) by (unfold held; by rewrite Hc, Hdg).
  unfold n_conns, refusals in *. rewrite Hc, Hls in *. cbn in *.
  rewrite Z.add_0_r in Hb. pose proof (h_account _ _ Hh Hd) as Ha. unfold accounted in Ha.
  rewrite Hheld, Z.add_0_r in *. unfold n_seen in Ha. rewrite Z.add_assoc in Ha.
  split_and!; [done|by apply Hg|done|done| |done].
  intros c. rewrite (h_fifo _ _ Hh). unfold pipeline_of. by rewrite Hc, app_nil_r.
Qed.

(** ** Panics *)

Lemma parse_complete_length buf max source len :
  parse buf max = Ret (Ok (Complete source len)) -> exists rest, advance len buf = Ret rest.
Proof.
  intros Hp. destruct (parse_cases buf max) as
    [[_ E]|[(_ & _ & E)|[(_ & _ & E)|[(_ & _ & E)|(vc & fam & hi & lo & tl & -> & E)]]]];
    rewrite E in Hp; simplify_eq.
  apply header_answer_complete in Hp as (command & address & rest & -> & _ & _ & _ & _ & -> & _).
  eexists. apply advance_Ret. rewrite with_prefix_length, length_app. unfold PREFIX_LEN. lia.
Qed.

Lemma parse_not_panic buf max : exists r, parse buf max = Ret r.
Proof.
  destruct (parse_cases buf max) as
    [[_ ->]|[(_ & _ & ->)|[(_ & _ & ->)|[(_ & _ & ->)|(? & ? & ? & ? & ? & _ & ->)]]]]; eauto.
Qed.

Definition returns {A} (x : outcome A) : Prop := exists a, x = Ret a.

Lemma when_returns b (x : outcome (Sys C * list obs)) : returns x -> returns (when b x).
Proof. intros [r ->]. unfold when. destruct b; cbn; eexists; done. Qed.

Lemma quiet_returns (x : outcome (Sys C)) : returns x -> returns (quiet x).
Proof. intros [r ->]. by eexists. Qed.

Section panics.
Context (Ho : overflow_checks = false) (Hw : config_wf config)
  (Hm : max_pending_per_connection config <= MAX_PERMITS).

Lemma spawn_delivery_returns k : returns (spawn_delivery config k).
Proof.
  destruct Hw as (_ & ? & _). unfold spawn_delivery. case_match; [by eexists|lia].
Qed.

Lemma start_returns c k s : returns (start_turn config c k s).
Proof.
  unfold start_turn. destruct (proxy_protocol config); [by eexists|].
  destruct (spawn_delivery_returns k) as [k' ->]. by eexists.
Qed.

Lemma proxy_parse_returns c k s : returns (proxy_parse config c k s).
Proof.
  unfold proxy_parse. destruct (parse_not_panic (c_buffer k) MAX_PROXY_HEADER_BYTES) as [r E].
  rewrite E. cbn [obind]. destruct r as [[|source len]|e]; [by eexists| |by eexists].
  destruct (parse_complete_length _ _ _ _ E) as [rest ->]. cbn [obind].
  match goal with |- context [spawn_delivery config ?x] =>
    destruct (spawn_delivery_returns x) as [k' ->] end. by eexists.
Qed.

Lemma decode_returns c k now s :
  conn_ok config k -> c_reader k = Decoding -> returns (decode_turn c k now s).
Proof.
  intros Hk Hr. unfold decode_turn. destruct (ok_framer _ _ Hk) as (Hf & _ & Hu); [by rewrite Hr|].
  destruct (decode_at (c_eof k) (c_framer k) (c_buffer k)) as [[[d f] b]|] eqn:E.
  - cbn [obind]. destruct d as [[]|]; by eexists.
  - apply decode_panics_iff in E as [? _]; congruence.
Qed.

Lemma retry_returns p attempt delay : returns (retry p attempt delay).
Proof.
  unfold retry, u32_add, add_wrapping. rewrite Ho. case_match; by eexists.
Qed.

Lemma conn_step_returns c k e s :
  conn_ok config k -> returns (conn_step config c k e s).
Proof.
  intros Hk. unfold conn_step.
  destruct e; try (by eexists); destruct (c_reader k) eqn:Hr; try (by eexists);
    try (destruct (c_task k); try (by eexists));
    apply when_returns; try (apply quiet_returns); try (by eexists);
    auto using start_returns, proxy_parse_returns, decode_returns.
  all: match goal with |- returns (obind (retry ?p ?a ?d) _) =>
         destruct (retry_returns p a d) as [t ->]; by eexists end.
Qed.
End panics.

End props.

(** ** Executions *)

Section executions.
Context `{Profile} {C : Type} `{!LinesCodec C} `{Tokio}.

Lemma run_reachable_from boot config es : forall tr (s : Sys C) s' o,
  reachable boot config tr s -> run config es s = Some (s', o) -> reachable boot config (tr ++ o) s'.
Proof.
  induction es as [|e es IH]; intros tr s s' o Hr; cbn [run].
  - intros [= <- <-]. by rewrite app_nil_r.
  - destruct (step config e s) as [[[s1 o1]|]|] eqn:Hs; try done.
    destruct (run config es s1) as [[s2 o2]|] eqn:Hrun; [|done]. cbn. intros [= <- <-].
    rewrite app_assoc. eapply IH; [|done]. by eapply reachable_step.
Qed.

Lemma run_reachable boot config es (s' : Sys C) o :
  run config es (init boot config) = Some (s', o) -> reachable boot config o s'.
Proof. apply (run_reachable_from boot config es []). constructor. Qed.
End executions.

(** ** Witnesses *)

#[local] Existing Instance release.
#[local] Existing Instance tokio_permits.

(** One TCP listener, three messages at once, one of them queued per connection. *)
Definition demo_config : SyslogConfig :=
  MkSyslogConfig None (Some (bs "127.0.0.1:601")) None false 5000 64 3 1 10 0 64 None 4.

(** A connection sends three messages; the first is with a worker, the second
    queued, the third waiting for a place. *)
Definition demo_events : list event :=
  [EAccept 1 0 (V4 (z2b <$> [192; 0; 2; 7])); EStart 0; EDecode 0 0;
   ERead 0 (ReadBytes (bs "2 ab2 cd2 ef")); EDecode 0 10; EPermit 0; ESend 0; ERecv 0;
   EDecode 0 20; EPermit 0; ESend 0; EDecode 0 30; EPermit 0].

Definition demo : Sys ref_codec * list obs :=
  default (init first_boot demo_config, []) (run demo_config demo_events (init first_boot demo_config)).

Lemma demo_reachable : reachable first_boot demo_config demo.2 demo.1.
Proof. apply (run_reachable first_boot demo_config demo_events). vm_compute. reflexivity. Qed.

Lemma demo_wf : config_wf demo_config.
Proof. unfold config_wf. cbn. split_and!; by vm_compute. Qed.

Lemma demo_limits : limits_ok first_boot demo_config.
Proof. by vm_compute. Qed.

Lemma demo_not_drained : Drained ∉ demo.2.
Proof. vm_compute. intros Hd. repeat (apply elem_of_cons in Hd as [Hd|Hd]; [done|]). by apply elem_of_nil in Hd. Qed.

Lemma pending_bounded_witness :
  0 <= s_credits demo.1 /\ s_credits demo.1 + held demo.1 = max_pending demo_config /\
  held demo.1 <= max_pending demo_config /\
  0 <= s_counters demo.1 pending <= held demo.1 + 0 /\
  (Drained ∉ demo.2 -> s_counters demo.1 pending = held demo.1 + 0).
Proof. apply (pending_bounded first_boot demo_config demo.2 demo.1 demo_wf demo_limits demo_reachable). Defined.

Lemma connection_fifo_witness :
  framed 0 demo.2 = resolved 0 demo.2 ++ pipeline_of demo.1 0.
Proof. apply (connection_fifo first_boot demo_config demo.2 demo.1 0 demo_wf demo_limits demo_reachable). Defined.

Lemma connections_bounded_witness :
  n_conns demo.1 <= max_connections demo_config /\
  eqm (2 ^ 64) (s_counters demo.1 connections_opened + 0)
    (s_counters demo.1 connections_closed + 0 + n_conns demo.1).
Proof. apply (connections_bounded first_boot demo_config demo.2 demo.1 demo_wf demo_limits demo_reachable). Defined.

Lemma message_ids_unique_witness : NoDup (p_message_id <$> all_framed demo.2).
Proof.
  apply (message_ids_unique first_boot demo_config demo.2 demo.1 demo_wf demo_limits demo_reachable).
  vm_compute. reflexivity.
Defined.

Lemma messages_accounted_witness :
  eqm (2 ^ 64)
    (s_counters demo.1 messages_delivered + s_counters demo.1 abandoned_at_shutdown +
     s_counters demo.1 udp_dropped + s_counters demo.1 pending)
    (0 + 0 + zlen (all_framed demo.2) + dropped_unframed demo.2).
Proof.
  apply (messages_accounted first_boot demo_config demo.2 demo.1 demo_wf demo_limits demo_reachable
           demo_not_drained).
Defined.

Definition demo_conn : Conn ref_codec :=
  default (new_conn demo_config None) (s_conns demo.1 !! 0%nat).

Lemma connection_pending_bounded_witness :
  zlen (c_chan demo_conn) <= max_pending_per_connection demo_config /\
  zlen (pipeline demo_conn) <= max_pending_per_connection demo_config + 2 /\
  Forall (fun p => p_peer p = c_peer demo_conn) (pipeline demo_conn).
Proof.
  apply (connection_pending_bounded first_boot demo_config demo.2 demo.1 0 demo_conn demo_wf demo_limits
           demo_reachable).
  vm_compute. reflexivity.
Defined.

(** The bound is reached: three messages of one connection with a limit of one. *)
Example connection_pending_reached :
  reachable first_boot demo_config demo.2 demo.1 /\ s_conns demo.1 !! 0%nat = Some demo_conn /\
  zlen (pipeline demo_conn) = max_pending_per_connection demo_config + 2.
Proof. split; [apply demo_reachable|]. split; vm_compute; reflexivity. Qed.


(** The first message is accepted, the second refused once and then accepted, the
    third lost with the workers; the connection ends and the listener stops. *)
Definition finish_events : list event :=
  demo_events ++
  [EDelivered 0 [SendOk] (Some Accepted); ERecv 0; ESend 0;
   EDelivered 0 [SendOk] (Some Refused); ERetry 0;
   EDelivered 0 [SendFull; SendOk] (Some Accepted); ERecv 0; EDelivered 0 [SendOk] None;
   EDecode 0 40; ERead 0 (ReadBytes []); EDecode 0 50; ERecv 0; EClose 0;
   EStopAccepting; EListenerStop 1].

Definition finish : Sys ref_codec * list obs :=
  default (init first_boot demo_config, []) (run demo_config finish_events (init first_boot demo_config)).

Lemma finish_reachable : reachable first_boot demo_config finish.2 finish.1.
Proof. apply (run_reachable first_boot demo_config finish_events). vm_compute. reflexivity. Qed.

Lemma finish_not_drained : Drained ∉ finish.2.
Proof.
  vm_compute. intros Hd. repeat (apply elem_of_cons in Hd as [Hd|Hd]; [done|]).
  by apply elem_of_nil in Hd.
Qed.

Lemma offered_messages_valid_witness : Forall (offered_ok demo_config) finish.2.
Proof.
  apply (offered_messages_valid first_boot demo_config finish.2 finish.1 demo_wf demo_limits finish_reachable).
Defined.

Lemma drained_clean_witness :
  s_credits finish.1 = max_pending demo_config /\ s_counters finish.1 pending = 0 /\
  s_connections finish.1 = 0 /\
  eqm (2 ^ 64) (s_counters finish.1 connections_opened + 0)
    (s_counters finish.1 connections_closed + 0) /\
  (forall c, resolved c finish.2 = framed c finish.2) /\
  eqm (2 ^ 64)
    (s_counters finish.1 messages_delivered + s_counters finish.1 abandoned_at_shutdown +
     s_counters finish.1 udp_dropped)
    (0 + zlen (all_framed finish.2) + dropped_unframed finish.2).
Proof.
  apply (drained_clean first_boot demo_config finish.2 finish.1 demo_wf demo_limits finish_reachable
           finish_not_drained); vm_compute; reflexivity.
Defined.

(** A drain that gives up while a worker still has a message: the message is counted
    as abandoned, and again as delivered when the worker accepts it. *)
Definition drain_events : list event :=
  demo_events ++ [EStopAccepting; EDrainTimeout; EDelivered 0 [SendOk] (Some Accepted)].

Definition drained : Sys ref_codec * list obs :=
  default (init first_boot demo_config, []) (run demo_config drain_events (init first_boot demo_config)).

(** The account does not survive a drain that gives up: its messages may still
    finish, and one that is then accepted counts as both abandoned and delivered. *)
Theorem drain_counts_twice :
  reachable first_boot demo_config drained.2 drained.1 /\
  zlen (all_framed drained.2) = 3 /\ held drained.1 = 2 /\
  s_counters drained.1 messages_delivered = 1 /\
  s_counters drained.1 abandoned_at_shutdown = 3 /\
  s_counters drained.1 pending = 0.
Proof.
  split; [apply (run_reachable first_boot demo_config drain_events); vm_compute; reflexivity|].
  split_and!; vm_compute; reflexivity.
Qed.

(** A per-connection limit that the configuration accepts and [mpsc::channel] does
    not. *)
Definition huge_config : SyslogConfig :=
  MkSyslogConfig None (Some (bs "127.0.0.1:601")) None false 5000 64 3 u64_max 10 0 64 None 4.

Definition huge_start : Sys ref_codec * list obs :=
  default (init first_boot huge_config, [])
    (run huge_config [EAccept 1 0 (V4 (z2b <$> [192; 0; 2; 7]))] (init first_boot huge_config)).

(** The upper end of [syslog_max_pending_per_connection] is not clamped: a
    configuration the hash may hold makes the task of every connection panic, and
    the connection stays counted. *)
Theorem unclamped_limit_panics :
  config_wf huge_config /\
  (SyslogConfig_apply [(bs "syslog_max_pending_per_connection", RInt u64_max)] SyslogConfig_new).1
    = Ok tt /\
  max_pending_per_connection
    (SyslogConfig_apply [(bs "syslog_max_pending_per_connection", RInt u64_max)]
       SyslogConfig_new).2 = u64_max /\
  reachable first_boot huge_config huge_start.2 huge_start.1 /\
  s_connections huge_start.1 = 1 /\ step huge_config (EStart 0) huge_start.1 = Panic.
Proof.
  split; [unfold config_wf; cbn; split_and!; by vm_compute|].
  split; [vm_compute; reflexivity|]. split; [vm_compute; reflexivity|].
  split; [|split; vm_compute; reflexivity].
  apply (run_reachable first_boot huge_config [EAccept 1 0 (V4 (z2b <$> [192; 0; 2; 7]))]).
  vm_compute. reflexivity.
Qed.
