(* ===== verification/Process.v ===== *)
(** * The life of a process

    A server can be stopped and started again, and started again without having
    been stopped: a runtime is then dropped with whatever its tasks still hold.
    What the process keeps from one start to the next is the server object's
    counters and [NEXT_MESSAGE_ID]. *)
From S2P Require Import Prelude Utf8 Decimal LinesCodec Framing FramingSpec FramingStream.
From S2P Require Import FramingProps Proxy ProxyProps Peer Http Response Syslog SyslogProps.
From S2P Require Import HandleRequest Delivery System SystemRules SystemInv SystemProps.

Local Open Scope Z_scope.

Section process.
Context `{Profile} {C : Type} `{!LinesCodec C, !LinesCodecSpec C} `{Tokio}.

(** What the end of a runtime leaves. *)
Definition shut (s : Sys C) : Boot := MkBoot (s_counters s) (s_next_message_id s).

(** [generations trs lost boot]: the runtimes so far saw [trs], [lost] messages were
    held by a runtime when it was dropped, and the next start finds [boot]. *)
Inductive generations : list (list obs) -> Z -> Boot -> Prop :=
| first_generation : generations [] 0 first_boot
| next_generation trs lost boot config tr (s : Sys C) :
    generations trs lost boot -> config_wf config -> reachable boot config tr s ->
    generations (trs ++ [tr]) (lost + held s) (shut s).

Lemma all_framed_app tr o : all_framed (tr ++ o) = all_framed tr ++ all_framed o.
Proof. apply omap_app. Qed.

Lemma message_ids_app boot m n :
  message_ids boot (m + n) =
  message_ids boot m ++ message_ids (MkBoot (b_counters boot) (b_next_message_id boot + Z.of_nat m)) n.
Proof.
  unfold message_ids. rewrite seq_app, fmap_app. f_equal. cbn. rewrite <- (Nat.add_0_r m) at 1.
  rewrite <- fmap_add_seq, <- list_fmap_compose. apply list_fmap_ext. intros i j _. cbn. f_equal. lia.
Qed.

Lemma message_ids_mod boot n :
  message_ids (MkBoot (b_counters boot) (b_next_message_id boot mod 2 ^ 64)) n = message_ids boot n.
Proof.
  unfold message_ids. apply list_fmap_ext. intros i j _. cbn. by rewrite Z.add_mod_idemp_l.
Qed.

(** The identities of one more generation go on from those before. *)
Lemma generation_ids trs lost boot :
  generations trs lost boot ->
  (p_message_id <$> all_framed (concat trs) =
     message_ids first_boot (length (all_framed (concat trs)))) /\
  b_next_message_id boot = (1 + zlen (all_framed (concat trs))) mod 2 ^ 64.
Proof.
  induction 1 as [|trs lost boot config tr s Hg [Hi Hn] Hw Hr]; [done|].
  assert (Hb : 0 <= b_next_message_id boot < 2 ^ 64) by (rewrite Hn; by apply Z.mod_pos_bound).
  destruct (reachable_history boot config tr s Hw Hb Hr) as [_ [_ Hi' Hn' _ _]].
  rewrite concat_app, all_framed_app, fmap_app, length_app. cbn [concat]. rewrite app_nil_r. split.
  - rewrite Hi, Hi', message_ids_app. f_equal. cbn.
    rewrite <- (message_ids_mod (MkBoot _ _)). cbn. unfold message_ids. cbn. by rewrite Hn.
  - cbn. rewrite Hn', Hn, Z.add_mod_idemp_l by done. f_equal. lia.
Qed.

(** C15. Message identities are unique for the life of the process: across connections,
    datagrams and restarts, until 2^64 messages have been framed. *)
Theorem process_ids_unique trs lost boot config tr (s : Sys C) :
  generations trs lost boot -> config_wf config -> reachable boot config tr s ->
  zlen (all_framed (concat trs ++ tr)) < 2 ^ 64 ->
  NoDup (p_message_id <$> all_framed (concat trs ++ tr)).
Proof.
  intros Hg Hw Hr Hlen. pose proof (next_generation _ _ _ _ _ _ Hg Hw Hr) as Hg'.
  destruct (generation_ids _ _ _ Hg') as [Hi _]. rewrite concat_app in Hi. cbn [concat] in Hi.
  rewrite app_nil_r in Hi. rewrite Hi. unfold message_ids.
  apply NoDup_fmap_2_strong; [|apply NoDup_seq]. intros i j Hx%elem_of_seq Hy%elem_of_seq E.
  apply Nat2Z.inj, (mod_offset_inj 1 (2 ^ 64)); [lia..|done].
Qed.

Lemma accounted_shut (s : Sys C) : accounted s = accounted_before (shut s) + held s.
Proof. done. Qed.

(** C40. Messages are accounted for over restarts too: while no drain gives up, those
    delivered, abandoned and dropped, and those lost with a runtime, are exactly the
    messages framed and the datagrams that found no permit since the process began. *)
Theorem process_accounted trs lost boot :
  generations trs lost boot -> Forall (fun tr => Drained ∉ tr) trs ->
  eqm (2 ^ 64) (accounted_before boot + lost) (n_seen (concat trs)).
Proof.
  induction 1 as [|trs lost boot config tr s Hg IH Hw Hr]; [done|].
  rewrite Forall_app, Forall_singleton. intros [Hd Hdt].
  destruct (generation_ids _ _ _ Hg) as [_ Hn].
  assert (Hb : 0 <= b_next_message_id boot < 2 ^ 64) by (rewrite Hn; by apply Z.mod_pos_bound).
  destruct (reachable_history boot config tr s Hw Hb Hr) as [_ Hh].
  pose proof (h_account _ _ _ _ Hh Hdt) as Ha. rewrite accounted_shut in Ha.
  rewrite concat_app, n_seen_app. cbn [concat]. rewrite app_nil_r. specialize (IH Hd). revert Ha IH.
  rewrite !eqm_iff. intros [q Ha] [q' Hl]. exists (q + q'). lia.
Qed.
End process.

(** ** Witnesses *)

#[local] Existing Instance release.
#[local] Existing Instance tokio_permits.

(** The server of [demo] is started again while it holds three messages, and frames
    three more. *)
Definition restarted : Sys ref_codec * list obs :=
  default (init (shut demo.1) demo_config, [])
    (run demo_config demo_events (init (shut demo.1) demo_config)).

Lemma restarted_reachable : reachable (shut demo.1) demo_config restarted.2 restarted.1.
Proof. apply (run_reachable (shut demo.1) demo_config demo_events). vm_compute. reflexivity. Qed.

Lemma demo_generation : generations [demo.2] (0 + held demo.1) (shut demo.1).
Proof.
  apply (next_generation [] 0 first_boot demo_config demo.2 demo.1);
    [constructor|apply demo_wf|apply demo_reachable].
Qed.

Lemma process_ids_unique_witness :
  (p_message_id <$> all_framed (concat [demo.2] ++ restarted.2)) = [1; 2; 3; 4; 5; 6] /\
  NoDup (p_message_id <$> all_framed (concat [demo.2] ++ restarted.2)).
Proof.
  split; [vm_compute; reflexivity|].
  apply (process_ids_unique [demo.2] (0 + held demo.1) (shut demo.1) demo_config
           restarted.2 restarted.1 demo_generation demo_wf restarted_reachable).
  vm_compute. reflexivity.
Defined.

Lemma process_accounted_witness :
  eqm (2 ^ 64) (accounted_before (shut demo.1) + (0 + held demo.1)) (n_seen (concat [demo.2])).
Proof.
  apply (process_accounted [demo.2] (0 + held demo.1) (shut demo.1) demo_generation).
  constructor; [apply demo_not_drained|constructor].
Defined.

(** The gauge is not reset by a start: the three messages lost with the first runtime
    stay pending, next to the three the second one holds. *)
Example lost_messages_stay_pending :
  held (init (shut demo.1) demo_config : Sys ref_codec) = 0 /\
  s_counters (init (shut demo.1) demo_config : Sys ref_codec) pending = 3 /\
  held restarted.1 = 3 /\ s_counters restarted.1 pending = 6.
Proof. split_and!; vm_compute; reflexivity. Qed.
