(* ===== verification/Drain.v ===== *)
(** * A drain completes

    Once the listeners have been told to stop, and as long as the network brings
    nothing more, every step brings the drain closer to its end and some task can
    always take one: a drain neither runs for ever nor gets stuck, whatever the
    workers answer and in whatever order the tasks run. *)
From S2P Require Import Prelude Utf8 Decimal LinesCodec Framing FramingSpec FramingStream.
From S2P Require Import FramingProps Proxy ProxyProps Peer Http Response Syslog SyslogProps.
From S2P Require Import HandleRequest Delivery System SystemRules SystemInv SystemProps.

Local Open Scope Z_scope.

(** Steps that are no input of the network and no decision of [Server::stop]. *)
Definition quiet_event (e : event) : bool :=
  match e with
  | EAccept _ _ _ | EAcceptError _ | EProxyRead _ _ | ERead _ _ | EDatagram _ _ _ _ | EDatagramError
  | EStopAccepting | EDrainTimeout => false
  | _ => true
  end.

Section drain.
Context `{Profile} {C : Type} `{!LinesCodec C, !LinesCodecSpec C} `{Tokio}.
Context (boot : Boot) (config : SyslogConfig).
Implicit Types (k : Conn C) (s : Sys C).

(** ** How much there is left to do *)

(** A message costs five steps: decoding, a permit, a place in the queue, and its
    way through the delivery task; one that sleeps before a retry, one more. *)
Definition reader_work k : Z :=
  let calls := Z.of_nat (codec_rank (other (c_framer k)) (c_buffer k)) in
  match c_reader k with
  | Starting => 6 * calls + 5
  | ProxyParsing => 6 * calls + 4
  | Decoding => 6 * calls + 2
  | WantPermit _ _ => 6 * calls + 7
  | WantSlot _ => 6 * calls + 6
  | ProxyReading | Reading => 1
  | ReaderDone => 0
  end.

Definition task_work (t : Task) : Z :=
  match t with
  | TaskRecv => 1
  | TaskDelivering _ _ _ => 3
  | TaskBackoff _ _ _ => 4
  | TaskDone => 0
  end.

Definition conn_work k : Z := 1 + reader_work k + 3 * zlen (c_chan k) + task_work (c_task k).

Definition listener_work (t : ListenerTask) : Z :=
  match t with
  | Accepting _ => 1
  | Refusing _ => 2
  end.

Definition work s : Z :=
  map_sum conn_work (s_conns s) + map_sum listener_work (s_listeners s) +
  Z.of_nat (size (s_datagrams s)) + (if s_udp s then 1 else 0).

Lemma conn_work_pos k : 1 <= conn_work k.
Proof. unfold conn_work, reader_work, task_work. destruct (c_reader k), (c_task k); lia. Qed.

Lemma work_nonneg s : 0 <= work s.
Proof.
  unfold work. pose proof (map_sum_nonneg conn_work (s_conns s)
    ltac:(intros k; pose proof (conn_work_pos k); lia)).
  pose proof (map_sum_nonneg listener_work (s_listeners s) ltac:(intros []; cbn; lia)).
  destruct (s_udp s); lia.
Qed.

(** What a connection's step leaves of the other tasks. *)
Definition others_same s s' : Prop :=
  s_listeners s' = s_listeners s /\ s_datagrams s' = s_datagrams s /\ s_udp s' = s_udp s.

Inductive conn_shrinks c k s s' : Prop :=
| shrinks_update k' :
    s_conns s' = <[c := k']> (s_conns s) -> others_same s s' -> conn_work k' < conn_work k ->
    conn_shrinks c k s s'
| shrinks_delete :
    s_conns s' = delete c (s_conns s) -> others_same s s' -> conn_shrinks c k s s'.

Lemma conn_shrinks_work c k s s' :
  s_conns s !! c = Some k -> conn_shrinks c k s s' -> work s' < work s.
Proof.
  intros Hk [k' E (El & Ed & Eu) Hlt|E (El & Ed & Eu)]; unfold work; rewrite E, El, Ed, Eu.
  - rewrite (map_sum_update _ _ _ _ k' Hk). lia.
  - rewrite (map_sum_delete _ _ _ _ Hk). pose proof (conn_work_pos k). lia.
Qed.

Lemma updates_shrink c k k' s :
  conn_work k' < conn_work k -> conn_shrinks c k s (set_conn c k' s).
Proof. intros ?. by apply (shrinks_update _ _ _ _ k'). Qed.

Lemma proxy_parse_shrinks c k s s' :
  c_reader k = ProxyParsing -> proxy_parse config c k s = Ret s' -> conn_shrinks c k s s'.
Proof.
  intros Hr. unfold proxy_parse.
  destruct (parse (c_buffer k) MAX_PROXY_HEADER_BYTES) as [[[|source len]|e]|]; cbn; [| | |done].
  - intros [= <-]. apply updates_shrink. unfold conn_work, reader_work. rewrite Hr. cbn. lia.
  - destruct (advance len (c_buffer k)) as [rest|] eqn:Ha; [|done]. cbn.
    destruct (spawn_delivery config _) as [k'|] eqn:Hs; [|done]. cbn. intros [= <-].
    apply spawn_delivery_inv in Hs as ->. apply updates_shrink.
    unfold conn_work, reader_work. rewrite Hr. cbn.
    apply advance_Ret_inv in Ha as [_ ->].
    pose proof (codec_rank_suffix (other (c_framer k)) (take (Z.to_nat len) (c_buffer k))
      (drop (Z.to_nat len) (c_buffer k))) as Hx.
    rewrite take_drop in Hx. lia.
  - intros [= <-]. by apply shrinks_delete.
Qed.

Lemma decode_shrinks c k now s s' :
  conn_ok config k -> c_reader k = Decoding -> decode_turn c k now s = Ret s' ->
  conn_shrinks c k s s'.
Proof.
  intros Hk Hr. unfold decode_turn. destruct (ok_framer _ _ Hk) as (Hf & _ & Hu); [by rewrite Hr|].
  destruct (decode_at (c_eof k) (c_framer k) (c_buffer k)) as [[[d f] b]|] eqn:E; [|done]. cbn.
  pose proof (decode_at_rank _ _ _ _ _ _ Hf Hu E) as Hrank.
  destruct d as [[m|]|e]; intros [= <-].
  - apply updates_shrink. unfold conn_work, reader_work. rewrite Hr. cbn.
    specialize (Hrank ltac:(done) ltac:(done)). lia.
  - apply updates_shrink. unfold conn_work, reader_work. rewrite Hr. cbn. destruct (c_eof k); lia.
  - eapply shrinks_update; [done|done|]. unfold conn_work, reader_work. rewrite Hr. cbn.
    destruct (fatal e) eqn:He; [lia|]. specialize (Hrank ltac:(done) ltac:(by intros ? [= <-])). lia.
Qed.

Lemma recv_shrinks c k s s' o :
  c_task k = TaskRecv -> recv_turn c k s = Some (s', o) -> conn_shrinks c k s s'.
Proof.
  intros Ht. unfold recv_turn. destruct (c_chan k) as [|p rest] eqn:Hc.
  - destruct (c_reader k) eqn:Hr; try done. intros [= <- <-]. apply updates_shrink.
    unfold conn_work, reader_work. rewrite Ht, Hr. cbn. rewrite Hr. lia.
  - cbn. destruct (c_workers_gone k); intros [= <- <-]; (eapply shrinks_update; [done|done|]);
      unfold conn_work, reader_work; rewrite Ht, Hc; cbn; rewrite ?Ht; cbn; lia.
Qed.

(** A refusal is final once the listeners are to stop. *)
Lemma delivered_shrinks c k p attempt delay sends verdict s s' o :
  s_cancelled s = true -> c_task k = TaskDelivering p attempt delay ->
  delivered_turn c k p attempt delay sends verdict s = Some (s', o) -> conn_shrinks c k s s'.
Proof.
  intros Hx Ht. unfold delivered_turn.
  destruct (deliver sends verdict (s_counters s)) as [[out counters]|]; [|done]. cbn. rewrite Hx.
  destruct out; cbn; intros [= <- <-]; (eapply shrinks_update; [done|done|]);
    unfold conn_work, reader_work; rewrite Ht; cbn; lia.
Qed.

Lemma start_shrinks c k s s' :
  c_reader k = Starting -> start_turn config c k s = Ret s' -> conn_shrinks c k s s'.
Proof.
  intros Hr. unfold start_turn. destruct (proxy_protocol config); cbn.
  - intros [= <-]. apply updates_shrink. unfold conn_work, reader_work. rewrite Hr. cbn. lia.
  - destruct (spawn_delivery config k) as [k'|] eqn:Hs; [|done]. cbn. intros [= <-].
    apply spawn_delivery_inv in Hs as ->. apply updates_shrink.
    unfold conn_work, reader_work. rewrite Hr. cbn. lia.
Qed.

Lemma retry_shrinks c k p attempt delay s s' :
  c_task k = TaskBackoff p attempt delay ->
  (let* t := retry p attempt delay in Ret (set_conn c (set_task t (c_workers_gone k) k) s)) = Ret s' ->
  conn_shrinks c k s s'.
Proof.
  intros Ht. unfold retry. destruct (u32_add attempt 1) as [a|]; [|done]. cbn. intros [= <-].
  apply updates_shrink. unfold conn_work, reader_work. rewrite Ht. cbn. lia.
Qed.

(** Waiting for a place in the queue ends with the message in it. *)
Lemma send_shrinks c k p s s' o :
  c_reader k = WantSlot p ->
  match c_task k with
  | TaskDone => when true (Ret (send_failed c k p s))
  | _ => when (zlen (c_chan k) <? max_pending_per_connection config)
           (quiet (Ret (set_conn c (set_reader Decoding (set_chan (c_chan k ++ [p]) k)) s)))
  end = Ret (Some (s', o)) -> conn_shrinks c k s s'.
Proof.
  intros Hr.
  assert (c_task k = TaskDone \/ c_task k <> TaskDone) as [Ht|Ht]
    by (destruct (c_task k); auto).
  - rewrite Ht. intros [= <- <-]. eapply shrinks_update; [done|done|].
    unfold conn_work, reader_work. rewrite Hr. cbn. lia.
  - intros E. assert (Hs : s' = set_conn c (set_reader Decoding (set_chan (c_chan k ++ [p]) k)) s).
    { destruct (c_task k); try done; apply when_inv in E as [_ [[= <-] _]%quiet_inv]; done. }
    rewrite Hs. apply updates_shrink. unfold conn_work, reader_work. rewrite Hr. cbn.
    rewrite length_app. cbn. lia.
Qed.

(** A reader that is waiting gives up. *)
Lemma stops_shrink c k s : c_reader k = Reading -> conn_shrinks c k s (set_conn c (set_reader ReaderDone k) s).
Proof. intros Hr. apply updates_shrink. unfold conn_work, reader_work. rewrite Hr. cbn. lia. Qed.

Lemma conn_step_shrinks c k e s s' o :
  conn_ok config k -> s_cancelled s = true -> quiet_event e = true ->
  conn_step config c k e s = Ret (Some (s', o)) -> conn_shrinks c k s s'.
Proof.
  intros Hk Hx He. unfold conn_step.
  destruct e; try done.
  all: try (destruct (c_reader k) eqn:Hr; [..|]; try done;
    intros [_ [E _]%quiet_inv]%when_inv; by eauto using start_shrinks, proxy_parse_shrinks, decode_shrinks).
  - destruct (c_reader k) eqn:Hr; try done. intros [_ [[= <-] _]%quiet_inv]%when_inv.
    by apply shrinks_delete.
  - destruct (c_reader k) eqn:Hr; try done. intros [_ [= <- <-]]%when_inv.
    eapply shrinks_update; [done|done|]. unfold conn_work, reader_work. rewrite Hr. cbn. lia.
  - destruct (c_reader k) eqn:Hr; try done. by apply send_shrinks.
  - destruct (c_reader k) eqn:Hr; try done. intros [_ [[= <-] _]%quiet_inv]%when_inv.
    by apply stops_shrink.
  - destruct (c_reader k) eqn:Hr; try done. intros [_ [[= <-] _]%quiet_inv]%when_inv.
    by apply stops_shrink.
  - destruct (c_task k) eqn:Ht; try done. intros [= E]. by eapply recv_shrinks.
  - destruct (c_task k) eqn:Ht; try done. intros [= E]. by eapply delivered_shrinks.
  - destruct (c_task k) eqn:Ht; try done. intros [_ [E _]%quiet_inv]%when_inv. by eapply retry_shrinks.
  - destruct (c_reader k), (c_task k); try done. intros [_ [[= <-] _]%quiet_inv]%when_inv.
    by apply shrinks_delete.
Qed.

Lemma quiet_step_shrinks e s s' o :
  all_ok config s -> s_cancelled s = true -> quiet_event e = true ->
  step config e s = Ret (Some (s', o)) -> work s' < work s.
Proof.
  intros [Hok _] Hx He. unfold step. destruct (event_conn e) as [c|] eqn:Hc.
  { destruct (s_conns s !! c) as [k|] eqn:Hk; [|done]. intros E.
    eapply conn_shrinks_work; [done|]. eapply conn_step_shrinks; [|done..|done].
    by apply (map_Forall_lookup_1 _ _ _ _ Hok Hk). }
  destruct (event_listener e) as [l|] eqn:Hl.
  { destruct (s_listeners s !! l) as [li|] eqn:Hli; [|done]. unfold listener_step.
    destruct e; try done; destruct li as [li|li]; try done; intros [_ [[= <-] _]%quiet_inv]%when_inv;
      unfold work; cbn; [rewrite (map_sum_update _ _ _ _ _ Hli)|rewrite (map_sum_delete _ _ _ _ Hli)];
      cbn; lia. }
  unfold other_step. destruct e; try done.
  - destruct (s_datagrams s !! d) as [p|] eqn:Hd; [|done]. unfold datagram_delivered.
    destruct (deliver sends verdict (s_counters s)) as [[out counters]|]; [|done]. cbn.
    intros [= <- <-]. unfold work. cbn. rewrite (size_delete _ _ _ Hd). lia.
  - rewrite Hx, andb_true_r. intros [Hu [= <- <-]]%when_inv. unfold work. cbn. rewrite Hu. lia.
Qed.

(** ** Some task can always go on *)

(** Nothing is running any more. *)
Definition finished s : Prop :=
  s_conns s = ∅ /\ s_listeners s = ∅ /\ s_datagrams s = ∅ /\ s_udp s = false.

Definition can_step s : Prop :=
  exists e s' o, quiet_event e = true /\ step config e s = Ret (Some (s', o)).

Section progress.
Context (Ho : overflow_checks = false) (Hw : config_wf config)
  (Hm : max_pending_per_connection config <= MAX_PERMITS).

(** An event of a connection that is enabled. *)
Lemma conn_can_step c k e s r :
  s_conns s !! c = Some k -> event_conn e = Some c -> quiet_event e = true ->
  conn_step config c k e s = Ret (Some r) -> can_step s.
Proof.
  intros Hk Hc He E. exists e, r.1, r.2. split; [done|]. unfold step. by rewrite Hc, Hk, E, <- surjective_pairing.
Qed.

Lemma pipeline_moves c k s :
  conn_ok config k -> s_conns s !! c = Some k -> pipeline k <> [] -> can_step s.
Proof.
  intros Hk Hc Hp. destruct (c_task k) as [|p attempt delay|p attempt delay|] eqn:Ht.
  - destruct (c_chan k) as [|p rest] eqn:Hch.
    + destruct (c_reader k) eqn:Hr; try (unfold pipeline in Hp; by rewrite Ht, Hch, Hr in Hp).
      eapply (conn_can_step c k (ESend c)); [done..|]. unfold conn_step. rewrite Hr, Ht, Hch.
      destruct Hw as (_ & ? & _). unfold when. rewrite (proj2 (Z.ltb_lt _ _)) by (cbn; lia). done.
    + destruct (recv_turn c k s) as [r|] eqn:E.
      * eapply (conn_can_step c k (ERecv c)); [done..|]. unfold conn_step. rewrite Ht, E. done.
      * unfold recv_turn in E. rewrite Hch in E. by case_match.
  - eapply (conn_can_step c k (EDelivered c [SendOk] (Some Accepted))); [done..|].
    unfold conn_step. rewrite Ht. done.
  - destruct (retry_returns Ho p attempt delay) as [t E].
    eapply (conn_can_step c k (ERetry c)); [done..|]. unfold conn_step. rewrite Ht, E. done.
  - destruct (ok_done _ _ Hk Ht) as [Hr Hch]. unfold pipeline in Hp. by rewrite Ht, Hr, Hch in Hp.
Qed.

Lemma datagram_moves d p s : s_datagrams s !! d = Some p -> can_step s.
Proof.
  intros Hd. exists (EDatagramDelivered d [SendOk] (Some Accepted)).
  unfold step, other_step. cbn [event_conn event_listener]. rewrite Hd. by do 2 eexists.
Qed.

(** Whoever holds a message can go on with it. *)
Lemma held_moves s : all_ok config s -> 0 < held s -> can_step s.
Proof.
  intros [Hok _] Hh. unfold held in Hh.
  destruct (decide (s_datagrams s = ∅)) as [E|(d & p & Hd)%map_choose]; [|by eapply datagram_moves].
  rewrite E, map_size_empty in Hh.
  destruct (map_sum_pos (fun k => zlen (pipeline k)) (s_conns s)) as (c & k & Hc & Hp); [lia|].
  eapply pipeline_moves; [|done|by intros En; rewrite En in Hp].
  by apply (map_Forall_lookup_1 _ _ _ _ Hok Hc).
Qed.

(** A reader waits for nothing but a permit, and then somebody holds one. *)
Lemma reader_moves c k s :
  all_ok config s -> s_cancelled s = true -> s_credits s + held s = max_pending config ->
  s_conns s !! c = Some k -> c_reader k <> ReaderDone -> pipeline k = [] -> can_step s.
Proof.
  intros Hall Hx Hpe Hc Hr Hp.
  pose proof (map_Forall_lookup_1 _ _ _ _ (proj1 Hall) Hc) as Hk.
  destruct (c_reader k) as [| | | |m t|p| |] eqn:E; [| | | | | | |done].
  - destruct (start_returns config Hw Hm c k s) as [s' Es].
    eapply (conn_can_step c k (EStart c)); [done..|]. unfold conn_step. by rewrite E, Es.
  - destruct (proxy_parse_returns config Hw Hm c k s) as [s' Es].
    eapply (conn_can_step c k (EProxyParse c)); [done..|]. unfold conn_step. by rewrite E, Es.
  - eapply (conn_can_step c k (EProxyTimeout c)); [done..|]. unfold conn_step. by rewrite E.
  - destruct (decode_returns config Ho c k 0 s Hk E) as [s' Es].
    eapply (conn_can_step c k (EDecode c 0)); [done..|]. unfold conn_step. by rewrite E, Es.
  - destruct (Z.lt_ge_cases 0 (s_credits s)) as [Hcr|Hcr].
    + destruct (permit_granted c k m t s) as [s' p] eqn:Ep.
      eapply (conn_can_step c k (EPermit c)); [done..|]. unfold conn_step.
      rewrite E, Ep, (proj2 (Z.ltb_lt _ _) Hcr). done.
    + destruct Hw as (? & _). apply held_moves; [done|lia].
  - unfold pipeline in Hp. rewrite E in Hp. by apply app_eq_nil in Hp as [_ [_ ?]%app_eq_nil].
  - eapply (conn_can_step c k (EReadsStop c)); [done..|]. unfold conn_step. by rewrite E, Hx.
Qed.

(** A connection whose reader is done ends with its delivery task. *)
Lemma task_moves c k s :
  s_conns s !! c = Some k -> c_reader k = ReaderDone -> pipeline k = [] -> can_step s.
Proof.
  intros Hc Hr Hp. unfold pipeline in Hp. destruct (c_task k) eqn:Ht; try done.
  - destruct (c_chan k) eqn:Hch; [|done]. eapply (conn_can_step c k (ERecv c)); [done..|].
    unfold conn_step, recv_turn. by rewrite Ht, Hch, Hr.
  - eapply (conn_can_step c k (EClose c)); [done..|]. unfold conn_step. by rewrite Hr, Ht.
Qed.

Lemma listener_moves l t s : s_cancelled s = true -> s_listeners s !! l = Some t -> can_step s.
Proof.
  intros Hx Hl. destruct t as [li|li]; [exists (EListenerStop l)|exists (ERefused l)];
    unfold step; cbn [event_conn event_listener]; rewrite Hl; unfold listener_step; rewrite ?Hx;
    by do 2 eexists.
Qed.

Lemma drain_progress s :
  all_ok config s -> s_cancelled s = true -> s_credits s + held s = max_pending config ->
  finished s \/ can_step s.
Proof.
  intros Hall Hx Hpe.
  destruct (decide (s_listeners s = ∅)) as [El|(l & t & Hl)%map_choose];
    [|right; by eapply listener_moves].
  destruct (decide (s_datagrams s = ∅)) as [Ed|(d & p & Hd)%map_choose];
    [|right; by eapply datagram_moves].
  destruct (s_udp s) eqn:Eu.
  { right. exists EUdpStop. unfold step, other_step. cbn [event_conn event_listener].
    rewrite Eu, Hx. by do 2 eexists. }
  destruct (decide (s_conns s = ∅)) as [Ec|(c & k & Hc)%map_choose]; [by left|right].
  destruct (decide (pipeline k = [])) as [Hp|Hp].
  - destruct (decide (c_reader k = ReaderDone)); [by eapply task_moves|by eapply reader_moves].
  - eapply pipeline_moves; [|done..]. by apply (map_Forall_lookup_1 _ _ _ _ (proj1 Hall) Hc).
Qed.
End progress.

(** ** Runs *)

(** Nobody takes a decision to stop back. *)
Lemma step_cancelled e s s' o :
  step config e s = Ret (Some (s', o)) -> s_cancelled s = true -> s_cancelled s' = true.
Proof.
  intros Hs%step_istep Hx. destruct Hs; try done; try (by destruct f).
  unfold datagram_turn. by repeat case_match.
Qed.

Lemma run_cancelled es : forall s s' o,
  run config es s = Some (s', o) -> s_cancelled s = true -> s_cancelled s' = true.
Proof.
  induction es as [|e es IH]; intros s s' o; cbn [run]; [by intros [= <- _]|].
  destruct (step config e s) as [[[s1 o1]|]|] eqn:Hs; try done.
  destruct (run config es s1) as [[s2 o2]|] eqn:Hr; [|done]. cbn. intros [= <- _] Hx.
  eapply IH; [done|]. by eapply step_cancelled.
Qed.

Lemma quiet_run_shrinks es : forall s s' o,
  config_wf config -> all_ok config s -> s_cancelled s = true ->
  Forall (fun e => quiet_event e = true) es -> run config es s = Some (s', o) ->
  zlen es <= work s - work s'.
Proof.
  induction es as [|e es IH]; intros s s' o Hw Hok Hx Hq; cbn [run]; [intros [= <- _]; cbn; lia|].
  apply Forall_cons in Hq as [He Hq].
  destruct (step config e s) as [[[s1 o1]|]|] eqn:Hs; try done.
  destruct (run config es s1) as [[s2 o2]|] eqn:Hr; [|done]. cbn [mbind option_bind]. intros [= <- _].
  pose proof (quiet_step_shrinks _ _ _ _ Hok Hx He Hs).
  pose proof (istep_all_ok config _ _ _ Hw Hok (step_istep _ _ _ _ _ Hs)).
  pose proof (IH _ _ _ Hw ltac:(done) (step_cancelled _ _ _ _ Hs Hx) Hq Hr). cbn [length]. lia.
Qed.

Section completes.
Context (Ho : overflow_checks = false) (Hw : config_wf config) (Hl : limits_ok boot config)
  (Hm : max_pending_per_connection config <= MAX_PERMITS).

Lemma reachable_progress tr s :
  reachable boot config tr s -> s_cancelled s = true -> finished s \/ can_step s.
Proof.
  intros Hr Hx. destruct (reachable_invariant boot config tr s Hw Hl Hr) as [Hok (_ & Hp & _) _ _].
  by apply drain_progress.
Qed.

Lemma drain_run n : forall tr s,
  reachable boot config tr s -> s_cancelled s = true -> work s < Z.of_nat n ->
  exists es s' o, Forall (fun e => quiet_event e = true) es /\
    run config es s = Some (s', o) /\ finished s'.
Proof.
  induction n as [|n IH]; intros tr s Hr Hx Hn; [pose proof (work_nonneg s); lia|].
  destruct (reachable_progress tr s Hr Hx) as [Hf|(e & s1 & o1 & He & Hs)]; [by exists [], s, []|].
  destruct (reachable_invariant boot config tr s Hw Hl Hr) as [Hok _ _ _].
  pose proof (quiet_step_shrinks _ _ _ _ Hok Hx He Hs).
  destruct (IH (tr ++ o1) s1) as (es & s2 & o2 & Hq & Hrun & Hf); [|by eapply step_cancelled|lia|].
  { by eapply reachable_step. }
  exists (e :: es), s2, (o1 ++ o2). split; [by constructor|]. split; [|done]. cbn [run].
  by rewrite Hs, Hrun.
Qed.
End completes.

(** C5. A drain completes.  Once the listeners are to stop, and while the network brings
    nothing more, no interleaving of the tasks takes more than [work s] steps,
    whatever the workers answer; until nothing is left some task can always take one,
    so no deadlock between permits, queues and retries is possible; and there is a
    run that ends with every connection, datagram and listener gone. *)
Theorem drain_completes tr s :
  overflow_checks = false -> config_wf config -> limits_ok boot config ->
  max_pending_per_connection config <= MAX_PERMITS ->
  reachable boot config tr s -> s_cancelled s = true ->
  (forall es s' o, Forall (fun e => quiet_event e = true) es -> run config es s = Some (s', o) ->
     zlen es <= work s - work s' /\ 0 <= work s' /\ (finished s' \/ can_step s')) /\
  (exists es s' o, Forall (fun e => quiet_event e = true) es /\
     run config es s = Some (s', o) /\ finished s').
Proof.
  intros Ho Hw Hl Hm Hr Hx. split.
  - intros es s' o Hq Hrun. destruct (reachable_invariant boot config tr s Hw Hl Hr) as [Hok _ _ _].
    split_and!; [by eapply quiet_run_shrinks|apply work_nonneg|].
    eapply reachable_progress; [done..|by eapply run_reachable_from|by eapply run_cancelled].
  - apply (drain_run Ho Hw Hl Hm (Z.to_nat (work s + 1)) tr s Hr Hx). pose proof (work_nonneg s). lia.
Qed.
End drain.

(** ** Witness *)

#[local] Existing Instance release.
#[local] Existing Instance tokio_permits.

(** The server of [demo], told to stop with three messages on their way and every
    permit taken. *)
Definition stopping : Sys ref_codec * list obs :=
  default (init first_boot demo_config, [])
    (run demo_config (demo_events ++ [EStopAccepting]) (init first_boot demo_config)).

Lemma stopping_reachable : reachable first_boot demo_config stopping.2 stopping.1.
Proof. apply (run_reachable first_boot demo_config (demo_events ++ [EStopAccepting])). vm_compute. reflexivity. Qed.

Lemma drain_completes_witness :
  held stopping.1 = 3 /\ s_credits stopping.1 = 0 /\
  (forall es s' o, Forall (fun e => quiet_event e = true) es ->
     run demo_config es stopping.1 = Some (s', o) ->
     zlen es <= work stopping.1 - work s' /\ 0 <= work s' /\
     (finished s' \/ can_step demo_config s')) /\
  (exists es s' o, Forall (fun e => quiet_event e = true) es /\
     run demo_config es stopping.1 = Some (s', o) /\ finished s').
Proof.
  split; [vm_compute; reflexivity|]. split; [vm_compute; reflexivity|].
  apply (drain_completes first_boot demo_config stopping.2 stopping.1);
    [reflexivity|apply demo_wf|apply demo_limits|by vm_compute|apply stopping_reachable|
     vm_compute; reflexivity].
Defined.
