(* ===== verification/SystemStream.v ===== *)
(** * From the wire to the workers

    What a connection frames is what its sender wrote: a PROXY header, where one
    is required, and then octet counted and newline terminated frames, however
    their bytes are cut into reads and however the tasks of the system
    interleave. *)
From S2P Require Import Prelude Utf8 Decimal LinesCodec Framing FramingSpec FramingStream.
From S2P Require Import FramingProps Proxy ProxyProps Peer Http Response Syslog SyslogProps.
From S2P Require Import HandleRequest Delivery System SystemRules SystemInv SystemProps.

Local Open Scope Z_scope.

(** What has been seen since connection [c] was last opened. *)
Definition since_open (c : nat) (tr : list obs) : list obs :=
  foldl (fun seen o => match o with
                       | Opened c' => if decide (c' = c) then [] else seen ++ [o]
                       | _ => seen ++ [o]
                       end) [] tr.

Definition read_on (c : nat) (o : obs) : option bytes :=
  match o with
  | BytesRead c' data => if decide (c' = c) then Some data else None
  | _ => None
  end.

(** The bytes read on a connection. *)
Definition bytes_on (c : nat) (tr : list obs) : bytes := concat (omap (read_on c) tr).

Definition opens (c : nat) (o : obs) : Prop := o = Opened c.

Lemma since_open_app c tr o :
  Opened c ∉ o -> since_open c (tr ++ o) = since_open c tr ++ o.
Proof.
  unfold since_open. rewrite foldl_app.
  generalize (foldl (fun seen o => match o with
    | Opened c' => if decide (c' = c) then [] else seen ++ [o] | _ => seen ++ [o] end) [] tr).
  induction o as [|x o IH]; intros seen Hn; cbn; [by rewrite app_nil_r|].
  assert (Ho : Opened c ∉ o) by set_solver.
  destruct x; try (rewrite IH by done; by rewrite <- app_assoc).
  rewrite decide_False by (intros ->; set_solver). rewrite IH by done. by rewrite <- app_assoc.
Qed.

Lemma since_open_opened c tr : since_open c (tr ++ [Opened c]) = [].
Proof. unfold since_open. rewrite foldl_app. cbn. by rewrite decide_True. Qed.

Lemma bytes_on_app c t o : bytes_on c (t ++ o) = bytes_on c t ++ bytes_on c o.
Proof. unfold bytes_on. by rewrite omap_app, concat_app. Qed.

Lemma framed_app c t o : framed c (t ++ o) = framed c t ++ framed c o.
Proof. apply omap_app. Qed.

Section stream.
Context `{Profile} {C : Type} `{!LinesCodec C, !LinesCodecSpec C} `{Tokio}.
Context (boot : Boot) (config : SyslogConfig).
Implicit Types (k : Conn C) (s : Sys C) (tr t : list obs).

(** What the reader of a connection knows. *)
Definition view k := (c_reader k, c_framer k, c_buffer k, c_eof k, c_peer k).

(** How a step of the system looks to one connection. *)
Inductive conn_sees c k : list obs -> Conn C -> Prop :=
| sees_nothing o k' :
    view k' = view k -> framed c o = [] -> bytes_on c o = [] ->
    BytesRead c [] ∉ o -> Opened c ∉ o -> conn_sees c k o k'
| sees_local r k' : conn_local config k r k' -> conn_sees c k (local_obs c r) k'
| sees_error e framer buffer :
    c_reader k = Decoding ->
    decode_at (c_eof k) (c_framer k) (c_buffer k) = Ret (Err e, framer, buffer) ->
    conn_sees c k [] (set_reader (if fatal e then ReaderDone else Decoding)
                        (set_framer framer buffer k))
| sees_permit message now p :
    c_reader k = WantPermit message now -> p_message p = message -> p_peer p = c_peer k ->
    conn_sees c k [Framed c p] (set_reader (WantSlot p) k).

(** An event that is not about connection [c] at all. *)
Definition foreign c (o : list obs) : Prop :=
  framed c o = [] /\ bytes_on c o = [] /\ BytesRead c [] ∉ o /\ Opened c ∉ o.

Lemma foreign_other c c0 r : c0 <> c -> foreign c (local_obs c0 r).
Proof.
  intros Hne. destruct r; [|split_and!; first [done|set_solver]]. split_and!; [done| |set_solver..].
  unfold bytes_on. cbn. by rewrite decide_False.
Qed.

Lemma sees_foreign c k o : foreign c o -> conn_sees c k o k.
Proof. intros (? & ? & ? & ?). by apply sees_nothing. Qed.

Lemma update_sees s c0 k0 kx c k' o :
  s_conns s !! c0 = Some k0 -> <[c0 := kx]> (s_conns s) !! c = Some k' ->
  (c0 <> c -> foreign c o) -> conn_sees c0 k0 o kx ->
  exists k, s_conns s !! c = Some k /\ conn_sees c k o k'.
Proof.
  intros Hc Hk Hf Hs. destruct (decide (c0 = c)) as [->|Hne].
  - rewrite lookup_insert_eq in Hk. injection Hk as <-. eauto.
  - rewrite lookup_insert_ne in Hk by done. exists k'. split; [done|]. apply sees_foreign; auto.
Qed.

(** A step whose only trace is of deliveries. *)
Lemma sees_delivery c k k' o :
  view k' = view k -> Forall (fun x => match x with
    | Opened _ | BytesRead _ _ | Framed _ _ => False | _ => True end) o -> conn_sees c k o k'.
Proof.
  intros Hv Ho. apply sees_nothing; [done|..].
  - unfold framed. induction Ho as [|[] o Hx Ho IH]; cbn; done.
  - unfold bytes_on. induction Ho as [|[] o Hx Ho IH]; cbn; done.
  - intros Hin. rewrite Forall_forall in Ho. by apply Ho in Hin.
  - intros Hin. rewrite Forall_forall in Ho. by apply Ho in Hin.
Qed.

Lemma istep_conn s o s' c k' :
  all_ok config s -> istep config s o s' -> s_conns s' !! c = Some k' ->
  (exists peer, o = [Opened c] /\ k' = new_conn config peer) \/
  (exists k, s_conns s !! c = Some k /\ conn_sees c k o k').
Proof.
  intros [Hok _] Hi Hk.
  destruct Hi as [|l li Hl|l li c0 address Hl Hn|l li Hl|l li Hl|c0 k r k0 Hs Hl|c0 k r f Hs Hr Hx
    |c0 k e framer buffer Hs Hr|c0 k message now Hs Hr Hcr|c0 k p Hs Hr Ht|c0 k p rest Hs Ht Hch
    |c0 k p attempt delay sends verdict counters Hs Ht Hd
    |c0 k p attempt delay sends verdict out counters gone counters' Hs Ht Hd Hc'
    |c0 k Hs Hr Ht|d datagram peer now Hd|d p sends verdict out counters Hp Hd| | |].
  all: try (right; exists k'; split; [exact Hk|by apply sees_delivery; [|repeat constructor]]).
  - cbn in Hk. destruct (decide (c0 = c)) as [->|Hne].
    + rewrite lookup_insert_eq in Hk. injection Hk as <-. left. eauto.
    + rewrite lookup_insert_ne in Hk by done. right. exists k'. split; [done|].
      apply sees_foreign. split_and!; [done|done|set_solver|set_solver].
  - right. eapply update_sees; [exact Hs|exact Hk|by apply foreign_other|by apply sees_local].
  - right. exists k'. assert (c0 <> c /\ s_conns s !! c = Some k') as [Hne ?].
    { cbn in Hk. destruct f; apply lookup_delete_Some in Hk as [? ?]; done. }
    split; [done|]. by apply sees_foreign, foreign_other.
  - right. eapply update_sees; [exact Hs|exact Hk|intros _; split_and!; first [done|set_solver]|].
    by apply sees_error.
  - right. eapply update_sees; [exact Hs|exact Hk| |by eapply sees_permit].
    intros Hne. split_and!; [|done|set_solver|set_solver]. unfold framed. cbn. by rewrite decide_False.
  - pose proof (map_Forall_lookup_1 _ _ _ _ Hok Hs) as Hkk.
    destruct (ok_done _ _ Hkk Ht). congruence.
  - right. eapply update_sees; [exact Hs|exact Hk| |by apply sees_delivery; [|repeat constructor]].
    intros _. by split_and!; first [done|set_solver].
  - right. eapply update_sees; [exact Hs|exact Hk| |by apply sees_delivery; [|repeat constructor]].
    intros _. by split_and!; first [done|set_solver].
  - right. eapply update_sees; [exact Hs|exact Hk| |by apply sees_delivery; [|repeat constructor]].
    intros _. by split_and!; first [done|set_solver].
  - right. cbn in Hk. apply lookup_delete_Some in Hk as [? ?]. exists k'. split; [done|].
    by apply sees_delivery; [|repeat constructor].
  - right. exists k'. split.
    + revert Hk. unfold datagram_turn. repeat case_match; done.
    + apply sees_delivery; [done|]. unfold datagram_turn. repeat case_match; by repeat constructor.
Qed.

(** ** A sender that keeps to the format *)

(** What opens the stream: a PROXY header naming [source] where one is required. *)
Definition opening (preamble : bytes) (source : option IpAddr) : Prop :=
  if proxy_protocol config then
    exists family command address,
      preamble = v2_header family command address /\ 0 <= command <= 1 /\
      zlen address < 2 ^ 16 /\ PREFIX_LEN + zlen address <= MAX_PROXY_HEADER_BYTES /\
      header_source command (z2b family) (zlen address) address = Some source
  else preamble = [] /\ source = None.

Section sender.
Context (preamble : bytes) (source : option IpAddr) (frs : list frame).
Context (Hopen : opening preamble source) (Hfrs : Forall (frame_ok (max_frame_bytes config)) frs)
  (Hsize : is_usize (zlen (preamble ++ encode_frames frs))).

(** A message decoded but not yet framed. *)
Definition wanted (r : Reader) : list bytes :=
  match r with
  | WantPermit message _ => [message]
  | _ => []
  end.

(** The peer its messages carry is the one the header names. *)
Definition peer_named k : Prop :=
  forall a, source = Some a -> c_peer k = Some (IpAddr_to_string a).

(** How far a connection has come: [dn] are the frames decoded, [td] the rest. *)
Inductive progress c k t : Prop :=
| before_frames :
    early (c_reader k) -> idle (c_framer k) -> framed c t = [] ->
    c_buffer k = bytes_on c t ->
    (c_reader k <> Starting -> proxy_protocol config = true) -> progress c k t
| in_frames dn td :
    ~ early (c_reader k) -> c_reader k <> ReaderDone -> frs = dn ++ td ->
    (p_message <$> framed c t) ++ wanted (c_reader k) = payload <$> dn ->
    preamble ++ encode_frames dn ++ c_buffer k = bytes_on c t ->
    mid_frame (c_framer k) (c_buffer k) ->
    (c_reader k = Reading -> front_missing (c_buffer k) td) -> peer_named k -> progress c k t
| after_frames dn td :
    c_reader k = ReaderDone -> frs = dn ++ td ->
    p_message <$> framed c t = payload <$> dn -> peer_named k -> progress c k t.

Definition stream_ok c k t : Prop :=
  c_eof k = false /\ Forall (fun p => p_peer p = c_peer k) (framed c t) /\ progress c k t.

(** The header is all there when [parse] says so. *)
Lemma parse_preamble buf rest0 src len rest :
  proxy_protocol config = true -> buf ++ rest0 = preamble ++ encode_frames frs ->
  parse buf MAX_PROXY_HEADER_BYTES = Ret (Ok (Complete src len)) ->
  advance len buf = Ret rest -> src = source /\ buf = preamble ++ rest.
Proof.
  intros Hp Hb Hparse Ha. unfold opening in Hopen. rewrite Hp in Hopen.
  destruct Hopen as (family & command & address & Epre & Hc & Hl & Hm & Hs).
  destruct (decide (length buf < length preamble)%nat) as [Hlt|Hge].
  - exfalso. apply app_eq_split in Hb as (k & Ek & _); [|lia].
    destruct (parse_written_header family command address source [] MAX_PROXY_HEADER_BYTES Hc Hl Hm Hs)
      as [_ Hi]. rewrite <- Epre in Hi. specialize (Hi _ Hlt).
    rewrite Ek, take_app_length in Hi. congruence.
  - symmetry in Hb. apply app_eq_split in Hb as (k & -> & _); [|lia].
    destruct (parse_written_header family command address source k MAX_PROXY_HEADER_BYTES Hc Hl Hm Hs)
      as [Hi _]. rewrite <- Epre, Hparse in Hi. injection Hi as -> ->.
    rewrite advance_app in Ha. by injection Ha as ->.
Qed.

(** One call of the framer on what a connection has buffered. *)
Lemma decode_progress c k t dn td more :
  conn_ok config k -> c_eof k = false -> c_reader k = Decoding -> frs = dn ++ td ->
  preamble ++ encode_frames dn ++ c_buffer k = bytes_on c t ->
  mid_frame (c_framer k) (c_buffer k) ->
  bytes_on c t ++ more = preamble ++ encode_frames frs ->
  (exists fr td' f rest, td = fr :: td' /\ c_buffer k = encode_frame fr ++ rest /\
     decode_at (c_eof k) (c_framer k) (c_buffer k) = Ret (Ok (Some (payload fr)), f, rest) /\
     idle f) \/
  (exists f, decode_at (c_eof k) (c_framer k) (c_buffer k) = Ret (Ok None, f, c_buffer k) /\
     mid_frame f (c_buffer k) /\ front_missing (c_buffer k) td).
Proof.
  intros Hk He Hr Ef Hb Hm Hw.
  destruct (ok_framer _ _ Hk) as (_ & Hmax & _); [by rewrite Hr|].
  assert (E : encode_frames td = c_buffer k ++ more).
  { rewrite <- Hb, Ef, <- !app_assoc in Hw. apply app_inv_head in Hw.
    unfold encode_frames in *. rewrite fmap_app, concat_app in Hw. by apply app_inv_head in Hw. }
  rewrite He. unfold decode_at.
  destruct (decode_front (c_framer k) (c_buffer k) td more)
    as [(fr & td' & rest & f & ? & ? & ? & ? & _)|(f & ? & ? & _ & ?)]; [done| |done| | |].
  - rewrite Hmax. rewrite Ef in Hfrs. by apply Forall_app in Hfrs as [_ ?].
  - rewrite <- E. unfold is_usize, encode_frames in *. rewrite Ef, fmap_app, concat_app in Hsize. lens.
  - left. by exists fr, td', f, rest.
  - right. by exists f.
Qed.

Lemma bytes_on_local c t r :
  bytes_on c (t ++ local_obs c r) = bytes_on c t ++ default [] r.
Proof.
  rewrite bytes_on_app. f_equal. destruct r; unfold bytes_on; cbn; [|done].
  rewrite decide_True by done. cbn. by rewrite app_nil_r.
Qed.

Lemma framed_obs_local c t r : framed c (t ++ local_obs c r) = framed c t.
Proof. rewrite framed_app, framed_local. apply app_nil_r. Qed.

Lemma progress_view c k k' t : view k' = view k -> progress c k t -> progress c k' t.
Proof.
  unfold view. intros [= Er Ef Eb Ee Ep]
    [Hea Hi Hf Hb Hs|dn td Hne Hnd E Hm Hb Hmf Hfm Hpn|dn td Hrd E Hm Hpn].
  - apply before_frames; by rewrite ?Er, ?Ef, ?Eb.
  - apply (in_frames _ _ _ dn td); unfold peer_named; by rewrite ?Er, ?Ef, ?Eb, ?Ep.
  - apply (after_frames _ _ _ dn td); unfold peer_named; by rewrite ?Er, ?Ep.
Qed.

Lemma progress_quiet c k t o :
  progress c k t -> framed c o = [] -> bytes_on c o = [] -> progress c k (t ++ o).
Proof.
  intros [Hea Hi Hf Hb Hs|dn td Hne Hnd E Hm Hb Hmf Hfm Hpn|dn td Hrd E Hm Hpn] Hfo Hbo;
    [apply before_frames|apply (in_frames _ _ _ dn td)|apply (after_frames _ _ _ dn td)];
    rewrite ?framed_app, ?bytes_on_app, ?Hfo, ?Hbo, ?app_nil_r; done.
Qed.

(** Turn the trace of a local step into what it adds. *)
Ltac localise :=
  rewrite ?framed_obs_local, ?bytes_on_local; cbn; try done; try (by intros []).

(** Before the first frame. *)
Lemma progress_early c k r k' t more :
  c_eof k = false -> early (c_reader k) -> idle (c_framer k) -> framed c t = [] ->
  c_buffer k = bytes_on c t ->
  (c_reader k <> Starting -> proxy_protocol config = true) ->
  conn_local config k r k' -> c_reader k' <> c_reader k -> r <> Some [] ->
  bytes_on c t ++ default [] r ++ more = preamble ++ encode_frames frs ->
  c_eof k' = false /\ progress c k' (t ++ local_obs c r).
Proof.
  intros He Hea Hi Hf Hb Hs Hl Hv Hr Hw.
  destruct Hl; conn_eqs; try done; (split; [done|]);
    try (apply before_frames; rewrite ?framed_obs_local, ?bytes_on_local, ?Hb; cbn;
         rewrite ?app_nil_r; auto; fail).
  - assert (Hp : preamble = [] /\ source = None).
    { unfold opening in Hopen. rewrite H2 in Hopen. done. }
    destruct Hp as [Hp Hso]. apply (in_frames _ _ _ [] frs); localise.
    + by rewrite Hf.
    + by rewrite Hp, Hb, app_nil_r.
    + by left.
    + intros a. by rewrite Hso.
  - rewrite Hb in *.
    destruct (parse_preamble (bytes_on c t) (default [] None ++ more) source0 len rest)
      as [-> E]; [by apply Hs|done..|].
    apply (in_frames _ _ _ [] frs); localise.
    + by rewrite Hf.
    + by rewrite E, app_nil_r.
    + by left.
    + intros a ->. done.
Qed.

(** Among the frames. *)
Lemma progress_frames c k r k' t dn td more :
  conn_ok config k -> c_eof k = false ->
  ~ early (c_reader k) -> c_reader k <> ReaderDone -> frs = dn ++ td ->
  (p_message <$> framed c t) ++ wanted (c_reader k) = payload <$> dn ->
  preamble ++ encode_frames dn ++ c_buffer k = bytes_on c t ->
  mid_frame (c_framer k) (c_buffer k) -> peer_named k ->
  conn_local config k r k' -> c_reader k' <> c_reader k -> r <> Some [] ->
  bytes_on c t ++ default [] r ++ more = preamble ++ encode_frames frs ->
  c_eof k' = false /\ progress c k' (t ++ local_obs c r).
Proof.
  intros Hk He Hne Hnd Ef Hm Hb Hmf Hpn Hl Hv Hr Hw.
  destruct Hl; try (conn_eqs; done); (split; [done|]).
  - destruct (decode_progress c k t dn td more) as
      [(fr & td' & f & rest & -> & Eb & E & Hi)|(f & E & _)]; try done; try congruence.
    rewrite E in H2. injection H2 as <- <- <-. conn_eqs. cbn in Hm. rewrite app_nil_r in Hm.
    apply (in_frames _ _ _ (dn ++ [fr]) td'); localise.
    + by rewrite Ef, <- app_assoc.
    + by rewrite Hm, fmap_app.
    + rewrite <- Hb, Eb. unfold encode_frames.
      rewrite fmap_app, concat_app. cbn. by rewrite !app_nil_r, <- !app_assoc.
    + by left.
  - destruct (decode_progress c k t dn td more) as
      [(fr & td' & f & rest & -> & Eb & E & Hi)|(f & E & Hmf' & Hfm)]; try done; try congruence.
    rewrite E in H2. injection H2 as <- <-. rewrite He. conn_eqs. cbn in Hm. rewrite app_nil_r in Hm.
    apply (in_frames _ _ _ dn td); localise.
    + by rewrite app_nil_r.
    + by rewrite app_nil_r.
  - conn_eqs. apply (in_frames _ _ _ dn td); localise.
    + by rewrite app_nil_r.
  - conn_eqs. apply (in_frames _ _ _ dn td); localise.
    + by rewrite <- Hb, <- !app_assoc.
    + by apply mid_frame_app.
  - conn_eqs. cbn in Hm. rewrite app_nil_r in Hm.
    apply (after_frames _ _ _ dn td); localise.
Qed.

Lemma conn_local_task k r k' :
  conn_local config k r k' -> c_reader k' = c_reader k -> view k' = view k /\ r = None.
Proof.
  intros Hl Er. destruct Hl; try done; cbn in Er; try congruence. by destruct (c_eof k); congruence.
Qed.

Lemma progress_local c k r k' t more :
  conn_ok config k -> c_eof k = false -> progress c k t -> conn_local config k r k' ->
  r <> Some [] -> bytes_on c t ++ default [] r ++ more = preamble ++ encode_frames frs ->
  c_eof k' = false /\ progress c k' (t ++ local_obs c r).
Proof.
  intros Hk He Hp Hl Hr Hw. destruct (decide (c_reader k' = c_reader k)) as [Er|Hn].
  - destruct (conn_local_task _ _ _ Hl Er) as [Hv ->]. rewrite app_nil_r.
    split; [by injection Hv as _ _ _ ->|]. by eapply progress_view.
  - destruct Hp as [Hea Hi Hf Hb Hs|dn td Hne Hnd Ef Hm Hb Hmf Hfm Hpn|dn td Hrd Ef Hm Hpn].
    + by eapply progress_early.
    + by eapply (progress_frames c k r k' t dn td).
    + exfalso. destruct Hl; cbn in Hn; congruence.
Qed.

(** The peer of a connection is settled before its first message. *)
Lemma local_peer c k r k' t :
  progress c k t -> conn_local config k r k' ->
  framed c t = [] \/ c_peer k' = c_peer k.
Proof.
  intros Hp Hl. destruct Hl; try (by right). left.
  destruct Hp as [? ? ? ? ?|? ? Hne|? ? Hrd]; [done|conn_eqs; by destruct Hne|conn_eqs; done].
Qed.

Lemma stream_sees c k o k' t more :
  conn_ok config k -> stream_ok c k t -> conn_sees c k o k' -> BytesRead c [] ∉ o ->
  bytes_on c (t ++ o) ++ more = preamble ++ encode_frames frs -> stream_ok c k' (t ++ o).
Proof.
  intros Hk (He & Hpe & Hp) Hs Hno Hw. destruct Hs as
    [o k' Hv Hf Hb _ _|r k' Hl|e framer buffer Hr Hd|message now p Hr Hm Hpp].
  - pose proof Hv as [= Er Ef Eb Ee Epp]. split; [congruence|].
    unfold stream_ok. rewrite framed_app, Hf, app_nil_r. split; [by rewrite Epp|].
    by apply (progress_view c k), progress_quiet.
  - rewrite bytes_on_local, <- app_assoc in Hw.
    assert (Hr : r <> Some []) by (intros ->; apply Hno; cbn; set_solver).
    destruct (progress_local c k r k' t more Hk He Hp Hl Hr Hw) as [? ?].
    split; [done|]. split; [|done]. rewrite framed_obs_local.
    by destruct (local_peer c k r k' t Hp Hl) as [-> | ->].
  - exfalso. destruct Hp as [Hea|dn td _ _ Ef _ Hb Hmf|? ? Hrd]; [by rewrite Hr in Hea| |congruence].
    rewrite bytes_on_app in Hw. cbn in Hw. rewrite app_nil_r in Hw.
    destruct (decode_progress c k t dn td more) as
      [(? & ? & ? & ? & _ & _ & E & _)|(? & E & _)]; try done; congruence.
  - split; [done|]. rewrite framed_app, framed_1.
    assert (framed c [] = []) as -> by done. rewrite decide_True, app_nil_r by done. split.
    + apply Forall_app. split; [done|]. by constructor.
    + destruct Hp as [Hea|dn td Hne Hnd Ef Hmm Hb Hmf Hfm Hpn|? ? Hrd];
        [by rewrite Hr in Hea| |congruence].
      apply (in_frames _ _ _ dn td); cbn; try done; try (by intros []).
      * rewrite framed_app, framed_1, decide_True, fmap_app by done. rewrite Hr in Hmm. cbn in *.
        by rewrite Hm, app_nil_r.
      * by rewrite bytes_on_app, app_nil_r.
Qed.

Lemma new_conn_stream_ok c peer : stream_ok c (new_conn config peer) [].
Proof.
  split; [done|]. split; [constructor|]. apply before_frames; try done. apply Framer_new_idle.
Qed.

(** What every connection of a sender that keeps to the format has come to. *)
Lemma reachable_stream tr s c k :
  config_wf config -> limits_ok boot config -> reachable boot config tr s -> s_conns s !! c = Some k ->
  BytesRead c [] ∉ since_open c tr ->
  bytes_on c (since_open c tr) `prefix_of` preamble ++ encode_frames frs ->
  stream_ok c k (since_open c tr).
Proof.
  intros Hw Hl Hr. revert k. induction Hr as [|tr s e s' o Hr IH Hs]; intros k' Hk Hno Hpre; [done|].
  destruct (reachable_invariant boot config _ _ Hw Hl Hr) as [Hok _ _ _].
  apply step_istep in Hs.
  destruct (istep_conn s o s' c k' Hok Hs Hk) as [(peer & -> & ->)|(k & Hc & Hsees)].
  { rewrite since_open_opened. apply new_conn_stream_ok. }
  assert (Ho : Opened c ∉ o) by (destruct Hsees as [| [] | |]; cbn; set_solver).
  rewrite since_open_app in * by done. destruct Hpre as [more Hpre]. symmetry in Hpre.
  eapply stream_sees; [|apply IH|done| |exact Hpre].
  - apply (map_Forall_lookup_1 _ _ _ _ (proj1 Hok) Hc).
  - done.
  - set_solver.
  - rewrite bytes_on_app in Hpre. exists (bytes_on c o ++ more). by rewrite <- Hpre, <- app_assoc.
  - set_solver.
Qed.
End sender.

(** C1. From the wire to the workers: on a connection whose sender keeps to the format -
    a PROXY header where one is required, then octet counted and newline terminated
    frames - and that has not ended, what has been framed is exactly the messages
    of the first frames, in order, with the source the header names as their peer,
    however the bytes were cut into reads and whatever the other tasks did; and
    once all bytes are read and the reader waits for more, all of the messages. *)
Theorem stream_end_to_end preamble source frs tr s c k :
  opening preamble source -> Forall (frame_ok (max_frame_bytes config)) frs ->
  is_usize (zlen (preamble ++ encode_frames frs)) ->
  config_wf config -> limits_ok boot config -> reachable boot config tr s -> s_conns s !! c = Some k ->
  BytesRead c [] ∉ since_open c tr ->
  bytes_on c (since_open c tr) `prefix_of` preamble ++ encode_frames frs ->
  (exists dn td, frs = dn ++ td /\
     p_message <$> framed c (since_open c tr) = payload <$> dn) /\
  (forall a, source = Some a ->
     Forall (fun p => p_peer p = Some (IpAddr_to_string a)) (framed c (since_open c tr))) /\
  (c_reader k = Reading -> bytes_on c (since_open c tr) = preamble ++ encode_frames frs ->
     p_message <$> framed c (since_open c tr) = payload <$> frs).
Proof.
  intros Hopen Hfrs Hsize Hw Hl Hr Hk Hno Hpre.
  destruct (reachable_stream preamble source frs Hopen Hfrs Hsize tr s c k Hw Hl Hr Hk Hno Hpre)
    as (_ & Hpe & Hp).
  destruct Hp as [Hea Hi Hf Hb Hs|dn td Hne Hnd Ef Hm Hb Hmf Hfm Hpn|dn td Hrd Ef Hm Hpn].
  - rewrite Hf. split_and!; [by exists [], frs|constructor|]. intros Hrd. by rewrite Hrd in Hea.
  - split_and!.
    + symmetry in Hm. apply fmap_app_inv in Hm as (dn1 & dn2 & -> & E & ->).
      exists dn1, (dn2 ++ td). by rewrite app_assoc.
    + intros a Ha. eapply Forall_impl; [exact Hpe|]. intros p ->. by apply Hpn.
    + intros Hrd Hall. rewrite Hrd in Hm. cbn in Hm. rewrite app_nil_r in Hm. rewrite Hm, Ef.
      rewrite Hall, Ef in Hb. apply app_inv_head in Hb. unfold encode_frames in Hb.
      rewrite fmap_app, concat_app in Hb. apply app_inv_head in Hb. specialize (Hfm Hrd).
      destruct td as [|fr td]; [by rewrite app_nil_r|]. cbn in Hfm, Hb. exfalso.
      rewrite Hb, length_app in Hfm. lia.
  - split_and!; [by exists dn, td| |congruence].
    intros a Ha. eapply Forall_impl; [exact Hpe|]. intros p ->. by apply Hpn.
Qed.
End stream.

(** ** Witness *)

#[local] Existing Instance release.
#[local] Existing Instance tokio_permits.

(** A listener behind a proxy: a header and two frames, in three reads. *)
Definition proxy_config : SyslogConfig :=
  MkSyslogConfig None (Some (bs "127.0.0.1:601")) None true 5000 64 3 2 10 0 64 None 4.

Definition proxy_header : bytes := v2_header 0x11 1 (ipv4_address v4_source).
Definition proxy_frames : list frame := [OctetFrame (bs "hello"); LineFrame (bs "<13>x")].

Definition proxy_events : list event :=
  [EAccept 1 0 (V4 (z2b <$> [127; 0; 0; 1])); EStart 0; EProxyParse 0;
   EProxyRead 0 (ReadBytes (take 20 proxy_header)); EProxyParse 0;
   EProxyRead 0 (ReadBytes (drop 20 proxy_header ++ bs "5 he")); EProxyParse 0; EDecode 0 0;
   ERead 0 (ReadBytes (bs "llo<13>x" ++ [newline])); EDecode 0 10; EPermit 0; ESend 0;
   EDecode 0 20; EPermit 0; ESend 0; EDecode 0 30].

Definition proxied : Sys ref_codec * list obs :=
  default (init first_boot proxy_config, []) (run proxy_config proxy_events (init first_boot proxy_config)).

Definition proxied_conn : Conn ref_codec :=
  default (new_conn proxy_config None) (s_conns proxied.1 !! 0%nat).

Lemma proxied_reachable : reachable first_boot proxy_config proxied.2 proxied.1.
Proof. apply (run_reachable first_boot proxy_config proxy_events). vm_compute. reflexivity. Qed.

Lemma stream_end_to_end_witness :
  (exists dn td, proxy_frames = dn ++ td /\
     p_message <$> framed 0 (since_open 0 proxied.2) = payload <$> dn) /\
  (forall a, Some (V4 v4_source) = Some a ->
     Forall (fun p => p_peer p = Some (IpAddr_to_string a)) (framed 0 (since_open 0 proxied.2))) /\
  (c_reader proxied_conn = Reading ->
     bytes_on 0 (since_open 0 proxied.2) = proxy_header ++ encode_frames proxy_frames ->
     p_message <$> framed 0 (since_open 0 proxied.2) = payload <$> proxy_frames).
Proof.
  apply (stream_end_to_end first_boot proxy_config proxy_header (Some (V4 v4_source)) proxy_frames
           proxied.2 proxied.1 0 proxied_conn).
  - exists 0x11, 1, (ipv4_address v4_source). split; [reflexivity|]. split; [lia|].
    split; [reflexivity|]. split; [vm_compute; discriminate|reflexivity].
  - constructor; [|constructor; [|constructor]].
    + split; [vm_compute; split; discriminate|]. split; [vm_compute; discriminate|reflexivity].
    + split; [decides|]. split; [vm_compute; discriminate|].
      split; [reflexivity|]. intros b l E. injection E as <- <-. reflexivity.
  - vm_compute. split; discriminate.
  - unfold config_wf. cbn. split_and!; by vm_compute.
  - by vm_compute.
  - apply proxied_reachable.
  - vm_compute. reflexivity.
  - vm_compute. intros Hd. repeat (apply elem_of_cons in Hd as [Hd|Hd]; [discriminate Hd|]).
    by apply elem_of_nil in Hd.
  - exists []. vm_compute. reflexivity.
Defined.

(** The state of the witness: both messages framed, from the proxied client. *)
Example proxied_messages :
  c_reader proxied_conn = Reading /\
  ((fun p => (p_message p, p_peer p)) <$> framed 0 (since_open 0 proxied.2)) =
    [(bs "hello", Some (bs "192.0.2.7")); (bs "<13>x", Some (bs "192.0.2.7"))].
Proof. split; vm_compute; reflexivity. Qed.
