(* ===== verification/SystemEof.v ===== *)
(** * The end of a stream

    What a connection has framed when its sender closes it, wherever the stream
    breaks off. *)
From S2P Require Import Prelude Utf8 Decimal LinesCodec Framing FramingSpec FramingStream.
From S2P Require Import FramingProps Proxy ProxyProps Peer Http Response Syslog SyslogProps.
From S2P Require Import HandleRequest Delivery System SystemRules SystemInv SystemProps SystemStream.

Local Open Scope Z_scope.

(** Whether the end of the stream has been read. *)
Definition is_end (c : nat) (o : obs) : bool :=
  match o with
  | BytesRead c' data => bool_decide (c' = c) && is_empty data
  | _ => false
  end.

Lemma is_end_iff c o : is_end c o = true <-> o = BytesRead c [].
Proof.
  split; [|intros ->; cbn; by rewrite bool_decide_eq_true_2].
  destruct o; try done. cbn. intros [->%bool_decide_eq_true Hd]%andb_true_iff. by destruct data.
Qed.

Lemma end_read_or_not c (t : list obs) : BytesRead c [] ∈ t \/ BytesRead c [] ∉ t.
Proof.
  destruct (decide (Exists (fun o => is_end c o = true) t)) as [He|He].
  - left. apply Exists_exists in He as (o & Hin & ->%is_end_iff). done.
  - right. intros Hin. apply He, Exists_exists. eexists. split; [done|]. by apply is_end_iff.
Qed.

Section eof.
Context `{Profile} {C : Type} `{!LinesCodec C, !LinesCodecSpec C} `{Tokio}.
Context (boot : Boot) (config : SyslogConfig).
Implicit Types (k : Conn C) (s : Sys C) (tr t : list obs).

Section sender.
Context (preamble : bytes) (source : option IpAddr) (frs : list frame).
Context (Hopen : opening config preamble source)
  (Hfrs : Forall (frame_ok (max_frame_bytes config)) frs)
  (Hsize : is_usize (zlen (preamble ++ encode_frames frs))).

Notation messages c t := (p_message <$> framed c t).

(** After the end was read: [rest] is the part of the first frame of [td] that came. *)
Inductive eof_stage c k t (dn td : list frame) (rest : bytes) : Prop :=
| eof_decoding :
    c_reader k = Decoding -> c_buffer k = rest -> mid_frame (c_framer k) rest ->
    messages c t = payload <$> dn -> eof_stage c k t dn td rest
| eof_releasing m :
    c_reader k <> ReaderDone -> c_reader k <> Reading -> ~ early (c_reader k) ->
    c_buffer k = [] -> idle (c_framer k) -> trailing rest td = [m] ->
    messages c t ++ wanted (c_reader k) = (payload <$> dn) ++ [m] -> eof_stage c k t dn td rest
| eof_done :
    c_reader k = ReaderDone -> messages c t = (payload <$> dn) ++ trailing rest td ->
    eof_stage c k t dn td rest.

Definition ended_with c k t : Prop :=
  exists dn td rest, frs = dn ++ td /\ bytes_on c t = preamble ++ encode_frames dn ++ rest /\
    front_missing rest td /\ eof_stage c k t dn td rest.

Definition ended_ok c k t : Prop :=
  c_eof k = true /\ Forall (fun p => p_peer p = c_peer k) (framed c t) /\ peer_named source k /\
  ended_with c k t.

Lemma eof_stage_view c k k' t dn td rest :
  view k' = view k -> eof_stage c k t dn td rest -> eof_stage c k' t dn td rest.
Proof.
  unfold view. intros [= Er Ef Eb Ee Ep] [Hr Hb Hm Hp|m Hnd Hnr Hne Hb Hi Ht Hp|Hr Hp].
  - apply eof_decoding; congruence.
  - apply (eof_releasing _ _ _ _ _ _ m); rewrite ?Er, ?Ef, ?Eb; done.
  - apply eof_done; congruence.
Qed.

Lemma eof_stage_quiet c k t o dn td rest :
  framed c o = [] -> eof_stage c k t dn td rest -> eof_stage c k (t ++ o) dn td rest.
Proof.
  intros Hf [Hr Hb Hm Hp|m Hnd Hnr Hne Hb Hi Ht Hp|Hr Hp];
    [apply eof_decoding|apply (eof_releasing _ _ _ _ _ _ m)|apply eof_done];
    rewrite ?framed_app, ?Hf, ?app_nil_r; done.
Qed.

(** The framer on what was left when the stream ended. *)
Lemma rest_decoded c k t dn td rest :
  conn_ok config k -> c_reader k = Decoding -> frs = dn ++ td ->
  bytes_on c t = preamble ++ encode_frames dn ++ rest ->
  bytes_on c t `prefix_of` preamble ++ encode_frames frs -> front_missing rest td ->
  mid_frame (c_framer k) rest ->
  exists r f src, decode_eof (c_framer k) rest = Ret (r, f, src) /\
    ((r = Ok None /\ trailing rest td = []) \/
     (exists m, r = Ok (Some m) /\ trailing rest td = [m] /\ src = [] /\ idle f) \/
     (exists e, r = Err e /\ fatal e = true /\ trailing rest td = [])).
Proof.
  intros Hk Hr Ef Hb [more Hpre] Hfm Hm.
  destruct (ok_framer _ _ Hk) as (_ & Hmax & _); [by rewrite Hr|].
  assert (E : encode_frames td = rest ++ more).
  { rewrite Hb, Ef, <- !app_assoc in Hpre. apply app_inv_head in Hpre.
    unfold encode_frames in *. rewrite fmap_app, concat_app, <- ?app_assoc in Hpre.
    by apply app_inv_head in Hpre. }
  apply (decode_eof_front _ _ _ more); [done| |done| |done].
  - rewrite Hmax. rewrite Ef in Hfrs. by apply Forall_app in Hfrs as [_ ?].
  - rewrite <- E. unfold is_usize, encode_frames in *. rewrite Ef, fmap_app, concat_app in Hsize. lens.
Qed.

(** A step of the connection itself, after the end. *)
Lemma ended_local c k k' r t dn td rest :
  conn_ok config k -> c_eof k = true -> frs = dn ++ td ->
  bytes_on c t = preamble ++ encode_frames dn ++ rest ->
  bytes_on c t `prefix_of` preamble ++ encode_frames frs -> front_missing rest td ->
  eof_stage c k t dn td rest -> conn_local config k r k' -> c_reader k' <> c_reader k ->
  r = None /\ c_eof k' = true /\ c_peer k' = c_peer k /\ eof_stage c k' t dn td rest.
Proof.
  intros Hk He Ef Hb Hpre Hfm Hst Hl Hne.
  destruct Hst as [Hr Hbu Hm Hp|m Hnd Hnr Hear Hbu Hi Ht Hp|Hr Hp].
  - destruct (rest_decoded c k t dn td rest Hk Hr Ef Hb Hpre Hfm Hm) as (x & f & src & Hd & Hcase).
    destruct Hl as [| | | | |message now f' b' _ Hd'|f' b' _ Hd'| | | | | | |]; cbn in Hne; try congruence;
      rewrite He, Hbu in Hd'; unfold decode_at in Hd'; rewrite Hd in Hd'; injection Hd' as -> -> ->.
    + destruct Hcase as [[? _]|[(m & E & Ht & -> & Hi)|(e & ? & _)]]; try done. injection E as <-.
      split_and!; try done. apply (eof_releasing _ _ _ _ _ _ message); cbn; try done; [|by rewrite Hp].
      by intros [].
    + destruct Hcase as [[_ Ht]|[(m & ? & _)|(e & ? & _)]]; try done. rewrite He.
      split_and!; try done. apply eof_done; cbn; [done|]. by rewrite Ht, app_nil_r.
  - destruct Hl as [Hr|Hr|? ? ? Hr|Hr|? Hr|message now f' b' Hr Hd'|f' b' Hr Hd'|p Hr| | | | | |];
      cbn in Hne; try congruence; try (by rewrite Hr in Hear); rewrite Hr in Hp; cbn in Hp.
    + exfalso. rewrite He, Hbu in Hd'. unfold decode_at in Hd'.
      destruct (decode_eof_empty (c_framer k)) as [f E]; [by left|]. congruence.
    + rewrite He. split_and!; try done. apply eof_done; cbn; [done|].
      by rewrite Ht, <- Hp, app_nil_r.
    + split_and!; try done. apply (eof_releasing _ _ _ _ _ _ m); cbn; try done. by intros [].
  - exfalso. destruct Hl; cbn in Hne; congruence.
Qed.

Lemma bytes_prefix c t o :
  bytes_on c (t ++ o) `prefix_of` preamble ++ encode_frames frs ->
  bytes_on c t `prefix_of` preamble ++ encode_frames frs.
Proof. rewrite bytes_on_app. intros Hp. etrans; [|exact Hp]. apply prefix_app_r. done. Qed.

(** Every step keeps what the end has come to. *)
Lemma ended_sees c k o k' t :
  conn_ok config k -> ended_ok c k t -> conn_sees config c k o k' ->
  bytes_on c (t ++ o) `prefix_of` preamble ++ encode_frames frs -> ended_ok c k' (t ++ o).
Proof.
  intros Hk (He & Hpe & Hpn & dn & td & rest & Ef & Hb & Hfm & Hst) Hs Hpre.
  pose proof (bytes_prefix c t o Hpre) as Hpre0. unfold ended_ok, ended_with, peer_named in *.
  destruct Hs as [o k' Hv Hf Hbo _ _|r k' Hl|e framer buffer Hr Hd|message now p Hr Hm Hpp].
  - pose proof Hv as [= _ _ _ Ee Ep]. rewrite framed_app, Hf, app_nil_r, Ep.
    split_and!; [congruence|done..|]. exists dn, td, rest. rewrite bytes_on_app, Hbo, app_nil_r.
    split_and!; try done. by apply eof_stage_quiet, (eof_stage_view c k).
  - rewrite framed_obs_local. destruct (decide (c_reader k' = c_reader k)) as [Er|Hne].
    + destruct (conn_local_task _ _ _ _ Hl Er) as [Hv ->]. pose proof Hv as [= _ _ _ Ee Ep].
      cbn [local_obs]. rewrite app_nil_r, Ep. split_and!; [congruence|done..|]. exists dn, td, rest.
      split_and!; try done. by apply (eof_stage_view c k).
    + destruct (ended_local c k k' r t dn td rest Hk He Ef Hb Hpre0 Hfm Hst Hl Hne) as (-> & ? & -> & ?).
      cbn [local_obs]. rewrite app_nil_r. split_and!; [done..|]. by exists dn, td, rest.
  - rewrite app_nil_r. split_and!; [done..|]. exists dn, td, rest. split_and!; try done.
    destruct Hst as [_ Hbu Hmf Hp|m _ _ _ Hbu Hi _ _|Hrd _]; [| |congruence].
    + destruct (rest_decoded c k t dn td rest Hk Hr Ef Hb Hpre0 Hfm Hmf) as (x & f & src & Hd' & Hcase).
      rewrite He, Hbu in Hd. unfold decode_at in Hd. rewrite Hd in Hd'. injection Hd' as <- <- <-.
      destruct Hcase as [[? _]|[(m & ? & _)|(e' & [= <-] & Hfat & Ht)]]; try done.
      rewrite Hfat. apply eof_done; cbn; [done|]. by rewrite Ht, app_nil_r.
    + exfalso. rewrite He, Hbu in Hd. unfold decode_at in Hd.
      destruct (decode_eof_empty (c_framer k)) as [f E]; [by left|]. congruence.
  - rewrite framed_app, framed_1. assert (framed c [] = []) as -> by done.
    rewrite decide_True, app_nil_r by done. split_and!; [done| |done|].
    { apply Forall_app. split; [done|]. by constructor. }
    exists dn, td, rest. rewrite bytes_on_app, app_nil_r. split_and!; try done.
    destruct Hst as [Hr' _ _ _|m _ _ _ Hbu Hi Ht Hp|Hrd _]; [congruence| |congruence].
    apply (eof_releasing _ _ _ _ _ _ m); cbn; try done; [by intros []|].
    rewrite framed_app, framed_1, decide_True, fmap_app by done. rewrite Hr in Hp. cbn in *.
    by rewrite Hm, app_nil_r.
Qed.

(** The read that ends the stream: every whole frame has been decoded by then. *)
Lemma ended_read c k o k' t :
  conn_sees config c k o k' -> BytesRead c [] ∈ o ->
  stream_ok config preamble source frs c k t -> ended_ok c k' (t ++ o).
Proof.
  intros Hs Hin (_ & Hpe & Hp).
  destruct Hs as [o k' _ _ _ Hno _|r k' Hl|e framer buffer _ _|message now p _ _ _];
    [done| |by apply elem_of_nil in Hin|by apply list_elem_of_singleton in Hin].
  assert (r = Some []) as ->.
  { destruct r; [|by apply elem_of_nil in Hin]. apply list_elem_of_singleton in Hin. by injection Hin as <-. }
  inversion Hl as [| | | | | | | | |Hr Hk'| | | |]; subst; try done.
  destruct Hp as [Hea|dn td Hne Hnd Ef Hm Hb Hmf Hfm Hpn|dn td Hrd];
    [by rewrite Hr in Hea| |congruence].
  unfold ended_ok, ended_with. rewrite framed_obs_local, bytes_on_local. cbn [default from_option id].
  split_and!; [done..|]. exists dn, td, (c_buffer k). rewrite app_nil_r.
  split_and!; [done|by symmetry|by apply Hfm|]. apply eof_stage_quiet; [done|].
  rewrite Hr in Hm. cbn in Hm. rewrite app_nil_r in Hm. by apply eof_decoding.
Qed.

Lemma reachable_ended tr s c k :
  config_wf config -> limits_ok boot config -> reachable boot config tr s -> s_conns s !! c = Some k ->
  BytesRead c [] ∈ since_open c tr ->
  bytes_on c (since_open c tr) `prefix_of` preamble ++ encode_frames frs ->
  ended_ok c k (since_open c tr).
Proof.
  intros Hw Hl Hr. revert k.
  induction Hr as [|tr s e s' o Hr IH Hs]; intros k' Hk Hin Hpre; [by apply elem_of_nil in Hin|].
  destruct (reachable_invariant boot config _ _ Hw Hl Hr) as [Hok _ _ _]. apply step_istep in Hs.
  destruct (istep_conn config s o s' c k' Hok Hs Hk) as [(peer & -> & ->)|(k & Hc & Hsees)].
  { rewrite since_open_opened in Hin. by apply elem_of_nil in Hin. }
  assert (Ho : Opened c ∉ o) by (destruct Hsees as [| [] | |]; cbn; set_solver).
  rewrite since_open_app in * by done. pose proof (bytes_prefix _ _ _ Hpre) as Hpre0.
  destruct (end_read_or_not c (since_open c tr)) as [Hin0|Hno].
  - eapply ended_sees; [|by apply IH|done..]. apply (map_Forall_lookup_1 _ _ _ _ (proj1 Hok) Hc).
  - apply elem_of_app in Hin as [Hin|Hin]; [done|]. eapply ended_read; [done..|].
    eapply reachable_stream; try done.
Qed.
End sender.

(** C2. To the end of the stream: when the sender of a connection closes it, the reader
    frames every message whose frame came whole and, if the stream breaks off within
    a line that is valid text, that line; nothing of an unfinished octet counted frame.
    Until the reader is done what is framed is a prefix of that. *)
Theorem stream_to_the_end preamble source frs tr s c k :
  opening config preamble source -> Forall (frame_ok (max_frame_bytes config)) frs ->
  is_usize (zlen (preamble ++ encode_frames frs)) ->
  config_wf config -> limits_ok boot config -> reachable boot config tr s -> s_conns s !! c = Some k ->
  BytesRead c [] ∈ since_open c tr ->
  bytes_on c (since_open c tr) `prefix_of` preamble ++ encode_frames frs ->
  exists dn td rest, frs = dn ++ td /\
    bytes_on c (since_open c tr) = preamble ++ encode_frames dn ++ rest /\ front_missing rest td /\
    p_message <$> framed c (since_open c tr) `prefix_of` (payload <$> dn) ++ trailing rest td /\
    (c_reader k = ReaderDone ->
     p_message <$> framed c (since_open c tr) = (payload <$> dn) ++ trailing rest td).
Proof.
  intros Hopen Hfrs Hsize Hw Hl Hr Hk Hin Hpre.
  destruct (reachable_ended preamble source frs Hopen Hfrs Hsize tr s c k Hw Hl Hr Hk Hin Hpre)
    as (_ & _ & _ & dn & td & rest & Ef & Hb & Hfm & Hst).
  exists dn, td, rest. split_and!; try done.
  - destruct Hst as [_ _ _ ->|m _ _ _ _ _ -> <-|_ ->]; [by apply prefix_app_r|by apply prefix_app_r|done].
  - intros Hrd. destruct Hst as [? _ _ _|m ? _ _ _ _ _ _|_ ?]; [congruence|done..].
Qed.
End eof.

(** ** Witness *)

#[local] Existing Instance release.
#[local] Existing Instance tokio_permits.

(** A frame, then a line that breaks off after four bytes; the reader frames both. *)
Definition cut_frames : list frame := [OctetFrame (bs "hello"); LineFrame (bs "<13>x")].

Definition cut_events : list event :=
  [EAccept 1 0 (V4 (z2b <$> [192; 0; 2; 7])); EStart 0; EDecode 0 0;
   ERead 0 (ReadBytes (bs "5 hello<13>")); EDecode 0 10; EPermit 0; ESend 0; ERecv 0; EDecode 0 20;
   ERead 0 (ReadBytes []); EDecode 0 30; EPermit 0; ESend 0; EDecode 0 40].

Definition cut : Sys ref_codec * list obs :=
  default (init first_boot demo_config, []) (run demo_config cut_events (init first_boot demo_config)).

Definition cut_conn : Conn ref_codec :=
  default (new_conn demo_config None) (s_conns cut.1 !! 0%nat).

Lemma cut_reachable : reachable first_boot demo_config cut.2 cut.1.
Proof. apply (run_reachable first_boot demo_config cut_events). vm_compute. reflexivity. Qed.

Lemma stream_to_the_end_witness :
  c_reader cut_conn = ReaderDone /\
  (p_message <$> framed 0 (since_open 0 cut.2)) = [bs "hello"; bs "<13>"] /\
  exists dn td rest, cut_frames = dn ++ td /\
    bytes_on 0 (since_open 0 cut.2) = [] ++ encode_frames dn ++ rest /\ front_missing rest td /\
    p_message <$> framed 0 (since_open 0 cut.2) `prefix_of` (payload <$> dn) ++ trailing rest td /\
    (c_reader cut_conn = ReaderDone ->
     p_message <$> framed 0 (since_open 0 cut.2) = (payload <$> dn) ++ trailing rest td).
Proof.
  split; [vm_compute; reflexivity|]. split; [vm_compute; reflexivity|].
  apply (stream_to_the_end first_boot demo_config [] None cut_frames cut.2 cut.1 0 cut_conn).
  - split; reflexivity.
  - constructor; [|constructor; [|constructor]].
    + split; [vm_compute; split; discriminate|]. split; [vm_compute; discriminate|reflexivity].
    + split; [decides|]. split; [vm_compute; discriminate|].
      split; [reflexivity|]. intros b l E. injection E as <- <-. reflexivity.
  - vm_compute. split; discriminate.
  - apply demo_wf.
  - apply demo_limits.
  - apply cut_reachable.
  - vm_compute. reflexivity.
  - vm_compute. repeat (first [apply list_elem_of_here|apply list_elem_of_further]).
  - exists (bs "x" ++ [newline]). vm_compute. reflexivity.
Defined.
