(* ===== verification/HttpListener.v ===== *)
(** * The HTTP accept loop

    The server task of [Server::start] in [lib.rs]: it accepts connections until it
    is told to shut down, then waits for the connections it watches.  A connection
    with a maximum age has a task of its own instead, which asks it to finish when
    it is old enough or when the server shuts down.  [http_step] is what the server
    task, a connection's task or [Server::stop] does next; serving the requests of
    a connection is the HTTP library's and only its end is seen here. *)
From S2P Require Import Prelude Utf8 Decimal Http Framing Response Syslog.

Local Open Scope Z_scope.

(** Where the server task is.  The branch [Ok((stream, _)) = listener.accept()] of
    its [select!] does not match an error: the branch is then disabled and the same
    [select!] goes on waiting, for the shutdown alone. *)
Inductive HttpTaskState : Type :=
| HttpAccepting
| HttpAcceptDisabled
| HttpDraining
| HttpEnded.

(** A connection: whether it is watched by [graceful_shutdown], whether it has been
    asked to finish, and whether the shutdown is in its own receiver. *)
Record HttpConn : Type := MkHttpConn {
  hc_watched : bool;
  hc_graceful_shutdown_started : bool;
  hc_notified : bool;
}.

(** [h_handle]: [Server::stop] has the task's handle to wait for.  A start that fails
    at a syslog listener has spawned the task and does not keep its handle. *)
Record HttpServer : Type := MkHttpServer {
  h_total_connections : Z;
  h_task : HttpTaskState;
  h_shutdown : bool;
  h_conns : gmap nat HttpConn;
  h_handle : bool;
}.

Inductive http_event : Type :=
| HAccept (c : nat)
| HAcceptError
| HShutdownSend              (** [Server::stop] sends on the broadcast channel *)
| HShutdownRecv              (** the server task receives *)
| HMaxAge (c : nat)          (** the sleep of a connection's task ends *)
| HConnShutdown (c : nat)    (** a connection's task receives *)
| HConnDone (c : nat)        (** a connection has served its last request *)
| HAllClosed                 (** [graceful_shutdown.shutdown()] resolves *)
| HDrainTimeout              (** its ten seconds are over *)
| HDropRuntime.              (** [Server::stop], once a task it has a handle of has ended *)

Inductive http_obs : Type :=
| HOpened (c : nat)
| HGoAway (c : nat)
| HClosed (c : nat)
| HDrainTimedOut
| HAborted (c : nat).

(** After a start; [handle] is false after one that failed at a syslog listener. *)
Definition http_started (handle : bool) : HttpServer := MkHttpServer 0 HttpAccepting false ∅ handle.
Definition http_init : HttpServer := http_started true.

Definition set_http_conns (m : gmap nat HttpConn) (s : HttpServer) : HttpServer :=
  MkHttpServer (h_total_connections s) (h_task s) (h_shutdown s) m (h_handle s).
Definition set_http_task (t : HttpTaskState) (s : HttpServer) : HttpServer :=
  MkHttpServer (h_total_connections s) t (h_shutdown s) (h_conns s) (h_handle s).

(** A connection just accepted: its own receiver, if it has a maximum age, has
    seen nothing of what was sent before. *)
Definition http_accept (max_connection_age : option Z) (c : nat) (s : HttpServer) : HttpServer :=
  MkHttpServer (u64_fetch_add (h_total_connections s) 1) (h_task s) (h_shutdown s)
    (<[c := MkHttpConn (negb (is_some max_connection_age)) false false]> (h_conns s)) (h_handle s).

(** [shutdown.send(())] reaches the receivers there are. *)
Definition http_shutdown_send (s : HttpServer) : HttpServer :=
  MkHttpServer (h_total_connections s) (h_task s) true
    ((fun k => MkHttpConn (hc_watched k) (hc_graceful_shutdown_started k) true) <$> h_conns s)
    (h_handle s).

Definition start_graceful_shutdown (k : HttpConn) : HttpConn :=
  MkHttpConn (hc_watched k) true (hc_notified k).

(** The watched connections are asked to finish when the wait for them starts. *)
Definition http_shutdown_recv (s : HttpServer) : HttpServer :=
  set_http_task HttpDraining
    (set_http_conns
       ((fun k => if hc_watched k then start_graceful_shutdown k else k) <$> h_conns s) s).

(** A turn of a connection's own task that asks it to finish. *)
Definition http_go_away (c : nat) (k : HttpConn) (s : HttpServer) : HttpServer * list http_obs :=
  (set_http_conns (<[c := start_graceful_shutdown k]> (h_conns s)) s, [HGoAway c]).

(** [conn_shutdown_rx.recv()] returns: the shutdown was sent, or every sender is gone,
    the server task's with it. *)
Definition conn_shutdown_received (s : HttpServer) (k : HttpConn) : bool :=
  hc_notified k || match h_task s with HttpEnded => true | _ => false end.

Definition no_watched (s : HttpServer) : bool :=
  forallb (fun ck => negb (hc_watched ck.2)) (map_to_list (h_conns s)).

(** Dropping the runtime ends every task that is left. *)
Definition http_drop_runtime (s : HttpServer) : HttpServer * list http_obs :=
  (set_http_task HttpEnded (set_http_conns ∅ s), HAborted <$> (map_to_list (h_conns s)).*1).

Definition http_step (max_connection_age : option Z) (e : http_event) (s : HttpServer)
    : option (HttpServer * list http_obs) :=
  match e, h_task s with
  | HAccept c, HttpAccepting =>
      match h_conns s !! c with
      | None => Some (http_accept max_connection_age c s, [HOpened c])
      | Some _ => None
      end
  | HAcceptError, HttpAccepting => Some (set_http_task HttpAcceptDisabled s, [])
  | HShutdownSend, _ => Some (http_shutdown_send s, [])
  | HShutdownRecv, (HttpAccepting | HttpAcceptDisabled) =>
      if h_shutdown s then Some (http_shutdown_recv s, []) else None
  | HMaxAge c, _ =>
      k ← h_conns s !! c;
      if negb (hc_watched k) && negb (hc_graceful_shutdown_started k)
      then Some (http_go_away c k s) else None
  | HConnShutdown c, _ =>
      k ← h_conns s !! c;
      if negb (hc_watched k) && negb (hc_graceful_shutdown_started k) && conn_shutdown_received s k
      then Some (http_go_away c k s) else None
  | HConnDone c, _ =>
      _ ← h_conns s !! c;
      Some (set_http_conns (delete c (h_conns s)) s, [HClosed c])
  | HAllClosed, HttpDraining =>
      if no_watched s then Some (set_http_task HttpEnded s, []) else None
  | HDrainTimeout, HttpDraining => Some (set_http_task HttpEnded s, [HDrainTimedOut])
  | HDropRuntime, HttpEnded => Some (http_drop_runtime s)
  | HDropRuntime, _ => if h_handle s then None else Some (http_drop_runtime s)
  | _, _ => None
  end.

(** ** Executions *)

Inductive http_reachable (max_age : option Z) : list http_obs -> HttpServer -> Prop :=
| http_reachable_init : http_reachable max_age [] http_init
| http_reachable_step tr s e s' o :
    http_reachable max_age tr s -> http_step max_age e s = Some (s', o) ->
    http_reachable max_age (tr ++ o) s'.

Fixpoint http_run (max_age : option Z) (es : list http_event) (s : HttpServer)
    : option (HttpServer * list http_obs) :=
  match es with
  | [] => Some (s, [])
  | e :: es' =>
      '(s1, o1) ← http_step max_age e s;
      '(s2, o2) ← http_run max_age es' s1;
      Some (s2, o1 ++ o2)
  end.

Lemma http_run_reachable max_age es : forall tr s s' o,
  http_reachable max_age tr s -> http_run max_age es s = Some (s', o) ->
  http_reachable max_age (tr ++ o) s'.
Proof.
  induction es as [|e es IH]; intros tr s s' o Hr; cbn.
  - intros [= <- <-]. by rewrite app_nil_r.
  - destruct (http_step max_age e s) as [[s1 o1]|] eqn:E; [|done]. cbn.
    destruct (http_run max_age es s1) as [[s2 o2]|] eqn:E2; [|done]. cbn. intros [= <- <-].
    rewrite app_assoc. eapply IH; [|done]. by eapply http_reachable_step.
Qed.

(** ** Properties *)

Definition is_opened (o : http_obs) : bool := match o with HOpened _ => true | _ => false end.
Definition is_aborted (o : http_obs) : bool := match o with HAborted _ => true | _ => false end.
Definition is_over (o : http_obs) : bool :=
  match o with HClosed _ | HAborted _ => true | _ => false end.

(** How often an observation was made. *)
Definition times (p : http_obs -> bool) (tr : list http_obs) : Z := zlen (filter (fun o => p o) tr).

Definition opened_as (c : nat) (o : http_obs) : bool :=
  match o with HOpened c' => bool_decide (c' = c) | _ => false end.
Definition go_away_to (c : nat) (o : http_obs) : bool :=
  match o with HGoAway c' => bool_decide (c' = c) | _ => false end.

(** Whether the task of a connection may still ask it to finish. *)
Definition may_go_away (s : HttpServer) (c : nat) : Z :=
  match h_conns s !! c with
  | Some k => if negb (hc_watched k) && negb (hc_graceful_shutdown_started k) then 1 else 0
  | None => 0
  end.

Lemma times_app p tr o : times p (tr ++ o) = times p tr + times p o.
Proof. unfold times. rewrite filter_app, length_app. apply Nat2Z.inj_add. Qed.

Lemma times_one p o : times p [o] = if p o then 1 else 0.
Proof. unfold times. rewrite filter_cons, filter_nil. by destruct (p o). Qed.

Lemma times_nil p : times p [] = 0.
Proof. done. Qed.

Lemma times_aborted p (cs : list nat) (b : bool) :
  (forall c, p (HAborted c) = b) -> times p (HAborted <$> cs) = if b then zlen cs else 0.
Proof.
  intros Hp. induction cs as [|c cs IH]; [by destruct b|]. cbn [fmap list_fmap].
  change (HAborted c :: (HAborted <$> cs)) with ([HAborted c] ++ (HAborted <$> cs)).
  rewrite times_app, times_one, IH, Hp. cbn [length]. destruct b; lia.
Qed.

Definition n_http (s : HttpServer) : Z := Z.of_nat (size (h_conns s)).

(** *** The steps as rules *)

Inductive http_rule (max_age : option Z) (s : HttpServer) : HttpServer -> list http_obs -> Prop :=
| rule_accept c :
    h_task s = HttpAccepting -> h_conns s !! c = None ->
    http_rule max_age s (http_accept max_age c s) [HOpened c]
| rule_disable :
    h_task s = HttpAccepting -> http_rule max_age s (set_http_task HttpAcceptDisabled s) []
| rule_send : http_rule max_age s (http_shutdown_send s) []
| rule_recv : http_rule max_age s (http_shutdown_recv s) []
| rule_go_away c k :
    h_conns s !! c = Some k -> hc_watched k = false -> hc_graceful_shutdown_started k = false ->
    http_rule max_age s (http_go_away c k s).1 [HGoAway c]
| rule_done c k :
    h_conns s !! c = Some k ->
    http_rule max_age s (set_http_conns (delete c (h_conns s)) s) [HClosed c]
| rule_all_closed :
    h_task s = HttpDraining -> (forall c k, h_conns s !! c = Some k -> hc_watched k = false) ->
    http_rule max_age s (set_http_task HttpEnded s) []
| rule_timeout :
    h_task s = HttpDraining -> http_rule max_age s (set_http_task HttpEnded s) [HDrainTimedOut]
| rule_drop :
    h_task s = HttpEnded \/ h_handle s = false ->
    http_rule max_age s (http_drop_runtime s).1 (http_drop_runtime s).2.

Lemma no_watched_spec s c k : no_watched s = true -> h_conns s !! c = Some k -> hc_watched k = false.
Proof.
  unfold no_watched. rewrite forallb_forall. intros Hn Hk.
  specialize (Hn (c, k)). rewrite <- list_elem_of_In, elem_of_map_to_list in Hn.
  specialize (Hn Hk). cbn in Hn. by destruct (hc_watched k).
Qed.

Lemma http_step_rule max_age e s s' o :
  http_step max_age e s = Some (s', o) -> http_rule max_age s s' o.
Proof.
  unfold http_step. destruct e as [c| | | |c|c|c| | |].
  5,6,7: destruct (h_conns s !! c) as [[[] [] n]|] eqn:Hk; cbn; try done; repeat case_match;
    try done; intros [= <- <-]; by (eapply rule_go_away || eapply rule_done).
  all: destruct (h_task s) eqn:Hs; try done.
  - destruct (h_conns s !! c) eqn:Hk; [done|]. intros [= <- <-]. by apply rule_accept.
  - intros [= <- <-]. by apply rule_disable.
  - intros [= <- <-]. apply rule_send.
  - intros [= <- <-]. apply rule_send.
  - intros [= <- <-]. apply rule_send.
  - intros [= <- <-]. apply rule_send.
  - destruct (h_shutdown s); [|done]. intros [= <- <-]. apply rule_recv.
  - destruct (h_shutdown s); [|done]. intros [= <- <-]. apply rule_recv.
  - destruct (no_watched s) eqn:Hn; [|done]. intros [= <- <-].
    apply rule_all_closed; [done|]. intros c k. by apply no_watched_spec.
  - intros [= <- <-]. by apply rule_timeout.
  - destruct (h_handle s) eqn:Hh; [done|]. intros [= <- <-]. apply rule_drop. by right.
  - destruct (h_handle s) eqn:Hh; [done|]. intros [= <- <-]. apply rule_drop. by right.
  - destruct (h_handle s) eqn:Hh; [done|]. intros [= <- <-]. apply rule_drop. by right.
  - intros [= <- <-]. apply rule_drop. by left.
Qed.

(** *** Invariants *)

Lemma http_handle max_age tr s : http_reachable max_age tr s -> h_handle s = true.
Proof. induction 1 as [|tr s e s' o _ IH E%http_step_rule]; [done|]. by destruct E. Qed.

Lemma http_counts max_age tr s :
  http_reachable max_age tr s ->
  h_total_connections s = times is_opened tr mod 2 ^ 64 /\
  times is_opened tr = times is_over tr + n_http s.
Proof.
  induction 1 as [|tr s e s' o _ [Ht Hn] E%http_step_rule]; [done|].
  destruct E; unfold n_http in *; cbn;
    rewrite ?times_app, ?times_one, ?times_nil; cbn.
  5: split; [by rewrite Z.add_0_r|]; rewrite map_size_insert_Some; [lia|done].
  - unfold u64_fetch_add. rewrite Ht, Zplus_mod_idemp_l. split; [done|].
    rewrite map_size_insert_None by done. lia.
  - rewrite !Z.add_0_r. done.
  - rewrite !Z.add_0_r, map_size_fmap. done.
  - rewrite !Z.add_0_r, map_size_fmap. done.
  - split; [by rewrite Z.add_0_r|]. rewrite map_size_delete_Some by done.
    assert (size (h_conns s) <> 0)%nat by (apply map_size_ne_0_lookup; eauto). lia.
  - rewrite !Z.add_0_r. done.
  - rewrite !Z.add_0_r. done.
  - rewrite (times_aborted is_opened _ false), (times_aborted is_over _ true) by done.
    rewrite length_fmap, length_map_to_list, map_size_empty. split; [by rewrite Z.add_0_r|]. lia.
Qed.

Lemma http_watched max_age tr s :
  http_reachable max_age tr s ->
  forall c k, h_conns s !! c = Some k ->
    hc_watched k = negb (is_some max_age) /\
    (h_task s = HttpDraining \/ h_task s = HttpEnded -> hc_watched k = true ->
     hc_graceful_shutdown_started k = true).
Proof.
  induction 1 as [|tr s e s' o _ IH E%http_step_rule]; [done|].
  destruct E as [c Hs| | | |c k Hc| | | |]; cbn; intros c' k'.
  - rewrite lookup_insert_Some. intros [[<- <-]|[_ Hk]]; [|by eauto].
    split; [done|]. rewrite Hs. by intros [].
  - intros Hk. destruct (IH _ _ Hk). split; [done|]. by intros [].
  - rewrite lookup_fmap_Some. intros (k & <- & Hk). cbn. eauto.
  - rewrite lookup_fmap_Some. intros (k & <- & Hk). destruct (IH _ _ Hk) as [Hw _].
    destruct (hc_watched k) eqn:E; cbn; by rewrite E.
  - rewrite lookup_insert_Some. intros [[<- <-]|[_ Hk]]; [|by eauto]. cbn.
    by destruct (IH _ _ Hc).
  - rewrite lookup_delete_Some. intros [_ Hk]. eauto.
  - intros Hk. destruct (IH _ _ Hk) as [Hw Ha]. split; [done|]. intros _. apply Ha. by left.
  - intros Hk. destruct (IH _ _ Hk) as [Hw Ha]. split; [done|]. intros _. apply Ha. by left.
  - by rewrite lookup_empty.
Qed.

Lemma may_go_away_bound s c : 0 <= may_go_away s c <= 1.
Proof. unfold may_go_away. repeat case_match; lia. Qed.

Lemma http_go_aways max_age tr s c :
  http_reachable max_age tr s ->
  times (go_away_to c) tr + may_go_away s c <= times (opened_as c) tr.
Proof.
  induction 1 as [|tr s e s' o _ IH E%http_step_rule].
  { unfold may_go_away. cbn. by rewrite lookup_empty. }
  pose proof (may_go_away_bound s c).
  destruct E as [c' _ Hc| | | |c' k Hc Hw Hg|c' k Hc| | |]; rewrite !times_app, ?times_one, ?times_nil;
    unfold may_go_away in *; cbn in *.
  - destruct (decide (c' = c)) as [->|].
    + rewrite Hc in IH. rewrite lookup_insert_eq, bool_decide_true by done. cbn.
      destruct (is_some max_age); cbn; lia.
    + rewrite lookup_insert_ne, bool_decide_false by done. cbn. lia.
  - lia.
  - rewrite lookup_fmap. destruct (h_conns s !! c); cbn in *; lia.
  - rewrite lookup_fmap. destruct (h_conns s !! c) as [[[] [] ?]|]; cbn in *; lia.
  - destruct (decide (c' = c)) as [->|].
    + rewrite Hc, Hw, Hg in IH. rewrite lookup_insert_eq, bool_decide_true by done. cbn in *.
      rewrite Hw. cbn. lia.
    + rewrite lookup_insert_ne, bool_decide_false by done. cbn. lia.
  - destruct (decide (c' = c)) as [->|].
    + rewrite lookup_delete_eq. lia.
    + rewrite lookup_delete_ne by done. lia.
  - lia.
  - lia.
  - rewrite (times_aborted (go_away_to c) _ false), (times_aborted (opened_as c) _ false), lookup_empty
      by done. lia.
Qed.

Lemma http_ended tr s :
  http_reachable None tr s -> HDrainTimedOut ∉ tr ->
  (h_task s = HttpEnded -> h_conns s = ∅) /\ times is_aborted tr = 0.
Proof.
  induction 1 as [|tr s e s' o Hr IH E%http_step_rule]; [done|].
  rewrite not_elem_of_app. intros [Htr Ho]. destruct (IH Htr) as [He Ha].
  pose proof (http_watched _ _ _ Hr) as Hw.
  destruct E as [c' Hs Hc| | | |c' k Hc| |Hs Hn| |Hs]; rewrite times_app, ?times_one, ?times_nil, Ha; cbn.
  1,2,4: by rewrite ?Hs.
  - split; [|done]. intros Hs. by rewrite (He Hs), fmap_empty.
  - split; [|done]. intros Hs. by rewrite (He Hs), lookup_empty in Hc.
  - split; [|done]. intros Hs. by rewrite (He Hs), delete_empty.
  - split; [|done]. intros _. apply map_empty. intros c. apply eq_None_not_Some. intros [k Hk].
    pose proof (Hn _ _ Hk). destruct (Hw _ _ Hk) as [Hx _]. cbn in Hx. congruence.
  - set_solver.
  - destruct Hs as [Hs|Hs]; [|by rewrite (http_handle _ _ _ Hr) in Hs].
    rewrite (He Hs), map_to_list_empty. done.
Qed.

(** ** Theorems *)

(** Connections are counted and each is asked to finish at most once by its own
    task: [total_connections] is the number accepted, those accepted are closed,
    aborted or still there, and a connection's [graceful_shutdown] is called no more
    often than the connection was opened, whichever of its age and the server's
    shutdown comes first. *)
Theorem connections_counted max_age tr s c :
  http_reachable max_age tr s ->
  h_total_connections s = times is_opened tr mod 2 ^ 64 /\
  times is_opened tr = times is_over tr + n_http s /\
  times (go_away_to c) tr <= times (opened_as c) tr.
Proof.
  intros Hr. destruct (http_counts _ _ _ Hr) as [Ht Hn]. split_and!; [done..|].
  pose proof (http_go_aways _ _ _ c Hr). pose proof (may_go_away_bound s c). lia.
Qed.

(** C19. A graceful stop: without a maximum age, the server task asks every connection
    to finish and ends only when all have, so that dropping the runtime aborts none
    of them, unless they take longer than the ten seconds they are given. *)
Theorem graceful_stop tr s :
  http_reachable None tr s -> HDrainTimedOut ∉ tr ->
  times is_aborted tr = 0 /\
  (h_task s = HttpEnded -> h_conns s = ∅ /\ times is_opened tr = times is_over tr) /\
  (h_task s = HttpDraining -> forall c k, h_conns s !! c = Some k ->
     hc_graceful_shutdown_started k = true).
Proof.
  intros Hr Hd. destruct (http_ended _ _ Hr Hd) as [He Ha], (http_counts _ _ _ Hr) as [_ Hn].
  split_and!; [done| |].
  - intros Hs. specialize (He Hs). split; [done|]. unfold n_http in Hn.
    rewrite He, map_size_empty in Hn. lia.
  - intros Hs c k Hk. destruct (http_watched _ _ _ Hr _ _ Hk) as [Hw Hg]. apply Hg; [by left|done].
Qed.

(** No longer accepting, and not by a shutdown. *)
Definition deaf (s : HttpServer) : Prop := h_task s = HttpAcceptDisabled \/ h_task s = HttpEnded.

Lemma http_deaf_step max_age e s s' o :
  http_step max_age e s = Some (s', o) -> deaf s -> e <> HShutdownRecv ->
  deaf s' /\ h_total_connections s' = h_total_connections s /\
  (e <> HDropRuntime -> h_task s' = h_task s).
Proof.
  unfold http_step, deaf. intros E Hs He.
  destruct e as [c| | | |c|c|c| | |]; try done; cycle -1.
  { by destruct Hs as [Hs|Hs]; rewrite ?Hs in E; [destruct (h_handle s); [done|]|];
      injection E as <- <-; split_and!; [right| | |right| |]. }
  all: destruct Hs as [Hs|Hs]; rewrite ?Hs in E; try done;
    try (destruct (h_conns s !! c) as [[[] [] n]|]; cbn in E; repeat case_match; try discriminate E);
    injection E as <- <-; cbn; rewrite ?Hs; auto.
Qed.

(** C21. One failed accept ends all accepting: from then on no connection is accepted,
    however long the server runs and whatever else happens, until it is shut down. *)
Theorem accept_error_deafens max_age es : forall s s1 o1 s2 o2,
  http_step max_age HAcceptError s = Some (s1, o1) -> http_run max_age es s1 = Some (s2, o2) ->
  HShutdownRecv ∉ es ->
  (HDropRuntime ∉ es -> h_task s2 = HttpAcceptDisabled) /\
  h_total_connections s2 = h_total_connections s /\
  forall c, http_step max_age (HAccept c) s2 = None.
Proof.
  intros s s1 o1 s2 o2 E Hrun Hes.
  assert (H1 : h_task s1 = HttpAcceptDisabled /\ h_total_connections s1 = h_total_connections s).
  { unfold http_step in E. destruct (h_task s); by simplify_eq/=. }
  clear E. assert (Hd : deaf s1) by (left; apply H1). destruct H1 as [<- <-].
  revert s1 o2 Hd Hrun. induction es as [|e es IH]; cbn; intros s1 o2 Hd.
  { intros [= <- <-]. split_and!; [done..|]. intros c. by destruct Hd as [-> | ->]. }
  destruct (http_step max_age e s1) as [[s3 o3]|] eqn:E; [|done]. cbn.
  destruct (http_run max_age es s3) as [[s4 o4]|] eqn:E2; [|done]. cbn. intros [= <- <-].
  apply not_elem_of_cons in Hes as [He Hes].
  destruct (http_deaf_step _ _ _ _ _ E Hd (not_eq_sym He)) as (Hd3 & <- & Ht).
  destruct (IH Hes _ _ Hd3 E2) as (Ht2 & -> & Ha). split_and!; [|done..].
  intros [Hx Hy]%not_elem_of_cons. rewrite <- Ht by done. auto.
Qed.

Lemma http_unwatched age tr s c k :
  http_reachable (Some age) tr s -> h_conns s !! c = Some k -> hc_watched k = false.
Proof. intros Hr Hk. by destruct (http_watched _ _ _ Hr _ _ Hk) as [-> _]. Qed.

Lemma no_watched_true s :
  (forall c k, h_conns s !! c = Some k -> hc_watched k = false) -> no_watched s = true.
Proof.
  intros Hw. unfold no_watched. apply forallb_forall. intros [c k] Hk. cbn.
  apply list_elem_of_In, elem_of_map_to_list in Hk. by rewrite (Hw _ _ Hk).
Qed.

(** What [Server::stop] and the server task do when nothing keeps them waiting. *)
Definition stop_at_once : list http_event :=
  [HShutdownSend; HShutdownRecv; HAllClosed; HDropRuntime].

(** C22. With a maximum age a stop does not wait: the server task watches none of its
    connections, so whatever they are serving its wait for them can end as soon as it
    starts, and from every state in which the task is accepting or has stopped to, a
    stop can go through at once, aborting every connection that is open without the
    stop having asked it to finish. *)
Theorem aged_connections_aborted age tr s :
  http_reachable (Some age) tr s ->
  (h_task s = HttpDraining -> is_Some (http_step (Some age) HAllClosed s)) /\
  (h_task s = HttpAccepting \/ h_task s = HttpAcceptDisabled ->
   exists s' o, http_run (Some age) stop_at_once s = Some (s', o) /\
     h_conns s' = ∅ /\ (forall c, HAborted c ∈ o <-> is_Some (h_conns s !! c)) /\
     forall c, HGoAway c ∉ o).
Proof.
  intros Hr. pose proof (fun c k => http_unwatched _ _ _ c k Hr) as Hw. split.
  { intros Ht. unfold http_step. rewrite Ht, no_watched_true by done. eauto. }
  intros Ht. set (s2 := http_shutdown_recv (http_shutdown_send s)).
  assert (H2 : no_watched s2 = true).
  { apply no_watched_true. intros c k. cbn. rewrite lookup_fmap_Some.
    intros (k1 & <- & Hk1). apply lookup_fmap_Some in Hk1 as (k0 & <- & Hk0). cbn.
    specialize (Hw _ _ Hk0). by rewrite Hw. }
  exists (http_drop_runtime (set_http_task HttpEnded s2)).1,
    (http_drop_runtime (set_http_task HttpEnded s2)).2.
  assert (Hsome : forall c, is_Some (h_conns s2 !! c) <-> is_Some (h_conns s !! c)).
  { intros c. cbn. by rewrite !lookup_fmap, !fmap_is_Some. }
  split_and!; [|done| |].
  - assert (E1 : http_step (Some age) HShutdownSend s = Some (http_shutdown_send s, [])) by done.
    assert (E2 : http_step (Some age) HShutdownRecv (http_shutdown_send s) = Some (s2, []))
      by (unfold http_step; cbn; by destruct Ht as [-> | ->]).
    assert (E3 : http_step (Some age) HAllClosed s2 = Some (set_http_task HttpEnded s2, []))
      by (unfold http_step; cbn [s2 h_task http_shutdown_recv set_http_task]; fold s2; by rewrite H2).
    unfold stop_at_once. cbn [http_run]. rewrite E1. cbn [mbind option_bind]. rewrite E2.
    cbn [mbind option_bind]. rewrite E3. cbn [mbind option_bind app]. unfold http_step at 1.
    cbn [h_task set_http_task mbind option_bind app]. unfold http_drop_runtime. cbn [app]. by rewrite app_nil_r.
  - intros c. rewrite <- Hsome. cbn [http_drop_runtime snd]. rewrite list_elem_of_fmap. split.
    + intros (c' & [= <-] & Hc). apply list_elem_of_fmap in Hc as ([c1 k] & -> & Hk).
      apply elem_of_map_to_list in Hk. by exists k.
    + intros [k Hk]. exists c. split; [done|]. apply list_elem_of_fmap. exists (c, k).
      split; [done|]. by apply elem_of_map_to_list.
  - intros c. cbn [http_drop_runtime snd]. rewrite list_elem_of_fmap. by intros (? & [=] & _).
Qed.

(** After a start that failed at a syslog listener a stop has nothing to wait for,
    whatever the maximum age: it drops the runtime under the connections. *)
Lemma unhandled_stop_aborts max_age s :
  h_handle s = false -> http_step max_age HDropRuntime s = Some (http_drop_runtime s).
Proof. intros Hh. unfold http_step. rewrite Hh. by destruct (h_task s). Qed.

(** ** Witnesses *)

(** A connection reaches its age, then the server shuts down. *)
Definition aged_run : option (HttpServer * list http_obs) :=
  http_run (Some 50) [HAccept 3; HMaxAge 3; HShutdownSend; HConnDone 3] http_init.

Lemma connections_counted_witness :
  exists s tr, aged_run = Some (s, tr) /\ h_total_connections s = 1 /\
    times (go_away_to 3) tr = 1 /\ times (go_away_to 3) tr <= times (opened_as 3) tr.
Proof.
  destruct aged_run as [[s tr]|] eqn:E; [|discriminate]. exists s, tr. split; [reflexivity|].
  assert (Hr : http_reachable (Some 50) tr s)
    by exact (http_run_reachable _ _ [] _ _ _ (http_reachable_init _) E).
  destruct (connections_counted (Some 50) tr s 3 Hr) as (Ht & _ & Hg).
  vm_compute in E. injection E as <- <-. split; [reflexivity|]. split; [reflexivity|exact Hg].
Defined.

(** A connection that is being served when the server stops. *)
Lemma aged_connections_aborted_witness :
  exists s tr, http_run (Some 50) [HAccept 3] http_init = Some (s, tr) /\
    exists s' o, http_run (Some 50) stop_at_once s = Some (s', o) /\
      h_conns s' = ∅ /\ (forall c, HAborted c ∈ o <-> is_Some (h_conns s !! c)) /\
      forall c, HGoAway c ∉ o.
Proof.
  destruct (http_run (Some 50) [HAccept 3] http_init) as [[s tr]|] eqn:E; [|vm_compute in E; discriminate].
  exists s, tr. split; [reflexivity|].
  assert (Hr : http_reachable (Some 50) tr s)
    by exact (http_run_reachable _ _ [] _ _ _ (http_reachable_init _) E).
  apply (aged_connections_aborted 50 tr s Hr). left.
  vm_compute in E. injection E as <- _. reflexivity.
Defined.

Definition stopping : list http_event :=
  [HAccept 0; HAccept 1; HShutdownSend; HShutdownRecv; HConnDone 1; HConnDone 0; HAllClosed].

Lemma graceful_stop_witness :
  exists s tr, http_run None stopping http_init = Some (s, tr) /\ h_task s = HttpEnded /\
    h_conns s = ∅ /\ times is_opened tr = times is_over tr.
Proof.
  destruct (http_run None stopping http_init) as [[s tr]|] eqn:E; [|vm_compute in E; discriminate].
  exists s, tr. split; [reflexivity|].
  assert (Hr : http_reachable None tr s)
    by exact (http_run_reachable _ _ [] _ _ _ (http_reachable_init _) E).
  assert (Hs : h_task s = HttpEnded) by (vm_compute in E; injection E as <- <-; reflexivity).
  split; [exact Hs|]. apply (graceful_stop tr s Hr); [|exact Hs].
  vm_compute in E. injection E as _ <-. set_solver.
Defined.

Lemma accept_error_deafens_witness :
  match http_run None [HShutdownSend] (set_http_task HttpAcceptDisabled http_init) with
  | Some (s2, _) =>
      (HDropRuntime ∉ [HShutdownSend] -> h_task s2 = HttpAcceptDisabled) /\
      h_total_connections s2 = 0 /\ forall c, http_step None (HAccept c) s2 = None
  | None => False
  end.
Proof.
  apply (accept_error_deafens None [HShutdownSend] http_init
           (set_http_task HttpAcceptDisabled http_init) []
           (http_shutdown_send (set_http_task HttpAcceptDisabled http_init)) []);
    [reflexivity|reflexivity|set_solver].
Defined.
