(* ===== verification/Server.v ===== *)
(** * The server: configuration and lifecycle

    [ServerConfig], [Server::new], [configure], [start], [stop] and the queries of
    [lib.rs], with [syslog::start] of [syslog.rs].  What the runtime, the sockets
    and the file system answer is a parameter of [start] and [stop]; the tasks that
    have been spawned and not ended are part of the state. *)
From S2P Require Import Prelude Utf8 Decimal Http Framing Response Syslog SyslogProps Sockets.
From S2P Require Import System Proxy Bind.

Local Open Scope Z_scope.

(** ** Configuration *)

Record ServerConfig : Type := MkServerConfig {
  bind_address : bytes;
  tokio_threads : option Z;
  debug : bool;
  recv_timeout : Z;
  channel_capacity : Z;
  send_timeout : Z;
  max_connection_age : option Z;
  syslog : SyslogConfig;
}.

Definition ServerConfig_new : ServerConfig := {|
  bind_address := bs "127.0.0.1:3000";
  tokio_threads := None;
  debug := false;
  recv_timeout := 30000;
  channel_capacity := 5000;
  send_timeout := 1000;
  max_connection_age := None;
  syslog := SyslogConfig_new;
|}.

Definition with_bind_address (v : bytes) (c : ServerConfig) : ServerConfig :=
  let 'MkServerConfig _ tt_ d rt cc st ma sy := c in MkServerConfig v tt_ d rt cc st ma sy.
Definition with_tokio_threads (v : Z) (c : ServerConfig) : ServerConfig :=
  let 'MkServerConfig b _ d rt cc st ma sy := c in MkServerConfig b (Some v) d rt cc st ma sy.
Definition with_debug (v : bool) (c : ServerConfig) : ServerConfig :=
  let 'MkServerConfig b tt_ _ rt cc st ma sy := c in MkServerConfig b tt_ v rt cc st ma sy.
Definition with_recv_timeout (v : Z) (c : ServerConfig) : ServerConfig :=
  let 'MkServerConfig b tt_ d _ cc st ma sy := c in MkServerConfig b tt_ d v cc st ma sy.
Definition with_channel_capacity (v : Z) (c : ServerConfig) : ServerConfig :=
  let 'MkServerConfig b tt_ d rt _ st ma sy := c in MkServerConfig b tt_ d rt v st ma sy.
Definition with_send_timeout (v : Z) (c : ServerConfig) : ServerConfig :=
  let 'MkServerConfig b tt_ d rt cc _ ma sy := c in MkServerConfig b tt_ d rt cc v ma sy.
Definition with_max_connection_age (v : Z) (c : ServerConfig) : ServerConfig :=
  let 'MkServerConfig b tt_ d rt cc st _ sy := c in MkServerConfig b tt_ d rt cc st (Some v) sy.
Definition with_syslog (v : SyslogConfig) (c : ServerConfig) : ServerConfig :=
  let 'MkServerConfig b tt_ d rt cc st ma _ := c in MkServerConfig b tt_ d rt cc st ma v.

(** ** State *)

(** A task of the runtime that has not ended. *)
Inductive ServerTask : Type :=
| HttpTask
| StreamTask (l : StreamListener)
| DatagramTask.

(** The handle [syslog::start] returns. *)
Record SyslogRuntime : Type := MkSyslogRuntime {
  rt_cancelled : bool;
  rt_listening : bool;
  rt_socket_path : option bytes;
  rt_socket_ident : option ident;
}.

(** A channel and a runtime are known by a number. *)
Record Server : Type := MkServer {
  server_handle : bool;
  sv_config : ServerConfig;
  work_rx : option nat;
  work_tx : option nat;
  runtime : option nat;
  shutdown : bool;
  sv_total_connections : Z;
  socket_ident : option ident;
  syslog_work_rx : option nat;
  syslog_work_tx : option nat;
  syslog_counters : SyslogCounters;
  syslog_runtime : option SyslogRuntime;
  tasks : list ServerTask;
}.

Definition Server_new : Server :=
  MkServer false ServerConfig_new None None None false 0 None None None
    SyslogCounters_default None [].

Definition total_connections (sv : Server) : Z := sv_total_connections sv.

Definition set_config (c : ServerConfig) (sv : Server) : Server :=
  MkServer (server_handle sv) c (work_rx sv) (work_tx sv) (runtime sv) (shutdown sv)
    (sv_total_connections sv) (socket_ident sv) (syslog_work_rx sv) (syslog_work_tx sv)
    (syslog_counters sv) (syslog_runtime sv) (tasks sv).

Section configure.
Context `{Magnus, Tokio}.

(** Logging, set up once at the end, is left out. *)
Definition configure_config (config : config_hash) (c : ServerConfig)
    : result unit MagnusError * ServerConfig :=
  (read_key config (bs "bind_address") string_try_convert with_bind_address $
   read_key config (bs "tokio_threads") usize_try_convert with_tokio_threads $
   read_key config (bs "debug") bool_try_convert with_debug $
   read_key config (bs "recv_timeout") u64_try_convert with_recv_timeout $
   read_key config (bs "channel_capacity") usize_try_convert with_channel_capacity $
   read_key config (bs "send_timeout") u64_try_convert with_send_timeout $
   read_key config (bs "max_connection_age") u64_try_convert with_max_connection_age $
   fun c => let '(r, sy) := SyslogConfig_apply config (syslog c) in (r, with_syslog sy c)) c.

Definition configure (config : config_hash) (sv : Server) : result unit MagnusError * Server :=
  let '(r, c) := configure_config config (sv_config sv) in (r, set_config c sv).
End configure.

(** ** Starting *)

(** What the file system, the sockets and the runtime answer; a reason where something
    failed. *)
Record start_env : Type := MkStartEnv {
  e_id : nat;                        (** names the channels and runtime of this start *)
  e_pid : Z;
  e_http_seq : Z;
  e_syslog_seq : Z;
  e_bounded : Z -> bool;             (** whether a channel of a capacity can be made *)
  e_runtime : outcome (option bytes);  (** [build], which panics if a thread cannot be had *)
  e_http_unix : bind_env;
  e_http_unix_error : bytes;
  e_http_parse : option bytes;
  e_http_bind : option bytes;
  e_stream_unix : bind_env;
  e_stream_unix_error : bytes;
  e_sys : SocketCall -> NetSocket -> option bytes;
  e_stream_tcp : listen_env;
  e_udp : listen_env;
  e_removed : remove_env;
}.

(** The HTTP listener: the identity of its socket file, for a Unix socket. *)
Definition http_listener (c : ServerConfig) (env : start_env) (fs : files)
    : result (option (option ident)) MagnusError * files :=
  match unix_path (bind_address c) with
  | Some path =>
      let bind := e_http_unix env in
      let tmp := tmp_path path (e_pid env) (e_http_seq env) in
      let '(r, states) := bind_unix_listener path (e_pid env) (e_http_seq env) bind fs in
      let fs' := left_by (r, states) fs in
      match r with
      | Ok (_, id) => (Ok (Some id), fs')
      | Err _ =>
          (Err (RuntimeError
             (if is_some (fs !! tmp) || negb (is_some (bound bind))
              then bs "Failed to bind to Unix socket " ++ tmp ++ bs ": " ++ e_http_unix_error env
              else bs "Failed to install Unix socket file " ++ path ++ bs ": " ++
                   e_http_unix_error env)), fs')
      end
  | None =>
      match e_http_parse env, e_http_bind env with
      | Some e, _ =>
          (Err (RuntimeError (bs "Invalid address format " ++ bind_address c ++ bs ": " ++ e)), fs)
      | None, Some e =>
          (Err (RuntimeError (bs "Failed to bind to address " ++ bind_address c ++ bs ": " ++ e)), fs)
      | None, None => (Ok None, fs)
      end
  end.

Section start.
Context `{Tokio}.

(** What [start_listeners] has so far, and with: the runtime handle or an I/O error,
    the socket file bound, the tasks spawned, and the files. *)
Definition listening : Type :=
  result SyslogRuntime bytes * (option bytes * option ident) * list ServerTask * files.

Definition start_udp (c : SyslogConfig) (env : start_env) (socket : option bytes * option ident)
    (spawned : list ServerTask) (fs : files) : listening :=
  match udp_bind c, listen_on (fun a => bind_std_udp (e_sys env) a c) (e_udp env) with
  | Some _, Err e => (Err e, socket, spawned, fs)
  | o, _ =>
      (Ok (MkSyslogRuntime false true socket.1 socket.2), socket,
       spawned ++ (if is_some o then [DatagramTask] else []), fs)
  end.

Definition start_tcp (c : SyslogConfig) (env : start_env) (socket : option bytes * option ident)
    (spawned : list ServerTask) (fs : files) : listening :=
  match stream_bind c, listen_on (bind_std_tcp (e_sys env)) (e_stream_tcp env) with
  | Some _, Err e => (Err e, socket, spawned, fs)
  | o, _ => start_udp c env socket (spawned ++ (if is_some o then [StreamTask TcpStream] else [])) fs
  end.

(** [Semaphore::new] panics on more permits than it supports. *)
Definition start_listeners (c : SyslogConfig) (env : start_env) (fs : files) : outcome listening :=
  if MAX_PERMITS <? max_pending c then Panic else
  Ret match stream_path c with
  | Some path =>
      let '(r, states) :=
        bind_unix_listener path (e_pid env) (e_syslog_seq env) (e_stream_unix env) fs in
      let fs' := left_by (r, states) fs in
      match r with
      | Ok (_, id) => start_tcp c env (Some path, id) [StreamTask UnixStream] fs'
      | Err _ => (Err (e_stream_unix_error env), (None, None), [], fs')
      end
  | None => start_tcp c env (None, None) [] fs
  end.

Definition syslog_start (c : SyslogConfig) (env : start_env) (fs : files)
    : outcome (result SyslogRuntime bytes * list ServerTask * files) :=
  let* (started, socket, spawned, fs) := start_listeners c env fs in
  Ret match started with
  | Ok rt => (Ok rt, spawned, fs)
  | Err e => (Err e, spawned, remove_socket_file socket.1 socket.2 (e_removed env) fs)
  end.

(** A new runtime takes the place of an old one, whose tasks end with it.
    [crossbeam_channel::bounded] panics on a capacity it cannot allocate, and
    [worker_threads] on zero. *)
Definition start (env : start_env) (sv : Server) (fs : files)
    : outcome (result unit MagnusError * Server * files) :=
  let c := sv_config sv in
  let ch := Some (e_id env) in
  let server handle rt id srt running :=
    MkServer handle c ch ch rt true (sv_total_connections sv) id ch ch (syslog_counters sv) srt
      running in
  if negb (e_bounded env (channel_capacity c)) then Panic else
  if decide (tokio_threads c = Some 0) then Panic else
  let* built := e_runtime env in
  match built with
  | Some e =>
      Ret (Err (RuntimeError e),
       server (server_handle sv) (runtime sv) (socket_ident sv) (syslog_runtime sv) (tasks sv), fs)
  | None =>
      match http_listener c env fs with
      | (Err e, fs) =>
          Ret (Err e, server (server_handle sv) ch (socket_ident sv) (syslog_runtime sv) [], fs)
      | (Ok id, fs) =>
          let id := default (socket_ident sv) id in
          if enabled (syslog c) then
            let* started := syslog_start (syslog c) env fs in
            Ret match started with
            | (Ok rt, spawned, fs) => (Ok tt, server true ch id (Some rt) (HttpTask :: spawned), fs)
            | (Err e, spawned, fs) =>
                (Err (RuntimeError (bs "Failed to start syslog listeners: " ++ e)),
                 server (server_handle sv) ch id (syslog_runtime sv) (HttpTask :: spawned), fs)
            end
          else Ret (Ok tt, server true ch id (syslog_runtime sv) [HttpTask], fs)
      end
  end.
End start.

Definition syslog_listening (sv : Server) : bool :=
  match syslog_runtime sv with
  | Some rt => rt_listening rt
  | None => false
  end.

Definition syslog_stats (sv : Server) : list (bytes * Stat) := to_hash (syslog_counters sv).

(** [run_worker] needs both channels. *)
Definition can_run_worker (sv : Server) : bool :=
  is_some (work_rx sv) && is_some (syslog_work_rx sv).

(** ** Stopping *)

(** What the drain leaves of the counters is the listeners' affair; [removed_http]
    and [removed_syslog] are what the removal of the files meets.  Dropping the runtime
    ends every task that is left. *)
Definition stop (drained : SyslogCounters -> SyslogCounters) (removed_http removed_syslog : remove_env)
    (sv : Server) (fs : files) : result unit MagnusError * Server * files :=
  let srt := syslog_runtime sv in
  let counters :=
    match runtime sv, srt with
    | Some _, Some _ => drained (syslog_counters sv)
    | _, _ => syslog_counters sv
    end in
  let handle := match runtime sv with Some _ => false | None => server_handle sv end in
  let fs :=
    match srt with
    | Some rt => remove_socket_file (rt_socket_path rt) (rt_socket_ident rt) removed_syslog fs
    | None => fs
    end in
  let '(id, fs) := stop_socket_file (bind_address (sv_config sv)) (socket_ident sv) removed_http fs in
  (Ok tt,
   MkServer handle (sv_config sv) (work_rx sv) None None false (sv_total_connections sv) id
     (syslog_work_rx sv) None counters None
     (match runtime sv with Some _ => [] | None => tasks sv end), fs).

(** ** Properties *)

Section lifecycle.
Context `{Tokio}.
Implicit Types (sv : Server) (fs : files) (env : start_env).

Lemma start_listeners_tasks c env fs rt socket spawned fs' :
  start_listeners c env fs = Ret (Ok rt, socket, spawned, fs') ->
  rt_listening rt = true /\ rt_socket_path rt = socket.1 /\ rt_socket_ident rt = socket.2 /\
  spawned = (if is_some (stream_path c) then [StreamTask UnixStream] else []) ++
            (if is_some (stream_bind c) then [StreamTask TcpStream] else []) ++
            (if is_some (udp_bind c) then [DatagramTask] else []).
Proof.
  unfold start_listeners, start_tcp, start_udp. case_match; [done|]. intros E.
  destruct (stream_path c) as [path|]; [destruct (bind_unix_listener _ _ _ _ _) as [[[]|] ?]|];
    destruct (stream_bind c), (listen_on (bind_std_tcp (e_sys env)) (e_stream_tcp env)), (udp_bind c),
      (listen_on (fun a => bind_std_udp (e_sys env) a c) (e_udp env));
    simplify_eq/=; done.
Qed.

(** A successful start has every configured listener running and knows how to stop
    them: the HTTP task, a task per syslog listener, the handle to wait for, and a
    socket path that leads to the listener. *)
Theorem start_ok env sv fs sv' fs' :
  start env sv fs = Ret (Ok tt, sv', fs') ->
  server_handle sv' = true /\ runtime sv' = Some (e_id env) /\ can_run_worker sv' = true /\
  (enabled (syslog (sv_config sv)) = true -> syslog_listening sv' = true) /\
  tasks sv' =
    [HttpTask] ++
    (if is_some (stream_path (syslog (sv_config sv))) then [StreamTask UnixStream] else []) ++
    (if is_some (stream_bind (syslog (sv_config sv))) then [StreamTask TcpStream] else []) ++
    (if is_some (udp_bind (syslog (sv_config sv))) then [DatagramTask] else []).
Proof.
  unfold start. destruct (negb _); [done|]. destruct (decide _); [done|].
  destruct (e_runtime env) as [[|]|]; [done| |done]. cbn [obind].
  destruct (http_listener (sv_config sv) env fs) as [[id|e] fs1]; [|done].
  destruct (enabled (syslog (sv_config sv))) eqn:He.
  - unfold syslog_start.
    destruct (start_listeners (syslog (sv_config sv)) env fs1) as [[[[[rt|e] socket] spawned] fs2]|]
      eqn:E; [|done..]. cbn [obind].
    apply start_listeners_tasks in E as (Hl & _ & _ & ->). intros [= <- <-].
    split_and!; [done..|]. by intros.
  - unfold enabled in He. apply orb_false_iff in He as [[-> ->]%orb_false_iff ->].
    intros [= <- <-]. by split_and!.
Qed.

(** Stopping is final and can be repeated: no task, runtime, sender or listener is
    left, the socket identity is forgotten, and a second stop changes nothing more,
    whatever has become of the paths in the meantime. *)
Theorem stop_final drained rh rs sv fs r sv' fs' :
  runtime sv <> None -> stop drained rh rs sv fs = (r, sv', fs') ->
  r = Ok tt /\ tasks sv' = [] /\ server_handle sv' = false /\ runtime sv' = None /\
  work_tx sv' = None /\ syslog_work_tx sv' = None /\ syslog_listening sv' = false /\
  (unix_path (bind_address (sv_config sv)) <> None -> socket_ident sv' = None) /\
  (forall drained' rh' rs' fs2,
     unix_path (bind_address (sv_config sv)) <> None ->
     stop drained' rh' rs' sv' fs2 = (Ok tt, sv', fs2)).
Proof.
  intros Hr. unfold stop, stop_socket_file. destruct (runtime sv) as [n|]; [|done].
  destruct (unix_path (bind_address (sv_config sv))) as [path|] eqn:Hp; intros [= <- <- <-]; cbn.
  - split_and!; try done. intros drained' rh' rs' fs2 _. by rewrite Hp.
  - by split_and!.
Qed.

(** A start and a stop leave the socket path as they should: nothing at it if this
    server's file is still there and may be removed, and the file of a replacement
    untouched if one has taken the path over in between, when nothing comes between
    the comparison and the removal. *)
Theorem start_stop_path env sv fs sv1 fs1 path fs1' drained rs sv2 fs2 :
  start env sv fs = Ret (Ok tt, sv1, fs1) -> enabled (syslog (sv_config sv)) = false ->
  syslog_runtime sv = None ->
  unix_path (bind_address (sv_config sv)) = Some path -> metadata_ok (e_http_unix env) = true ->
  stop drained just_removed rs sv1 fs1' = (Ok tt, sv2, fs2) ->
  (fs1' !! path = fs1 !! path -> fs2 !! path = None) /\
  (fs1' !! path <> fs1 !! path -> fs2 = fs1').
Proof.
  unfold start. intros E He Hsr Hp Hm. destruct (negb _); [done|]. destruct (decide _); [done|].
  destruct (e_runtime env) as [[|]|]; [done| |done]. cbn [obind] in E.
  destruct (http_listener (sv_config sv) env fs) as [[id|e] fs0] eqn:Hl; [|done].
  rewrite He in E. injection E as <- <-. unfold stop, stop_socket_file. cbn. rewrite Hsr, Hp.
  intros [= <- <-].
  unfold http_listener in Hl. rewrite Hp in Hl.
  destruct (bind_unix_listener path (e_pid env) (e_http_seq env) (e_http_unix env) fs)
    as [[[socket i]|] states] eqn:Hb; [|done]. injection Hl as <- <-. cbn.
  assert (i = Some socket) as ->.
  { unfold bind_unix_listener in Hb. rewrite Hm in Hb. repeat case_match; by simplify_eq. }
  rewrite (bind_lookup _ _ _ _ _ _ _ path Hb) by (intros E; symmetry in E; by apply tmp_path_ne in E).
  rewrite decide_True by done. split; intros Hx.
  - unfold remove_socket_file. rewrite (proj2 (ours_Some _ _ _ path)) by (split_and!; eauto).
    cbn. by rewrite lookup_delete_eq.
  - unfold remove_socket_file. destruct (ours _ _ _) as [p|] eqn:Eo; [|done].
    apply ours_Some in Eo as ([= <-] & _ & Eo). congruence.
Qed.

(** The syslog listeners of a configuration, in the order they are started. *)
Definition listeners (c : SyslogConfig) : list ServerTask :=
  (if is_some (stream_path c) then [StreamTask UnixStream] else []) ++
  (if is_some (stream_bind c) then [StreamTask TcpStream] else []) ++
  (if is_some (udp_bind c) then [DatagramTask] else []).

(** Why a listener cannot be started, if it cannot. *)
Definition listener_error (c : SyslogConfig) env fs (l : ServerTask) : option bytes :=
  let failed {A} (r : result A bytes) := match r with Ok _ => None | Err e => Some e end in
  match l with
  | HttpTask => None
  | StreamTask UnixStream =>
      path ← stream_path c;
      match (bind_unix_listener path (e_pid env) (e_syslog_seq env) (e_stream_unix env) fs).1 with
      | Ok _ => None
      | Err _ => Some (e_stream_unix_error env)
      end
  | StreamTask TcpStream => failed (listen_on (bind_std_tcp (e_sys env)) (e_stream_tcp env))
  | DatagramTask => failed (listen_on (fun a => bind_std_udp (e_sys env) a c) (e_udp env))
  end.

Lemma start_udp_failed c env fs0 socket spawned fs before failed after e :
  (if is_some (udp_bind c) then [DatagramTask] else []) = before ++ failed :: after ->
  listener_error c env fs0 failed = Some e ->
  exists socket' fs', start_udp c env socket spawned fs = (Err e, socket', spawned ++ before, fs').
Proof.
  unfold start_udp. destruct (udp_bind c); cbn; [|by destruct before].
  destruct before as [|b [|]]; [|done..]. intros [= <- _]. rewrite app_nil_r. cbn.
  destruct (listen_on _ (e_udp env)); [done|]. intros [= <-]. eauto.
Qed.

Lemma start_tcp_failed c env fs0 socket spawned fs before failed after e :
  (if is_some (stream_bind c) then [StreamTask TcpStream] else []) ++
  (if is_some (udp_bind c) then [DatagramTask] else []) = before ++ failed :: after ->
  Forall (fun l => listener_error c env fs0 l = None) before -> listener_error c env fs0 failed = Some e ->
  exists socket' fs', start_tcp c env socket spawned fs = (Err e, socket', spawned ++ before, fs').
Proof.
  unfold start_tcp. intros Hl Hb Hf. destruct (stream_bind c) as [a|]; cbn [is_some app] in *.
  - destruct before as [|b before]; cbn in Hl; injection Hl as <- Hl.
    + cbn in Hf. destruct (listen_on _ (e_stream_tcp env)); [done|]. injection Hf as <-.
      rewrite app_nil_r. eauto.
    + apply Forall_cons in Hb as [Hb0 Hb]. cbn in Hb0. destruct (listen_on _ (e_stream_tcp env)); [|done].
      destruct (start_udp_failed c env fs0 socket (spawned ++ [StreamTask TcpStream]) fs _ _ _ _ Hl Hf)
        as (socket' & fs' & ->).
      rewrite <- app_assoc. eauto.
  - rewrite app_nil_r. by eapply start_udp_failed.
Qed.

Lemma start_listeners_failed c env fs before failed after e :
  max_pending c <= MAX_PERMITS -> listeners c = before ++ failed :: after ->
  Forall (fun l => listener_error c env fs l = None) before -> listener_error c env fs failed = Some e ->
  exists socket fs', start_listeners c env fs = Ret (Err e, socket, before, fs').
Proof.
  intros Hm Hl Hb Hf. unfold start_listeners. rewrite (proj2 (Z.ltb_ge _ _) Hm).
  unfold listeners in Hl. destruct (stream_path c) as [path|] eqn:Ep; cbn in Hl.
  - destruct before as [|b before]; cbn in Hl; injection Hl as <- Hl.
    + cbn in Hf. rewrite Ep in Hf. cbn in Hf.
      destruct (bind_unix_listener _ _ _ _ _) as [[[]|] ?]; cbn in Hf; [done|]. injection Hf as <-. eauto.
    + apply Forall_cons in Hb as [Hb0 Hb]. cbn in Hb0. rewrite Ep in Hb0. cbn in Hb0.
      destruct (bind_unix_listener _ _ _ _ _) as [[[i id]|] states]; cbn in Hb0; [|done].
      destruct (start_tcp_failed c env fs (Some path, id) [StreamTask UnixStream]
                  (left_by (Ok (i, id) : result _ unit, states) fs) _ _ _ _ Hl Hb Hf) as (socket & fs' & ->).
      eauto.
  - destruct (start_tcp_failed c env fs (None, None) [] fs _ _ _ _ Hl Hb Hf) as (socket & fs' & ->). eauto.
Qed.

(** C33. A start that fails at a syslog listener has already started serving: it
    raises with the reason of the first listener that failed, yet the HTTP task and
    exactly the listeners before that one keep running, with no handle to wait for,
    until a stop drops the runtime. *)
Theorem failed_start_keeps_tasks env sv fs id fs1 before failed after e :
  e_bounded env (channel_capacity (sv_config sv)) = true ->
  tokio_threads (sv_config sv) <> Some 0 -> e_runtime env = Ret None ->
  http_listener (sv_config sv) env fs = (Ok id, fs1) ->
  max_pending (syslog (sv_config sv)) <= MAX_PERMITS ->
  listeners (syslog (sv_config sv)) = before ++ failed :: after ->
  Forall (fun l => listener_error (syslog (sv_config sv)) env fs1 l = None) before ->
  listener_error (syslog (sv_config sv)) env fs1 failed = Some e ->
  exists sv' fs', start env sv fs =
      Ret (Err (RuntimeError (bs "Failed to start syslog listeners: " ++ e)), sv', fs') /\
    tasks sv' = HttpTask :: before /\ server_handle sv' = server_handle sv /\
    runtime sv' = Some (e_id env) /\ can_run_worker sv' = true /\
    forall drained rh rs fs3, tasks (stop drained rh rs sv' fs3).1.2 = [].
Proof.
  intros Hbd Ht Hrt Hl Hm Hls Hb Hf.
  assert (He : enabled (syslog (sv_config sv)) = true).
  { unfold enabled. unfold listeners in Hls.
    destruct (stream_path _), (stream_bind _), (udp_bind _); try done. by destruct before. }
  destruct (start_listeners_failed _ env fs1 before failed after e Hm Hls Hb Hf) as (socket & fs2 & Es).
  unfold start. rewrite Hbd, decide_False, Hrt by done. cbn [negb obind]. rewrite Hl, He.
  unfold syslog_start. rewrite Es. cbn [obind]. eexists _, _. split; [done|]. split_and!; [done..|].
  intros drained rh rs fs3. unfold stop. cbn. by destruct (stop_socket_file _ _ _ _).
Qed.
End lifecycle.

Section configured.
Context `{MagnusSpec, Tokio}.

Lemma configure_keeps_wf config sv :
  1 <= MAX_PERMITS -> config_wf (syslog (sv_config sv)) ->
  config_wf (syslog (sv_config (configure config sv).2)).
Proof.
  intros Hm Hc. unfold configure, configure_config.
  assert (Hk : forall c, config_wf (syslog c) -> config_wf (syslog (configure_config config c).2)).
  { clear sv Hc. intros c Hc. unfold configure_config.
    repeat (apply (read_key_inv (fun c => config_wf (syslog c))); [assumption| |
              clear c Hc; intros c Hc]; [by intros v a [] _ Hw|]).
    pose proof (apply_keeps_wf config (syslog c) Hm Hc) as Ha.
    by destruct (SyslogConfig_apply config (syslog c)), c. }
  specialize (Hk (sv_config sv) Hc). unfold configure_config in Hk.
  match goal with |- context [let '(_, _) := ?x in _] => by destruct x end.
Qed.

Lemma configured_wf (hashes : list config_hash) :
  1000 <= MAX_PERMITS ->
  config_wf (syslog (sv_config
    (foldl (fun sv config => (configure config sv).2) Server_new hashes))).
Proof.
  intros Hm.
  assert (H0' : config_wf (syslog (sv_config Server_new)))
    by (unfold config_wf; cbn -[MAX_PERMITS]; by vm_compute || lia).
  revert H0'. generalize Server_new. induction hashes as [|h hashes IH]; intros sv Hc; [done|].
  apply IH. apply configure_keeps_wf; [lia|done].
Qed.

(** What keeps a configuration from being started at all: a capacity for which no
    channel can be made, no threads, or threads that cannot be had. *)
Definition not_startable env (c : ServerConfig) : Prop :=
  e_bounded env (channel_capacity c) = false \/ tokio_threads c = Some 0 \/ e_runtime env = Panic.

Lemma start_panics env sv fs :
  max_pending (syslog (sv_config sv)) <= MAX_PERMITS ->
  start env sv fs = Panic <-> not_startable env (sv_config sv).
Proof.
  intros Hm. unfold start, syslog_start, start_listeners, start_tcp, start_udp, not_startable.
  destruct (e_bounded env (channel_capacity (sv_config sv))); cbn [negb]; [|naive_solver].
  destruct (decide (tokio_threads (sv_config sv) = Some 0)) as [|Ht]; [naive_solver|].
  destruct (e_runtime env) as [built|]; cbn [obind]; [|naive_solver].
  split; [|naive_solver]. rewrite (proj2 (Z.ltb_ge _ _) Hm).
  destruct built; [done|]. destruct (http_listener (sv_config sv) env fs) as [[]]; [|done].
  destruct (enabled _); [|done]. cbn [obind]. by repeat case_match.
Qed.

(** C32. However a server is configured, by any number of calls with any hashes, failing
    or not, its syslog configuration is well formed, and starting it panics exactly
    when the environment has no channel of the configured capacity or no threads of
    the configured number for it, none being asked for included: these are passed on
    unchecked, and nothing else a start does panics. *)
Theorem configured_start_returns (hashes : list config_hash) env fs :
  1000 <= MAX_PERMITS ->
  let sv := foldl (fun sv config => (configure config sv).2) Server_new hashes in
  config_wf (syslog (sv_config sv)) /\
  (start env sv fs = Panic <-> not_startable env (sv_config sv)).
Proof.
  intros Hm sv. pose proof (configured_wf hashes Hm) as Hw. split; [done|].
  apply start_panics. apply Hw.
Qed.
End configured.

(** ** Witnesses *)

Definition localhost (port : Z) : listen_env :=
  MkListenEnv (Ok (MkSocketAddr (V4 (z2b <$> [127; 0; 0; 1])) port)) None.

Definition env_ok : start_env :=
  MkStartEnv 0 7 0 0 (fun n => n <? 2 ^ 32) (Ret None) (all_succeed (1, 10)) [] None None (all_succeed (1, 11)) []
    (fun _ _ => None) (localhost 601) (localhost 514) just_removed.

Definition unix_server : Server :=
  set_config (with_bind_address (bs "unix:/s") ServerConfig_new) Server_new.

#[local] Existing Instance tokio_permits.

(** What a start that does not panic leaves. *)
Definition start_left (env : start_env) (sv : Server) (fs : files) : Server * files :=
  match start env sv fs with
  | Ret (_, sv', fs') => (sv', fs')
  | Panic => (sv, fs)
  end.

Definition started : Server := (start_left env_ok unix_server ∅).1.

Lemma start_ok_witness :
  server_handle started = true /\ runtime started = Some 0%nat /\ can_run_worker started = true /\
  (enabled SyslogConfig_new = true -> syslog_listening started = true) /\
  tasks started = [HttpTask].
Proof. apply (start_ok env_ok unix_server ∅ started (start_left env_ok unix_server ∅).2). reflexivity. Defined.

Lemma stop_final_witness :
  let stopped := (stop id just_removed just_removed started ∅).1.2 in
  tasks stopped = [] /\ syslog_listening stopped = false.
Proof.
  intros stopped.
  destruct (stop_final id just_removed just_removed started ∅ (Ok tt) stopped (stop id just_removed just_removed started ∅).2)
    as (_ & Ht & _ & _ & _ & _ & Hl & _); [discriminate | reflexivity |].
  split; assumption.
Defined.

(** The path is taken over while the server runs: another file is at it. *)
Lemma start_stop_path_witness :
  let fs1 := (start_left env_ok unix_server ∅).2 in
  let fs1' : files := <[bs "/s" := (1, 20)]> fs1 in
  let r := stop id just_removed just_removed started fs1' in
  (fs1' !! bs "/s" = fs1 !! bs "/s" -> r.2 !! bs "/s" = None) /\
  (fs1' !! bs "/s" <> fs1 !! bs "/s" -> r.2 = fs1').
Proof.
  intros fs1 fs1' r.
  apply (start_stop_path env_ok unix_server ∅ started fs1 (bs "/s") fs1' id just_removed r.1.2
           r.2);
    reflexivity.
Defined.

(** A TCP syslog listener that is up, and a datagram listener that cannot be. *)
Definition syslog_server : Server :=
  set_config (with_syslog (with_stream_bind (bs "127.0.0.1:601")
    (with_udp_bind (bs "127.0.0.1:514") SyslogConfig_new)) ServerConfig_new) Server_new.

Definition env_udp_taken : start_env :=
  MkStartEnv 0 7 0 0 (fun n => n <? 2 ^ 32) (Ret None) (all_succeed (1, 10)) [] None None (all_succeed (1, 11)) []
    (fun c s => match c, so_type s with
                | CallBind _, DGRAM => Some (bs "Address already in use")
                | _, _ => None
                end) (localhost 601) (localhost 514) just_removed.

Lemma failed_start_keeps_tasks_witness :
  exists sv' fs', start env_udp_taken syslog_server ∅ =
      Ret (Err (RuntimeError (bs "Failed to start syslog listeners: " ++ bs "Address already in use")),
       sv', fs') /\
    tasks sv' = [HttpTask; StreamTask TcpStream] /\ server_handle sv' = false /\
    runtime sv' = Some 0%nat /\ can_run_worker sv' = true /\
    forall drained rh rs fs3, tasks (stop drained rh rs sv' fs3).1.2 = [].
Proof.
  apply (failed_start_keeps_tasks env_udp_taken syslog_server ∅ None ∅ [StreamTask TcpStream]
           DatagramTask [] (bs "Address already in use"));
    [reflexivity|discriminate|reflexivity|reflexivity|vm_compute; discriminate|reflexivity| |reflexivity].
  constructor; [reflexivity|constructor].
Defined.

(** No threads, and a limit of no pending messages, which is clamped. *)
Definition threadless : list (config_hash (H := ref_magnus)) :=
  [[(bs "tokio_threads", RInt 0)]; [(bs "syslog_max_pending", RInt 0)]].

Lemma configured_start_returns_witness :
  let sv := foldl (fun sv config => (configure config sv).2) Server_new threadless in
  max_pending (syslog (sv_config sv)) = 1 /\ start env_ok sv ∅ = Panic.
Proof.
  intros sv. split; [reflexivity|].
  apply (configured_start_returns threadless env_ok ∅); [vm_compute; discriminate|].
  right. left. reflexivity.
Defined.
